(* ===== verification/_CoqProject ===== *)
-Q . S2P
Prelude.v
JsString.v
JsUri.v
ZeptoCore.v
AjaxParam.v
AjaxSettings.v
Ajax.v
AjaxProtocol.v
AjaxActive.v
ZeptoEvent.v
ZeptoNode.v
ZeptoTree.v
ZeptoColl.v
ZyFile.v
JcropCoords.v
Jcrop.v
ZyPopup.v
ZyUpload.v
Login.v
IScroll.v
Touch.v
GameBar.v
GameBarNet.v
JqCallbacks.v
JqDeferred.v
JqPromise.v
JqSettle.v
JqLive.v
JqData.v
JqQueue.v
JqNames.v
JqHandlers.v
JqDispatch.v
JqFx.v
JqFxLive.v
