(* ===== verification/Prelude.v ===== *)
(** * Verification of the cloud-disk front end

    The repository is a key-value store with a web front end, the "yundisk"
    pages under src/resources/yundisk.  This development is about the
    JavaScript of those pages: the upload plug-in with its crop dialog
    (zyupload/zyupload-1.0.0.js), the file list with its login page,
    scroller and touch gestures, the Zepto library the list is written with
    (static/js), and the parts of jQuery 1.7.2 that keep state for the upload
    page (zyupload/jquery-1.7.2.js).

    ** The parts and how they interact

    The upload page.  [$.fn.zyUpload] builds the form and supplies the
    callbacks of the queue object ZYFILE; ZYFILE keeps the chosen files and
    runs one request per file; the edit button of a preview opens
    [$.fn.zyPopup], which starts [$.Jcrop] on the image and hands the
    selected rectangle back to the form.  The file list page.  game_bar.js
    shows the user's files inside an [iScroll] object, whose callbacks it
    supplies, asks the server for more when the list is pulled up, and reads
    the user's name from the cookie that login.js writes; touch.js makes the
    tap events its links are bound to.  Its requests go through [Zepto.ajax]
    (ajax.js), its handlers, class names and list elements through the core
    of Zepto (zepto.js).  jQuery.  The plug-ins of the upload page attach data
    to elements and queue animations on them: [jQuery.data] is the store under
    queues and events, queues end in callback lists, callback lists make
    deferreds.  Every click on the form goes through [jQuery.event], which
    keeps the handlers of an element under one listener per type.

    ** The files

    - Prelude.v: record update, rationals as JavaScript numbers
      ([Math.round], comparisons as booleans), results that may throw, the
      automation and the lemmas the components share.
    - JsString.v: strings as lists of UTF-16 units, the methods the sources
      call, [escape], [parseInt], printing of numbers.
    - JsUri.v: UTF-8, [encodeURIComponent] and the decoder of a server.
    - ZeptoCore.v: values, [$.each], [$.extend], names of properties.
    - AjaxParam.v, AjaxSettings.v: [$.param]; settings, address, headers and
      the reading of a response.
    - Ajax.v: [$.ajax] and [$.ajaxJSONP] as a machine with a call stack, in
      which page code runs, returns, throws and calls the library again.
      AjaxProtocol.v and AjaxActive.v hold what is proved of it: the calls of
      each request, and the counter of active requests.
    - ZeptoEvent.v: handlers, namespaces, delegation, [on], [one], [off],
      [triggerHandler].
    - ZeptoNode.v: class names, the text of [css], the data module.
    - ZeptoTree.v: the tree of the document; walking and inserting.
    - ZeptoColl.v: members of a collection, [find], attributes, and [remove]
      with the data of what goes.
    - ZyFile.v: ZYFILE (lines 1382-1586).  Files are objects in a store, the
      arrays hold references.  The callbacks are the class [ZyCallbacks].
    - JcropCoords.v, Jcrop.v: [$.Jcrop] (lines 19-1180); the module Coords in
      the first file, Selection, Tracker, KeyManager, the drag handlers, the
      interface and the constructor in the second.
    - ZyPopup.v: [$.fn.zyPopup] (lines 1190-1372) as a client of Jcrop.
    - ZyUpload.v: [$.fn.zyUpload] (lines 1594-2119); the instance of
      [ZyCallbacks] the program uses, so the theorems of the queue hold of
      the page.
    - Login.v: cookies, placeholders and the user agent test of login.js.
    - IScroll.v: the scroller; its callbacks are the class [IsCallbacks].
    - Touch.v: touch.js, with its timers.
    - GameBar.v: game_bar.js, the instance of [IsCallbacks] the program uses.
    - GameBarNet.v: its requests and answers through the machine of Ajax.v.
    - JqCallbacks.v: [jQuery.Callbacks], [Deferred], [pipe] and [when] (lines
      987-1355 of jquery-1.7.2.js) as a machine with a call stack.
      JqDeferred.v proves that the machine moves each list of a deferred by
      fourteen rules and derives the life of a list from them; JqPromise.v
      that the state of a deferred agrees with its lists; JqSettle.v and
      JqLive.v hold the theorems.
    - JqData.v: [jQuery.data] and [removeData] with the cache (lines
      1660-1908, 2016-2029), over any type of values.
    - JqQueue.v: queues, [delay], marks and [promise] (lines 2034-2211), with
      shared arrays, timers and a call stack.
    - JqNames.v: lists of types, namespaces and simple selectors (lines
      2872-2899), the regular expressions written out as functions.
    - JqHandlers.v: [jQuery.event.add] and [remove], special events, [on],
      [one], [off] and their older names (lines 2905-3094, 3440-3472,
      3597-3865).
    - JqDispatch.v: [dispatch], [trigger] and [simulate] (lines 3098-3495,
      3555-3594) as a machine with a call stack over the store of the former.
    - JqFx.v: [animate], [stop], [jQuery.fx] and [tick] (lines 8364-8375,
      8484-9005) as a machine with a call stack; easing functions are the
      class [Easing].  JqFxLive.v proves what holds of it in runs without
      exceptions and forced ends.

    Every function of the source is a definition of the same name where Rocq
    allows it; a closure's variables are the fields of a record; a handler
    that can throw returns a [result]; one that may not come back returns an
    [outcome].  Events come in any order: each component has a step relation
    whose constructors are the events that can happen, and the invariants
    are proved for all states its reflexive transitive closure reaches.

    ** What the theorems show

    The doc comment of a theorem names its conditions; several have an example
    or a theorem beside them that shows what the code does without them.

    - The queue: in every reachable state the arrays and indices agree
      ([ZyFile.reachable_wf]); selection, deletion and the end of a request
      do exactly what they should ([funGetFiles_spec], [funDeleteFile_exact],
      [xhr_load_spec]); an upload of all files completes, and a failure
      prevents completion ([upload_all_completes],
      [failure_blocks_completion]).  [ZyUpload.page_queue_wf] carries this to
      the page through the interface.
    - The form: what the filter lets through and what it says of the rest,
      the previews after all readers have fired, the arithmetic of the crop
      preview, the marks of a finished upload, the sizes in the status line.
    - Cropping: reading a selection stays inside the image and respects size
      limits and ratio; moving is rigid; everything reported to the page
      lies inside the image, for a selection without a fixed ratio and keys
      between drags; the animation ends; the dialog hands over selections
      inside the image, and an arrow key during a drag breaks this.
    - The scroller: an immediate scroll settles inside the limits, frames,
      momentum, indicator and drags stay where they should, the loop that
      makes snap pages ends; a case in which the return to the limits never
      ends is proved to diverge.
    - The file list: counter, list, layer and flags of the menu agree in
      every reachable state and every event is handled without a loop (the
      group entry can count as selected beside another one); with a server that answers
      as asked, [k] pulls show the first [8 (k + 1)] files.
    - Requests: the calls the page sees of each request follow one protocol
      whatever interleaves ([AjaxProtocol.request_protocol]), and none is
      forgotten ([request_served]); the counter is the number of open
      requests, and the start and stop events alternate; a server that
      decodes a query string gets back the leaves of the value with the
      brackets that lead to them ([AjaxParam.param_roundtrip], with the
      reference [flat_form] defined by recursion on the value); headers are
      well formed.
      [GameBarNet.request_delivered] and [paging_over_wire] compose this with
      the list: what the page asks for is what the server decodes, and the
      files it sends are the files the list shows.
    - Zepto: the table of handlers and the listeners of the browser stay in
      step ([ZeptoEvent.listeners_refine]), [off] removes exactly what it
      names and undoes [on], [one] runs once; class names behave like a list
      of distinct words ([ZeptoNode.classes_refine]); stored data are read
      back; the document stays a forest under every operation, insertions put
      nodes where they should, the loops of [closest], [parents] and
      [$.contains] end with the right answer, and [remove] drops the data of
      exactly the nodes that go.
    - jQuery: whenever page code runs, the state of a deferred agrees with
      what its lists have called ([JqSettle.deferred_state_sound]); an outcome
      is final; functions are called in order, once, all of them
      ([deferred_calls_in_order], [deferred_serves_all]); the library is never
      stuck and settling comes back ([JqLive.library_never_stuck],
      [settle_comes_back]).  The data store refines two maps per element and
      does not leak ([JqData.store_refines], whose deletion is a filter,
      [data_no_leak]); queues are first
      in, first out and are worked off ([JqQueue.queue_fifo],
      [queue_drains]).
    - jQuery events: for the names of types described under Choices, every
      call of on, one and off comes back
      and the lists are those of a table in which binding appends and
      unbinding filters, with listeners, numbers and counters in step
      ([JqHandlers.handlers_refine]); the regular expression of plain
      namespaces is inclusion ([JqNames.namespace_subset]); a dispatch takes
      the handlers by the places of the path, deepest first
      ([JqDispatch.dispatch_plan], whose specification [is_plan] speaks of the
      path and the list of handlers alone), and runs them in that order, all of
      them unless the event is stopped ([dispatch_in_order]); a trigger
      climbs its path ([trigger_bubbles]); a function bound with [one] is
      unbound before it runs ([one_is_unbound]); the library always comes back
      to the page ([dispatch_comes_back]).
    - jQuery animations: whatever the functions of the page do in between,
      values stay between the first and the last one ([JqFx.writes_in_range])
      and [complete] is called once, after all properties
      ([JqFx.complete_once]); without exceptions and forced ends no animation
      is lost and each is completed or stopped
      ([JqFxLive.no_animation_lost], [animations_complete]); a tick after
      their time ends them all ([tick_ends]).
    - Login and gestures: cookies are read back as [escape] wrote them and
      removed; with one finger and one family of events one timer at most is
      pending; taps and swipes are what they should be.
    - Defects of the code are theorems too: a second press of the upload
      button sends every file twice, a failed upload shows the success mark,
      delete buttons run once per later selection, two selections at once
      mix up previews, keys and cancel throw in Jcrop, options reapply an old
      selection, a short content makes NaN snap pages, shared files never
      continue beyond the first eight, and others.  For Zepto, its ajax
      module and jQuery they are examples in the modules [Sample]: a function
      that throws blocks its callback list for ever, a function queued after
      [next] is lost, or runs at the same time as another one; two spaces in
      the types of [off] unbind everything, a dot at their end never comes
      back, a handler bound with [one] can run twice; [stop] to the end can
      lose the animation of another element.

    ** Choices

    Numbers are exact rationals or integers, not doubles: the theorems do not
    speak about rounding errors of the floating-point unit.  NaN and missing
    values, where the code produces them, are [None].  [Math.sqrt] and
    [Math.pow] are parameters (class [Maths], with the bounds of a square
    root as a law).  The HTML parser of the browser is a parameter (class
    [Browser]), and so are the parser of JSON and numbers (class [Parsers])
    and the address of the page (class [Page]); the server of the file list
    is a function argument, a selector the predicate it stands for.  Page code
    inside the machines is arbitrary: at every point where the library calls a
    function of the page, the page may make any call, return or throw.  What
    objects inherit from [Object.prototype] is a parameter of the data store.
    In the theorems on events, the words of a list of types have no white
    space, no character with a meaning in a regular expression, do not begin
    with the shorthand [hover] and have something after their first dot; the
    source makes regular expressions of namespaces without escaping them, and
    what such an expression finds for other namespaces is a parameter (class
    [RegExps]).  The answers of the selector engine are part of the document.
    Animated values are numbers in one unit.

    The functions [_resetPos], [_startAni] and [animate] of the scroller run
    on fuel, [3 * n + 8] for [n] queued steps: a step takes three calls,
    the final return to the limits at most five more.  [scrollTo_settles] and
    [refresh_returns] prove that this is enough; [resetPos_diverges] that
    nothing is enough in its case.  The loop of the snap pages has fuel as
    many as there are pixels, which [make_pages_spec] proves sufficient.
    [$.param] recurses on the depth of its argument ([serialize_fuel]: more
    changes nothing).  The walks up the document have as much fuel as there
    are nodes with a parent, which [path_height] shows to be enough; the
    clone of a node and the search for scripts below it have the same.
    [jQuery.event.remove] calls itself for every type when it is given none:
    fuel 2 is enough for good names of types ([handlers_refine]), and nothing
    is for a name that ends in a dot ([trailing_dot_loops]).

    ** Not modelled

    Of Zepto: [$] itself, the choice of the browser's query in [qsa], HTML
    fragments, properties, the functions that read the layout, [show], [hide]
    and [toggle]; a script that an insertion runs does not change the document
    while the insertion goes on.  Of jQuery: selectors, attributes, ajax,
    manipulation and styles, the methods [data] and [removeData] of jQuery
    objects, and the contexts functions are called in; internal data is not
    stored under the names [data] and [toJSON], and pages do not queue the
    string [inprogress]; types of queues are camel-cased names without spaces.
    Of its events: triggers without an element, event
    objects that are triggered a second time, the copying of properties from
    the browser's event, [toggle], and the special events of old browsers.  Of
    its animations: units other than pixels, overflow and display styles,
    [show], [hide] and [toggle] without a duration, and a function [step] of
    the page that assigns to the animation it is given.  Of the ajax module of
    Zepto: a page that switches [settings.global] of a request at work, or
    calls [$.ajaxJSONP] itself ([AjaxActive.Sample.direct_jsonp] shows one
    such call); the values the page supplies as functions for parameters, the
    JSONP callback name and the xhr are pure.  Of its events: types that are
    names of [Object.prototype] in the table of [hover].  Of cookies: see
    Login.v.  jquery-latest.js, the
    WeChat bridge, console output, fade and hover effects of the plug-ins, the
    copies of the upload plug-in that differ only in defaults or comments, and
    the C and C++ server. *)

From stdpp Require Import base gmap list strings.
From Stdlib Require Import QArith Qround Qabs Lqa.

#[global] Open Scope Z_scope.

(** ** Record update

    The JavaScript objects are modelled as records.  [Eta] lists the fields
    of a record once; the setter of a single field is derived from it, so a
    handler reads like the sequence of assignments it models. *)

Class Eta (R : Type) := eta : R -> R.

Class Update {R T : Type} (p : R -> T) := upd : (T -> T) -> R -> R.

Arguments upd {R T} p {_} f r.

Ltac derive_update :=
  lazymatch goal with
  | |- @Update ?R ?T ?p =>
      let f := fresh "f" in
      let r := fresh "r" in
      refine (fun (f : T -> T) (r : R) => _);
      let t := eval hnf in (eta r) in
      let t' := eval pattern (p r) in t in
      lazymatch t' with
      | ?g _ => let v := eval cbv beta in (g (f (p r))) in exact v
      end
  end.

#[export] Hint Extern 0 (Update _) => derive_update : typeclass_instances.

Declare Scope js_scope.
Delimit Scope js_scope with js.

Notation "r <| p := v |>" := (upd p (fun _ => v) r)
  (at level 1, left associativity, p at level 99, v at level 200) : js_scope.
Notation "r <| p ::= f |>" := (upd p f r)
  (at level 1, left associativity, p at level 99, f at level 200) : js_scope.

#[global] Open Scope js_scope.

(** ** Exceptions

    A JavaScript call either returns a value or throws. *)

Inductive result (A : Type) :=
| Ret (a : A)
| Throw.

Arguments Ret {A} a.
Arguments Throw {A}.

(** ** Rational numbers

    Pixel arithmetic that divides is carried out in [Q]; the comparison
    operators of the code are boolean functions. *)

#[global] Arguments Qplus : simpl never.
#[global] Arguments Qminus : simpl never.
#[global] Arguments Qmult : simpl never.
#[global] Arguments Qdiv : simpl never.
#[global] Arguments Qinv : simpl never.
#[global] Arguments Qopp : simpl never.
#[global] Arguments Qabs : simpl never.
#[global] Arguments Qle_bool : simpl never.
#[global] Arguments Qeq_bool : simpl never.
#[global] Arguments inject_Z : simpl never.

Definition Qltb (a b : Q) : bool := negb (Qle_bool b a).

Definition Qgtb (a b : Q) : bool := Qltb b a.

Notation "a <=q b" := (Qle_bool a b) (at level 70) : js_scope.
Notation "a <q b" := (Qltb a b) (at level 70) : js_scope.
Notation "a =q b" := (Qeq_bool a b) (at level 70) : js_scope.

(** [Math.round]: the nearest integer, halves rounded up. *)
Definition math_round (q : Q) : Z := Qfloor (q + (1 # 2)).

(** [parseInt] of a number, as the truncation of its decimal rendering
    (numbers of magnitude below 1e-6 or above 1e21, whose rendering uses an
    exponent, do not occur as pixel sizes). *)
Definition parse_int (q : Q) : Z :=
  if 0 <=q q then Qfloor q else - Qfloor (- q).

Lemma Qltb_lt (a b : Q) : Qltb a b = true <-> (a < b)%Q.
Proof.
  unfold Qltb. rewrite negb_true_iff.
  split; intros H.
  - apply Qnot_le_lt. rewrite <- Qle_bool_iff. by rewrite H.
  - apply not_true_is_false. rewrite Qle_bool_iff. by apply Qlt_not_le.
Qed.

Lemma Qltb_ge (a b : Q) : Qltb a b = false <-> (b <= a)%Q.
Proof. unfold Qltb. rewrite negb_false_iff. apply Qle_bool_iff. Qed.

Lemma Qleb_gt (a b : Q) : Qle_bool a b = false <-> (b < a)%Q.
Proof.
  split; intros H.
  - apply Qnot_le_lt. rewrite <- Qle_bool_iff. by rewrite H.
  - apply not_true_is_false. rewrite Qle_bool_iff. by apply Qlt_not_le.
Qed.

Lemma Qeqb_neq (a b : Q) : Qeq_bool a b = false <-> ~ (a == b)%Q.
Proof.
  split; intros H.
  - by apply Qeq_bool_neq.
  - apply not_true_is_false. by rewrite Qeq_bool_iff.
Qed.

(** Turn every boolean comparison among the hypotheses into the relation it
    decides. *)
Ltac qreflect :=
  repeat match goal with
  | H : Qltb _ _ = true |- _ => apply Qltb_lt in H
  | H : Qltb _ _ = false |- _ => apply Qltb_ge in H
  | H : Qle_bool _ _ = true |- _ => apply Qle_bool_iff in H
  | H : Qle_bool _ _ = false |- _ => apply Qleb_gt in H
  | H : Qeq_bool _ _ = true |- _ => apply Qeq_bool_iff in H
  | H : Qeq_bool _ _ = false |- _ => apply Qeqb_neq in H
  | H : andb _ _ = true |- _ => apply andb_true_iff in H as [??]
  | H : orb _ _ = false |- _ => apply orb_false_iff in H as [??]
  | H : negb _ = true |- _ => apply negb_true_iff in H
  | H : negb _ = false |- _ => apply negb_false_iff in H
  end.

(** Split on the innermost boolean test of the goal. *)
Ltac case_test :=
  match goal with
  | |- context [if ?b then _ else _] =>
      lazymatch b with
      | context [if _ then _ else _] => fail
      | _ => let E := fresh "E" in destruct b eqn:E
      end
  end.

(** Close a goal on rationals by splitting on every test. *)
Ltac qcases := repeat (case_test; cbn [fst snd] in *); qreflect; try lra.

Lemma math_round_Z (z : Z) : math_round (inject_Z z) = z.
Proof.
  unfold math_round, Qfloor, Qplus, inject_Z. cbn [Qnum Qden].
  rewrite Z.mul_1_r. change (Z.pos (2 * 1)) with 2.
  Z.div_mod_to_equations. lia.
Qed.

#[global] Instance math_round_proper : Proper (Qeq ==> eq) math_round.
Proof. intros a b H. unfold math_round. by rewrite H. Qed.

#[global] Instance Qltb_proper : Proper (Qeq ==> Qeq ==> eq) Qltb.
Proof. intros a b H c d H'. unfold Qltb. by rewrite H, H'. Qed.

Lemma math_round_mono (a b : Q) : (a <= b)%Q -> math_round a <= math_round b.
Proof. intros H. apply Qfloor_resp_le. lra. Qed.

Lemma math_round_nonneg (a : Q) : (0 <= a)%Q -> 0 <= math_round a.
Proof. intros H. rewrite <- (math_round_Z 0). by apply math_round_mono. Qed.

Lemma math_round_le_Z (a : Q) (z : Z) :
  (a <= inject_Z z)%Q -> math_round a <= z.
Proof. intros H. rewrite <- (math_round_Z z). by apply math_round_mono. Qed.

Lemma math_round_ge_Z (a : Q) (z : Z) :
  (inject_Z z <= a)%Q -> z <= math_round a.
Proof. intros H. rewrite <- (math_round_Z z). by apply math_round_mono. Qed.

Lemma math_round_close (a : Q) :
  (a - (1 # 2) < inject_Z (math_round a) <= a + (1 # 2))%Q.
Proof.
  unfold math_round. split.
  - pose proof (Qlt_floor (a + (1 # 2))) as H.
    rewrite inject_Z_plus in H. change (inject_Z 1) with 1%Q in H. lra.
  - apply Qfloor_le.
Qed.

Lemma parse_int_Z (z : Z) : parse_int (inject_Z z) = z.
Proof.
  unfold parse_int. destruct (Qle_bool _ _).
  - apply Qfloor_Z.
  - rewrite <- inject_Z_opp, Qfloor_Z. lia.
Qed.

#[global] Instance parse_int_proper : Proper (Qeq ==> eq) parse_int.
Proof.
  intros a b H. unfold parse_int.
  assert (Qle_bool 0 a = Qle_bool 0 b) as -> by (by rewrite H).
  destruct (Qle_bool 0 b); by rewrite H.
Qed.

(** ** Lists *)

(** [$.inArray] and [Array.prototype.indexOf]: the first position, or -1. *)
Fixpoint index_of {A} `{EqDecision A} (x : A) (l : list A) : Z :=
  match l with
  | [] => -1
  | y :: l' =>
      if decide (x = y) then 0
      else let i := index_of x l' in if i <? 0 then -1 else i + 1
  end.

Section ListLemmas.
Context {A : Type} `{EqDecision A}.
Implicit Types (x : A) (l : list A).

Lemma index_of_range x l : -1 <= index_of x l < Z.of_nat (length l).
Proof.
  induction l as [|y l IH]; simpl; [lia|].
  case_decide; [lia|]. destruct (index_of x l <? 0) eqn:E; lia.
Qed.

Lemma index_of_neg x l : index_of x l < 0 <-> x ∉ l.
Proof.
  induction l as [|y l IH]; simpl.
  - split; [intros _; apply not_elem_of_nil | lia].
  - rewrite not_elem_of_cons. case_decide as Hd.
    + split; [lia | naive_solver].
    + rewrite <- IH. pose proof (index_of_range x l).
      destruct (index_of x l <? 0) eqn:E;
        (split; [intros; split; [done | lia] | intros [_ ?]; lia]).
Qed.

Lemma index_of_nonneg x l : -1 < index_of x l <-> x ∈ l.
Proof.
  split; intros H.
  - destruct (decide (x ∈ l)) as [|Hn]; [done|].
    apply index_of_neg in Hn. lia.
  - destruct (Z.lt_ge_cases (index_of x l) 0) as [Hl|]; [|lia].
    by apply index_of_neg in Hl.
Qed.

Lemma filter_all (P : A -> Prop) `{forall x, Decision (P x)} l :
  Forall P l -> filter P l = l.
Proof.
  induction 1 as [|x l Hx Hl IH]; [done|].
  by rewrite filter_cons_True, IH.
Qed.

Lemma filter_none (P : A -> Prop) `{forall x, Decision (P x)} l :
  Forall (fun x => ~ P x) l -> filter P l = [].
Proof.
  induction 1 as [|x l Hx Hl IH]; [done|].
  by rewrite filter_cons_False, IH.
Qed.

Lemma filter_ne_length x l :
  NoDup l -> x ∈ l -> S (length (filter (fun y => y <> x) l)) = length l.
Proof.
  induction 1 as [|y l Hy Hl IH]; intros Hin; [by apply elem_of_nil in Hin|].
  apply elem_of_cons in Hin as [->|Hin].
  - rewrite filter_cons_False by naive_solver.
    rewrite filter_all; [done|].
    apply Forall_forall. intros z Hz ->. done.
  - rewrite filter_cons_True by (intros ->; done). simpl.
    by rewrite IH.
Qed.

End ListLemmas.

Create HintDb js.
Create Rewrite HintDb js_rw.
#[export] Hint Resolve math_round_nonneg math_round_mono : js.

(** *** Filters with a boolean test *)

Lemma bfilter_all {A} (P : A -> bool) l : (forall x, x ∈ l -> P x = true) -> List.filter P l = l.
Proof.
  intros Hp. rewrite <- (List.filter_true l) at 2. apply List.filter_ext_in. intros x Hx. by apply Hp, list_elem_of_In.
Qed.

Lemma bfilter_none {A} (P : A -> bool) l : (forall x, x ∈ l -> P x = false) -> List.filter P l = [].
Proof.
  intros Hp. rewrite <- (List.filter_false l). apply List.filter_ext_in. intros x Hx. by apply Hp, list_elem_of_In.
Qed.

Lemma bfilter_filter {A} (P Q : A -> bool) l :
  List.filter P (List.filter Q l) = List.filter (fun x => Q x && P x) l.
Proof. induction l as [|x l IH]; [done|]. cbn. destruct (Q x); cbn; by rewrite IH. Qed.

Lemma bfilter_comm {A} (P Q : A -> bool) l : List.filter P (List.filter Q l) = List.filter Q (List.filter P l).
Proof. rewrite !bfilter_filter. apply List.filter_ext. intros x. apply andb_comm. Qed.

Lemma bfilter_elem {A} (P : A -> bool) l x : x ∈ List.filter P l <-> x ∈ l /\ P x = true.
Proof. by rewrite !list_elem_of_In, List.filter_In. Qed.

Lemma bfilter_nodup {A} (P : A -> bool) l : NoDup l -> NoDup (List.filter P l).
Proof.
  induction 1 as [|x l Hx Hl IH]; cbn; [constructor|]. destruct (P x); [|done]. constructor; [|done].
  rewrite bfilter_elem. tauto.
Qed.
