(* ===== verification/JsString.v ===== *)
(** * JavaScript strings

    A JavaScript string is a list of UTF-16 code units.  This file gives the
    literals of the source ([js], and [jq] where the literal contains double
    quotes, written as back quotes), the methods of [String.prototype] the
    sources call, the decimal rendering of integers and the global function
    [escape], with the lemmas the components share. *)

From stdpp Require Import base gmap list sorting strings.
From Stdlib Require Import Ascii QArith Lqa DecimalN DecimalZ.
From S2P Require Import Prelude.

Abbreviation jstr := (list N).

(** ** Literals *)

Fixpoint utf8_units (l : list N) : jstr :=
  match l with
  | [] => []
  | a :: r =>
      if (a <? 128)%N then a :: utf8_units r
      else match r with
      | [] => []
      | b :: r1 =>
          if (a <? 224)%N then (N.land a 31 * 64 + N.land b 63)%N :: utf8_units r1
          else match r1 with
          | [] => []
          | c :: r2 =>
              if (a <? 240)%N
              then (N.land a 15 * 4096 + N.land b 63 * 64 + N.land c 63)%N :: utf8_units r2
              else match r2 with
              | [] => []
              | d :: r3 =>
                  let cp := (N.land a 7 * 262144 + N.land b 63 * 4096
                             + N.land c 63 * 64 + N.land d 63 - 65536)%N in
                  (55296 + cp / 1024)%N :: (56320 + cp mod 1024)%N :: utf8_units r3
              end
          end
      end
  end.

Fixpoint bytes_of (s : string) : list N :=
  match s with
  | EmptyString => []
  | String a s' => N_of_ascii a :: bytes_of s'
  end.

Definition js (s : string) : jstr := utf8_units (bytes_of s).

(** A literal in which the back quote stands for the double quote. *)
Definition jq (s : string) : jstr :=
  (fun c => if (c =? 96)%N then 34%N else c) <$> js s.

#[global] Arguments js : simpl never.
#[global] Arguments jq : simpl never.

(** ** Methods of [String.prototype] *)

Fixpoint starts_with (pat s : jstr) : bool :=
  match pat, s with
  | [], _ => true
  | _ :: _, [] => false
  | p :: pat', c :: s' => (p =? c)%N && starts_with pat' s'
  end.

(** [s.indexOf(pat)]. *)
Fixpoint str_index (pat s : jstr) : Z :=
  if starts_with pat s then 0
  else match s with
  | [] => -1
  | _ :: s' => let i := str_index pat s' in if i <? 0 then -1 else i + 1
  end.

(** [s.indexOf(pat, from)] for a non-negative [from]. *)
Definition str_index_from (pat s : jstr) (from : Z) : Z :=
  let i := str_index pat (drop (Z.to_nat from) s) in
  if i <? 0 then -1 else i + Z.min from (Z.of_nat (length s)).

(** [s.substring(a, b)] for [0 <= a <= b]. *)
Definition substring (s : jstr) (a b : Z) : jstr :=
  take (Z.to_nat (b - a)) (drop (Z.to_nat a) s).

(** [s.match(re) != null] for a regular expression that is a plain word. *)
Definition contains (pat s : jstr) : bool := 0 <=? str_index pat s.

(** [s.split(c)] for a one-character separator. *)
Fixpoint split_char (c : N) (s : jstr) : list jstr :=
  match s with
  | [] => [[]]
  | x :: s' =>
      if (x =? c)%N then [] :: split_char c s'
      else match split_char c s' with
      | [] => [[x]]
      | w :: ws => (x :: w) :: ws
      end
  end.

(** [\s] in a regular expression. *)
Definition is_space (c : N) : bool :=
  ((9 <=? c)%N && (c <=? 13)%N) || (c =? 32)%N || (c =? 160)%N || (c =? 5760)%N
  || ((8192 <=? c)%N && (c <=? 8202)%N) || (c =? 8232)%N || (c =? 8233)%N || (c =? 8239)%N
  || (c =? 8287)%N || (c =? 12288)%N || (c =? 65279)%N.

(** [s.split(/\s/)]. *)
Fixpoint split_space (s : jstr) : list jstr :=
  match s with
  | [] => [[]]
  | c :: s' =>
      if is_space c then [] :: split_space s'
      else match split_space s' with w :: ws => (c :: w) :: ws | [] => [[c]] end
  end.

(** [s.split(/\s+/)]. *)
Fixpoint split_runs (s : jstr) : list jstr :=
  match s with
  | [] => [[]]
  | c :: r =>
      if is_space c then
        match r with
        | d :: _ => if is_space d then split_runs r else [] :: split_runs r
        | [] => [[]; []]
        end
      else match split_runs r with w :: ws => (c :: w) :: ws | [] => [[c]] end
  end.

(** [l.join(sep)]. *)
Fixpoint join (sep : jstr) (l : list jstr) : jstr :=
  match l with
  | [] => []
  | [w] => w
  | w :: ws => w ++ sep ++ join sep ws
  end.

(** [s.trim()]. *)
Fixpoint trim_left (s : jstr) : jstr :=
  match s with
  | c :: r => if is_space c then trim_left r else s
  | [] => []
  end.

Definition trim (s : jstr) : jstr := reverse (trim_left (reverse (trim_left s))).

(** The order of [Array.prototype.sort]. *)
Fixpoint str_leb (a b : jstr) : bool :=
  match a, b with
  | [], _ => true
  | _ :: _, [] => false
  | x :: a', y :: b' => (x <? y)%N || ((x =? y)%N && str_leb a' b')
  end.

Fixpoint insert_str (w : jstr) (l : list jstr) : list jstr :=
  match l with
  | [] => [w]
  | x :: l' => if str_leb w x then w :: l else x :: insert_str w l'
  end.

Definition sort (l : list jstr) : list jstr := foldr insert_str [] l.

(** [s.split("").reverse().join("")]: the code units in reverse order. *)
Definition reverse_str (s : jstr) : jstr := reverse s.

(** [s.replace(pat, rep)] with a string pattern: the first occurrence. *)
Definition replace_first (pat rep s : jstr) : jstr :=
  let i := str_index pat s in
  if i <? 0 then s
  else take (Z.to_nat i) s ++ rep ++ drop (Z.to_nat i + length pat) s.

Definition lower_unit (c : N) : N :=
  if (65 <=? c)%N && (c <=? 90)%N then (c + 32)%N else c.

Definition upper_unit (c : N) : N :=
  if (97 <=? c)%N && (c <=? 122)%N then (c - 32)%N else c.

(** [toLowerCase] on the ASCII range. *)
Definition to_lower (s : jstr) : jstr := lower_unit <$> s.

(** ** Numbers as strings *)

Fixpoint uint_units (u : Decimal.uint) : jstr :=
  match u with
  | Decimal.Nil => []
  | Decimal.D0 u => 48%N :: uint_units u
  | Decimal.D1 u => 49%N :: uint_units u
  | Decimal.D2 u => 50%N :: uint_units u
  | Decimal.D3 u => 51%N :: uint_units u
  | Decimal.D4 u => 52%N :: uint_units u
  | Decimal.D5 u => 53%N :: uint_units u
  | Decimal.D6 u => 54%N :: uint_units u
  | Decimal.D7 u => 55%N :: uint_units u
  | Decimal.D8 u => 56%N :: uint_units u
  | Decimal.D9 u => 57%N :: uint_units u
  end.

(** An integer as [String(z)] renders it. *)
Definition show_Z (z : Z) : jstr :=
  match Z.to_int z with
  | Decimal.Pos u => uint_units u
  | Decimal.Neg u => 45%N :: uint_units u
  end.

Definition is_digit (c : N) : bool := (48 <=? c)%N && (c <=? 57)%N.

Fixpoint read_digits (acc : Z) (s : jstr) : Z :=
  match s with
  | [] => acc
  | c :: s' =>
      if is_digit c then read_digits (acc * 10 + Z.of_N (c - 48)) s' else acc
  end.

Definition parse_digits (s : jstr) : option Z :=
  match s with
  | c :: _ => if is_digit c then Some (read_digits 0 s) else None
  | [] => None
  end.

Fixpoint skip_spaces (s : jstr) : jstr :=
  match s with
  | c :: s' => if (c =? 32)%N || ((9 <=? c)%N && (c <=? 13)%N) then skip_spaces s' else s
  | [] => []
  end.

(** [parseInt(s)] in base ten: leading white space, a sign and the digits up
    to the first other character; [None] is [NaN].  (The hexadecimal prefix is
    not treated; no string of the program has one.) *)
Definition parse_int_str (s : jstr) : option Z :=
  match skip_spaces s with
  | 45%N :: s' => Z.opp <$> parse_digits s'
  | 43%N :: s' => parse_digits s'
  | s' => parse_digits s'
  end.

(** A number in a string concatenation. *)
Definition show_num (n : option Z) : jstr :=
  match n with Some z => show_Z z | None => js "NaN" end.

(** An optional value in a string concatenation. *)
Definition show_undef (n : option Z) : jstr :=
  match n with Some z => show_Z z | None => js "undefined" end.

(** A number with at most two decimals, as [(k / 100).toString()]. *)
Definition show_hundredths (k : Z) : jstr :=
  let i := k / 100 in
  let f := k mod 100 in
  if f =? 0 then show_Z i
  else if f mod 10 =? 0 then show_Z i ++ js "." ++ show_Z (f / 10)
  else if f <? 10 then show_Z i ++ js ".0" ++ show_Z f
  else show_Z i ++ js "." ++ show_Z f.

(** [(k / 100).toFixed(2)]. *)
Definition show_fixed2 (k : Z) : jstr :=
  show_Z (k / 100) ++ js "." ++ show_Z (k mod 100 / 10) ++ show_Z (k mod 10).

(** ** The global function [escape] *)

Definition hex_digit (d : N) : N := (if d <? 10 then 48 + d else 55 + d)%N.

(** The characters [escape] leaves alone: letters, digits and [@*_+-./]. *)
Definition escape_safe (c : N) : bool :=
  is_digit c || ((65 <=? c)%N && (c <=? 90)%N) || ((97 <=? c)%N && (c <=? 122)%N)
  || (c =? 64)%N || (c =? 42)%N || (c =? 95)%N || (c =? 43)%N
  || (c =? 45)%N || (c =? 46)%N || (c =? 47)%N.

Definition escape_unit (c : N) : jstr :=
  (if escape_safe c then [c]
   else if c <? 256 then [37; hex_digit (c / 16 mod 16); hex_digit (c mod 16)]
   else [37; 117; hex_digit (c / 4096 mod 16); hex_digit (c / 256 mod 16);
         hex_digit (c / 16 mod 16); hex_digit (c mod 16)])%N.

Definition escape (s : jstr) : jstr := s ≫= escape_unit.

(** ** Lemmas *)

Lemma starts_with_app pat s : starts_with pat (pat ++ s) = true.
Proof. induction pat as [|p pat IH]; simpl; [done|]. by rewrite N.eqb_refl. Qed.

Lemma starts_with_spec pat s :
  starts_with pat s = true <-> exists t, s = pat ++ t.
Proof.
  split.
  - revert s. induction pat as [|p pat IH]; intros s; simpl; [eauto|].
    destruct s as [|c s]; [done|]. rewrite andb_true_iff, N.eqb_eq.
    intros [-> [t ->]%IH]. eauto.
  - intros [t ->]. apply starts_with_app.
Qed.

Lemma str_index_range pat s : -1 <= str_index pat s.
Proof.
  induction s as [|c s IH]; simpl; destruct (starts_with _ _); try lia.
  destruct (str_index pat s <? 0) eqn:E; lia.
Qed.

Lemma str_index_unfold pat s :
  str_index pat s
  = if starts_with pat s then 0
    else match s with
    | [] => -1
    | _ :: s' => if str_index pat s' <? 0 then -1 else str_index pat s' + 1
    end.
Proof. by destruct s. Qed.

(** The position found is the first one: the text before it, extended by any
    proper prefix of the pattern, has no earlier occurrence. *)
Lemma str_index_first pat u s :
  (forall u1 u2, u = u1 ++ u2 -> u2 <> [] -> starts_with pat (u2 ++ pat ++ s) = false) ->
  str_index pat (u ++ pat ++ s) = Z.of_nat (length u).
Proof.
  induction u as [|c u IH]; intros Hno.
  - rewrite str_index_unfold. simpl. by rewrite starts_with_app.
  - rewrite str_index_unfold, (Hno [] (c :: u)) by done.
    simpl. rewrite IH.
    + destruct (Z.of_nat (length u) <? 0) eqn:E; lia.
    + intros u1 u2 -> Hne. by apply (Hno (c :: u1) u2).
Qed.

Lemma str_index_char_none c s : c ∉ s -> str_index [c] s = -1.
Proof.
  induction s as [|x s IH]; simpl; [done|].
  rewrite not_elem_of_cons. intros [Hne Hs].
  rewrite (proj2 (N.eqb_neq _ _)) by done. simpl. by rewrite IH.
Qed.

Lemma str_index_char c u s :
  c ∉ u -> str_index [c] (u ++ c :: s) = Z.of_nat (length u).
Proof.
  intros Hu. apply (str_index_first [c] u s).
  intros u1 u2 -> Hne. destruct u2 as [|y u2]; [done|]. simpl.
  apply andb_false_iff. left. apply N.eqb_neq. set_solver.
Qed.

Lemma split_char_nonnil c s : exists w ws, split_char c s = w :: ws.
Proof.
  induction s as [|x s [w [ws IH]]]; simpl; [eauto|].
  destruct (x =? c)%N; [eauto|]. rewrite IH. eauto.
Qed.

Lemma split_char_join c s : join [c] (split_char c s) = s.
Proof.
  induction s as [|x s IH]; [done|]. simpl.
  destruct (split_char_nonnil c s) as (w & ws & E). rewrite E in *.
  destruct (N.eqb_spec x c) as [->|Hne].
  - simpl in *. by rewrite IH.
  - destruct ws; simpl in *; by rewrite IH.
Qed.

Lemma split_char_none c s : c ∉ s -> split_char c s = [s].
Proof.
  induction s as [|x s IH]; [done|].
  rewrite not_elem_of_cons. intros [Hne Hs]. simpl.
  rewrite (proj2 (N.eqb_neq x c)) by done. by rewrite IH.
Qed.

(** The first piece of a split is what precedes the first separator. *)
Lemma split_char_head c u s :
  c ∉ u -> split_char c (u ++ c :: s) = u :: split_char c s.
Proof.
  induction u as [|x u IH]; simpl.
  - by rewrite N.eqb_refl.
  - rewrite not_elem_of_cons. intros [Hne Hu].
    rewrite (proj2 (N.eqb_neq x c)) by done. by rewrite IH.
Qed.

Lemma uint_units_inj u v : uint_units u = uint_units v -> u = v.
Proof.
  revert v. induction u; intros v Hv; destruct v; simpl in Hv; simplify_eq;
    try done; f_equal; eauto.
Qed.

Lemma uint_units_digits u : Forall (fun c => is_digit c = true) (uint_units u).
Proof. induction u; simpl; constructor; done. Qed.

Lemma show_Z_inj a b : show_Z a = show_Z b -> a = b.
Proof.
  intros H. rewrite <- (DecimalZ.of_to a), <- (DecimalZ.of_to b). f_equal.
  assert (forall u v, uint_units u <> 45%N :: uint_units v) as Hneg.
  { intros u v Huv. pose proof (uint_units_digits u) as HF.
    rewrite Huv in HF. by apply Forall_cons in HF as [? _]. }
  unfold show_Z in H. destruct (Z.to_int a) as [u|u], (Z.to_int b) as [v|v].
  - f_equal. by apply uint_units_inj.
  - by apply Hneg in H.
  - symmetry in H. by apply Hneg in H.
  - injection H as H. f_equal. by apply uint_units_inj.
Qed.

Lemma escape_app s t : escape (s ++ t) = escape s ++ escape t.
Proof. apply bind_app. Qed.

(** The delimiters of a cookie string: semicolon, equals sign, space, comma. *)
Definition cookie_delim (c : N) : bool :=
  (c =? 59)%N || (c =? 61)%N || (c =? 32)%N || (c =? 44)%N.

Lemma hex_digit_no_delim x : cookie_delim (hex_digit (x mod 16)) = false.
Proof.
  pose proof (N.mod_lt x 16 ltac:(done)) as Hlt.
  generalize dependent (x mod 16)%N. intros y Hy.
  unfold cookie_delim, hex_digit. repeat rewrite orb_false_iff.
  repeat rewrite N.eqb_neq. destruct (N.ltb_spec y 10); lia.
Qed.

Lemma escape_safe_no_delim c : escape_safe c = true -> cookie_delim c = false.
Proof.
  unfold escape_safe, is_digit, cookie_delim.
  destruct (N.eqb_spec c 59), (N.eqb_spec c 61), (N.eqb_spec c 32), (N.eqb_spec c 44);
    subst; done.
Qed.

(** An escaped string contains no cookie delimiter. *)
Lemma escape_no_delim s : Forall (fun c => cookie_delim c = false) (escape s).
Proof.
  unfold escape. induction s as [|c s IH]; simpl; [constructor|].
  apply Forall_app. split; [|done]. unfold escape_unit.
  destruct (escape_safe c) eqn:Es.
  - constructor; [by apply escape_safe_no_delim|constructor].
  - destruct (c <? 256)%N; repeat constructor; apply hex_digit_no_delim.
Qed.

Lemma escape_not_in c s : cookie_delim c = true -> c ∉ escape s.
Proof.
  intros Hc Hin. pose proof (escape_no_delim s) as HF.
  rewrite Forall_forall in HF. apply HF in Hin. congruence.
Qed.

(** *** Sorting *)

#[export] Instance str_leb_total : Total (fun a b => str_leb a b = true).
Proof.
  intros a. induction a as [|x a IH]; intros [|y b]; cbn; [by left|by left|by right|].
  destruct (N.ltb_spec x y), (N.eqb_spec x y), (N.ltb_spec y x), (N.eqb_spec y x); subst; cbn; try lia.
  apply IH.
Qed.

Lemma str_leb_antisym a b : str_leb a b = true -> str_leb b a = true -> a = b.
Proof.
  revert b. induction a as [|x a IH]; intros [|y b]; cbn; try done.
  destruct (N.ltb_spec x y), (N.eqb_spec x y), (N.ltb_spec y x), (N.eqb_spec y x); subst; cbn; try (done || lia).
  intros H1 H2. f_equal. by apply IH.
Qed.

#[export] Instance str_leb_trans : Transitive (fun a b => str_leb a b = true).
Proof.
  intros a. induction a as [|x a IH]; intros [|y b] [|z c]; cbn; try done.
  destruct (N.ltb_spec x y), (N.eqb_spec x y), (N.ltb_spec y z), (N.eqb_spec y z),
    (N.ltb_spec x z), (N.eqb_spec x z); subst; cbn; try (done || lia). apply IH.
Qed.

Abbreviation sorted := (StronglySorted (fun a b => str_leb a b = true)).

Lemma insert_str_perm w l : insert_str w l ≡ₚ w :: l.
Proof.
  induction l as [|x l IH]; cbn; [done|]. destruct (str_leb w x); [done|]. rewrite IH. constructor.
Qed.

Lemma sort_perm l : sort l ≡ₚ l.
Proof. induction l as [|w l IH]; cbn; [done|]. by rewrite insert_str_perm, IH. Qed.

Lemma insert_str_sorted w l : sorted l -> sorted (insert_str w l).
Proof.
  induction 1 as [|x l Hl IH Hx]; cbn; [by repeat constructor|]. destruct (str_leb w x) eqn:E.
  - constructor; [by constructor|]. constructor; [done|]. eapply Forall_impl; [exact Hx|].
    intros y Hy. by apply (str_leb_trans w x y).
  - constructor; [done|]. rewrite insert_str_perm. constructor; [|done].
    by destruct (str_leb_total x w) as [|H]; [|rewrite H in E].
Qed.

Lemma sort_sorted l : sorted (sort l).
Proof. induction l as [|w l IH]; [constructor|]. by apply insert_str_sorted. Qed.

(** Among sorted lists inclusion with multiplicities is the same as being a
    sublist. *)
Lemma sorted_sublist (k l : list jstr) : sorted k -> sorted l -> k ⊆+ l -> k `sublist_of` l.
Proof.
  intros Hk Hl. revert k Hk. induction Hl as [|y l Hl IH Hy]; intros k Hk Hsub.
  - apply submseteq_nil_r in Hsub as ->. constructor.
  - destruct (decide (y ∈ k)) as [Hin|Hin].
    + destruct Hk as [|x k Hk Hx]; [by apply elem_of_nil in Hin|].
      assert (x = y) as ->.
      { assert (x ∈ y :: l) as Hxl by (eapply elem_of_submseteq; [|exact Hsub]; left).
        apply elem_of_cons in Hin as [|Hin]; [done|]. apply elem_of_cons in Hxl as [|Hxl]; [done|].
        rewrite Forall_forall in Hx, Hy. apply str_leb_antisym; auto. }
      apply sublist_skip, IH; [done|]. by apply (submseteq_app_inv_l k l [y]).
    + apply sublist_cons, IH; [done|]. apply submseteq_cons_r in Hsub as [|(k' & Hp & _)]; [done|].
      rewrite Hp in Hin. set_solver.
Qed.

#[export] Hint Rewrite split_char_join escape_app : js_rw.
