(* ===== verification/JsUri.v ===== *)
(** * Encoding of URI components

    The global function [encodeURIComponent] as the language defines it: the
    string is turned into UTF-8, which fails on half of a surrogate pair, and
    every byte outside the unreserved set becomes a percent triple.  The
    decoder of form data (what a server does with a query string) is given
    next to it as a reference, with the round trip between the two. *)

From stdpp Require Import base list.
From Stdlib Require Import NArith.
From S2P Require Import Prelude JsString.

#[local] Open Scope N_scope.

(** ** UTF-8 *)

Definition is_high (c : N) : bool := (55296 <=? c) && (c <=? 56319).
Definition is_low (c : N) : bool := (56320 <=? c) && (c <=? 57343).

(** The bytes of a code point. *)
Definition utf8_bytes (c : N) : list N :=
  if c <? 128 then [c]
  else if c <? 2048 then [192 + c / 64; 128 + c mod 64]
  else if c <? 65536 then [224 + c / 4096; 128 + c / 64 mod 64; 128 + c mod 64]
  else [240 + c / 262144; 128 + c / 4096 mod 64; 128 + c / 64 mod 64; 128 + c mod 64].

(** The bytes of a string; [None] where a surrogate stands alone. *)
Fixpoint utf8 (s : jstr) : option (list N) :=
  match s with
  | [] => Some []
  | c :: r =>
      if is_low c then None
      else if is_high c then
        match r with
        | d :: r' =>
            if is_low d
            then app (utf8_bytes (65536 + (c - 55296) * 1024 + (d - 56320))) <$> utf8 r'
            else None
        | [] => None
        end
      else app (utf8_bytes c) <$> utf8 r
  end.

(** ** Percent encoding *)

(** The characters left alone: letters, digits and [-_.!~*'()]. *)
Definition uri_safe (c : N) : bool :=
  is_digit c || ((65 <=? c) && (c <=? 90)) || ((97 <=? c) && (c <=? 122))
  || (c =? 45) || (c =? 95) || (c =? 46) || (c =? 33) || (c =? 126) || (c =? 42)
  || (c =? 39) || (c =? 40) || (c =? 41).

Definition byte_enc (b : N) : jstr :=
  if uri_safe b then [b] else [37; hex_digit (b / 16); hex_digit (b mod 16)].

Definition encodeURIComponent (s : jstr) : result jstr :=
  match utf8 s with Some bs => Ret (bs ≫= byte_enc) | None => Throw end.

(** A string without half surrogates. *)
Definition well_formed (s : jstr) : Prop :=
  Forall (fun c => c < 65536) s /\ is_Some (utf8 s).

#[export] Instance well_formed_dec s : Decision (well_formed s).
Proof. unfold well_formed. apply _. Defined.

(** ** The reference decoder of form data *)

Definition hex_value (c : N) : N := if c <? 58 then c - 48 else c - 55.

(** A plus sign is a space, a percent triple a byte. *)
Fixpoint form_bytes (s : jstr) : list N :=
  match s with
  | 37 :: h :: l :: r => (hex_value h * 16 + hex_value l) :: form_bytes r
  | 43 :: r => 32 :: form_bytes r
  | c :: r => c :: form_bytes r
  | [] => []
  end.

Definition form_decode (s : jstr) : jstr := utf8_units (form_bytes s).

(** The pairs of a query string. *)
Definition form_pair (w : jstr) : jstr * jstr :=
  let i := Z.to_nat (str_index [61] w) in (form_decode (take i w), form_decode (drop (S i) w)).

Definition form_pairs (s : jstr) : list (jstr * jstr) := form_pair <$> split_char 38 s.

(** ** Lemmas *)

(** [lia] with the quotients as plain numbers. *)
Ltac nlia :=
  repeat match goal with
  | |- context [?a / ?b] => let q := fresh "q" in set (q := a / b) in *; clearbody q
  end; lia.

Lemma utf8_bytes_range c : c < 1114112 -> Forall (fun b => b < 256) (utf8_bytes c).
Proof.
  intros Hc. unfold utf8_bytes.
  assert (forall x, x mod 64 < 64) as Hm by (intros; apply N.mod_lt; done).
  assert (forall k, k <> 0 -> c / k * k <= c) as Hd by (intros k Hk; rewrite N.mul_comm; by apply N.Div0.mul_div_le).
  pose proof (Hd 64 ltac:(done)). pose proof (Hd 4096 ltac:(done)). pose proof (Hd 262144 ltac:(done)).
  destruct (N.ltb_spec c 128); [repeat constructor; lia|].
  destruct (N.ltb_spec c 2048); [repeat constructor; try lia; specialize (Hm c); lia|].
  destruct (N.ltb_spec c 65536);
    (repeat constructor; [lia|..]);
    match goal with |- 128 + ?x mod 64 < _ => specialize (Hm x); lia end.
Qed.

Lemma utf8_range s bs : utf8 s = Some bs -> Forall (fun c => c < 65536) s -> Forall (fun b => b < 256) bs.
Proof.
  revert bs. induction s as [s IH] using (induction_ltof1 _ length). intros bs Hu Hf.
  destruct s as [|c r]; simpl in Hu; [by simplify_eq; constructor|].
  apply Forall_cons in Hf as [Hc Hr]. destruct (is_low c); [done|]. destruct (is_high c) eqn:Eh.
  - destruct r as [|d r]; [done|]. destruct (is_low d) eqn:El; [|done].
    destruct (utf8 r) as [bs'|] eqn:Eu; simplify_eq/=. apply Forall_cons in Hr as [Hd Hr].
    apply Forall_app. split.
    + apply utf8_bytes_range. unfold is_high, is_low in *.
      apply andb_true_iff in Eh as [?%N.leb_le ?%N.leb_le].
      apply andb_true_iff in El as [?%N.leb_le ?%N.leb_le]. lia.
    + apply (IH r); [unfold ltof; simpl; lia|done|done].
  - destruct (utf8 r) as [bs'|] eqn:Eu; simplify_eq/=. apply Forall_app. split.
    + apply utf8_bytes_range. lia.
    + apply (IH r); [unfold ltof; simpl; lia|done|done].
Qed.

Lemma land_low (k a q : N) : a mod 2 ^ k = 0 -> q < 2 ^ k -> N.land (a + q) (N.ones k) = q.
Proof.
  intros Ha Hq. rewrite N.land_ones, N.Div0.add_mod, Ha, N.add_0_l, N.Div0.mod_mod.
  by apply N.mod_small.
Qed.

Lemma land_cont (x : N) : N.land (128 + x mod 64) 63 = x mod 64.
Proof. apply (land_low 6); [done|]. by apply N.mod_lt. Qed.

(** The units of a code point. *)
Definition units_of (c : N) : jstr :=
  if c <? 65536 then [c] else [55296 + (c - 65536) / 1024; 56320 + (c - 65536) mod 1024].

Lemma digits64 c : c / 4096 * 4096 + c / 64 mod 64 * 64 + c mod 64 = c.
Proof.
  pose proof (N.div_mod c 64 ltac:(done)) as H1.
  pose proof (N.div_mod (c / 64) 64 ltac:(done)) as H2. rewrite N.Div0.div_div in H2.
  change (64 * 64) with 4096 in H2. lia.
Qed.

Lemma utf8_units_bytes c r :
  c < 1114112 -> utf8_units (utf8_bytes c ++ r) = units_of c ++ utf8_units r.
Proof.
  intros Hc. unfold utf8_bytes, units_of.
  destruct (N.ltb_spec c 128) as [H1|H1].
  { simpl. rewrite (proj2 (N.ltb_lt c 128)), (proj2 (N.ltb_lt c 65536)) by lia. done. }
  destruct (N.ltb_spec c 2048) as [H2|H2].
  { assert (c / 64 < 32) by (apply N.Div0.div_lt_upper_bound; lia).
    cbn [app utf8_units]. rewrite (proj2 (N.ltb_ge (192 + c / 64) 128)), (proj2 (N.ltb_lt (192 + c / 64) 224)) by nlia.
    rewrite land_cont, (land_low 5 192) by done. rewrite (proj2 (N.ltb_lt c 65536)) by lia.
    cbn [app]. f_equal. pose proof (N.div_mod c 64 ltac:(done)). lia. }
  destruct (N.ltb_spec c 65536) as [H3|H3].
  { assert (c / 4096 < 16) by (apply N.Div0.div_lt_upper_bound; lia).
    cbn [app utf8_units]. rewrite (proj2 (N.ltb_ge (224 + c / 4096) 128)),
      (proj2 (N.ltb_ge (224 + c / 4096) 224)), (proj2 (N.ltb_lt (224 + c / 4096) 240)) by nlia.
    rewrite !land_cont, (land_low 4 224) by done. cbn [app]. f_equal. apply digits64. }
  assert (c / 262144 < 8) by (apply N.Div0.div_lt_upper_bound; lia).
  cbn [app utf8_units]. rewrite (proj2 (N.ltb_ge (240 + c / 262144) 128)),
    (proj2 (N.ltb_ge (240 + c / 262144) 224)), (proj2 (N.ltb_ge (240 + c / 262144) 240)) by nlia.
  rewrite !land_cont, (land_low 3 240) by done.
  assert (c / 262144 * 262144 + c / 4096 mod 64 * 4096 + c / 64 mod 64 * 64 + c mod 64 = c) as ->; [|done].
  pose proof (digits64 c) as Hd. pose proof (N.div_mod (c / 4096) 64 ltac:(done)) as H4.
  rewrite N.Div0.div_div in H4. change (4096 * 64) with 262144 in H4. lia.
Qed.

Lemma utf8_roundtrip s bs :
  utf8 s = Some bs -> Forall (fun c => c < 65536) s -> utf8_units bs = s.
Proof.
  revert bs. induction s as [s IH] using (induction_ltof1 _ length). intros bs Hu Hf.
  destruct s as [|c r]; simpl in Hu; [by simplify_eq|].
  apply Forall_cons in Hf as [Hc Hr]. destruct (is_low c); [done|]. destruct (is_high c) eqn:Eh.
  - destruct r as [|d r]; [done|]. destruct (is_low d) eqn:El; [|done].
    destruct (utf8 r) as [bs'|] eqn:Eu; simplify_eq/=. apply Forall_cons in Hr as [Hd Hr].
    unfold is_high, is_low in *.
    apply andb_true_iff in Eh as [?%N.leb_le ?%N.leb_le].
    apply andb_true_iff in El as [?%N.leb_le ?%N.leb_le].
    assert (utf8_units bs' = r) as Er by (apply (IH r); [unfold ltof; simpl; lia|done|done]).
    rewrite utf8_units_bytes, Er by lia.
    unfold units_of. rewrite (proj2 (N.ltb_ge _ _)) by lia. cbn [app].
    replace (65536 + (c - 55296) * 1024 + (d - 56320) - 65536)
      with ((d - 56320) + (c - 55296) * 1024) by lia.
    rewrite N.div_add, N.div_small, N.Div0.mod_add, N.mod_small by lia.
    f_equal; [lia|]. f_equal. lia.
  - destruct (utf8 r) as [bs'|] eqn:Eu; simplify_eq/=.
    assert (utf8_units bs' = r) as Er by (apply (IH r); [unfold ltof; simpl; lia|done|done]).
    rewrite utf8_units_bytes, Er by lia.
    unfold units_of. by rewrite (proj2 (N.ltb_lt _ _)).
Qed.

Lemma hex_value_digit d : d < 16 -> hex_value (hex_digit d) = d.
Proof.
  intros Hd. unfold hex_value, hex_digit. destruct (N.ltb_spec d 10).
  - rewrite (proj2 (N.ltb_lt _ _)) by lia. lia.
  - rewrite (proj2 (N.ltb_ge _ _)) by lia. lia.
Qed.

Lemma uri_safe_plain c : uri_safe c = true -> c <> 37 /\ c <> 43 /\ c <> 38 /\ c <> 61 /\ c <> 63.
Proof. intros H. split_and!; intros ->; discriminate. Qed.

Lemma form_bytes_plain c r : c <> 37 -> c <> 43 -> form_bytes (c :: r) = c :: form_bytes r.
Proof.
  intros H1 H2. destruct c as [|p]; [done|].
  do 7 (try done; destruct p as [p|p|]; try done).
Qed.

Lemma form_bytes_enc b r : b < 256 -> form_bytes (byte_enc b ++ r) = b :: form_bytes r.
Proof.
  intros Hb. unfold byte_enc. destruct (uri_safe b) eqn:Es.
  - apply uri_safe_plain in Es as (? & ? & _). by apply form_bytes_plain.
  - cbn [app form_bytes]. rewrite !hex_value_digit.
    + pose proof (N.div_mod b 16 ltac:(done)). f_equal. lia.
    + by apply N.mod_lt.
    + apply N.Div0.div_lt_upper_bound. lia.
Qed.
