(* ===== verification/ZeptoCore.v ===== *)
(** * The functions of Zepto on plain values (zepto.js)

    The values these functions work on: primitives, arrays and plain objects,
    which are lists of properties in the order of their enumeration.  Then
    the functions that do not touch the document: type tests, [$.each],
    [$.extend], the conversion of names, [uniq] and [deserializeValue]. *)

From stdpp Require Import base list strings.
From Stdlib Require Import NArith.
From S2P Require Import Prelude JsString.

(** ** Values *)

(** A function is known by its source text and what it returns when it is
    called without arguments. *)
#[warnings="-register-all"]
Inductive jsval :=
| VUndef
| VNull
| VBool (b : bool)
| VNum (z : Z)
| VStr (s : jstr)
| VFun (src : jstr) (ret : jsval)
| VArr (l : list jsval)
| VObj (l : list (jstr * jsval)).

(** [$.type]. *)
Inductive jstype :=
| TyUndefined | TyNull | TyBoolean | TyNumber | TyString | TyFunction | TyArray | TyObject.

#[export] Instance jstype_eq_dec : EqDecision jstype.
Proof. solve_decision. Defined.

Definition type (v : jsval) : jstype :=
  match v with
  | VUndef => TyUndefined | VNull => TyNull | VBool _ => TyBoolean | VNum _ => TyNumber
  | VStr _ => TyString | VFun _ _ => TyFunction | VArr _ => TyArray | VObj _ => TyObject
  end.

Definition isFunction (v : jsval) : bool := bool_decide (type v = TyFunction).
Definition isArray (v : jsval) : bool := bool_decide (type v = TyArray).
Definition isPlainObject (v : jsval) : bool := bool_decide (type v = TyObject).

(** [v == null]. *)
Definition is_nullish (v : jsval) : bool :=
  match v with VUndef | VNull => true | _ => false end.

Definition truthy (v : jsval) : bool :=
  match v with
  | VUndef | VNull => false
  | VBool b => b
  | VNum z => negb (z =? 0)
  | VStr s => negb (Nat.eqb (length s) 0)
  | VFun _ _ | VArr _ | VObj _ => true
  end.

(** [String(v)]. *)
Fixpoint to_string (v : jsval) : jstr :=
  match v with
  | VUndef => js "undefined"
  | VNull => js "null"
  | VBool b => if b then js "true" else js "false"
  | VNum z => show_Z z
  | VStr s => s
  | VFun src _ => src
  | VArr l => join (js ",") ((fun x => if is_nullish x then [] else to_string x) <$> l)
  | VObj _ => js "[object Object]"
  end.

(** *** Properties *)

Fixpoint obj_get (k : jstr) (l : list (jstr * jsval)) : jsval :=
  match l with
  | [] => VUndef
  | (k', v) :: l' => if decide (k = k') then v else obj_get k l'
  end.

(** Assignment: an existing property keeps its place. *)
Fixpoint obj_set (k : jstr) (v : jsval) (l : list (jstr * jsval)) : list (jstr * jsval) :=
  match l with
  | [] => [(k, v)]
  | (k', v') :: l' => if decide (k = k') then (k', v) :: l' else (k', v') :: obj_set k v l'
  end.

(** [l[k]] for a name: the names of positions are the decimal ones. *)
Definition nth_prop {A} (f : A -> jsval) (k : jstr) (l : list A) : jsval :=
  match parse_int_str k with
  | Some z => if decide (0 <= z /\ show_Z z = k) then from_option f VUndef (l !! Z.to_nat z) else VUndef
  | None => VUndef
  end.

(** [v[k]]; only [null] and [undefined] have no properties at all.  A function
    value is anonymous and has no parameters. *)
Definition prop (v : jsval) (k : jstr) : result jsval :=
  match v with
  | VUndef | VNull => Throw
  | VObj l => Ret (obj_get k l)
  | VArr l =>
      Ret (if decide (k = js "length") then VNum (Z.of_nat (length l)) else nth_prop id k l)
  | VStr s =>
      Ret (if decide (k = js "length") then VNum (Z.of_nat (length s))
           else nth_prop (fun c => VStr [c]) k s)
  | VFun _ _ =>
      Ret (if decide (k = js "length") then VNum 0 else if decide (k = js "name") then VStr []
           else VUndef)
  | VBool _ | VNum _ => Ret VUndef
  end.

(** [likeArray]. *)
Definition likeArray (v : jsval) : bool :=
  match v with
  | VArr _ | VStr _ | VFun _ _ => true
  | VObj l => match obj_get (js "length") l with VNum _ => true | _ => false end
  | _ => false
  end.

(** ** [$.each]

    What the callback is called with, in order: an object counts as an array
    when its property [length] is a number. *)

Definition index_key (i : nat) : jstr := show_Z (Z.of_nat i).

Definition each_entries (v : jsval) : result (list (jstr * jsval)) :=
  match v with
  | VUndef | VNull => Throw
  | VArr l => Ret (imap (fun i x => (index_key i, x)) l)
  | VStr s => Ret (imap (fun i c => (index_key i, VStr [c])) s)
  | VObj l =>
      match obj_get (js "length") l with
      | VNum n => Ret ((fun i => (index_key i, obj_get (index_key i) l)) <$> seq 0 (Z.to_nat n))
      | _ => Ret l
      end
  | _ => Ret []
  end.

(** ** [$.extend] *)

Definition as_object (v : jsval) : list (jstr * jsval) := match v with VObj l => l | _ => [] end.
Definition as_array (v : jsval) : list jsval := match v with VArr l => l | _ => [] end.

(** Assignment of an element: the array grows where it must. *)
Definition arr_set (i : nat) (v : jsval) (l : list jsval) : list jsval :=
  if decide (i < length l)%nat then <[i := v]> l
  else l ++ replicate (i - length l) VUndef ++ [v].

(** [target[key]] after one round of the loop of [extend], where [t] is its
    value before and [x] the value of the source; [None]: no assignment. *)
Fixpoint extend_value (deep : bool) (t x : jsval) : option jsval :=
  match x with
  | VObj l =>
      if deep then
        Some (VObj ((fix go (l : list (jstr * jsval)) (o : list (jstr * jsval)) :=
          match l with
          | [] => o
          | (k, y) :: l' =>
              go l' (match extend_value deep (obj_get k o) y with
                     | Some v => obj_set k v o
                     | None => o
                     end)
          end) l (as_object t)))
      else Some x
  | VArr l =>
      if deep then
        Some (VArr ((fix go (i : nat) (l : list jsval) (a : list jsval) :=
          match l with
          | [] => a
          | y :: l' =>
              go (S i) l' (match extend_value deep (default VUndef (a !! i)) y with
                           | Some v => arr_set i v a
                           | None => a
                           end)
          end) 0%nat l (as_array t)))
      else Some x
  | VUndef => None
  | _ => Some x
  end.

(** [extend(target, source, deep)] on plain objects. *)
Definition extend (deep : bool) (target source : list (jstr * jsval)) : list (jstr * jsval) :=
  foldl (fun o '(k, y) =>
    match extend_value deep (obj_get k o) y with Some v => obj_set k v o | None => o end)
    target source.

(** [$.extend(deep, target, source...)]. *)
Definition extend_all (deep : bool) (target : list (jstr * jsval))
    (sources : list (list (jstr * jsval))) : list (jstr * jsval) :=
  foldl (extend deep) target sources.

(** ** Names *)

Definition is_upper (c : N) : bool := (65 <=? c)%N && (c <=? 90)%N.
Definition is_lower (c : N) : bool := (97 <=? c)%N && (c <=? 122)%N.

(** The characters the dot of a regular expression does not match. *)
Definition line_end (c : N) : bool :=
  (c =? 10)%N || (c =? 13)%N || (c =? 8232)%N || (c =? 8233)%N.

(** [camelize]: a run of hyphens disappears and the character after it is
    turned into a capital.  [dash] says whether a run has just been read. *)
Fixpoint camelize_from (dash : bool) (s : jstr) : jstr :=
  match s with
  | [] => []
  | c :: s' =>
      if (c =? 45)%N then camelize_from true s'
      else (if dash && negb (line_end c) then upper_unit c else c) :: camelize_from false s'
  end.

Definition camelize (s : jstr) : jstr := camelize_from false s.

(** The five replacements of [dasherize]. *)
Fixpoint replace_colons (s : jstr) : jstr :=
  match s with
  | 58%N :: 58%N :: s' => 47%N :: replace_colons s'
  | c :: s' => c :: replace_colons s'
  | [] => []
  end.

(** [/([A-Z]+)([A-Z][a-z])/g]: the last capital of a run starts a new word
    when a small letter follows it.  [prev] is the character before. *)
Fixpoint split_capitals (prev : option N) (s : jstr) : jstr :=
  match s with
  | [] => []
  | c :: s' =>
      let cut := from_option is_upper false prev && is_upper c
                 && match s' with d :: _ => is_lower d | [] => false end in
      (if cut then [95%N; c] else [c]) ++ split_capitals (Some c) s'
  end.

(** [/([a-z\d])([A-Z])/g]. *)
Fixpoint split_words (prev : option N) (s : jstr) : jstr :=
  match s with
  | [] => []
  | c :: s' =>
      let cut := from_option (fun p => is_lower p || is_digit p) false prev && is_upper c in
      (if cut then [95%N; c] else [c]) ++ split_words (Some c) s'
  end.

Definition dasherize (s : jstr) : jstr :=
  to_lower ((fun c => if (c =? 95)%N then 45%N else c)
    <$> split_words None (split_capitals None (replace_colons s))).

(** The properties whose numbers get no unit. *)
Definition cssNumber : list jstr :=
  [js "column-count"; js "columns"; js "font-weight"; js "line-height"; js "opacity"; js "z-index";
   js "zoom"].

Definition maybeAddPx (name : jstr) (v : jsval) : jstr :=
  match v with
  | VNum z => if decide (dasherize name ∈ cssNumber) then show_Z z else show_Z z ++ js "px"
  | _ => to_string v
  end.

(** ** Arrays *)

(** [uniq]: the items whose first position is their own. *)
Definition uniq {A} `{EqDecision A} (l : list A) : list A :=
  omap (fun '(i, x) => if index_of x l =? Z.of_nat i then Some x else None) (imap pair l).

(** [compact]. *)
Definition compact (l : list jsval) : list jsval := filter (fun v => is_nullish v = false) l.

(** ** [deserializeValue]

    The number a string is the usual rendering of ([+value + "" == value])
    and [JSON.parse] are an interface. *)

Class Parsers := {
  canonical_number : jstr -> option jsval;
  json_parse : jstr -> result jsval;
}.

Class ParsersLaws `{Parsers} : Prop :=
  canonical_integer : forall z, - 2 ^ 53 < z < 2 ^ 53 -> canonical_number (show_Z z) = Some (VNum z).

Definition deserializeValue `{Parsers} (value : jstr) : jsval :=
  if decide (value = []) then VStr value
  else if decide (value = js "true") then VBool true
  else if decide (value = js "false") then VBool false
  else if decide (value = js "null") then VNull
  else match canonical_number value with
  | Some n => n
  | None =>
      match value with
      | 91%N :: _ | 123%N :: _ =>
          match json_parse value with Ret v => v | Throw => VStr value end
      | _ => VStr value
      end
  end.

(** ** Lemmas *)

Lemma obj_get_set k k' v l :
  obj_get k (obj_set k' v l) = if decide (k = k') then v else obj_get k l.
Proof.
  induction l as [|[k1 v1] l IH]; simpl.
  - by repeat case_decide.
  - destruct (decide (k' = k1)) as [->|Hne]; simpl; [by repeat case_decide|].
    rewrite IH. repeat case_decide; congruence.
Qed.

(** *** [uniq] *)

Section Uniq.
Context {A : Type} `{EqDecision A}.
Implicit Types (x : A) (l : list A).

Lemma index_of_app x l l' :
  index_of x (l ++ l') = if decide (x ∈ l) then index_of x l
                         else let i := index_of x l' in if i <? 0 then -1 else Z.of_nat (length l) + i.
Proof.
  induction l as [|y l IH]; cbn [app].
  - rewrite decide_False by apply not_elem_of_nil. pose proof (index_of_range x l').
    cbv zeta. destruct (Z.ltb_spec (index_of x l') 0); cbn [length]; lia.
  - cbn [index_of]. destruct (decide (x = y)) as [->|Hne].
    + rewrite decide_True by constructor. done.
    + rewrite IH. destruct (decide (x ∈ l)) as [Hin|Hni].
      * by rewrite decide_True by (by constructor).
      * rewrite decide_False by (rewrite elem_of_cons; by intros [?|?]). cbv zeta.
        destruct (Z.ltb_spec (index_of x l') 0); cbn [length].
        -- done.
        -- rewrite (proj2 (Z.ltb_ge _ _)) by lia. lia.
Qed.

(** The reference: keep an item unless it has been seen. *)
Fixpoint first_seen (seen l : list A) : list A :=
  match l with
  | [] => []
  | x :: l' => if decide (x ∈ seen) then first_seen seen l' else x :: first_seen (x :: seen) l'
  end.

Lemma first_seen_ext s1 s2 l : (forall x, x ∈ s1 <-> x ∈ s2) -> first_seen s1 l = first_seen s2 l.
Proof.
  revert s1 s2. induction l as [|x l IH]; intros s1 s2 Hs; cbn; [done|].
  destruct (decide (x ∈ s1)) as [H|H].
  - rewrite decide_True by (by apply Hs). by apply IH.
  - rewrite decide_False by (by rewrite <- Hs). f_equal. apply IH. intros y.
    rewrite !elem_of_cons, Hs. done.
Qed.

Lemma uniq_seen pre l :
  omap (fun '(i, x) => if index_of x (pre ++ l) =? Z.of_nat i then Some x else None)
    (imap (fun i x => ((length pre + i)%nat, x)) l)
  = first_seen pre l.
Proof.
  revert pre. induction l as [|x l IH]; intros pre; [done|].
  cbn [imap omap list_omap first_seen].
  rewrite Nat.add_0_r, index_of_app. cbn [index_of].
  destruct (decide (x = x)) as [_|]; [|done].
  assert (omap (fun '(i, y) => if index_of y (pre ++ x :: l) =? Z.of_nat i then Some y else None)
      (imap ((fun i y => ((length pre + i)%nat, y)) ∘ S) l) = first_seen (pre ++ [x]) l) as E.
  { rewrite <- (IH (pre ++ [x])), <- app_assoc. f_equal. apply imap_ext. intros i y _. cbn.
    rewrite length_app. cbn. f_equal. lia. }
  destruct (decide (x ∈ pre)) as [Hin|Hni].
  - pose proof (index_of_range x pre). rewrite (proj2 (Z.eqb_neq _ _)) by lia.
    etransitivity; [exact E|]. apply first_seen_ext. intros y. rewrite elem_of_app, list_elem_of_singleton.
    naive_solver.
  - cbn. rewrite Z.add_0_r, Z.eqb_refl. f_equal. etransitivity; [exact E|].
    apply first_seen_ext. intros y. rewrite elem_of_app, list_elem_of_singleton, elem_of_cons. tauto.
Qed.

Lemma first_seen_spec seen l :
  NoDup (first_seen seen l) /\ (forall x, x ∈ first_seen seen l <-> x ∈ l /\ x ∉ seen).
Proof.
  revert seen. induction l as [|x l IH]; intros seen; cbn.
  - split; [constructor|]. intros y. rewrite elem_of_nil. tauto.
  - destruct (decide (x ∈ seen)) as [Hin|Hni].
    + destruct (IH seen) as [Hn He]. split; [done|]. intros y. rewrite He, elem_of_cons. naive_solver.
    + destruct (IH (x :: seen)) as [Hn He]. split.
      * constructor; [|done]. rewrite He, elem_of_cons. tauto.
      * intros y. rewrite !elem_of_cons, He, elem_of_cons. destruct (decide (y = x)); naive_solver.
Qed.

Lemma uniq_first_seen l : uniq l = first_seen [] l.
Proof. rewrite <- (uniq_seen [] l). done. Qed.

End Uniq.

(** *** Names *)

Definition lower_word (w : jstr) : Prop := Forall (fun c => is_lower c = true) w.

Definition cap (w : jstr) : jstr := match w with c :: w' => upper_unit c :: w' | [] => [] end.

Lemma is_lower_facts c :
  is_lower c = true ->
  is_upper c = false /\ (c =? 45)%N = false /\ (c =? 95)%N = false /\ (c =? 58)%N = false
  /\ line_end c = false /\ lower_unit c = c
  /\ is_upper (upper_unit c) = true /\ lower_unit (upper_unit c) = c
  /\ (upper_unit c =? 95)%N = false /\ (upper_unit c =? 58)%N = false.
Proof.
  unfold is_lower, is_upper, line_end, lower_unit, upper_unit. intros H. rewrite H.
  apply andb_true_iff in H as [H1%N.leb_le H2%N.leb_le].
  repeat match goal with
  | |- context [(?a =? ?b)%N] => destruct (N.eqb_spec a b); [lia|]
  | |- context [(?a <=? ?b)%N] => destruct (N.leb_spec a b); try lia
  end; cbn; split_and!; try done; lia.
Qed.

Lemma camelize_word b w r :
  lower_word w -> w <> [] -> camelize_from b (w ++ r) = (if b then cap w else w) ++ camelize_from false r.
Proof.
  assert (forall v, lower_word v -> camelize_from false (v ++ r) = v ++ camelize_from false r) as Hf.
  { induction 1 as [|c v Hc Hv IH]; [done|]. cbn. destruct (is_lower_facts c Hc) as (_ & -> & _).
    by rewrite IH. }
  intros Hw Hne. destruct b; [|by apply Hf]. destruct w as [|c w]; [done|].
  apply Forall_cons in Hw as [Hc Hw]. cbn.
  destruct (is_lower_facts c Hc) as (_ & -> & _ & _ & -> & _). cbn. by rewrite Hf.
Qed.

(** A property name with hyphens: words of small letters, all but the first
    of at least two. *)
Definition css_words (w : jstr) (ws : list jstr) : Prop :=
  w <> [] /\ lower_word w /\ Forall (fun v => lower_word v /\ (2 <= length v)%nat) ws.

Definition hyphenated (w : jstr) (ws : list jstr) : jstr := w ++ (ws ≫= cons 45%N).

Lemma camelize_words w ws : css_words w ws -> camelize (hyphenated w ws) = w ++ (ws ≫= cap).
Proof.
  intros (Hne & Hw & Hws). unfold camelize, hyphenated. rewrite camelize_word by done. f_equal.
  clear w Hne Hw. induction Hws as [|v ws [Hv Hl] Hws IH]; [done|].
  rewrite !bind_cons. cbn [app camelize_from]. change (45 =? 45)%N with true. cbv iota.
  rewrite camelize_word; [by rewrite IH|done|]. intros ->. cbn in Hl. lia.
Qed.

Lemma replace_colons_plain s : Forall (fun c => (c =? 58)%N = false) s -> replace_colons s = s.
Proof.
  induction 1 as [|c s Hc Hs IH]; [done|]. apply N.eqb_neq in Hc.
  assert (replace_colons (c :: s) = c :: replace_colons s) as ->; [|by rewrite IH].
  cbn. destruct c as [|p]; [done|]. do 7 (try done; destruct p as [p|p|]; try done).
Qed.

Lemma split_capitals_word p v r :
  lower_word v -> is_upper p = false ->
  exists q, is_upper q = false /\ (v = [] -> q = p)
            /\ (forall c, last v = Some c -> q = c)
            /\ split_capitals (Some p) (v ++ r) = v ++ split_capitals (Some q) r.
Proof.
  intros Hv. revert p. induction Hv as [|c v Hc Hv IH]; intros p Hp; [by exists p|].
  destruct (is_lower_facts c Hc) as (Hu & _).
  destruct (IH c Hu) as (q & Hq & H0 & Hl & E). exists q. split_and!; [done|done| |].
  - intros d Hd. destruct v; [by simplify_eq/=; apply H0|by apply Hl].
  - cbn. rewrite Hp. cbn. by rewrite E.
Qed.

Lemma split_capitals_words p ws :
  is_upper p = false -> Forall (fun v => lower_word v /\ (2 <= length v)%nat) ws ->
  split_capitals (Some p) (ws ≫= cap) = ws ≫= cap.
Proof.
  intros Hp Hws. revert p Hp. induction Hws as [|v ws [Hv Hl] Hws IH]; intros p Hp; [done|].
  destruct v as [|c [|d v]]; [cbn in Hl; lia..|]. apply Forall_cons in Hv as [Hc Hv].
  rewrite !bind_cons. cbn [cap app split_capitals from_option]. rewrite Hp. cbn [andb app]. f_equal.
  apply Forall_cons in Hv as [Hd Hv]. destruct (is_lower_facts d Hd) as (Hu & _).
  rewrite Hu, andb_false_r. cbn [andb app]. f_equal.
  destruct (split_capitals_word d v (ws ≫= cap) Hv Hu) as (q & Hq & _ & _ & ->).
  f_equal. by apply IH.
Qed.

Lemma split_words_word p v r :
  lower_word v ->
  split_words p (v ++ r)
  = v ++ split_words (match last v with Some c => Some c | None => p end) r.
Proof.
  intros Hv. revert p. induction Hv as [|c v Hc Hv IH]; intros p; [done|].
  destruct (is_lower_facts c Hc) as (Hu & _). cbn [app split_words]. rewrite Hu, andb_false_r.
  cbn [app]. f_equal. rewrite IH. do 2 f_equal. destruct v as [|d v]; [done|].
  rewrite last_cons_cons. destruct (last (d :: v)) eqn:El; [done|]. by apply last_None in El.
Qed.

Lemma split_words_words p ws :
  is_lower p = true -> Forall (fun v => lower_word v /\ (2 <= length v)%nat) ws ->
  split_words (Some p) (ws ≫= cap) = ws ≫= (fun v => 95%N :: cap v).
Proof.
  intros Hp Hws. revert p Hp. induction Hws as [|v ws [Hv Hl] Hws IH]; intros p Hp; [done|].
  destruct v as [|c [|d v]]; [cbn in Hl; lia..|]. apply Forall_cons in Hv as [Hc Hv].
  rewrite !bind_cons. cbn [cap app split_words from_option]. rewrite Hp.
  destruct (is_lower_facts c Hc) as (_ & _ & _ & _ & _ & _ & -> & _). cbn [andb orb app].
  do 2 f_equal. apply Forall_cons in Hv as [Hd Hv]. destruct (is_lower_facts d Hd) as (Hu & _).
  rewrite Hu, andb_false_r. cbn [app]. f_equal.
  rewrite split_words_word by done. f_equal.
  destruct (last v) as [e|] eqn:El; [|by apply IH].
  apply IH. apply last_Some_elem_of in El. unfold lower_word in Hv. rewrite Forall_forall in Hv. by apply Hv.
Qed.

Lemma lowered_words ws :
  Forall (fun v => lower_word v /\ (2 <= length v)%nat) ws ->
  to_lower ((fun c => if (c =? 95)%N then 45%N else c) <$> (ws ≫= (fun v => 95%N :: cap v)))
  = ws ≫= cons 45%N.
Proof.
  induction 1 as [|v ws [Hv Hl] Hws IH]; [done|]. rewrite !bind_cons.
  unfold to_lower in *. rewrite !fmap_app, IH. f_equal. cbn. f_equal.
  destruct v as [|c v]; [done|]. apply Forall_cons in Hv as [Hc Hv]. cbn.
  destruct (is_lower_facts c Hc) as (_ & _ & _ & _ & _ & _ & _ & E & -> & _). rewrite E. f_equal.
  clear -Hv. induction Hv as [|d v Hd Hv IH]; [done|]. cbn.
  destruct (is_lower_facts d Hd) as (_ & _ & -> & _ & _ & -> & _). by f_equal.
Qed.

Lemma lowered_word w :
  lower_word w -> to_lower ((fun c => if (c =? 95)%N then 45%N else c) <$> w) = w.
Proof.
  induction 1 as [|d v Hd Hv IH]; [done|]. unfold to_lower in *. cbn.
  destruct (is_lower_facts d Hd) as (_ & _ & -> & _ & _ & -> & _). by f_equal.
Qed.

(** ** Properties *)

(** [uniq] keeps exactly one of every item, in the order of their first
    occurrences: it agrees with the definition that remembers what it has
    seen. *)
Theorem uniq_equiv {A} `{EqDecision A} (l : list A) :
  uniq l = first_seen [] l /\ NoDup (uniq l) /\ forall x, x ∈ uniq l <-> x ∈ l.
Proof.
  rewrite uniq_first_seen. destruct (first_seen_spec [] l) as [Hn He]. split_and!; [done|done|].
  intros x. rewrite He. split; [by intros [? _]|]. intros Hx. split; [done|apply not_elem_of_nil].
Qed.

(** Turning a hyphenated property name into the name of a style property
    and back gives the name again. *)
Theorem dasherize_camelize w ws :
  css_words w ws -> dasherize (camelize (hyphenated w ws)) = hyphenated w ws.
Proof.
  intros Hc. rewrite camelize_words by done. destruct Hc as (Hne & Hw & Hws).
  assert (exists p, last w = Some p) as [p Ep] by (apply last_is_Some; done).
  assert (is_lower p = true) as Hp.
  { apply last_Some_elem_of in Ep. unfold lower_word in Hw. rewrite Forall_forall in Hw. by apply Hw. }
  unfold dasherize. rewrite replace_colons_plain.
  2:{ apply Forall_app. split.
      - eapply Forall_impl; [exact Hw|]. intros c Hc. by destruct (is_lower_facts c Hc) as (_ & _ & _ & ? & _).
      - apply Forall_bind. eapply Forall_impl; [exact Hws|]. intros [|c v] [Hv _]; [constructor|].
        apply Forall_cons in Hv as [Hc Hv]. constructor.
        + by destruct (is_lower_facts c Hc) as (_ & _ & _ & _ & _ & _ & _ & _ & _ & ?).
        + eapply Forall_impl; [exact Hv|]. intros d Hd. by destruct (is_lower_facts d Hd) as (_ & _ & _ & ? & _). }
  assert (split_capitals None (w ++ (ws ≫= cap)) = w ++ (ws ≫= cap)) as ->.
  { destruct w as [|c w]; [done|]. apply Forall_cons in Hw as [Hc Hw]. cbn. f_equal.
    destruct (is_lower_facts c Hc) as (Hu & _).
    destruct (split_capitals_word c w (ws ≫= cap) Hw Hu) as (q & Hq & _ & _ & ->). f_equal.
    by apply split_capitals_words. }
  rewrite split_words_word by done. rewrite Ep, split_words_words by done.
  rewrite fmap_app. unfold to_lower at 1. rewrite fmap_app.
  change (to_lower ((fun c => if (c =? 95)%N then 45%N else c) <$> w)
    ++ to_lower ((fun c => if (c =? 95)%N then 45%N else c) <$> (ws ≫= (fun v => 95%N :: cap v)))
    = hyphenated w ws).
  by rewrite lowered_words, lowered_word.
Qed.

Lemma dasherize_camelize_witness :
  dasherize (camelize (hyphenated (js "border") [js "top"; js "width"])) = js "border-top-width".
Proof.
  apply (dasherize_camelize (js "border") [js "top"; js "width"]).
  split_and!; [discriminate| |]; repeat constructor; vm_compute; lia.
Defined.

Definition extend_round (deep : bool) (o : list (jstr * jsval)) (p : jstr * jsval) : list (jstr * jsval) :=
  match extend_value deep (obj_get p.1 o) p.2 with Some v => obj_set p.1 v o | None => o end.

Lemma extend_unfold deep t s : extend deep t s = foldl (extend_round deep) t s.
Proof. revert t. induction s as [|[k y] s IH]; intros t; [done|]. cbn. by rewrite <- IH. Qed.

Lemma obj_get_absent k l : k ∉ l.*1 -> obj_get k l = VUndef.
Proof.
  induction l as [|[k' v] l IH]; [done|]. cbn. rewrite not_elem_of_cons. intros [Hne Hl].
  rewrite decide_False by done. by apply IH.
Qed.

(** After [$.extend], a property of the target is what the source and the
    target give together: the source's value where it is defined (merged into
    the target's value when the copy is deep), the target's otherwise. *)
Lemma extend_get deep k target source :
  NoDup source.*1 ->
  obj_get k (extend deep target source)
  = default (obj_get k target) (extend_value deep (obj_get k target) (obj_get k source)).
Proof.
  rewrite extend_unfold. revert target.
  induction source as [|[k' y] s IH]; intros t Hn; [reflexivity|].
  apply NoDup_cons in Hn as [Hk Hn]. cbn [foldl]. rewrite IH by done. cbn [obj_get].
  unfold extend_round. cbn [fst snd]. destruct (decide (k = k')) as [->|Hne].
  - rewrite (obj_get_absent k' s) by done. cbn [extend_value default from_option].
    destruct (extend_value deep (obj_get k' t) y); [|done].
    rewrite obj_get_set. by destruct (decide (k' = k')).
  - assert (obj_get k match extend_value deep (obj_get k' t) y with
                      | Some v => obj_set k' v t | None => t end = obj_get k t) as ->; [|done].
    case_match; [|done]. rewrite obj_get_set. by destruct (decide (k = k')).
Qed.
