(* ===== verification/AjaxParam.v ===== *)
(** * Query strings (ajax.js)

    [$.param] turns a value into a query string: nested objects and arrays
    become keys with brackets.  The first half of the file is the code, the
    second shows that a server that decodes the string gets back exactly the
    flat list of keys and values. *)

From stdpp Require Import base list strings.
From Stdlib Require Import NArith.
From S2P Require Import Prelude JsString JsUri ZeptoCore.

(** ** Code *)

(** Sequencing of calls that may throw. *)
#[export] Instance result_ret : MRet result := fun A => Ret.
#[export] Instance result_bind : MBind result := fun A B f m =>
  match m with Ret a => f a | Throw => Throw end.

(** A loop whose body may throw. *)
Fixpoint each_do {A P} (f : A -> P -> result P) (l : list A) (params : P) : result P :=
  match l with
  | [] => Ret params
  | a :: l' => params' ← f a params; each_do f l' params'
  end.

(** [params.add]: a function is called, [null] and [undefined] are empty. *)
Definition add (key : jstr) (value : jsval) (params : list jstr) : result (list jstr) :=
  let value := match value with VFun _ r => r | v => v end in
  let value := if is_nullish value then VStr [] else value in
  k ← encodeURIComponent key;
  v ← encodeURIComponent (to_string value);
  Ret (params ++ [k ++ js "=" ++ v]).

(** The depth of a value, which bounds the recursion of [serialize]. *)
Fixpoint depth (v : jsval) : nat :=
  match v with
  | VArr l => S (foldr (fun x n => Nat.max (depth x) n) 0%nat l)
  | VObj l => S (foldr (fun p n => Nat.max (depth p.2) n) 0%nat l)
  | _ => 1%nat
  end.

(** The key of an entry inside [scope]. *)
Definition scoped (traditional hash : bool) (scope key : jstr) (value : jsval) : jstr :=
  if decide (scope = []) then key
  else if traditional then scope
  else scope ++ js "["
       ++ (if hash || isPlainObject value || isArray value then key else []) ++ js "]".

(** The scope of the call on an entry: a key that is the number zero is falsy,
    like the empty string. *)
Definition inner_scope (obj : jsval) (scope key : jstr) : jstr :=
  if bool_decide (scope = []) && likeArray obj && bool_decide (key = index_key 0) then [] else key.

(** [serialize(params, obj, traditional, scope)], for any object [params] with
    a method [add]; the recursion is over the depth of the value. *)
Section Serialize.
Context {P : Type} (params_add : jstr -> jsval -> P -> result P).
Variable traditional : bool.

Definition serialize_entry (nested : jstr -> jsval -> P -> result P) (scope : jstr) (obj : jsval)
    (entry : jstr * jsval) (params : P) : result P :=
  let '(key, value) := entry in
  let key' := scoped traditional (isPlainObject obj) scope key value in
  if bool_decide (scope = []) && isArray obj then
    name ← prop value (js "name");
    val ← prop value (js "value");
    params_add (to_string name) val params
  else if isArray value || (negb traditional && isPlainObject value)
  then nested (inner_scope obj scope key') value params
  else params_add key' value params.

Fixpoint serialize (fuel : nat) (scope : jstr) (obj : jsval) (params : P) : result P :=
  match fuel with
  | O => Ret params
  | S n =>
      entries ← each_entries obj;
      each_do (serialize_entry (serialize n) scope obj) entries params
  end.

End Serialize.

(** [s.replace(/%20/g, '+')]. *)
Fixpoint replace_spaces (s : jstr) : jstr :=
  match s with
  | 37%N :: 50%N :: 48%N :: r => 43%N :: replace_spaces r
  | c :: r => c :: replace_spaces r
  | [] => []
  end.

(** [$.param]. *)
Definition param (obj : jsval) (traditional : bool) : result jstr :=
  params ← serialize add traditional (depth obj) [] obj [];
  Ret (replace_spaces (join (js "&") params)).

(** [appendQuery]: the first run of one or two of the characters [&?] becomes
    a question mark. *)
Definition query_mark (c : N) : bool := (c =? 38)%N || (c =? 63)%N.

Fixpoint replace_mark (s : jstr) : jstr :=
  match s with
  | [] => []
  | c :: r =>
      if query_mark c
      then 63%N :: match r with
                   | d :: r' => if query_mark d then r' else r
                   | [] => []
                   end
      else c :: replace_mark r
  end.

Definition appendQuery (url query : jstr) : jstr :=
  if decide (query = []) then url else replace_mark (url ++ js "&" ++ query).

(** ** The fuel

    Any fuel from the depth on gives the same result. *)

Lemma foldr_max_elem {A} (f : A -> nat) (x : A) l :
  x ∈ l -> (f x <= foldr (fun y n => Nat.max (f y) n) 0%nat l)%nat.
Proof. induction 1 as [|x y l Hin IH]; cbn; lia. Qed.

Lemma depth_obj_get k l : (depth (obj_get k l) < S (S (foldr (fun p n => Nat.max (depth p.2) n) 0%nat l)))%nat.
Proof.
  induction l as [|[k' v] l IH]; cbn [obj_get foldr]; [cbn; lia|].
  destruct (decide (k = k')); cbn [snd]; lia.
Qed.

Definition nested (v : jsval) : bool := isArray v || isPlainObject v.

Lemma nested_obj_get k l :
  nested (obj_get k l) = true ->
  (depth (obj_get k l) <= foldr (fun p n => Nat.max (depth p.2) n) 0%nat l)%nat.
Proof.
  induction l as [|[k' v] l IH]; cbn [obj_get foldr]; [done|].
  destruct (decide (k = k')); cbn [snd]; [lia|]. intros H%IH. lia.
Qed.

Lemma each_entries_depth obj es :
  each_entries obj = Ret es ->
  Forall (fun p => nested p.2 = true -> (depth p.2 < depth obj)%nat) es.
Proof.
  intros He. apply Forall_forall. intros [k v] Hin Hn. cbn [snd] in *.
  destruct obj as [| |b|z|s|src r|l|l]; cbn [each_entries] in He; simplify_eq/=; try (by apply elem_of_nil in Hin).
  - apply list_elem_of_lookup in Hin as (i & Hi). rewrite list_lookup_imap in Hi.
    by destruct (s !! i); simplify_eq/=.
  - apply list_elem_of_lookup in Hin as (i & Hi). rewrite list_lookup_imap in Hi.
    destruct (l !! i) eqn:E; simplify_eq/=. apply list_elem_of_lookup_2 in E.
    apply (foldr_max_elem depth) in E. lia.
  - assert (forall l', es = l' -> l' = l -> (depth v < S (foldr (fun p n => Nat.max (depth p.2) n) 0%nat l))%nat) as Hl.
    { intros l' -> ->. apply (foldr_max_elem (fun p => depth p.2)) in Hin. cbn in Hin. lia. }
    destruct (obj_get (js "length") l); simplify_eq; try by eapply Hl.
    apply list_elem_of_fmap in Hin as (i & E & _). simplify_eq.
    apply nested_obj_get in Hn. lia.
Qed.

Lemma each_do_ext {A P} (f g : A -> P -> result P) (l : list A) params :
  Forall (fun a => forall p, f a p = g a p) l -> each_do f l params = each_do g l params.
Proof.
  intros H. revert params. induction H as [|a l Ha H IH]; intros params; cbn; [done|].
  rewrite Ha. destruct (g a params); cbn; [apply IH|done].
Qed.

Section Fuel.
Context {P : Type} (params_add : jstr -> jsval -> P -> result P) (traditional : bool).

Lemma serialize_fuel n m scope obj params :
  (depth obj <= n)%nat -> (depth obj <= m)%nat ->
  serialize params_add traditional n scope obj params = serialize params_add traditional m scope obj params.
Proof.
  revert m scope obj params. induction n as [|n IH]; intros m scope obj params Hn Hm.
  { destruct obj; cbn in Hn; lia. }
  destruct m as [|m]; [destruct obj; cbn in Hm; lia|]. cbn [serialize].
  destruct (each_entries obj) as [es|] eqn:He; [|done]. cbn [mbind result_bind].
  apply each_do_ext. apply each_entries_depth in He. eapply Forall_impl; [exact He|].
  intros [key value] Hv p. cbn [snd] in Hv. unfold serialize_entry.
  destruct (bool_decide (scope = []) && isArray obj); [done|].
  destruct (isArray value || _) eqn:Eb; [|done].
  assert (nested value = true) as Hnv
    by (unfold nested; destruct (isArray value), (isPlainObject value), traditional; done).
  specialize (Hv Hnv). apply IH; lia.
Qed.

End Fuel.

(** ** The keys and values a value stands for

    The reference of [$.param], by recursion on the value itself: the leaves of
    a value, each with the brackets that lead to it. *)

(** What a key names: arrays, and objects unless they are taken as texts. *)
Definition branches (traditional : bool) (v : jsval) : bool :=
  match v with VArr _ => true | VObj _ => negb traditional | _ => false end.

Definition bracket (traditional : bool) (key : jstr) : jstr :=
  if traditional then [] else js "[" ++ key ++ js "]".

Definition under (prefix : jstr) (l : list (jstr * jsval)) : list (jstr * jsval) :=
  (fun p => (prefix ++ p.1, p.2)) <$> l.

Fixpoint leaves (traditional : bool) (v : jsval) : list (jstr * jsval) :=
  match v with
  | VArr l =>
      concat (imap (fun i p => under (bracket traditional (if p.1 : bool then index_key i else [])) p.2)
        (map (fun x => (branches false x, leaves traditional x)) l))
  | VObj l =>
      if traditional then [([], v)]
      else concat (map (fun p => under (bracket false p.1) (leaves false p.2)) l)
  | _ => [([], v)]
  end.

(** No object that [$.each] would take for an array. *)
Fixpoint countless (traditional : bool) (v : jsval) : bool :=
  match v with
  | VArr l => forallb (countless traditional) l
  | VObj l => traditional || negb (likeArray v) && forallb (fun p => countless false p.2) l
  | _ => true
  end.

Definition value_text (v : jsval) : jstr :=
  let v := match v with VFun _ r => r | v => v end in
  if is_nullish v then [] else to_string v.

(** The pairs of [name] and [value] of an array in the format of
    [serializeArray], and the leaves of an object under their keys. *)
Definition flat_form (obj : jsval) (traditional : bool) : option (list (jstr * jstr)) :=
  match obj with
  | VArr l => mapM (fun x =>
      match prop x (js "name"), prop x (js "value") with
      | Ret name, Ret value => Some (to_string name, value_text value)
      | _, _ => None
      end) l
  | VObj l =>
      if negb (likeArray obj)
         && forallb (fun p => countless traditional p.2 && negb (branches traditional p.2 && bool_decide (p.1 = []))) l
      then Some ((fun p => (p.1, value_text p.2)) <$> concat (map (fun p => under p.1 (leaves traditional p.2)) l))
      else None
  | _ => None
  end.

(** ** [serialize] on plain lists *)

Definition add_pair (key : jstr) (value : jsval) (l : list (jstr * jstr)) : result (list (jstr * jstr)) :=
  Ret (l ++ [(key, value_text value)]).

Definition pairs (obj : jsval) (traditional : bool) : result (list (jstr * jstr)) :=
  serialize add_pair traditional (depth obj) [] obj [].

Definition encode_pair (p : jstr * jstr) : result jstr :=
  k ← encodeURIComponent p.1; v ← encodeURIComponent p.2; Ret (k ++ js "=" ++ v).

Fixpoint encode_pairs (l : list (jstr * jstr)) : result (list jstr) :=
  match l with
  | [] => Ret []
  | p :: l' => w ← encode_pair p; ws ← encode_pairs l'; Ret (w :: ws)
  end.

Lemma encode_pairs_app l1 l2 :
  encode_pairs (l1 ++ l2) = w1 ← encode_pairs l1; w2 ← encode_pairs l2; Ret (w1 ++ w2).
Proof.
  induction l1 as [|p l1 IH]; cbn.
  - by destruct (encode_pairs l2).
  - destruct (encode_pair p); [|done]. cbn in *. rewrite IH.
    destruct (encode_pairs l1); [|done]. cbn. by destruct (encode_pairs l2).
Qed.

Lemma add_encodes key v l ps :
  encode_pairs l = Ret ps -> add key v ps = ps' ← add_pair key v l; encode_pairs ps'.
Proof.
  intros El. unfold add, add_pair. cbn. rewrite encode_pairs_app, El. cbn.
  unfold encode_pair. cbn. destruct (encodeURIComponent key); [|done]. cbn.
  assert (to_string (if is_nullish match v with VFun _ r => r | v => v end then VStr []
                     else match v with VFun _ r => r | v => v end) = value_text v) as ->.
  { unfold value_text. by destruct (is_nullish _). }
  by destruct (encodeURIComponent (value_text v)).
Qed.

(** The reference only appends. *)
Lemma each_do_appends {A B} (f : A -> list B -> result (list B)) es l l' :
  (forall a l1 l2, f a l1 = Ret l2 -> exists m, l2 = l1 ++ m) ->
  each_do f es l = Ret l' -> exists m, l' = l ++ m.
Proof.
  intros Hf. revert l. induction es as [|a es IH]; intros l; cbn.
  - intros [= <-]. exists []. by rewrite app_nil_r.
  - destruct (f a l) as [l1|] eqn:E; [|done]. cbn. intros [m ->]%IH.
    apply Hf in E as [m' ->]. exists (m' ++ m). by rewrite app_assoc.
Qed.

Lemma serialize_entry_appends tr nested scope obj e l1 l2 :
  (forall k v l1 l2, nested k v l1 = Ret l2 -> exists m, l2 = l1 ++ m) ->
  serialize_entry add_pair tr nested scope obj e l1 = Ret l2 -> exists m, l2 = l1 ++ m.
Proof.
  intros Hn. destruct e as [key value]. unfold serialize_entry, add_pair. destruct (bool_decide _ && _).
  - destruct (prop value (js "name")); cbn [mbind result_bind]; [|discriminate].
    destruct (prop value (js "value")); cbn [mbind result_bind]; [|discriminate]. intros [= <-]. eauto.
  - destruct (isArray value || _); [apply Hn|]. intros [= <-]. eauto.
Qed.

Lemma serialize_appends tr n scope obj l l' :
  serialize add_pair tr n scope obj l = Ret l' -> exists m, l' = l ++ m.
Proof.
  revert scope obj l l'. induction n as [|n IH]; intros scope obj l l'; cbn [serialize].
  { intros [= <-]. exists []. by rewrite app_nil_r. }
  destruct (each_entries obj) as [es|]; [|done]. cbn [mbind result_bind].
  apply each_do_appends. intros e l1 l2. by apply serialize_entry_appends.
Qed.

(** [$.param] computes the encoding of the reference. *)
Lemma serialize_encodes tr n scope obj l ps :
  encode_pairs l = Ret ps ->
  serialize add tr n scope obj ps = l' ← serialize add_pair tr n scope obj l; encode_pairs l'.
Proof.
  revert scope obj l ps. induction n as [|n IH]; intros scope obj l ps El; cbn [serialize]; [done|].
  destruct (each_entries obj) as [es|]; [|done]. cbn [mbind result_bind].
  revert l ps El. induction es as [|[key value] es IHe]; intros l ps El; [done|].
  assert (serialize_entry add tr (serialize add tr n) scope obj (key, value) ps
    = l' ← serialize_entry add_pair tr (serialize add_pair tr n) scope obj (key, value) l; encode_pairs l') as E.
  { unfold serialize_entry. destruct (bool_decide _ && _).
    - destruct (prop value (js "name")); cbn [mbind result_bind]; [|done].
      destruct (prop value (js "value")); cbn [mbind result_bind]; [|done]. by apply add_encodes.
    - destruct (isArray value || _); [by apply IH|by apply add_encodes]. }
  cbn [each_do]. rewrite E.
  destruct (serialize_entry add_pair tr _ scope obj _ l) as [l1|] eqn:E1; [|done]. cbn [mbind result_bind].
  destruct (encode_pairs l1) as [ps1|] eqn:E2; [by apply IHe|]. cbn [mbind result_bind].
  destruct (each_do _ es l1) as [l2|] eqn:E3; [|done]. cbn [mbind result_bind].
  apply each_do_appends in E3 as [m ->]; [by rewrite encode_pairs_app, E2|].
  intros e l3 l4. apply serialize_entry_appends, serialize_appends.
Qed.

Lemma param_encodes obj tr :
  param obj tr
  = l ← pairs obj tr; ws ← encode_pairs l; Ret (replace_spaces (join (js "&") ws)).
Proof.
  unfold param, pairs. rewrite (serialize_encodes tr (depth obj) [] obj [] []) by done.
  by destruct (serialize add_pair _ _ _ _ _).
Qed.

(** ** What a server reads *)

(** The encoding of a byte with the plus sign for a space. *)
Definition byte_plus (b : N) : jstr := if (b =? 32)%N then [43%N] else byte_enc b.

Definition word_of (enc : N -> jstr) (p : list N * list N) : jstr :=
  (p.1 ≫= enc) ++ 61%N :: (p.2 ≫= enc).

Lemma replace_spaces_plain c r : c <> 37%N -> replace_spaces (c :: r) = c :: replace_spaces r.
Proof. intros H. destruct c as [|p]; [done|]. do 6 (try done; destruct p as [p|p|]; try done). Qed.

Lemma hex_digit_range d : (d < 16)%N -> (48 <= hex_digit d <= 57 \/ 65 <= hex_digit d <= 70)%N.
Proof. intros Hd. unfold hex_digit. destruct (N.ltb_spec d 10); lia. Qed.

Lemma hex_digits_range b :
  (b < 256)%N -> (b / 16 < 16)%N /\ (b mod 16 < 16)%N.
Proof. intros Hb. split; [apply N.Div0.div_lt_upper_bound; lia|by apply N.mod_lt]. Qed.

Lemma replace_spaces_percent h l r :
  ~ (h = 50%N /\ l = 48%N) -> h <> 37%N -> l <> 37%N ->
  replace_spaces (37%N :: h :: l :: r) = 37%N :: h :: l :: replace_spaces r.
Proof.
  intros H Hh Hl. transitivity (37%N :: replace_spaces (h :: l :: r)).
  - destruct (decide (h = 50%N)) as [->|Hne].
    + assert (l <> 48%N) as Hl' by naive_solver.
      destruct l as [|p]; [done|]. do 6 (try done; destruct p as [p|p|]; try done).
    + destruct h as [|p]; [done|]. do 6 (try done; destruct p as [p|p|]; try done).
  - by rewrite !replace_spaces_plain.
Qed.

Lemma replace_spaces_byte b r :
  (b < 256)%N -> replace_spaces (byte_enc b ++ r) = byte_plus b ++ replace_spaces r.
Proof.
  intros Hb. unfold byte_plus. destruct (N.eqb_spec b 32) as [->|Hne]; [done|].
  unfold byte_enc. destruct (uri_safe b) eqn:Es.
  { apply uri_safe_plain in Es as (? & _). by apply replace_spaces_plain. }
  destruct (hex_digits_range b Hb) as [Hh Hl].
  pose proof (hex_digit_range _ Hh). pose proof (hex_digit_range _ Hl).
  cbn [app]. apply replace_spaces_percent; [|lia|lia]. intros [E1 E2]. apply Hne.
  pose proof (hex_value_digit _ Hh) as V1. rewrite E1 in V1.
  pose proof (hex_value_digit _ Hl) as V2. rewrite E2 in V2.
  pose proof (N.div_mod b 16 ltac:(done)) as Hd. change (2 = b / 16)%N in V1.
  change (0 = b mod 16)%N in V2. lia.
Qed.

Lemma replace_spaces_bytes bs r :
  Forall (fun b => b < 256)%N bs ->
  replace_spaces ((bs ≫= byte_enc) ++ r) = (bs ≫= byte_plus) ++ replace_spaces r.
Proof.
  induction 1 as [|b bs Hb H IH]; [done|]. cbn [mbind list_bind] in *.
  by rewrite <- !app_assoc, replace_spaces_byte, IH.
Qed.

Definition bytes_pair (p : list N * list N) : Prop :=
  Forall (fun b => b < 256)%N p.1 /\ Forall (fun b => b < 256)%N p.2.

Lemma replace_spaces_word p r :
  bytes_pair p -> replace_spaces (word_of byte_enc p ++ r) = word_of byte_plus p ++ replace_spaces r.
Proof.
  intros [H1 H2]. unfold word_of. rewrite <- !app_assoc, replace_spaces_bytes by done. cbn [app].
  by rewrite replace_spaces_plain, replace_spaces_bytes.
Qed.

Lemma replace_spaces_join ps :
  Forall bytes_pair ps ->
  replace_spaces (join (js "&") (word_of byte_enc <$> ps)) = join (js "&") (word_of byte_plus <$> ps).
Proof.
  induction 1 as [|p [|p2 ps] Hp H IH]; [done|..].
  - cbn. rewrite <- (app_nil_r (word_of byte_enc p)), replace_spaces_word by done. by rewrite app_nil_r.
  - change (join (js "&") (word_of byte_enc <$> p :: p2 :: ps))
      with (word_of byte_enc p ++ 38%N :: join (js "&") (word_of byte_enc <$> p2 :: ps)).
    rewrite replace_spaces_word, replace_spaces_plain, IH by done. done.
Qed.

Lemma byte_plus_chars b c : (b < 256)%N -> c ∈ byte_plus b -> c <> 38%N /\ c <> 61%N /\ c <> 63%N.
Proof.
  intros Hb. unfold byte_plus, byte_enc. destruct (b =? 32)%N.
  { intros ->%list_elem_of_singleton. done. }
  destruct (uri_safe b) eqn:Es.
  { intros ->%list_elem_of_singleton. apply uri_safe_plain in Es. tauto. }
  destruct (hex_digits_range b Hb) as [Hh Hl].
  pose proof (hex_digit_range _ Hh). pose proof (hex_digit_range _ Hl).
  rewrite !elem_of_cons, elem_of_nil. intros [-> | [-> | [-> | []]]]; [done|lia|lia].
Qed.

Lemma bytes_plus_chars bs c :
  Forall (fun b => b < 256)%N bs -> c ∈ bs ≫= byte_plus -> c <> 38%N /\ c <> 61%N /\ c <> 63%N.
Proof.
  intros Hf (b & Hc & Hin)%list_elem_of_bind. rewrite Forall_forall in Hf.
  by eapply byte_plus_chars; [apply Hf|].
Qed.

Lemma form_bytes_plus bs r :
  Forall (fun b => b < 256)%N bs -> form_bytes ((bs ≫= byte_plus) ++ r) = bs ++ form_bytes r.
Proof.
  induction 1 as [|b bs Hb H IH]; [done|]. cbn [mbind list_bind] in *. rewrite <- app_assoc.
  unfold byte_plus at 1. destruct (N.eqb_spec b 32) as [->|Hne].
  - cbn [app form_bytes]. by rewrite IH.
  - by rewrite form_bytes_enc, IH.
Qed.

Lemma form_decode_plus bs :
  Forall (fun b => b < 256)%N bs -> form_decode (bs ≫= byte_plus) = utf8_units bs.
Proof.
  intros H. unfold form_decode. pose proof (form_bytes_plus bs [] H) as E.
  cbn [form_bytes] in E. rewrite !app_nil_r in E. by rewrite E.
Qed.

Lemma form_pair_word p :
  bytes_pair p -> form_pair (word_of byte_plus p) = (utf8_units p.1, utf8_units p.2).
Proof.
  intros [H1 H2]. unfold form_pair, word_of.
  rewrite str_index_char, Nat2Z.id, take_app_length, drop_app_ge by
    first [intros Hin; by apply bytes_plus_chars in Hin as (_ & [] & _) | lia].
  replace (S (length (p.1 ≫= byte_plus)) - length (p.1 ≫= byte_plus))%nat with 1%nat by lia.
  rewrite skipn_cons, drop_0. by rewrite !form_decode_plus.
Qed.

Lemma split_join_words ps :
  ps <> [] -> Forall bytes_pair ps ->
  split_char 38 (join (js "&") (word_of byte_plus <$> ps)) = word_of byte_plus <$> ps.
Proof.
  assert (forall p, bytes_pair p -> 38%N ∉ word_of byte_plus p) as Hw.
  { intros p [H1 H2]. unfold word_of. rewrite elem_of_app, elem_of_cons.
    intros [Hin | [? | Hin]]; [| done |]; by apply bytes_plus_chars in Hin as ([] & _). }
  intros Hne. induction 1 as [|p [|p2 ps] Hp H IH]; [done|..].
  - cbn. by apply split_char_none, Hw.
  - change (join (js "&") (word_of byte_plus <$> p :: p2 :: ps))
      with (word_of byte_plus p ++ 38%N :: join (js "&") (word_of byte_plus <$> p2 :: ps)).
    rewrite split_char_head by by apply Hw. by rewrite IH.
Qed.

(** The encoder fails exactly on a pair with half of a surrogate pair. *)
Lemma encode_pairs_spec l :
  encode_pairs l
  = match mapM (fun p => k ← utf8 p.1; v ← utf8 p.2; Some (k, v)) l with
    | Some ps => Ret (word_of byte_enc <$> ps)
    | None => Throw
    end.
Proof.
  induction l as [|[k v] l IH]; [done|]. cbn [encode_pairs mapM].
  unfold encode_pair, encodeURIComponent. cbn [fst snd].
  destruct (utf8 k) as [bk|]; cbn [mbind result_bind option_bind]; [|done].
  destruct (utf8 v) as [bv|]; cbn [mbind result_bind option_bind]; [|done].
  rewrite IH. by destruct (mapM _ l).
Qed.

Definition encodable (p : jstr * jstr) : Prop := well_formed p.1 /\ well_formed p.2.

#[export] Instance encodable_dec p : Decision (encodable p).
Proof. unfold encodable. apply _. Defined.

Lemma mapM_utf8 l :
  Forall encodable l ->
  exists ps, mapM (fun p => k ← utf8 p.1; v ← utf8 p.2; Some (k, v)) l = Some ps
    /\ Forall bytes_pair ps
    /\ (fun p => (utf8_units p.1, utf8_units p.2)) <$> ps = l.
Proof.
  induction 1 as [|[k v] l [[Hk [bk Ek]] [Hv [bv Ev]]] H (ps & E & Hb & Hm)]; [by exists []|].
  cbn [fst snd] in *. exists ((bk, bv) :: ps). cbn [mapM fst snd]. rewrite Ek, Ev. cbn.
  split_and!.
  - by rewrite E.
  - constructor; [|done]. split; by eapply utf8_range.
  - by rewrite (utf8_roundtrip k), (utf8_roundtrip v), Hm.
Qed.

(** The query string has no question mark, and does not start with a
    separator. *)
Lemma join_words_chars ps :
  Forall bytes_pair ps -> 63%N ∉ join (js "&") (word_of byte_plus <$> ps).
Proof.
  assert (forall p, bytes_pair p -> 63%N ∉ word_of byte_plus p) as Hw.
  { intros p [H1 H2]. unfold word_of. rewrite elem_of_app, elem_of_cons.
    intros [Hin | [? | Hin]]; [| done |]; by apply bytes_plus_chars in Hin as (_ & _ & []). }
  induction 1 as [|p [|p2 ps] Hp H IH]; [apply not_elem_of_nil|by apply Hw|].
  change (join (js "&") (word_of byte_plus <$> p :: p2 :: ps))
    with (word_of byte_plus p ++ 38%N :: join (js "&") (word_of byte_plus <$> p2 :: ps)).
  rewrite elem_of_app, elem_of_cons. intros [Hin | [? | Hin]]; [by eapply Hw|done|by apply IH].
Qed.

Lemma join_words_head ps :
  ps <> [] -> Forall bytes_pair ps ->
  query_mark (hd 0%N (join (js "&") (word_of byte_plus <$> ps))) = false
  /\ join (js "&") (word_of byte_plus <$> ps) <> [].
Proof.
  intros Hne Hf. destruct Hf as [|[b1 b2] ps [H1 _] Hf]; [done|]. cbn [fst] in H1.
  assert (exists c r, word_of byte_plus (b1, b2) = c :: r /\ query_mark c = false) as (c & r & E & Hc).
  { unfold word_of. cbn [fst snd]. destruct (b1 ≫= byte_plus) as [|c r] eqn:E; [by eexists _, _|].
    eexists _, _. split; [done|]. assert (c ∈ b1 ≫= byte_plus) as Hin by (rewrite E; constructor).
    apply bytes_plus_chars in Hin as (? & _ & ?); [|done]. unfold query_mark.
    by rewrite (proj2 (N.eqb_neq c 38)), (proj2 (N.eqb_neq c 63)). }
  cbn [fmap list_fmap]. rewrite E. by destruct (word_of byte_plus <$> ps).
Qed.

Lemma param_decodes obj traditional l :
  pairs obj traditional = Ret l -> l <> [] -> Forall encodable l ->
  exists q, param obj traditional = Ret q /\ form_pairs q = l
    /\ q <> [] /\ (63%N ∉ q) /\ query_mark (hd 0%N q) = false.
Proof.
  intros Hp Hne He. destruct (mapM_utf8 l He) as (ps & E & Hb & Hm).
  assert (ps <> []) as Hps by (intros ->; by simplify_eq/=).
  destruct (join_words_head ps) as [Hh Hn]; [done..|].
  exists (join (js "&") (word_of byte_plus <$> ps)). split_and!; [| |done|by apply join_words_chars|done].
  - rewrite param_encodes, Hp. cbn [mbind result_bind]. rewrite encode_pairs_spec, E.
    cbn [mbind result_bind]. by rewrite replace_spaces_join.
  - unfold form_pairs. rewrite split_join_words by done. rewrite <- list_fmap_compose, <- Hm.
    apply list_fmap_ext. intros i p Hi. apply form_pair_word. by eapply Forall_lookup_1 in Hi.
Qed.

(** ** [serialize] lists the leaves *)

Definition texts (l : list (jstr * jsval)) : list (jstr * jstr) := (fun p => (p.1, value_text p.2)) <$> l.

Lemma texts_app l1 l2 : texts (l1 ++ l2) = texts l1 ++ texts l2.
Proof. apply fmap_app. Qed.

Lemma under_under p q l : under p (under q l) = under (p ++ q) l.
Proof. unfold under. rewrite <- list_fmap_compose. apply list_fmap_ext. intros i x _. cbn. by rewrite app_assoc. Qed.

Lemma under_concat p ls : under p (concat ls) = concat (under p <$> ls).
Proof. induction ls as [|l ls IH]; [done|]. cbn. unfold under in *. by rewrite fmap_app, IH. Qed.

(** A loop that appends. *)
Lemma each_do_texts {A} (f : A -> list (jstr * jstr) -> result (list (jstr * jstr))) (g : A -> list (jstr * jsval)) es acc :
  Forall (fun e => forall acc, f e acc = Ret (acc ++ texts (g e))) es ->
  each_do f es acc = Ret (acc ++ texts (concat (g <$> es))).
Proof.
  intros H. revert acc. induction H as [|e es He _ IH]; intros acc; cbn [each_do fmap list_fmap concat].
  - by rewrite app_nil_r.
  - rewrite He. cbn [mbind result_bind]. rewrite IH, texts_app. by rewrite app_assoc.
Qed.

Lemma branches_code tr v : isArray v || (negb tr && isPlainObject v) = branches tr v.
Proof. by destruct v, tr. Qed.

Lemma leaves_leaf tr v : branches tr v = false -> leaves tr v = [([], v)].
Proof. by destruct v, tr. Qed.

(** What an entry of an array or an object contributes. *)
Definition entry_leaves (tr hash : bool) (scope : jstr) (e : jstr * jsval) : list (jstr * jsval) :=
  under (scoped tr hash scope e.1 e.2) (leaves tr e.2).

Lemma scoped_bracket tr hash scope k v :
  scope <> [] -> scoped tr hash scope k v = scope ++ bracket tr (if hash || branches false v then k else []).
Proof.
  intros Hs. unfold scoped, bracket. rewrite decide_False by done. destruct tr; [by rewrite app_nil_r|].
  by destruct hash, v.
Qed.

Lemma scoped_nonempty tr hash scope k v : scope <> [] -> scoped tr hash scope k v <> [].
Proof. intros Hs. rewrite scoped_bracket by done. by destruct scope. Qed.

(** The entries of a value, put together, are its leaves. *)
Lemma entries_leaves tr scope obj es :
  scope <> [] -> branches tr obj = true -> countless tr obj = true -> each_entries obj = Ret es ->
  concat (entry_leaves tr (isPlainObject obj) scope <$> es) = under scope (leaves tr obj)
  /\ Forall (fun e => countless tr e.2 = true) es.
Proof.
  intros Hs Hb Hc He. destruct obj as [| | | | | |l|l]; try done.
  - cbn in He. injection He as <-. split.
    + cbn [leaves isPlainObject]. rewrite under_concat, !fmap_imap. change (map ?f l) with (f <$> l).
      rewrite imap_fmap. f_equal. apply imap_ext. intros i x _. cbn -[under].
      unfold entry_leaves. cbn [fst snd]. rewrite scoped_bracket by done. by rewrite under_under.
    + cbn in Hc. apply Forall_lookup. intros i e Hi. rewrite list_lookup_imap in Hi.
      destruct (l !! i) as [x|] eqn:Ex; [|done]. cbn in Hi. simplify_eq. cbn [snd].
      rewrite forallb_forall in Hc. apply Hc. apply list_elem_of_In. by eapply list_elem_of_lookup_2.
  - destruct tr; [done|]. cbn [countless orb] in Hc. apply andb_true_iff in Hc as [Hn Hl].
    assert (es = l) as ->.
    { cbn in He, Hn. destruct (obj_get (js "length") l); by simplify_eq. }
    split.
    + cbn [leaves]. rewrite under_concat. change (map ?f l) with (f <$> l). rewrite <- list_fmap_compose. f_equal.
      apply list_fmap_ext. intros i [k v] _. cbn -[under]. unfold entry_leaves. cbn [fst snd].
      rewrite scoped_bracket by done. by rewrite under_under.
    + apply Forall_forall. intros e Hin. rewrite forallb_forall in Hl. apply Hl. by apply list_elem_of_In.
Qed.

Lemma serialize_leaves tr n scope obj acc :
  (depth obj <= n)%nat -> scope <> [] -> branches tr obj = true -> countless tr obj = true ->
  serialize add_pair tr n scope obj acc = Ret (acc ++ texts (under scope (leaves tr obj))).
Proof.
  revert scope obj acc. induction n as [|n IH]; intros scope obj acc Hn Hs Hb Hc; [destruct obj; cbn in Hn; lia|].
  cbn [serialize]. destruct (each_entries obj) as [es|] eqn:He; [|destruct obj as [| | | | | | |l]; try done; cbn in He; by destruct (obj_get _ l)].
  cbn [mbind result_bind]. destruct (entries_leaves tr scope obj es Hs Hb Hc He) as [<- Hes].
  apply each_do_texts. apply each_entries_depth in He.
  apply Forall_forall. intros [k v] Hin acc'. rewrite Forall_forall in He, Hes.
  specialize (He _ Hin). specialize (Hes _ Hin). cbn [snd] in He, Hes.
  unfold serialize_entry. rewrite bool_decide_false by done. cbn [andb].
  unfold entry_leaves. cbn [fst snd]. rewrite branches_code. destruct (branches tr v) eqn:Ev.
  - unfold inner_scope. rewrite bool_decide_false by done. cbn [andb]. apply IH; [|by apply scoped_nonempty|done..].
    assert (nested v = true) as Hv by (by destruct v). specialize (He Hv). lia.
  - rewrite leaves_leaf by done. unfold add_pair, texts, under. cbn. by rewrite app_nil_r.
Qed.

Lemma array_entry tr n l key x acc :
  serialize_entry add_pair tr n [] (VArr l) (key, x) acc
  = nm ← prop x (js "name"); vl ← prop x (js "value"); add_pair (to_string nm) vl acc.
Proof. reflexivity. Qed.

(** An array in the format of [serializeArray]. *)
Lemma serialize_array tr n l ps acc :
  mapM (fun x =>
      match prop x (js "name"), prop x (js "value") with
      | Ret name, Ret value => Some (to_string name, value_text value)
      | _, _ => None
      end) l = Some ps ->
  forall i, each_do (serialize_entry add_pair tr n [] (VArr l)) (imap (fun j x => (index_key (i + j), x)) l) acc
    = Ret (acc ++ ps).
Proof.
  change (serialize_entry add_pair tr n [] (VArr l)) with (serialize_entry add_pair tr n [] (VArr [])).
  revert ps acc. induction l as [|x l IH]; intros ps acc Hm i.
  - injection Hm as <-. cbn. by rewrite app_nil_r.
  - cbn in Hm. destruct (prop x (js "name")) as [nm|] eqn:E1; [|done].
    destruct (prop x (js "value")) as [vl|] eqn:E2; [|done]. cbn in Hm.
    destruct (mapM _ l) as [ps'|] eqn:E3; [|done]. cbn in Hm. simplify_eq.
    injection Hm as <-. cbn [imap each_do]. rewrite array_entry, E1. cbn [mbind result_bind]. rewrite E2.
    cbn [mbind result_bind].
    change (add_pair (to_string nm) vl acc) with (Ret (acc ++ [(to_string nm, value_text vl)])). cbn [mbind result_bind].
    specialize (IH ps' (acc ++ [(to_string nm, value_text vl)]) eq_refl (S i)). rewrite <- app_assoc in IH.
    cbn [app] in IH. rewrite <- IH. f_equal. apply imap_ext. intros j y _. cbn -[index_key Nat.add].
    by rewrite Nat.add_succ_r.
Qed.

(** [$.param] goes through the pairs of the reference. *)
Lemma pairs_flat obj tr l : flat_form obj tr = Some l -> pairs obj tr = Ret l.
Proof.
  unfold pairs, flat_form. destruct obj as [| | | | | |es|es]; try done.
  - intros Hm. cbn [depth serialize each_entries mbind result_bind].
    exact (serialize_array tr _ es l [] Hm 0%nat).
  - destruct (negb _ && forallb _ es) eqn:Hc; [|done]. intros [= <-].
    apply andb_true_iff in Hc as [Hlen Hes].
    pose proof (each_entries_depth (VObj es)) as Hd.
    cbn [depth serialize]. cbn [depth] in Hd.
    assert (each_entries (VObj es) = Ret es) as He
      by (cbn in Hlen |- *; by destruct (obj_get (js "length") es)).
    specialize (Hd es He). rewrite He. cbn [mbind result_bind].
    apply (each_do_texts _ (fun p => under p.1 (leaves tr p.2)) es []).
    apply Forall_forall. intros [k v] Hin acc'. rewrite Forall_forall in Hd. specialize (Hd _ Hin).
    rewrite forallb_forall in Hes. specialize (Hes (k, v)). rewrite <- list_elem_of_In in Hes. specialize (Hes Hin).
    apply andb_true_iff in Hes as [Hcv Hk%negb_true_iff]. cbn [fst snd] in *.
    unfold serialize_entry. rewrite bool_decide_true by done. cbn [andb].
    change (isArray (VObj es)) with false. cbn iota. unfold scoped. rewrite decide_True by done.
    rewrite branches_code. destruct (branches tr v) eqn:Ev.
    + unfold inner_scope. apply negb_true_iff in Hlen. rewrite Hlen, andb_false_r. cbn [andb] in *.
      apply serialize_leaves; [|by apply bool_decide_eq_false in Hk|done..].
      assert (nested v = true) as Hv by (by destruct v). specialize (Hd Hv). lia.
    + rewrite leaves_leaf by done. unfold add_pair, texts, under. cbn. by rewrite app_nil_r.
Qed.

(** C29: a server that decodes the query string [$.param] makes of an object, or
    of an array in the format of serializeArray, gets back exactly the leaves of
    the object, each under its key followed by one pair of brackets per level
    (the name of a property; the index of an array element that is itself an
    array or object, nothing for another element; no brackets and objects as
    texts in the traditional form), or the names and values of the array: a
    function replaced by its result, [null] and [undefined] by the empty string,
    in order and whatever characters they hold, separators, percent signs,
    spaces and characters outside ASCII included.  The object has at least one
    leaf, the texts have no half of a surrogate pair, no object with a number
    as its [length] is in it, and no array or object is under the empty key. *)
Theorem param_roundtrip obj traditional l :
  flat_form obj traditional = Some l -> l <> [] -> Forall encodable l ->
  exists q, param obj traditional = Ret q /\ form_pairs q = l.
Proof.
  intros Hp%pairs_flat Hne He. destruct (param_decodes obj traditional l Hp Hne He) as (q & ? & ? & _). eauto.
Qed.

(** C35: [$.param] fails, with the exception of [encodeURIComponent], exactly
    when a key or a value has half of a surrogate pair; when the keys and
    values themselves can be listed, nothing else makes it fail. *)
Theorem param_throws obj traditional l :
  pairs obj traditional = Ret l ->
  param obj traditional = Throw <-> Exists (fun p => utf8 p.1 = None \/ utf8 p.2 = None) l.
Proof.
  intros Hp. rewrite param_encodes, Hp. cbn [mbind result_bind]. rewrite encode_pairs_spec. clear Hp.
  induction l as [|[k v] l IH]; cbn [mapM fst snd]; [by rewrite Exists_nil|].
  rewrite Exists_cons. cbn [fst snd].
  destruct (utf8 k) as [bk|]; cbn [mbind option_bind result_bind]; [|naive_solver].
  destruct (utf8 v) as [bv|]; cbn [mbind option_bind result_bind]; [|naive_solver].
  destruct (mapM _ l); cbn [mbind option_bind result_bind] in *; naive_solver.
Qed.

(** ** Appending to an address *)

Lemma replace_mark_plain u c r :
  Forall (fun x => query_mark x = false) u -> query_mark c = true ->
  replace_mark (u ++ c :: r)
  = u ++ 63%N :: match r with d :: r' => if query_mark d then r' else r | [] => [] end.
Proof.
  intros Hu Hc. induction Hu as [|x u Hx Hu IH]; cbn; [by rewrite Hc|]. by rewrite Hx, IH.
Qed.

Lemma appendQuery_path path query :
  Forall (fun x => query_mark x = false) path -> query <> [] -> query_mark (hd 0%N query) = false ->
  appendQuery path query = path ++ js "?" ++ query.
Proof.
  intros Hp Hq Hm. unfold appendQuery. rewrite decide_False by done.
  change (js "&") with [38%N]. change (js "?") with [63%N].
  destruct query as [|c q]; [done|]. cbn [hd] in Hm. cbn [app].
  rewrite replace_mark_plain by done. by rewrite Hm.
Qed.

(** An address without a query gets one, an address that already has a
    query keeps it and gets the new one behind an ampersand, and an address
    that ends in its question mark gets it directly behind the mark. *)
Theorem appendQuery_spec path query rest :
  Forall (fun x => query_mark x = false) path -> query <> [] ->
  query_mark (hd 0%N query) = false -> query_mark (hd 0%N rest) = false ->
  appendQuery path query = path ++ js "?" ++ query
  /\ appendQuery (path ++ js "?") query = path ++ js "?" ++ query
  /\ (rest <> [] -> appendQuery (path ++ js "?" ++ rest) query
                    = path ++ js "?" ++ rest ++ js "&" ++ query).
Proof.
  intros Hp Hq Hm Hr. split; [by apply appendQuery_path|].
  unfold appendQuery. rewrite !decide_False by done.
  change (js "&") with [38%N]. change (js "?") with [63%N].
  destruct query as [|c q]; [done|]. split.
  - rewrite <- app_assoc. cbn [app]. by rewrite replace_mark_plain.
  - intros Hn. destruct rest as [|d r]; [done|]. cbn [hd] in Hr. rewrite <- !app_assoc.
    cbn [app]. rewrite replace_mark_plain by done. by rewrite Hr.
Qed.

(** ** Samples *)

Module Sample.

(** [{a: "1 & 2", b: {c: [3, null]}, d: function(){ return "é€" }}]. *)
Definition nested_obj : jsval :=
  VObj [(js "a", VStr (js "1 & 2"));
        (js "b", VObj [(js "c", VArr [VNum 3; VNull])]);
        (js "d", VFun (js "f") (VStr [233%N; 8364%N]))].

Definition nested_pairs : list (jstr * jstr) :=
  [(js "a", js "1 & 2"); (js "b[c][]", js "3"); (js "b[c][]", []); (js "d", [233%N; 8364%N])].

Example nested_query :
  param nested_obj false = Ret (js "a=1+%26+2&b%5Bc%5D%5B%5D=3&b%5Bc%5D%5B%5D=&d=%C3%A9%E2%82%AC").
Proof. vm_compute. reflexivity. Qed.

(** Data in the format of [serializeArray]. *)
Example array_query :
  param (VArr [VObj [(js "name", VStr (js "x")); (js "value", VNum 1)]]) false = Ret (js "x=1").
Proof. vm_compute. reflexivity. Qed.

Lemma param_roundtrip_witness :
  exists q, param nested_obj false = Ret q /\ form_pairs q = nested_pairs.
Proof.
  apply (param_roundtrip nested_obj false nested_pairs).
  - vm_compute. reflexivity.
  - discriminate.
  - apply (bool_decide_unpack _). vm_compute. exact I.
Defined.

Lemma param_throws_witness :
  param (VObj [(js "a", VStr [55357%N])]) false = Throw
  <-> Exists (fun p => utf8 p.1 = None \/ utf8 p.2 = None) [(js "a", [55357%N])].
Proof. apply param_throws. vm_compute. reflexivity. Defined.

Lemma appendQuery_spec_witness :
  appendQuery (js "/data") (js "cmd=list") = js "/data" ++ js "?" ++ js "cmd=list"
  /\ appendQuery (js "/data" ++ js "?") (js "cmd=list") = js "/data" ++ js "?" ++ js "cmd=list"
  /\ (js "x=1" <> [] -> appendQuery (js "/data" ++ js "?" ++ js "x=1") (js "cmd=list")
        = js "/data" ++ js "?" ++ js "x=1" ++ js "&" ++ js "cmd=list").
Proof.
  apply appendQuery_spec.
  - apply (bool_decide_unpack _). vm_compute. exact I.
  - discriminate.
  - reflexivity.
  - reflexivity.
Defined.

End Sample.
