(* ===== verification/AjaxSettings.v ===== *)
(** * Settings of a request (ajax.js)

    The part of [$.ajax] that computes: the settings with their defaults, the
    address with the serialized data, the headers, and what a response means.
    The order in which the callbacks of a request run is in [Ajax]. *)

From stdpp Require Import base list strings.
From Stdlib Require Import NArith.
From S2P Require Import Prelude JsString JsUri ZeptoCore AjaxParam.

Abbreviation object := (list (jstr * jsval)).

(** ** The page

    The protocol and host an anchor shows for an address, and the address of
    the page. *)

Class Page := {
  href_origin : jstr -> jstr;
  location : jstr;
  location_protocol : jstr;
}.

(** ** Settings *)

Definition sget (k : string) (s : object) : jsval := obj_get (js k) s.
Definition sset (k : string) (v : jsval) (s : object) : object := obj_set (js k) v s.

(** [v == word] for a word of the source. *)
Definition is_word (w : string) (v : jsval) : bool :=
  match v with VStr s => bool_decide (s = js w) | _ => false end.

(** A method of strings is called on [v]. *)
Definition as_str (v : jsval) : result jstr :=
  match v with VStr s => Ret s | _ => Throw end.

Definition empty_fun : jsval := VFun (js "function empty() {}") VUndef.

Definition jsonType : jstr := js "application/json".
Definition htmlType : jstr := js "text/html".

Definition accepts : object :=
  [(js "script", VStr (js "text/javascript, application/javascript, application/x-javascript"));
   (js "json", VStr jsonType);
   (js "xml", VStr (js "application/xml, text/xml"));
   (js "html", VStr htmlType);
   (js "text", VStr (js "text/plain"))].

(** [$.ajaxSettings]. *)
Definition ajaxSettings : object :=
  [(js "type", VStr (js "GET"));
   (js "beforeSend", empty_fun);
   (js "success", empty_fun);
   (js "error", empty_fun);
   (js "complete", empty_fun);
   (js "context", VNull);
   (js "global", VBool true);
   (js "xhr", VFun (js "function () { return new window.XMLHttpRequest() }") (VObj []));
   (js "accepts", VObj accepts);
   (js "crossDomain", VBool false);
   (js "timeout", VNum 0);
   (js "processData", VBool true);
   (js "cache", VBool true)].

(** The loop over the defaults. *)
Definition with_defaults (defaults s : object) : object :=
  foldl (fun s '(k, v) => match obj_get k s with VUndef => obj_set k v s | _ => s end) s defaults.

Definition init_settings (options : jsval) : object :=
  with_defaults ajaxSettings (extend false [] (as_object options)).

(** ** The address *)

Definition to_upper (s : jstr) : jstr := upper_unit <$> s.

Definition strip_hash (url : jstr) : jstr :=
  let i := str_index (js "#") url in if i >? -1 then take (Z.to_nat i) url else url.

(** [options.type.toUpperCase() == 'GET']. *)
Definition is_get (s : object) : result bool :=
  t ← as_str (sget "type" s); Ret (bool_decide (to_upper t = js "GET")).

Definition serializeData (s : object) : result object :=
  s ← (if truthy (sget "processData" s) && truthy (sget "data" s)
          && negb (bool_decide (type (sget "data" s) = TyString))
       then q ← param (sget "data" s) (truthy (sget "traditional" s)); Ret (sset "data" (VStr q) s)
       else Ret s);
  if truthy (sget "data" s) then
    get ← (if truthy (sget "type" s) then is_get s else Ret true);
    Ret (if get : bool then
           sset "data" VUndef
             (sset "url" (VStr (appendQuery (to_string (sget "url" s)) (to_string (sget "data" s)))) s)
         else s)
  else Ret s.

(** The regular expression [/\?(.+)=\?/]: what precedes the first match, its
    group, which reaches to the last mark of the line, and what follows. *)
Fixpoint first_line (s : jstr) : jstr :=
  match s with
  | [] => []
  | c :: s' => if line_end c then [] else c :: first_line s'
  end.

Fixpoint last_mark (i : nat) (s : jstr) : option nat :=
  match s with
  | [] => None
  | c :: s' =>
      match last_mark (S i) s' with
      | Some j => Some j
      | None => if (1 <=? i)%nat && starts_with (js "=?") s then Some i else None
      end
  end.

Fixpoint placeholder (url : jstr) : option (jstr * jstr * jstr) :=
  match url with
  | [] => None
  | c :: r =>
      match (if (c =? 63)%N then last_mark 0 (first_line r) else None) with
      | Some j => Some ([], take j r, drop (j + 2) r)
      | None => (fun '(p, g, q) => (c :: p, g, q)) <$> placeholder r
      end
  end.

Definition append_url (q : jstr) (s : object) : object :=
  sset "url" (VStr (appendQuery (to_string (sget "url" s)) q)) s.

Section Prepare.
Context `{Page}.

(** The settings up to the choice of the transport and the data type. *)
Definition set_crossDomain (s : object) : object :=
  if truthy (sget "crossDomain" s) then s
  else sset "crossDomain"
         (VBool (bool_decide (href_origin location <> href_origin (to_string (sget "url" s))))) s.

Definition set_url (s : object) : result object :=
  let s := if truthy (sget "url" s) then s else sset "url" (VStr location) s in
  url ← as_str (sget "url" s);
  Ret (sset "url" (VStr (strip_hash url)) s).

(** The time makes an address the browser has not cached. *)
Definition bust_cache (options : jsval) (dataType : jsval) (now : Z) (s : object) : object :=
  let fresh := match sget "cache" s with VBool false => true | _ => false end in
  let asked := match sget "cache" (as_object options) with VBool true => true | _ => false end in
  if fresh || (negb asked && (is_word "script" dataType || is_word "jsonp" dataType))
  then append_url (js "_=" ++ show_Z now) s else s.

Definition jsonp_query (s : object) : jstr :=
  let jsonp := sget "jsonp" s in
  if truthy jsonp then to_string jsonp ++ js "=?"
  else match jsonp with VBool false => [] | _ => js "callback=?" end.

Definition prepare (options : jsval) (now : Z) (s : object) : result (object * jsval) :=
  s ← set_url (set_crossDomain s);
  s ← serializeData s;
  let has := bool_decide (is_Some (placeholder (to_string (sget "url" s)))) in
  let dataType := if has : bool then VStr (js "jsonp") else sget "dataType" s in
  let s := bust_cache options dataType now s in
  let s := if is_word "jsonp" dataType && negb has then append_url (jsonp_query s) s else s in
  Ret (s, dataType).

(** ** Headers *)

(** [setHeader]: one entry for each name, whatever its capitals. *)
Fixpoint setHeader (name : jstr) (value : jsval) (h : list (jstr * (jstr * jsval)))
    : list (jstr * (jstr * jsval)) :=
  match h with
  | [] => [(to_lower name, (name, value))]
  | (k, e) :: h' =>
      if decide (k = to_lower name) then (k, (name, value)) :: h'
      else (k, e) :: setHeader name value h'
  end.

Definition headers (s : object) (dataType : jsval) : result (list (jstr * (jstr * jsval))) :=
  mime ← prop (sget "accepts" s) (to_string dataType);
  let h := if truthy (sget "crossDomain" s) then []
           else setHeader (js "X-Requested-With") (VStr (js "XMLHttpRequest")) [] in
  let h := setHeader (js "Accept") (if truthy mime then mime else VStr (js "*/*")) h in
  let ct := sget "contentType" s in
  form ← (if truthy ct then Ret true
          else match ct with
          | VBool false => Ret false
          | _ => if truthy (sget "data" s) then get ← is_get s; Ret (negb get) else Ret false
          end);
  let h := if form : bool
           then setHeader (js "Content-Type")
                  (if truthy ct then ct else VStr (js "application/x-www-form-urlencoded")) h
           else h in
  Ret (foldl (fun h '(n, v) => setHeader n v h) h (as_object (sget "headers" s))).

(** The argument of [overrideMimeType]; [None]: it is not called. *)
Definition override_mime (s : object) (dataType : jsval) : result (option jstr) :=
  mime ← prop (sget "accepts" s) (to_string dataType);
  let mime := if truthy (sget "mimeType" s) then sget "mimeType" s else mime in
  if truthy mime then
    m ← as_str mime;
    Ret (Some (if str_index (js ",") m >? -1 then default [] (head (split_char 44 m)) else m))
  else Ret None.

(** [/^([\w-]+:)\/\//]. *)
Definition scheme_char (c : N) : bool :=
  is_digit c || is_upper c || is_lower c || (c =? 95)%N || (c =? 45)%N.

Fixpoint scheme (s : jstr) : option jstr :=
  match s with
  | [] => None
  | c :: r =>
      if scheme_char c then
        if starts_with (js "://") r then Some [c; 58%N] else cons c <$> scheme r
      else None
  end.

Definition protocol (s : object) : jstr := default location_protocol (scheme (to_string (sget "url" s))).

End Prepare.

(** ** Responses *)

Definition lower_prefix (w : string) (s : jstr) : bool := starts_with (js w) (to_lower s).

Definition mimeToDataType (mime : jsval) : jstr :=
  match mime with
  | VStr m =>
      let m := default [] (head (split_char 59 m)) in
      if decide (m = []) then js "text"
      else if decide (m = htmlType) then js "html"
      else if decide (m = jsonType) then js "json"
      else if lower_prefix "text/javascript" m || lower_prefix "application/javascript" m then js "script"
      else if lower_prefix "text/xml" m || lower_prefix "application/xml" m then js "xml"
      else js "text"
  | _ => js "text"
  end.

Record response := Response {
  status : Z;
  statusText : jstr;
  contentType : option jstr;
  responseText : jstr;
  responseXML : jsval;
}.

(** The last argument of [error] and the status of [complete]. *)
Inductive ending := Ok | Timeout | Failed | Aborted | ParserError.

#[export] Instance ending_eq_dec : EqDecision ending.
Proof. solve_decision. Defined.

(** What the handler of [readystatechange] does with a response: it calls
    [ajaxSuccess], [ajaxError], or runs the response as a script first. *)
Inductive verdict :=
| VSuccess (data : jsval)
| VError (error : option jstr) (type : ending)
| VScript (code : jstr).

Definition is_blank (s : jstr) : bool := forallb is_space s.

Definition good_status (protocol : jstr) (st : Z) : bool :=
  ((200 <=? st) && (st <? 300)) || (st =? 304) || ((st =? 0) && bool_decide (protocol = js "file:")).

Definition response_type (s : object) (dataType : jsval) (r : response) : jsval :=
  if truthy dataType then dataType
  else VStr (mimeToDataType (if truthy (sget "mimeType" s) then sget "mimeType" s
                             else from_option VStr VNull (contentType r))).

Definition handle `{Parsers} (s : object) (dataType : jsval) (protocol : jstr) (r : response) : verdict :=
  if good_status protocol (status r) then
    let dataType := response_type s dataType r in
    if is_word "script" dataType then VScript (responseText r)
    else if is_word "xml" dataType then VSuccess (responseXML r)
    else if is_word "json" dataType then
      if is_blank (responseText r) then VSuccess VNull
      else match json_parse (responseText r) with
           | Ret v => VSuccess v
           | Throw => VError None ParserError
           end
    else VSuccess (VStr (responseText r))
  else VError (if decide (statusText r = []) then None else Some (statusText r))
         (if status r =? 0 then Aborted else Failed).

(** ** Short forms *)

Definition parseArguments (url data success dataType : jsval) : object :=
  let '(data, success, dataType) :=
    if isFunction data then (VUndef, data, success) else (data, success, dataType) in
  let '(success, dataType) := if isFunction success then (success, dataType) else (VUndef, success) in
  [(js "url", url); (js "data", data); (js "success", success); (js "dataType", dataType)].

Definition get_options (url data success dataType : jsval) : jsval :=
  VObj (parseArguments url data success dataType).

Definition post_options (url data success dataType : jsval) : jsval :=
  VObj (obj_set (js "type") (VStr (js "POST")) (parseArguments url data success dataType)).

Definition getJSON_options (url data success : jsval) : jsval :=
  VObj (obj_set (js "dataType") (VStr (js "json")) (parseArguments url data success VUndef)).

(** The options of [$.fn.load] without its own [success], the selector the
    address may end in, and the callback of the caller. *)
Definition load_options (url : jstr) (data success : jsval) : object * option jstr * jsval :=
  let options := parseArguments (VStr url) data success VUndef in
  let callback := sget "success" options in
  match split_space url with
  | address :: selector :: _ => (sset "url" (VStr address) options, Some selector, callback)
  | _ => (options, None, callback)
  end.

(** ** Lemmas *)

(** Words of the source that differ. *)
Ltac differ := let E := fresh in intros E; vm_compute in E; discriminate E.

Lemma sget_sset_eq k v s : sget k (sset k v s) = v.
Proof. unfold sget, sset. rewrite obj_get_set. by rewrite decide_True. Qed.

Lemma sget_sset_ne k k' v s : js k <> js k' -> sget k (sset k' v s) = sget k s.
Proof. intros H. unfold sget, sset. rewrite obj_get_set. by rewrite decide_False. Qed.

Ltac sget_simpl := repeat first [rewrite sget_sset_eq | rewrite sget_sset_ne by differ].

Lemma with_defaults_get k d s :
  Forall (fun p => p.2 <> VUndef) d ->
  obj_get k (with_defaults d s) = match obj_get k s with VUndef => obj_get k d | v => v end.
Proof.
  unfold with_defaults. intros Hd. revert s.
  induction Hd as [|[k' v] d Hv Hd IH]; intros s; [by cbn; destruct (obj_get k s)|].
  cbn [foldl fst snd obj_get] in *. rewrite IH.
  assert (obj_get k match obj_get k' s with VUndef => obj_set k' v s | _ => s end
          = match obj_get k s with VUndef => if decide (k = k') then v else VUndef | w => w end) as ->.
  { destruct (obj_get k' s) eqn:E; rewrite ?obj_get_set; destruct (decide (k = k')) as [->|];
      rewrite ?E; try done; by destruct (obj_get k s). }
  destruct (obj_get k s); try done. destruct (decide (k = k')); [|done]. by destruct v.
Qed.

(** A setting of a request is the caller's option when that is defined and
    the default of [$.ajaxSettings] otherwise. *)
Theorem settings_get k options :
  NoDup options.*1 ->
  obj_get k (init_settings (VObj options))
  = match obj_get k options with VUndef => obj_get k ajaxSettings | v => v end.
Proof.
  intros Hn. unfold init_settings. cbn [as_object]. rewrite with_defaults_get.
  - rewrite extend_get by done. by destruct (obj_get k options).
  - repeat constructor; discriminate.
Qed.

Lemma last_mark_none i s : 63%N ∉ s -> last_mark i s = None.
Proof.
  revert i. induction s as [|c s IH]; intros i; [done|]. rewrite not_elem_of_cons. intros [Hc Hs].
  cbn [last_mark]. rewrite IH by done. change (js "=?") with [61%N; 63%N]. cbn [starts_with].
  destruct s as [|d s]; [by rewrite !andb_false_r|]. apply not_elem_of_cons in Hs as [Hd _].
  destruct (N.eqb_spec 63 d) as [<-|]; [done|]. by rewrite !andb_false_r.
Qed.

Lemma first_line_elem c s : c ∈ first_line s -> c ∈ s.
Proof.
  induction s as [|d s IH]; [done|]. cbn. destruct (line_end d); [by rewrite elem_of_nil|].
  rewrite !elem_of_cons. tauto.
Qed.

(** An address with one question mark has no placeholder. *)
Lemma placeholder_none u q :
  Forall (fun x => query_mark x = false) u -> 63%N ∉ q -> placeholder (u ++ 63%N :: q) = None.
Proof.
  intros Hu Hq.
  assert (forall s, 63%N ∉ s -> placeholder s = None) as Hs.
  { induction s as [|c s IH]; [done|]. rewrite not_elem_of_cons. intros [Hc Hin]. cbn.
    rewrite (proj2 (N.eqb_neq c 63)) by congruence. by rewrite IH. }
  induction Hu as [|c u Hc Hu IH]; cbn.
  - rewrite last_mark_none; [by rewrite Hs|]. by intros ?%first_line_elem.
  - unfold query_mark in Hc. apply orb_false_iff in Hc as [_ Hc]. by rewrite Hc, IH.
Qed.

Section Get.
Context `{Page}.

(** The settings [prepare] leaves. *)
Definition get_settings (path q : jstr) (s : object) : object :=
  sset "data" VUndef (sset "url" (VStr (path ++ js "?" ++ q))
    (sset "data" (VStr q) (sset "url" (VStr path) (set_crossDomain s)))).

Lemma prepare_get options now s path l t :
  sget "url" s = VStr path -> path <> [] ->
  Forall (fun x => query_mark x = false) path -> 35%N ∉ path ->
  pairs (sget "data" s) (truthy (sget "traditional" s)) = Ret l -> l <> [] -> Forall encodable l ->
  truthy (sget "processData" s) = true -> truthy (sget "data" s) = true ->
  type (sget "data" s) <> TyString -> sget "type" s = VStr t -> to_upper t = js "GET" ->
  sget "cache" s = VBool true ->
  is_word "script" (sget "dataType" s) = false -> is_word "jsonp" (sget "dataType" s) = false ->
  exists q, prepare options now s = Ret (get_settings path q s, sget "dataType" s) /\ form_pairs q = l.
Proof.
  intros Hurl Hne Hp Hh Hl Hln He Hproc Hd Hdt Ht Hup Hc Hs Hj.
  destruct (param_decodes _ _ l Hl Hln He) as (q & Eq & Hq & Hqn & Hq63 & Hqh).
  set (s1 := set_crossDomain s).
  assert (forall k, js k <> js "crossDomain" -> sget k s1 = sget k s) as E1.
  { intros k Hk. unfold s1, set_crossDomain. case_match; [done|]. by apply sget_sset_ne. }
  assert (set_url s1 = Ret (sset "url" (VStr path) s1)) as E2.
  { unfold set_url. rewrite E1, Hurl by differ. destruct path as [|c p]; [done|].
    cbn [truthy length Nat.eqb negb]. rewrite E1, Hurl by differ. cbn [as_str mbind result_bind].
    unfold strip_hash. change (js "#") with [35%N]. by rewrite str_index_char_none. }
  set (s2 := sset "url" (VStr path) s1) in *.
  assert (serializeData s2
    = Ret (sset "data" VUndef (sset "url" (VStr (path ++ js "?" ++ q)) (sset "data" (VStr q) s2)))) as E3.
  { unfold serializeData, s2. sget_simpl. rewrite !E1 by differ. rewrite Hproc, Hd.
    rewrite bool_decide_eq_false_2 by done. cbn [andb negb]. rewrite Eq. cbn [mbind result_bind].
    sget_simpl. destruct q as [|c q]; [done|]. cbn [truthy length Nat.eqb negb].
    unfold is_get. sget_simpl. rewrite !E1, Ht by differ. cbn [truthy as_str mbind result_bind].
    rewrite Hup. destruct t; [done|]. cbn [length Nat.eqb negb mbind result_bind].
    rewrite bool_decide_eq_true_2 by done. cbn [to_string]. rewrite appendQuery_path by done. done. }
  exists q. split; [|done]. unfold get_settings. fold s1 s2. unfold prepare. fold s1. rewrite E2. cbn [mbind result_bind]. rewrite E3. cbn [mbind result_bind].
  unfold s2. sget_simpl. cbn [to_string]. change (js "?") with [63%N]. cbn [app].
  rewrite placeholder_none by done. rewrite bool_decide_eq_false_2 by (intros [? ?]; discriminate).
  unfold bust_cache. sget_simpl. rewrite !E1, Hc, Hs, Hj by differ.
  cbn [orb andb]. by rewrite andb_false_r.
Qed.

(** The address of a GET request is the caller's path, a question mark and
    a query string a server decodes to exactly the keys and values of the
    data; the body is empty and the type of the data is the caller's. *)
Theorem get_request_url options now s path l t :
  sget "url" s = VStr path -> path <> [] ->
  Forall (fun x => query_mark x = false) path -> 35%N ∉ path ->
  pairs (sget "data" s) (truthy (sget "traditional" s)) = Ret l -> l <> [] -> Forall encodable l ->
  truthy (sget "processData" s) = true -> truthy (sget "data" s) = true ->
  type (sget "data" s) <> TyString -> sget "type" s = VStr t -> to_upper t = js "GET" ->
  sget "cache" s = VBool true ->
  is_word "script" (sget "dataType" s) = false -> is_word "jsonp" (sget "dataType" s) = false ->
  exists s' q,
    prepare options now s = Ret (s', sget "dataType" s)
    /\ sget "url" s' = VStr (path ++ js "?" ++ q)
    /\ form_pairs q = l /\ sget "data" s' = VUndef.
Proof.
  intros Hurl Hne Hp Hh Hl Hln He Hproc Hd Hdt Ht Hup Hc Hs Hj.
  destruct (prepare_get options now s path l t) as (q & E & Hq); try done.
  exists (get_settings path q s), q. unfold get_settings. by sget_simpl.
Qed.

End Get.

(** *** Headers *)

Definition headers_wf (h : list (jstr * (jstr * jsval))) : Prop :=
  NoDup h.*1 /\ Forall (fun p => p.1 = to_lower p.2.1) h.

Lemma setHeader_keys name value h x :
  x ∈ (setHeader name value h).*1 <-> x = to_lower name \/ x ∈ h.*1.
Proof.
  induction h as [|[k e] h IH]; cbn; [by rewrite elem_of_cons|].
  destruct (decide (k = to_lower name)) as [->|Hne]; cbn; rewrite !elem_of_cons, ?IH; tauto.
Qed.

Lemma setHeader_wf name value h : headers_wf h -> headers_wf (setHeader name value h).
Proof.
  intros [Hn Hf]. induction h as [|[k e] h IH]; cbn in *.
  { split; [apply NoDup_singleton|by constructor]. }
  apply NoDup_cons in Hn as [Hk Hn]. apply Forall_cons in Hf as [Hh Hf].
  destruct (decide (k = to_lower name)) as [->|Hne].
  - split; [by apply NoDup_cons|by constructor].
  - destruct (IH Hn Hf) as [Hn' Hf']. split; [|by constructor].
    apply NoDup_cons. split; [|done]. rewrite setHeader_keys. naive_solver.
Qed.

#[local] Arguments setHeader : simpl never.

(** The headers of a request are well formed: every header is kept under
    its name in small letters and no two of them have the same name up to
    capitals, so a header of the caller replaces the one the library set. *)
Theorem headers_type s dataType h : headers s dataType = Ret h -> headers_wf h.
Proof.
  unfold headers. destruct (prop _ _) as [mime|]; cbn [mbind result_bind]; [|discriminate].
  match goal with |- (?m ≫= _) = _ -> _ => destruct m as [form|]; cbn [mbind result_bind]; [|discriminate] end.
  intros [= <-].
  assert (forall l h, headers_wf h -> headers_wf (foldl (fun h '(n, v) => setHeader n v h) h l)) as Hfold.
  { induction l as [|[n v] l IH]; intros h Hh; cbn; [done|]. by apply IH, setHeader_wf. }
  assert (headers_wf []) by (split; [apply NoDup_nil_2|constructor]).
  apply Hfold.
  destruct form, (truthy (sget "crossDomain" s));
    repeat match goal with |- headers_wf (setHeader _ _ _) => apply setHeader_wf end; assumption.
Qed.

(** ** Samples *)

Module Sample.

#[export] Instance page : Page := {|
  href_origin := fun _ => js "http://127.0.0.1:8080";
  location := js "http://127.0.0.1:8080/cloud_file.html";
  location_protocol := js "http:";
|}.

(** The options of the file list for its first page. *)
Definition list_options : object :=
  [(js "type", VStr (js "get")); (js "url", VStr (js "/data"));
   (js "data", VObj [(js "cmd", VStr (js "queryAll")); (js "fromId", VNum 0); (js "count", VNum 10);
                     (js "user", VStr (js "a&b"))]);
   (js "dataType", VStr (js "json")); (js "success", VFun (js "f") VUndef)].

Definition list_settings : object := init_settings (VObj list_options).

Lemma settings_get_witness :
  obj_get (js "timeout") list_settings = VNum 0 /\ obj_get (js "type") list_settings = VStr (js "get").
Proof.
  split; (etransitivity; [apply settings_get; apply (bool_decide_unpack _); vm_compute; exact I|
    vm_compute; reflexivity]).
Defined.

Definition list_pairs : list (jstr * jstr) :=
  [(js "cmd", js "queryAll"); (js "fromId", js "0"); (js "count", js "10"); (js "user", js "a&b")].

Lemma get_request_url_witness :
  exists s' q,
    prepare (VObj list_options) 0 list_settings = Ret (s', sget "dataType" list_settings)
    /\ sget "url" s' = VStr (js "/data" ++ js "?" ++ q)
    /\ form_pairs q = list_pairs /\ sget "data" s' = VUndef.
Proof.
  apply (get_request_url (VObj list_options) 0 list_settings (js "/data") list_pairs (js "get")).
  - vm_compute. reflexivity.
  - discriminate.
  - apply (bool_decide_unpack _). vm_compute. exact I.
  - apply (bool_decide_unpack _). vm_compute. exact I.
  - vm_compute. reflexivity.
  - discriminate.
  - apply (bool_decide_unpack _). vm_compute. exact I.
  - vm_compute. reflexivity.
  - vm_compute. reflexivity.
  - vm_compute. discriminate.
  - vm_compute. reflexivity.
  - vm_compute. reflexivity.
  - vm_compute. reflexivity.
  - vm_compute. reflexivity.
  - vm_compute. reflexivity.
Defined.

Lemma headers_type_witness :
  headers_wf [(js "x-requested-with", (js "X-Requested-With", VStr (js "XMLHttpRequest")));
              (js "accept", (js "accept", VStr (js "text/plain")))].
Proof.
  apply (headers_type (init_settings (VObj [(js "headers", VObj [(js "accept", VStr (js "text/plain"))])])) VUndef).
  vm_compute. reflexivity.
Defined.

End Sample.
