(* ===== verification/Ajax.v ===== *)
(** * Requests of the page (ajax.js)

    [$.ajax] and [$.ajaxJSONP] as a machine.  The callbacks of a request and
    the handlers of its events are code of the page: while it runs it may
    start and abort other requests, and it may throw.  So the machine has a
    stack: the code that runs is on top, what the library still has to do for
    the requests in progress is below it.  The browser delivers responses,
    timers and scripts when the stack is empty, or while a synchronous
    [send] blocks.  [step] is total on events: [None] means that the event
    cannot happen in this state.

    [$.Deferred] is not part of this build of the library, so the calls
    guarded by [if (deferred)] do nothing.  Two things a page could do are not
    events of the machine: callbacks change any of their request's settings but
    do not switch [global] on or off, and [$.ajaxJSONP] is only called by
    [$.ajax] ([AjaxActive.Sample.direct_jsonp] shows a call by the page). *)

From stdpp Require Import base gmap list strings.
From Stdlib Require Import NArith.
From S2P Require Import Prelude JsString JsUri ZeptoCore AjaxParam AjaxSettings.

(** ** State *)

(** The four callbacks of the settings, with what they are called with. *)
Inductive callback :=
| BeforeSend
| Success (data : jsval)
| Error (type : ending) (error : option jstr)
| Complete (status : ending).

(** The global events. *)
Inductive gevent :=
| AjaxStart | AjaxBeforeSend | AjaxSend | AjaxSuccess | AjaxError | AjaxComplete | AjaxStop.

#[export] Instance gevent_eq_dec : EqDecision gevent.
Proof. solve_decision. Defined.

(** Code of the page that runs: a handler or timer of its own, a callback of a
    request, the handlers of a global event, a response that is a script, a
    function the page had under the name of a JSONP callback. *)
Inductive frame :=
| FPage
| FCallback (r : nat) (c : callback)
| FEvent (r : nat) (e : gevent)
| FEval (r : nat) (code : jstr)
| FOriginal (data : jsval).

(** What the library still has to do in one of its functions. *)
Inductive action :=
| Prepare (options : jsval) (now : Z)
| Call (c : callback)
| Trigger (e : gevent)
| Send
| Stop
| Restore.

(** What is on the stack: code of the page, a function of the library that
    works on request [r], a synchronous [send] that has not returned. *)
Inductive task :=
| Running (f : frame)
| Library (r : nat) (todo : list action)
| Blocked (r : nat).

(** A request is new until its settings are prepared, starts until it is sent,
    waits for its response, and is done when its handler has run.  It is lost
    when a synchronous [send] throws: only its timer may still end it. *)
Inductive phase := New | Starting | Waiting | Lost | Done.

#[export] Instance phase_eq_dec : EqDecision phase.
Proof. solve_decision. Defined.

(** The value of a property of [window]. *)
Inductive wvalue := Recorder (r : nat) | PageFunction | PageValue.

Record jsonp := Jsonp {
  callbackName : jstr;
  originalCallback : option wvalue;
  responseData : option jsval;
  appended : bool;
}.

Record request := Request {
  settings : object;
  dataType : jsval;
  r_protocol : jstr;
  r_headers : list (jstr * (jstr * jsval));
  r_phase : phase;
  abortTimeout : bool;
  r_jsonp : option jsonp;
}.

(** The calls the page has seen, and the exceptions that left the library. *)
Inductive entry :=
| LCallback (r : nat) (c : callback)
| LEvent (r : nat) (e : gevent)
| LException.

Record ajax := Ajax {
  active : Z;
  jsonpID : Z;
  requests : list request;
  window : gmap jstr wvalue;
  stack : list task;
  log : list entry;
}.

(** Updates of one field. *)
Definition with_stack (st : list task) (s : ajax) : ajax :=
  Ajax (active s) (jsonpID s) (requests s) (window s) st (log s).
Definition with_active (n : Z) (s : ajax) : ajax :=
  Ajax n (jsonpID s) (requests s) (window s) (stack s) (log s).
Definition with_window (w : gmap jstr wvalue) (s : ajax) : ajax :=
  Ajax (active s) (jsonpID s) (requests s) w (stack s) (log s).
Definition with_jsonpID (n : Z) (s : ajax) : ajax :=
  Ajax (active s) n (requests s) (window s) (stack s) (log s).
Definition with_requests (l : list request) (s : ajax) : ajax :=
  Ajax (active s) (jsonpID s) l (window s) (stack s) (log s).
Definition push (t : task) (s : ajax) : ajax := with_stack (t :: stack s) s.
Definition logged (e : entry) (s : ajax) : ajax :=
  Ajax (active s) (jsonpID s) (requests s) (window s) (stack s) (log s ++ [e]).
Definition update (r : nat) (f : request -> request) (s : ajax) : ajax :=
  with_requests (alter f r (requests s)) s.

Definition set_phase (p : phase) (q : request) : request :=
  Request (settings q) (dataType q) (r_protocol q) (r_headers q) p (abortTimeout q) (r_jsonp q).
Definition set_timer (b : bool) (q : request) : request :=
  Request (settings q) (dataType q) (r_protocol q) (r_headers q) (r_phase q) b (r_jsonp q).
Definition set_settings (o : object) (q : request) : request :=
  Request o (dataType q) (r_protocol q) (r_headers q) (r_phase q) (abortTimeout q) (r_jsonp q).
Definition set_jsonp (j : jsonp) (q : request) : request :=
  Request (settings q) (dataType q) (r_protocol q) (r_headers q) (r_phase q) (abortTimeout q) (Some j).

Definition is_global (q : request) : bool := truthy (sget "global" (settings q)).

(** ** Calls of page code *)

Definition enter (f : frame) (s : ajax) : ajax :=
  let s := push (Running f) s in
  match f with
  | FCallback r c => logged (LCallback r c) s
  | FEvent r e => logged (LEvent r e) s
  | _ => s
  end.

(** An exception leaves the library and reaches the code that called it. *)
Fixpoint unwind (st : list task) : list task :=
  match st with
  | [] => []
  | Running _ :: _ => st
  | _ :: st' => unwind st'
  end.

Definition throw (s : ajax) : ajax := logged LException (with_stack (unwind (stack s)) s).

Definition callback_name (c : callback) : string :=
  match c with
  | BeforeSend => "beforeSend" | Success _ => "success" | Error _ _ => "error" | Complete _ => "complete"
  end.

(** [settings.success.call(...)] and the like. *)
Definition call (r : nat) (c : callback) (q : request) (s : ajax) : ajax :=
  if isFunction (sget (callback_name c) (settings q)) then enter (FCallback r c) s else throw s.

(** ** The ends of a request *)

Definition ajaxComplete (status : ending) : list action :=
  [Call (Complete status); Trigger AjaxComplete; Stop].

Definition ajaxSuccess (data : jsval) : list action :=
  Call (Success data) :: Trigger AjaxSuccess :: ajaxComplete Ok.

Definition ajaxError (error : option jstr) (type : ending) : list action :=
  Call (Error type error) :: Trigger AjaxError :: ajaxComplete type.

(** The counter of [ajaxStart] and [ajaxStop]. *)
Definition ajaxStart (r : nat) (q : request) (s : ajax) : ajax :=
  if is_global q then
    let s' := with_active (active s + 1) s in
    if active s =? 0 then enter (FEvent r AjaxStart) s' else s'
  else s.

Definition ajaxStop (r : nat) (q : request) (s : ajax) : ajax :=
  if is_global q then
    let s' := with_active (active s - 1) s in
    if active s - 1 =? 0 then enter (FEvent r AjaxStop) s' else s'
  else s.

(** The handler of a request stops listening and its timer is cleared. *)
Definition settle (r : nat) (s : ajax) : ajax :=
  update r (fun q => set_timer false (set_phase Done q)) s.

(** The handler of [load] and [error] on the script of a JSONP request, while
    it is attached; [None] for the event [load]. *)
Definition script_handler (r : nat) (errorType : option ending) (q : request) (j : jsonp) (s : ajax) : ajax :=
  if bool_decide (r_phase q = Starting \/ r_phase q = Waiting) then
    push (Library r ((match errorType, responseData j with
                      | None, Some data => ajaxSuccess data
                      | None, None => ajaxError None Failed
                      | Some t, _ => ajaxError None t
                      end) ++ [Restore])) (settle r s)
  else s.

Definition set_window (name : jstr) (v : option wvalue) (s : ajax) : ajax :=
  with_window (match v with Some w => <[name := w]> (window s) | None => delete name (window s) end) s.

(** A function under a name of [window] is called with [data]. *)
Definition call_window (v : option wvalue) (data : jsval) (s : ajax) : ajax :=
  match v with
  | Some (Recorder r) =>
      update r (fun q => match r_jsonp q with
                         | Some j => set_jsonp (Jsonp (callbackName j) (originalCallback j) (Some data) (appended j)) q
                         | None => q
                         end) s
  | Some PageFunction => enter (FOriginal data) s
  | _ => s
  end.

(** The end of the handler of a script. *)
Definition restore (r : nat) (q : request) (j : jsonp) (s : ajax) : ajax :=
  let s := set_window (callbackName j) (originalCallback j) s in
  let s := update r (set_jsonp (Jsonp (callbackName j) None None (appended j))) s in
  match responseData j with Some data => call_window (originalCallback j) data s | None => s end.

(** ** The transports *)

(** [/\?(.+)=\?/] in the address becomes the name of the callback; a dollar
    sign in the name has its meaning for [String.prototype.replace]. *)
Fixpoint expand (before match_ group after : jstr) (t : jstr) : jstr :=
  match t with
  | 36%N :: 36%N :: t' => 36%N :: expand before match_ group after t'
  | 36%N :: 38%N :: t' => match_ ++ expand before match_ group after t'
  | 36%N :: 96%N :: t' => before ++ expand before match_ group after t'
  | 36%N :: 39%N :: t' => after ++ expand before match_ group after t'
  | 36%N :: 48%N :: 49%N :: t' => group ++ expand before match_ group after t'
  | 36%N :: 49%N :: t' => group ++ expand before match_ group after t'
  | c :: t' => c :: expand before match_ group after t'
  | [] => []
  end.

Definition script_src (url name : jstr) : jstr :=
  match placeholder url with
  | Some (before, group, after) =>
      before ++ js "?" ++ group ++ js "="
      ++ expand before (js "?" ++ group ++ js "=?") group after name ++ after
  | None => url
  end.

(** The name of the JSONP callback. *)
Definition choose_name (o : object) (s : ajax) : jstr * ajax :=
  let v := match sget "jsonpCallback" o with VFun _ ret => ret | v => v end in
  if truthy v then (to_string v, s)
  else (js "jsonp" ++ show_Z (jsonpID s + 1), with_jsonpID (jsonpID s + 1) s).

(** [$.ajaxJSONP] up to the call of [beforeSend]. *)
Definition ajaxJSONP (r : nat) (o : object) (s : ajax) : ajax :=
  let '(name, s) := choose_name o s in
  push (Library r [Call BeforeSend])
    (update r (fun q => Request o (VStr (js "jsonp")) (r_protocol q) [] Starting false
                          (Some (Jsonp name (window s !! name) None false))) s).

Section Machine.
Context `{Page, Parsers}.

(** The body of [$.ajax] after [ajaxStart] up to the call of [beforeSend]. *)
Definition run_prepare (r : nat) (options : jsval) (now : Z) (q : request) (s : ajax) : ajax :=
  match prepare options now (settings q) with
  | Throw => throw s
  | Ret (o, dt) =>
      if is_word "jsonp" dt then ajaxJSONP r o s
      else match headers o dt, override_mime o dt with
      | Ret h, Ret _ =>
          push (Library r [Call BeforeSend])
            (update r (fun q => Request o dt (protocol o) h Starting false None) s)
      | _, _ => throw s
      end
  end.

(** [ajaxBeforeSend] returned [false]. *)
Definition cancel (r : nat) (q : request) (s : ajax) : ajax :=
  match r_jsonp q with
  | None => push (Library r (ajaxError None Aborted)) (settle r s)
  | Some j => script_handler r (Some Aborted) q j s
  end.

Definition has_timeout (q : request) : bool :=
  match sget "timeout" (settings q) with VNum t => 0 <? t | _ => false end.

Definition is_async (q : request) : bool :=
  match sget "async" (settings q) with VUndef => true | v => truthy v end.

(** The rest of [$.ajax], or of [$.ajaxJSONP], after [ajaxBeforeSend]. *)
Definition send (r : nat) (q : request) (s : ajax) : ajax :=
  match r_jsonp q with
  | None =>
      let s := update r (fun q => set_timer (has_timeout q) (set_phase Waiting q)) s in
      if is_async q then s else push (Blocked r) s
  | Some j =>
      let s := set_window (callbackName j) (Some (Recorder r)) s in
      update r (fun q =>
        set_timer (has_timeout q)
          (set_phase (if decide (r_phase q = Starting) then Waiting else r_phase q)
             (set_jsonp (Jsonp (callbackName j) (originalCallback j) (responseData j) true) q))) s
  end.

(** The handler of [readystatechange] when the request is done. *)
Definition xhr_handler (r : nat) (resp : response) (q : request) (s : ajax) : ajax :=
  let s := settle r s in
  match handle (settings q) (dataType q) (r_protocol q) resp with
  | VSuccess data => push (Library r (ajaxSuccess data)) s
  | VError error t => push (Library r (ajaxError error t)) s
  | VScript code => enter (FEval r code) s
  end.

(** What [abort] on an open request delivers. *)
Definition no_response : response := Response 0 [] None [] VNull.

(** The method [abort] of what [$.ajax] returned. *)
Definition abort (r : nat) (q : request) (s : ajax) : ajax :=
  match r_jsonp q with
  | None => if decide (r_phase q = Waiting) then xhr_handler r no_response q s else s
  | Some j => script_handler r (Some Aborted) q j s
  end.

(** The timer of a request. *)
Definition timeout (r : nat) (q : request) (s : ajax) : ajax :=
  let s := update r (set_timer false) s in
  match r_jsonp q with
  | None => push (Library r (ajaxError None Timeout)) (settle r s)
  | Some j => script_handler r (Some Timeout) q j s
  end.

(** ** Steps of the library *)

Definition run_action (r : nat) (a : action) (q : request) (s : ajax) : ajax :=
  match a with
  | Prepare options now => run_prepare r options now q s
  | Call c => call r c q s
  | Trigger e =>
      if is_global q then enter (FEvent r e) s
      else match e with AjaxBeforeSend => push (Library r [Trigger AjaxSend; Send]) s | _ => s end
  | Send => send r q s
  | Stop => ajaxStop r q s
  | Restore => match r_jsonp q with Some j => restore r q j s | None => s end
  end.

(** The function that is on top goes on; it returns after its last action. *)
Definition return_to (r : nat) (todo : list action) (st : list task) : list task :=
  match todo with [] => st | _ => Library r todo :: st end.

Definition library_step (s : ajax) : option ajax :=
  match stack s with
  | Library r (a :: todo) :: st =>
      q ← requests s !! r; Some (run_action r a q (with_stack (return_to r todo st) s))
  | _ => None
  end.

(** Page code returns [v]; for the handlers of an event [false] stands for a
    prevented default. *)
Definition is_false (v : jsval) : bool := match v with VBool false => true | _ => false end.

Definition return_from (f : frame) (v : jsval) (s : ajax) : option ajax :=
  match f with
  | FCallback r BeforeSend =>
      q ← requests s !! r;
      Some (if is_false v then cancel r q s else push (Library r [Trigger AjaxBeforeSend]) s)
  | FEvent r AjaxBeforeSend =>
      q ← requests s !! r;
      Some (if is_false v then cancel r q s else push (Library r [Trigger AjaxSend; Send]) s)
  | FEval r code => Some (push (Library r (ajaxSuccess (VStr code))) s)
  | _ => Some s
  end.

(** Page code throws [v].  An exception of code the browser called stays in
    the browser, that of a handler of an event too; a script that is a response is run inside [try], where an
    exception that is not truthy goes unnoticed. *)
Definition throw_from (f : frame) (v : jsval) (s : ajax) : option ajax :=
  match f with
  | FEvent r e =>
      q ← requests s !! r;
      if bool_decide (e = AjaxStart \/ e = AjaxStop) || negb (truthy (sget "context" (settings q)))
      then None else Some (throw s)
  | FEval r code =>
      Some (push (Library r (if truthy v then ajaxError None ParserError else ajaxSuccess (VStr code))) s)
  | FPage => Some s
  | _ => Some (throw s)
  end.

(** [$.ajax(options)]. *)
Definition ajax_call (options : jsval) (now : Z) (s : ajax) : ajax :=
  let r := length (requests s) in
  let q := Request (init_settings options) VUndef [] [] New false None in
  let s := with_requests (requests s ++ [q]) s in
  ajaxStart r q (push (Library r [Prepare options now]) s).

(** [$.ajaxJSONP] called by the page: without a [type] it is [$.ajax]; with
    one, the options are used as they are and nothing is counted. *)
Definition ajaxJSONP_call (options : object) (now : Z) (s : ajax) : ajax :=
  if decide (js "type" ∈ options.*1) then
    let r := length (requests s) in
    ajaxJSONP r options
      (with_requests (requests s ++ [Request options VUndef [] [] New false None]) s)
  else ajax_call (VObj options) now s.

(** ** Events *)

Inductive event :=
| ELibrary                                   (* the library takes its next step *)
| EPage                                      (* code of the page starts *)
| EReturn (v : jsval)
| EThrow (v : jsval)
| EAjax (options : jsval) (now : Z)
| EAbort (r : nat)
| ESettings (r : nat) (o : object)           (* page code changes settings *)
| EOpenFails                                 (* [open] or [send] throws *)
| EReply (r : nat) (resp : response)
| ETimer (r : nat)
| EScriptCall (r : nat) (data : jsval)       (* a script calls its callback *)
| EScriptEnd (r : nat) (failed : bool).      (* [load] or [error] *)

Definition is_running (s : ajax) : bool :=
  match stack s with Running _ :: _ => true | _ => false end.

Definition is_idle (s : ajax) : bool := match stack s with [] => true | _ => false end.

Definition step (s : ajax) (e : event) : option ajax :=
  match e with
  | ELibrary => library_step s
  | EPage => if is_idle s then Some (enter FPage s) else None
  | EReturn v =>
      match stack s with Running f :: st => return_from f v (with_stack st s) | _ => None end
  | EThrow v =>
      match stack s with Running f :: st => throw_from f v (with_stack st s) | _ => None end
  | EAjax options now => if is_running s then Some (ajax_call options now s) else None
  | EAbort r => if is_running s then (fun q => abort r q s) <$> requests s !! r else None
  | ESettings r o =>
      q ← requests s !! r;
      if is_running s && bool_decide (truthy (sget "global" o) = is_global q)
      then Some (update r (set_settings o) s) else None
  | EOpenFails =>
      match stack s with
      | Library r (Send :: _) :: st =>
          q ← requests s !! r;
          match r_jsonp q with None => Some (throw (with_stack st s)) | Some _ => None end
      | Blocked r :: st => Some (throw (update r (set_phase Lost) (with_stack st s)))
      | _ => None
      end
  | EReply r resp =>
      q ← requests s !! r;
      if bool_decide (r_phase q = Waiting) && bool_decide (r_jsonp q = None) then
        match stack s with
        | [] => Some (xhr_handler r resp q s)
        | Blocked r' :: st =>
            if decide (r = r') then Some (xhr_handler r resp q (with_stack st s)) else None
        | _ => None
        end
      else None
  | ETimer r =>
      q ← requests s !! r;
      if is_idle s && abortTimeout q then Some (timeout r q s) else None
  | EScriptCall r data =>
      q ← requests s !! r;
      match r_jsonp q with
      | Some j =>
          if is_idle s && appended j then Some (call_window (window s !! callbackName j) data s) else None
      | None => None
      end
  | EScriptEnd r failed =>
      q ← requests s !! r;
      match r_jsonp q with
      | Some j =>
          if is_idle s && appended j
          then Some (script_handler r (if failed : bool then Some Failed else None) q j s) else None
      | None => None
      end
  end.

Fixpoint run (s : ajax) (l : list event) : option ajax :=
  match l with
  | [] => Some s
  | e :: l' => s' ← step s e; run s' l'
  end.

(** The library when the page has loaded. *)
Definition init (w : gmap jstr wvalue) : ajax := Ajax 0 0 [] w [] [].

End Machine.

(** ** What the page sees of one request

    The calls at the start of a request and those at its end. *)

Definition start_entry (r : nat) (e : entry) : bool :=
  match e with
  | LCallback r' BeforeSend | LEvent r' AjaxBeforeSend | LEvent r' AjaxSend => (r =? r')%nat
  | _ => false
  end.

Definition end_entry (r : nat) (e : entry) : bool :=
  match e with
  | LCallback r' BeforeSend => false
  | LCallback r' _ => (r =? r')%nat
  | LEvent r' (AjaxSuccess | AjaxError | AjaxComplete) => (r =? r')%nat
  | _ => false
  end.

Definition start_log (r : nat) (l : list entry) : list entry := List.filter (start_entry r) l.
Definition end_log (r : nat) (l : list entry) : list entry := List.filter (end_entry r) l.

(** The protocol: the calls a request makes, with its global events when it is
    global, at its start and at its end. *)
Definition start_calls (g : bool) (r : nat) : list entry :=
  LCallback r BeforeSend :: if g then [LEvent r AjaxBeforeSend; LEvent r AjaxSend] else [].

Inductive result_of := Succeeded (data : jsval) | FailedWith (error : option jstr) (type : ending).

Definition end_calls (g : bool) (r : nat) (v : result_of) : list entry :=
  let ev (e : gevent) := if g then [LEvent r e] else [] in
  match v with
  | Succeeded data =>
      LCallback r (Success data) :: ev AjaxSuccess ++ LCallback r (Complete Ok) :: ev AjaxComplete
  | FailedWith error t =>
      LCallback r (Error t error) :: ev AjaxError ++ LCallback r (Complete t) :: ev AjaxComplete
  end.

(** The actions of the library that make these calls. *)
Definition end_actions (v : result_of) : list action :=
  match v with Succeeded data => ajaxSuccess data | FailedWith error t => ajaxError error t end.

Definition future (g : bool) (r : nat) (todo : list action) : list entry :=
  todo ≫= fun a =>
    match a with
    | Call c => [LCallback r c]
    | Trigger e => if g then [LEvent r e] else []
    | _ => []
    end.
