(* ===== verification/AjaxProtocol.v ===== *)
(** * The protocol of requests (ajax.js)

    The proofs about the machine of [Ajax]: what the page sees of each
    request, the counter [$.active] and the events [ajaxStart] and
    [ajaxStop].

    The invariant has three parts.  A blocked [send] is on top of the stack.
    For each request, its places on the stack, the calls made so far and its
    phase fit together ([good]); a step concerns one request and leaves the
    view of the others as it is ([others]).  The counter is the number of
    requests whose [Stop] has not been made ([balanced]). *)

From stdpp Require Import base gmap list strings.
From Stdlib Require Import NArith.
From S2P Require Import Prelude JsString JsUri ZeptoCore AjaxParam AjaxSettings Ajax.

Lemma future_end g r v tl : future g r tl = [] -> future g r (end_actions v ++ tl) = end_calls g r v.
Proof.
  intros Ht. unfold future in *. rewrite bind_app, Ht, app_nil_r. by destruct v, g.
Qed.

(** The places of the stack that belong to a request. *)
Definition belongs (r : nat) (t : task) : bool :=
  match t with
  | Library r' _ | Blocked r' | Running (FCallback r' BeforeSend) | Running (FEvent r' AjaxBeforeSend)
  | Running (FEval r' _) => (r =? r')%nat
  | _ => false
  end.

Definition items (r : nat) (st : list task) : list task := List.filter (belongs r) st.

(** What the protocol needs to know of a request. *)
Record brief := Brief { b_global : bool; b_phase : phase; b_timer : bool; b_xhr : bool }.

Definition brief_of (q : request) : brief :=
  Brief (is_global q) (r_phase q) (abortTimeout q) (bool_decide (r_jsonp q = None)).

Definition started (b : brief) : Prop :=
  b_phase b = Starting \/ (b_xhr b = false /\ b_phase b = Done).

Definition all_actions (b : brief) (v : result_of) : list action :=
  end_actions v ++ if b_xhr b then [] else [Restore].

Inductive start_state (exc : Prop) (r : nat) (b : brief) : list task -> list entry -> Prop :=
| S_prepare o n : b_phase b = New -> b_xhr b = true -> start_state exc r b [Library r [Prepare o n]] []
| S_call : started b -> start_state exc r b [Library r [Call BeforeSend]] []
| S_before : started b ->
    start_state exc r b [Running (FCallback r BeforeSend)] [LCallback r BeforeSend]
| S_trigger : started b ->
    start_state exc r b [Library r [Trigger AjaxBeforeSend]] [LCallback r BeforeSend]
| S_event : started b -> b_global b = true ->
    start_state exc r b [Running (FEvent r AjaxBeforeSend)]
      [LCallback r BeforeSend; LEvent r AjaxBeforeSend]
| S_send_event : started b ->
    start_state exc r b [Library r [Trigger AjaxSend; Send]]
      (LCallback r BeforeSend :: if b_global b then [LEvent r AjaxBeforeSend] else [])
| S_send : started b -> start_state exc r b [Library r [Send]] (start_calls (b_global b) r)
| S_blocked : b_phase b = Waiting -> b_xhr b = true ->
    start_state exc r b [Blocked r] (start_calls (b_global b) r)
| S_none l : l `prefix_of` start_calls (b_global b) r ->
    (b_phase b = New \/ b_phase b = Starting \/ b_phase b = Lost -> exc) ->
    (b_phase b = Waiting -> l = start_calls (b_global b) r) -> start_state exc r b [] l.

Inductive end_state (exc : Prop) (r : nat) (b : brief) : list task -> list entry -> Prop :=
| E_none : b_phase b <> Done -> end_state exc r b [] []
| E_eval code : b_phase b = Done -> b_xhr b = true -> end_state exc r b [Running (FEval r code)] []
| E_todo v did todo : b_phase b = Done -> todo <> [] -> all_actions b v = did ++ todo ->
    end_state exc r b [Library r todo] (future (b_global b) r did)
| E_done v : b_phase b = Done -> end_state exc r b [] (end_calls (b_global b) r v)
| E_cut v did todo : b_phase b = Done -> exc -> all_actions b v = did ++ todo ->
    end_state exc r b [] (future (b_global b) r did).

(** What is seen of request [r]: its brief, its places on the stack and its
    calls. *)
Record view := View {
  v_brief : option brief; v_items : list task; v_starts : list entry; v_ends : list entry }.

Definition view_of (s : ajax) (r : nat) : view :=
  View (brief_of <$> requests s !! r) (items r (stack s)) (start_log r (log s)) (end_log r (log s)).

#[local] Arguments items : simpl never.
#[local] Arguments start_log : simpl never.
#[local] Arguments end_log : simpl never.

Definition timer_ok (b : brief) : Prop :=
  b_timer b = true -> b_xhr b = true -> b_phase b = Waiting \/ b_phase b = Lost.

(** The parts fit together. *)
Definition good (exc : Prop) (r : nat) (v : view) : Prop :=
  match v_brief v with
  | None => v_items v = [] /\ v_starts v = [] /\ v_ends v = []
  | Some b =>
      timer_ok b
      /\ exists ends starts, v_items v = ends ++ starts
          /\ start_state exc r b starts (v_starts v) /\ end_state exc r b ends (v_ends v)
  end.

Definition exception (s : ajax) : Prop := LException ∈ log s.

Definition consistent (s : ajax) : Prop := forall r, good (exception s) r (view_of s r).

Lemma good_mono_start (exc exc' : Prop) r b it l :
  (exc -> exc') -> start_state exc r b it l -> start_state exc' r b it l.
Proof. intros He Hs. destruct Hs; econstructor; eauto; naive_solver. Qed.

Lemma good_mono_end (exc exc' : Prop) r b it l :
  (exc -> exc') -> end_state exc r b it l -> end_state exc' r b it l.
Proof. intros He Hd. destruct Hd; econstructor; eauto. Qed.

Lemma good_mono (exc exc' : Prop) r v : (exc -> exc') -> good exc r v -> good exc' r v.
Proof.
  unfold good. intros He. destruct (v_brief v) as [b|]; [|done].
  intros [Ht (ends & starts & E & Hs & Hd)]. split; [done|]. exists ends, starts. split; [done|].
  eauto using good_mono_start, good_mono_end.
Qed.

(** An exception drops places of a request from the top. *)
Lemma start_state_length exc r b it l : start_state exc r b it l -> (length it <= 1)%nat.
Proof. by destruct 1; cbn; lia. Qed.

Lemma end_state_length exc r b it l : end_state exc r b it l -> (length it <= 1)%nat.
Proof. by destruct 1; cbn; lia. Qed.

Lemma start_dropped (exc : Prop) r b it l : exc -> start_state exc r b it l -> start_state exc r b [] l.
Proof.
  intros He Hs. assert (started b -> b_phase b <> Waiting) as Hw by (intros [?|[_ ?]]; congruence).
  destruct Hs; apply S_none; try done; try (intros Ep; exfalso; first [by apply Hw | congruence]);
    unfold start_calls; try apply prefix_nil; try (by eexists); destruct (b_global b); try done; by eexists.
Qed.

Lemma end_dropped (exc : Prop) r b it l : exc -> end_state exc r b it l -> end_state exc r b [] l.
Proof.
  intros He Hd. destruct Hd; try (by econstructor).
  by apply (E_cut exc r b (Succeeded VNull) [] (all_actions b (Succeeded VNull))).
Qed.

Lemma good_drop (exc : Prop) k r v :
  exc -> good exc r v -> good exc r (View (v_brief v) (drop k (v_items v)) (v_starts v) (v_ends v)).
Proof.
  unfold good. cbn. intros He. destruct (v_brief v) as [b|].
  - intros [Ht (ends & starts & E & Hs & Hd)]. split; [done|]. rewrite E.
    pose proof (start_state_length _ _ _ _ _ Hs). pose proof (end_state_length _ _ _ _ _ Hd).
    rewrite drop_app. exists (drop k ends), (drop (k - length ends) starts). split; [done|]. split.
    + destruct (k - length ends)%nat as [|k']; [done|]. rewrite drop_ge by lia. by eapply start_dropped.
    + destruct k as [|k]; [done|]. rewrite drop_ge by lia. by eapply end_dropped.
  - intros (-> & ? & ?). by rewrite drop_nil.
Qed.

Lemma items_unwind r st : exists k, items r (unwind st) = drop k (items r st).
Proof.
  unfold items. induction st as [|[f|r' todo|r'] st [k IH]]; cbn; [by exists 0%nat|by exists 0%nat|..];
    destruct (r =? r')%nat; cbn; (exists (S k); done) || (exists k; done).
Qed.

Lemma items_cons r t st : items r (t :: st) = (if belongs r t then [t] else []) ++ items r st.
Proof. unfold items. cbn. by destruct (belongs r t). Qed.

Lemma items_app r st st' : items r (st ++ st') = items r st ++ items r st'.
Proof. apply List.filter_app. Qed.

Lemma start_log_snoc r l e : start_log r (l ++ [e]) = start_log r l ++ if start_entry r e then [e] else [].
Proof. unfold start_log. rewrite List.filter_app. cbn. by destruct (start_entry r e). Qed.

Lemma end_log_snoc r l e : end_log r (l ++ [e]) = end_log r l ++ if end_entry r e then [e] else [].
Proof. unfold end_log. rewrite List.filter_app. cbn. by destruct (end_entry r e). Qed.

(** An exception that leaves the functions above [st]. *)
Lemma consistent_throw s st pre :
  stack s = pre ++ st -> consistent s -> consistent (throw (with_stack st s)).
Proof.
  intros Hst H r. unfold throw. destruct (items_unwind r st) as [k Ek].
  set (s' := logged _ _).
  assert (exception s') as He by (unfold exception; cbn; set_solver).
  assert (view_of s' r
    = View (v_brief (view_of s r)) (drop (length (items r pre) + k) (v_items (view_of s r)))
        (v_starts (view_of s r)) (v_ends (view_of s r))) as ->.
  { unfold view_of. cbn. rewrite Ek, Hst, items_app, start_log_snoc, end_log_snoc. cbn.
    rewrite !app_nil_r, <- drop_drop, drop_app_length. done. }
  apply good_drop; [done|]. eapply good_mono, H. done.
Qed.

(** *** Steps that concern one request *)

Definition others (r : nat) (s s' : ajax) : Prop :=
  (exception s -> exception s') /\ forall r0, r0 <> r -> view_of s' r0 = view_of s r0.

Lemma others_refl r s : others r s s.
Proof. done. Qed.

Lemma others_trans r s1 s2 s3 : others r s1 s2 -> others r s2 s3 -> others r s1 s3.
Proof. intros [E1 H1] [E2 H2]. split; [auto|]. intros r0 Hr. by rewrite H2, H1. Qed.

Lemma others_stack r st s :
  (forall r0, r0 <> r -> items r0 st = items r0 (stack s)) -> others r s (with_stack st s).
Proof. intros H. split; [done|]. intros r0 Hr. unfold view_of. cbn. by rewrite H. Qed.

Lemma others_update r f s : others r s (update r f s).
Proof. split; [done|]. intros r0 Hr. unfold view_of. cbn. by rewrite list_lookup_alter_ne. Qed.

Lemma others_library r todo s : others r s (push (Library r todo) s).
Proof.
  apply others_stack. intros r0 Hr. rewrite items_cons. cbn. by rewrite (proj2 (Nat.eqb_neq r0 r)).
Qed.

Lemma others_blocked r s : others r s (push (Blocked r) s).
Proof.
  apply others_stack. intros r0 Hr. rewrite items_cons. cbn. by rewrite (proj2 (Nat.eqb_neq r0 r)).
Qed.

Definition frame_of (r : nat) (f : frame) : Prop :=
  match f with FCallback r' _ | FEvent r' _ | FEval r' _ => r' = r | _ => True end.

Lemma exception_snoc s e l : log s = l -> LException ∈ l -> LException ∈ l ++ [e].
Proof. set_solver. Qed.

Lemma others_enter r f s : frame_of r f -> others r s (enter f s).
Proof.
  intros Hf. split.
  - unfold exception. destruct f; cbn; set_solver.
  - intros r0 Hr. assert ((r0 =? r)%nat = false) as Hn by by apply Nat.eqb_neq.
    unfold view_of. destruct f as [|r' c|r' e|r' code|d]; cbn in *; subst;
      rewrite items_cons; cbn; rewrite ?start_log_snoc, ?end_log_snoc; cbn; try done;
      [destruct c|destruct e|]; rewrite ?Hn; cbn; by rewrite ?Hn, ?app_nil_r.
Qed.

Lemma consistent_at r s s' :
  consistent s -> others r s s' -> good (exception s') r (view_of s' r) -> consistent s'.
Proof.
  intros H [He Hv] Hg r0. destruct (decide (r0 = r)) as [->|Hne]; [done|].
  rewrite Hv by done. by eapply good_mono, H.
Qed.

(** Steps no request is concerned by. *)
Lemma consistent_same s s' :
  consistent s -> (exception s -> exception s') -> (forall r, view_of s' r = view_of s r) -> consistent s'.
Proof. intros H He Hv r. rewrite Hv. by eapply good_mono, H. Qed.

(** Reading and building the state of the request concerned. *)
Lemma good_elim s r q :
  consistent s -> requests s !! r = Some q ->
  timer_ok (brief_of q) /\ exists ends starts, items r (stack s) = ends ++ starts
    /\ start_state (exception s) r (brief_of q) starts (start_log r (log s))
    /\ end_state (exception s) r (brief_of q) ends (end_log r (log s)).
Proof. intros H Hq. specialize (H r). unfold good, view_of in H. by rewrite Hq in H. Qed.

Lemma good_intro exc s r q ends starts :
  requests s !! r = Some q -> timer_ok (brief_of q) -> items r (stack s) = ends ++ starts ->
  start_state exc r (brief_of q) starts (start_log r (log s)) ->
  end_state exc r (brief_of q) ends (end_log r (log s)) -> good exc r (view_of s r).
Proof.
  intros Hq Ht Hi Hs Hd. unfold good, view_of. rewrite Hq. cbn. eauto 10.
Qed.

(** An item of the start is on top only when the request has none of its end. *)
Lemma top_item exc r b ends starts t it sl el :
  ends ++ starts = t :: it -> start_state exc r b starts sl -> end_state exc r b ends el ->
  (ends = [] /\ starts = [t] /\ it = []) \/ (ends = [t] /\ starts = it).
Proof.
  intros E Hs Hd. apply start_state_length in Hs. apply end_state_length in Hd.
  destruct ends as [|e [|]]; cbn in *; [|right; by simplify_eq|lia].
  destruct starts as [|t' [|]]; cbn in *; [done| |lia]. left. by simplify_eq.
Qed.

(** The end of a request: its handler runs. *)
Definition settled (b : brief) : brief := Brief (b_global b) Done false (b_xhr b).

Lemma start_settled exc r b l :
  l `prefix_of` start_calls (b_global b) r -> start_state exc r (settled b) [] l.
Proof. constructor; [done|naive_solver|discriminate]. Qed.

Lemma start_prefix exc r b it l : start_state exc r b it l -> l `prefix_of` start_calls (b_global b) r.
Proof.
  intros Hs. apply (good_mono_start exc True) in Hs; [|done].
  apply start_dropped in Hs; [|done]. by inversion Hs.
Qed.

Lemma end_none exc r b it l : end_state exc r b it l -> b_phase b <> Done -> it = [] /\ l = [].
Proof. by destruct 1. Qed.

Lemma others_settle_push r l s : others r s (push (Library r l) (settle r s)).
Proof. eapply others_trans; [apply others_update|apply others_library]. Qed.

Lemma settle_lookup r s q : requests s !! r = Some q ->
  requests (settle r s) !! r = Some (set_timer false (set_phase Done q)).
Proof. intros Hq. cbn. by rewrite list_lookup_alter_eq, Hq. Qed.

Lemma settle_push exc s r q v :
  requests s !! r = Some q ->
  start_state exc r (settled (brief_of q)) (items r (stack s)) (start_log r (log s)) ->
  end_log r (log s) = [] ->
  good exc r (view_of (push (Library r (all_actions (brief_of q) v)) (settle r s)) r).
Proof.
  intros Hq Hs He.
  apply (good_intro exc _ r (set_timer false (set_phase Done q)) [Library r (all_actions (brief_of q) v)]
           (items r (stack s))).
  - cbn. by rewrite list_lookup_alter_eq, Hq.
  - done.
  - cbn. rewrite items_cons. cbn. by rewrite Nat.eqb_refl.
  - done.
  - cbn. rewrite He. apply (E_todo exc r _ v []); [done| |done]. destruct v; discriminate.
Qed.

(** The handler of a script. *)
Lemma others_script_handler r et q j s : others r s (script_handler r et q j s).
Proof.
  unfold script_handler. case_bool_decide; [apply others_settle_push|apply others_refl].
Qed.

Lemma script_handler_good exc s r q j et :
  requests s !! r = Some q -> r_jsonp q = Some j ->
  (r_phase q = Starting \/ r_phase q = Waiting ->
     start_state exc r (settled (brief_of q)) (items r (stack s)) (start_log r (log s))
     /\ end_log r (log s) = []) ->
  (~ (r_phase q = Starting \/ r_phase q = Waiting) -> good exc r (view_of s r)) ->
  good exc r (view_of (script_handler r et q j s) r).
Proof.
  intros Hq Hj H1 H2. unfold script_handler. case_bool_decide as Hp; [|auto].
  destruct (H1 Hp) as [Hs He].
  assert (exists v, (match et, responseData j with
                     | None, Some data => ajaxSuccess data
                     | None, None => ajaxError None Failed
                     | Some t, _ => ajaxError None t
                     end) ++ [Restore] = all_actions (brief_of q) v) as [v ->].
  { unfold all_actions, brief_of. rewrite Hj. cbn.
    destruct et as [t|], (responseData j) as [d|];
      [exists (FailedWith None t)|exists (FailedWith None t)|exists (Succeeded d)
      |exists (FailedWith None Failed)]; done. }
  by apply settle_push.
Qed.

(** A script that still listens, wherever the request stands. *)
Lemma start_settled_jsonp exc r b it l :
  b_xhr b = false -> start_state exc r b it l -> b_phase b = Starting \/ b_phase b = Waiting ->
  start_state exc r (settled b) it l.
Proof.
  intros Hx Hs Hp. assert (started (settled b)) by (right; done).
  destruct Hs; try (by constructor); try congruence.
  - by apply (S_send_event exc r (settled b)).
  - by apply (S_send exc r (settled b)).
  - by apply start_settled.
Qed.

Lemma script_handler_consistent s r q j et :
  consistent s -> requests s !! r = Some q -> r_jsonp q = Some j -> consistent (script_handler r et q j s).
Proof.
  intros H Hq Hj. eapply consistent_at; [done|apply others_script_handler|].
  destruct (others_script_handler r et q j s) as [He _].
  apply script_handler_good; [done|done|..].
  - intros Hp. destruct (good_elim s r q H Hq) as (_ & ends & starts & Hi & Hs & Hd).
    apply end_none in Hd as [-> Hel]; [|cbn; intuition congruence]. cbn in Hi. rewrite Hi.
    split; [|done]. apply start_settled_jsonp; [cbn; by rewrite Hj|
      by eapply good_mono_start|done].
  - intros _. by eapply good_mono, H.
Qed.

(** The handler of an XHR. *)
Create HintDb ajax.

Section Steps.
Context `{Page, Parsers}.

Lemma others_xhr_handler r resp q s : others r s (xhr_handler r resp q s).
Proof.
  unfold xhr_handler. destruct (handle _ _ _ _); [apply others_settle_push|apply others_settle_push|].
  eapply others_trans; [apply others_update|by apply others_enter].
Qed.

Lemma xhr_handler_good exc s r q resp :
  requests s !! r = Some q -> r_jsonp q = None -> items r (stack s) = [] ->
  start_log r (log s) `prefix_of` start_calls (is_global q) r -> end_log r (log s) = [] ->
  good exc r (view_of (xhr_handler r resp q s) r).
Proof.
  intros Hq Hj Hi Hs He.
  assert (forall v, good exc r (view_of (push (Library r (end_actions v)) (settle r s)) r)) as Hpush.
  { intros v. replace (end_actions v) with (all_actions (brief_of q) v).
    - apply settle_push; [done| |done]. rewrite Hi. by apply start_settled.
    - unfold all_actions, brief_of. rewrite Hj. apply app_nil_r. }
  unfold xhr_handler. destruct (handle _ _ _ _) as [d|e t|code];
    [apply (Hpush (Succeeded d))|apply (Hpush (FailedWith e t))|].
  apply (good_intro exc _ r (set_timer false (set_phase Done q)) [Running (FEval r code)] []).
  - cbn. by rewrite list_lookup_alter_eq, Hq.
  - done.
  - cbn. rewrite items_cons. cbn. by rewrite Nat.eqb_refl, Hi.
  - by apply (start_settled exc r (brief_of q)).
  - cbn. rewrite He. constructor; [done|]. cbn. by rewrite Hj.
Qed.

(** *** The library *)

Lemma future_snoc g r did a : future g r (did ++ [a]) = future g r did ++ future g r [a].
Proof. unfold future. by rewrite bind_app. Qed.

(** The end of a request goes on after action [a]. *)
Lemma advance exc r b v did a todo :
  b_phase b = Done -> all_actions b v = did ++ a :: todo ->
  end_state exc r b (return_to r todo []) (future (b_global b) r (did ++ [a])).
Proof.
  intros Hp E. destruct todo as [|a' todo]; cbn.
  - rewrite <- E. unfold all_actions. rewrite future_end; [by constructor|]. by destruct (b_xhr b).
  - apply (E_todo exc r b v); [done|done|]. by rewrite E, <- app_assoc.
Qed.

Definition ending_action (a : action) : Prop :=
  match a with
  | Call BeforeSend | Trigger (AjaxStart | AjaxBeforeSend | AjaxSend | AjaxStop) | Prepare _ _ | Send => False
  | _ => True
  end.

Lemma all_actions_ending b v did a todo : all_actions b v = did ++ a :: todo -> ending_action a.
Proof.
  intros E. assert (a ∈ all_actions b v) as Hin by (rewrite E; set_solver). revert Hin.
  unfold all_actions, end_actions, ajaxSuccess, ajaxError, ajaxComplete.
  destruct v, (b_xhr b); cbn; rewrite !elem_of_cons, elem_of_nil; naive_solver.
Qed.

Lemma items_return_to r todo st : items r (return_to r todo st) = return_to r todo (items r st).
Proof. destruct todo; [done|]. cbn. rewrite items_cons. cbn. by rewrite Nat.eqb_refl. Qed.

Lemma items_return_to_ne r r0 todo st : r0 <> r -> items r0 (return_to r todo st) = items r0 st.
Proof.
  intros Hr. destruct todo; [done|]. cbn. rewrite items_cons. cbn. by rewrite (proj2 (Nat.eqb_neq r0 r)).
Qed.

Lemma others_return_to r l todo st s :
  stack s = Library r l :: st -> others r s (with_stack (return_to r todo st) s).
Proof.
  intros Hst. apply others_stack. intros r0 Hr. rewrite items_return_to_ne by done.
  rewrite Hst, items_cons. cbn. by rewrite (proj2 (Nat.eqb_neq r0 r)).
Qed.

(** Calls the views do not show. *)
Lemma view_update r f s r0 :
  (forall q, brief_of (f q) = brief_of q) -> view_of (update r f s) r0 = view_of s r0.
Proof.
  intros Hf. unfold view_of. cbn. rewrite list_lookup_alter. destruct (decide (r = r0)) as [->|]; [|done].
  destruct (requests s !! r0); cbn; [by rewrite Hf|done].
Qed.

Lemma view_call_window v data s r0 : view_of (call_window v data s) r0 = view_of s r0.
Proof.
  destruct v as [[r| |]|]; cbn; try done. apply view_update. intros q.
  destruct (r_jsonp q) eqn:E; [|done]. unfold brief_of. cbn. by rewrite E.
Qed.

Lemma view_restore r q j s r0 :
  requests s !! r = Some q -> r_jsonp q = Some j -> view_of (restore r q j s) r0 = view_of s r0.
Proof.
  intros Hq Hj. unfold restore.
  assert (view_of (update r (set_jsonp (Jsonp (callbackName j) None None (appended j)))
    (set_window (callbackName j) (originalCallback j) s)) r0 = view_of s r0) as E.
  { unfold view_of. cbn. rewrite list_lookup_alter. destruct (decide (r = r0)) as [<-|]; [|done].
    rewrite Hq. unfold brief_of. cbn. by rewrite Hj. }
  destruct (responseData j); [by rewrite view_call_window|done].
Qed.

Lemma view_stop r q s r0 : view_of (ajaxStop r q s) r0 = view_of s r0.
Proof.
  unfold ajaxStop. destruct (is_global q); [|done]. destruct (active s - 1 =? 0); [|done].
  unfold view_of. cbn. rewrite items_cons, start_log_snoc, end_log_snoc. cbn. by rewrite !app_nil_r.
Qed.

Lemma return_to_app r todo st : return_to r todo st = return_to r todo [] ++ st.
Proof. by destruct todo. Qed.

(** An action of the end of a request. *)
Lemma end_closing s s' r q a todo starts v did :
  consistent s -> others r s s' -> requests s !! r = Some q -> r_phase q = Done ->
  start_state (exception s) r (brief_of q) starts (start_log r (log s)) ->
  all_actions (brief_of q) v = did ++ a :: todo ->
  end_log r (log s) = future (is_global q) r did ->
  view_of s' r = View (Some (brief_of q)) (return_to r todo starts) (start_log r (log s))
                   (end_log r (log s) ++ future (is_global q) r [a]) ->
  consistent s'.
Proof.
  intros Hc Ho Hq Hp Hs Ha Hl Hv. apply (consistent_at r s); [done|done|]. rewrite Hv. unfold good.
  cbn [v_brief v_items v_starts v_ends]. destruct (good_elim s r q Hc Hq) as [Ht _].
  split; [done|]. exists (return_to r todo []), starts. split; [apply return_to_app|].
  split; [eapply good_mono_start; [apply Ho|done]|].
  rewrite Hl, <- future_snoc. by apply (advance _ _ (brief_of q) v).
Qed.

Lemma end_action s r q a todo st starts v did :
  consistent s -> stack s = Library r (a :: todo) :: st -> requests s !! r = Some q ->
  items r st = starts -> r_phase q = Done ->
  start_state (exception s) r (brief_of q) starts (start_log r (log s)) ->
  all_actions (brief_of q) v = did ++ a :: todo ->
  end_log r (log s) = future (is_global q) r did ->
  consistent (run_action r a q (with_stack (return_to r todo st) s)).
Proof.
  intros Hc Hst Hq Hi Hp Hs Ha Hl. pose proof (all_actions_ending _ _ _ _ _ Ha) as He.
  pose proof (others_return_to r _ todo st s Hst) as Ho.
  assert (forall s', others r s s' -> view_of s' r
    = View (Some (brief_of q)) (return_to r todo starts) (start_log r (log s))
        (end_log r (log s) ++ future (is_global q) r [a]) -> consistent s') as Hclose.
  { intros s' Ho' Hv. by eapply end_closing. }
  assert (view_of (with_stack (return_to r todo st) s) r
    = View (Some (brief_of q)) (return_to r todo starts) (start_log r (log s)) (end_log r (log s))) as Hv.
  { unfold view_of. cbn. by rewrite Hq, items_return_to, Hi. }
  destruct a as [o n|c|e| | |]; try done; cbn [run_action].
  - unfold call. destruct (isFunction _).
    + apply Hclose; [eapply others_trans; [done|by apply others_enter]|].
      unfold view_of. cbn. rewrite Hq, items_cons, start_log_snoc, end_log_snoc. cbn.
      rewrite items_return_to, Hi. destruct c; [done|..]; cbn; by rewrite Nat.eqb_refl, app_nil_r.
    + assert (throw (with_stack (return_to r todo st) s) = throw (with_stack st s)) as ->
        by (unfold throw; cbn; by destruct todo).
      by eapply (consistent_throw s st [_]).
  - destruct (is_global q) eqn:Eg.
    + apply Hclose; [eapply others_trans; [done|by apply others_enter]|].
      unfold view_of. cbn. rewrite Hq, items_cons, start_log_snoc, end_log_snoc. cbn.
      rewrite items_return_to, Hi. destruct e; try done; cbn; by rewrite Nat.eqb_refl, app_nil_r.
    + destruct e; try done; apply Hclose; try done; by rewrite Hv, app_nil_r.
  - apply Hclose.
    + eapply others_trans; [done|]. split; [|by intros; rewrite view_stop].
      unfold ajaxStop, exception. destruct (is_global q); [|done]. cbn. destruct (_ =? 0); [|done]. cbn. set_solver.
    + by rewrite view_stop, Hv, app_nil_r.
  - destruct (r_jsonp q) as [j|] eqn:Ej.
    + apply Hclose.
      * eapply others_trans; [done|]. split; [|by intros; rewrite view_restore].
        unfold restore, exception. destruct (responseData j), (originalCallback j) as [[]|]; cbn; done.
      * by rewrite view_restore, Hv, app_nil_r.
    + apply Hclose; [done|]. by rewrite Hv, app_nil_r.
Qed.

(** An action of the start of a request. *)
Lemma throw_return_to r todo st s : throw (with_stack (return_to r todo st) s) = throw (with_stack st s).
Proof. unfold throw. cbn. by destruct todo. Qed.

Lemma others_prepared r f s : others r s (push (Library r [Call BeforeSend]) (update r f s)).
Proof. eapply others_trans; [apply others_update|apply others_library]. Qed.

Lemma prepared_good exc r q f s :
  requests s !! r = Some q -> items r (stack s) = [] ->
  started (brief_of (f q)) -> abortTimeout (f q) = false -> r_phase (f q) <> Done ->
  start_log r (log s) = [] -> end_log r (log s) = [] ->
  good exc r (view_of (push (Library r [Call BeforeSend]) (update r f s)) r).
Proof.
  intros Hq Hi Hf Ht Hp Hs He. apply (good_intro exc _ r (f q) [] [Library r [Call BeforeSend]]).
  - cbn. by rewrite list_lookup_alter_eq, Hq.
  - unfold timer_ok. cbn. by rewrite Ht.
  - cbn. rewrite items_cons. cbn. by rewrite Nat.eqb_refl, Hi.
  - cbn. rewrite Hs. by constructor.
  - cbn. rewrite He. by constructor.
Qed.

Lemma run_prepare_consistent s r q o n st :
  consistent s -> stack s = Library r [Prepare o n] :: st -> requests s !! r = Some q ->
  items r st = [] -> r_phase q = New -> start_log r (log s) = [] -> end_log r (log s) = [] ->
  consistent (run_prepare r o n q (with_stack st s)).
Proof.
  intros Hc Hst Hq Hi Hp Hs He. unfold run_prepare.
  pose proof (others_return_to r _ [] st s Hst) as Ho. cbn [return_to] in Ho.
  assert (consistent (throw (with_stack st s))) as Hthrow by by eapply (consistent_throw s st [_]).
  destruct (prepare o n (settings q)) as [[o' dt]|]; [|done].
  destruct (is_word "jsonp" dt).
  - unfold ajaxJSONP, choose_name.
    destruct (truthy _); (eapply (consistent_at r s);
      [done|eapply others_trans; [exact Ho|]|apply (prepared_good _ r q); try done; by left]).
    + apply others_prepared.
    + eapply others_trans; [|apply others_prepared]. done.
  - destruct (headers o' dt); [|done]. destruct (override_mime o' dt); [|done].
    eapply (consistent_at r s); [done|eapply others_trans; [exact Ho|apply others_prepared]|].
    apply (prepared_good _ r q); try done; by left.
Qed.

Lemma end_state_same exc r b b' it l :
  b_global b' = b_global b -> b_phase b' = b_phase b -> b_xhr b' = b_xhr b ->
  end_state exc r b it l -> end_state exc r b' it l.
Proof.
  destruct b as [g p t x], b' as [g' p' t' x']. cbn. intros -> -> ->.
  destruct 1 as [?|code ? ?|v did todo ? ? ?|v ?|v did todo ? ? ?]; set (b' := Brief g p t' x).
  - by apply (E_none exc r b').
  - by apply (E_eval exc r b').
  - by apply (E_todo exc r b' v did todo).
  - by apply (E_done exc r b' v).
  - by apply (E_cut exc r b' v did todo).
Qed.

Lemma start_state_same exc r b b' it l :
  b_global b' = b_global b -> b_phase b' = b_phase b -> b_xhr b' = b_xhr b ->
  start_state exc r b it l -> start_state exc r b' it l.
Proof.
  destruct b as [g p t x], b' as [g' p' t' x']. cbn. intros -> -> ->.
  set (b' := Brief g p t' x). destruct 1.
  - by apply (S_prepare exc r b').
  - by apply (S_call exc r b').
  - by apply (S_before exc r b').
  - by apply (S_trigger exc r b').
  - by apply (S_event exc r b').
  - by apply (S_send_event exc r b').
  - by apply (S_send exc r b').
  - by apply (S_blocked exc r b').
  - by apply (S_none exc r b').
Qed.

Lemma send_consistent s r q st :
  consistent s -> stack s = Library r [Send] :: st -> requests s !! r = Some q ->
  items r st = [] -> started (brief_of q) ->
  start_log r (log s) = start_calls (is_global q) r ->
  end_state (exception s) r (brief_of q) [] (end_log r (log s)) ->
  consistent (send r q (with_stack st s)).
Proof.
  intros Hc Hst Hq Hi Hb Hs He. pose proof (others_return_to r _ [] st s Hst) as Ho.
  cbn [return_to] in Ho. unfold send. destruct (r_jsonp q) as [j|] eqn:Ej.
  - eapply (consistent_at r s); [done|eapply others_trans; [exact Ho|]|].
    { eapply others_trans; [|apply others_update]. done. }
    set (f := fun q => _). apply (good_intro _ _ r (f q) [] []).
    + cbn. by rewrite list_lookup_alter_eq, Hq.
    + unfold timer_ok, f. cbn. discriminate.
    + done.
    + cbn. rewrite Hs. constructor; [done| |done]. unfold f. cbn. case_decide; [naive_solver|].
      destruct Hb as [Hb|[_ Hb]]; cbn in Hb; rewrite ?Hb; naive_solver.
    + cbn. change (exception _) with (exception s). unfold f. cbn. destruct (decide (r_phase q = Starting)) as [Ep|Ep].
      * apply end_none in He as [_ ->]; [|cbn; congruence]. by constructor.
      * apply (end_state_same _ r (brief_of q)); [done|done|cbn; by rewrite Ej|done].
  - destruct Hb as [Hb|[Hx _]]; [|cbn in Hx; by rewrite Ej in Hx]. cbn in Hb.
    apply end_none in He as [_ He]; [|cbn; congruence].
    set (s1 := update _ _ _).
    assert (others r s s1) as Ho1 by (eapply others_trans; [exact Ho|apply others_update]).
    assert (requests s1 !! r = Some (set_timer (has_timeout q) (set_phase Waiting q))) as Hq1
      by (cbn; by rewrite list_lookup_alter_eq, Hq).
    destruct (is_async q).
    + apply (consistent_at r s); [done|done|].
      eapply (good_intro _ _ r _ [] []); [exact Hq1|unfold timer_ok; cbn; naive_solver|done|..].
      * cbn. rewrite Hs. constructor; [done|naive_solver|done].
      * cbn. rewrite He. by constructor.
    + apply (consistent_at r s); [done|eapply others_trans; [exact Ho1|apply others_blocked]|].
      eapply (good_intro _ _ r _ [] [Blocked r]); [exact Hq1|unfold timer_ok; cbn; naive_solver|..].
      * cbn. rewrite items_cons. cbn. by rewrite Nat.eqb_refl, Hi.
      * cbn. rewrite Hs. apply (S_blocked _ r (brief_of (set_timer (has_timeout q) (set_phase Waiting q)))); [done|].
        cbn. by rewrite Ej.
      * cbn. rewrite He. by constructor.
Qed.

Lemma start_action s r q a todo st :
  consistent s -> stack s = Library r (a :: todo) :: st -> requests s !! r = Some q ->
  items r st = [] ->
  start_state (exception s) r (brief_of q) [Library r (a :: todo)] (start_log r (log s)) ->
  end_state (exception s) r (brief_of q) [] (end_log r (log s)) ->
  consistent (run_action r a q (with_stack (return_to r todo st) s)).
Proof.
  intros Hc Hst Hq Hi Hs He. pose proof (others_return_to r _ todo st s Hst) as Ho.
  destruct (good_elim s r q Hc Hq) as [Ht _].
  assert (forall s' starts, others r s s' -> requests s' !! r = Some q ->
    items r (stack s') = starts -> start_state (exception s') r (brief_of q) starts (start_log r (log s')) ->
    end_log r (log s') = end_log r (log s) -> consistent s') as Hclose.
  { intros s' starts Ho' Hq' Hi' Hs' He'. apply (consistent_at r s); [done|done|].
    apply (good_intro _ _ r q [] starts); try done. rewrite He'. eapply good_mono_end, He. apply Ho'. }
  inversion Hs as [o n Hp Hx E1 E2|Hb E1 E2| |Hb E1 E2| |Hb E1 E2|Hb E1 E2| |]; simplify_eq; cbn [run_action return_to] in *.
  - apply (run_prepare_consistent s r q o n st); try done.
    apply end_none in He as [_ ?]; [done|]. cbn in *. congruence.
  - unfold call. destruct (isFunction _); [|by eapply (consistent_throw s st [_])].
    eapply Hclose; [eapply others_trans; [exact Ho|by apply others_enter]|done| |..].
    + cbn. rewrite items_cons. cbn. by rewrite Nat.eqb_refl, Hi.
    + cbn. rewrite start_log_snoc, <- E2. cbn. rewrite Nat.eqb_refl. by constructor.
    + cbn. rewrite end_log_snoc. apply app_nil_r.
  - destruct (is_global q) eqn:Eg.
    + eapply Hclose; [eapply others_trans; [exact Ho|by apply others_enter]|done| |..].
      * cbn. rewrite items_cons. cbn. by rewrite Nat.eqb_refl, Hi.
      * cbn. rewrite start_log_snoc, <- E2. cbn. rewrite Nat.eqb_refl. by constructor.
      * cbn. rewrite end_log_snoc. apply app_nil_r.
    + eapply Hclose; [eapply others_trans; [exact Ho|apply others_library]|done| |..].
      * cbn. rewrite items_cons. cbn. by rewrite Nat.eqb_refl, Hi.
      * cbn. rewrite <- E2. pose proof (S_send_event (exception s) r (brief_of q) Hb) as Hse.
        cbn in Hse. by rewrite Eg in Hse.
      * done.
  - destruct (is_global q) eqn:Eg.
    + eapply Hclose; [eapply others_trans; [exact Ho|by apply others_enter]|done| |..].
      * cbn. rewrite !items_cons. cbn. by rewrite Nat.eqb_refl, Hi.
      * cbn. rewrite start_log_snoc, <- E2. cbn. rewrite Nat.eqb_refl.
        match goal with |- start_state ?e _ _ _ _ => pose proof (S_send e r (brief_of q) Hb) as Hse end.
        cbn in Hse. rewrite Eg in *. exact Hse.
      * cbn. rewrite end_log_snoc. apply app_nil_r.
    + eapply Hclose; [exact Ho|done| |..].
      * cbn. rewrite items_cons. cbn. by rewrite Nat.eqb_refl, Hi.
      * cbn. rewrite <- E2. pose proof (S_send (exception s) r (brief_of q) Hb) as Hse.
        cbn in Hse. rewrite Eg in *. exact Hse.
      * done.
  - by apply send_consistent.
Qed.

Lemma library_step_consistent s s' : consistent s -> library_step s = Some s' -> consistent s'.
Proof.
  intros Hc. unfold library_step. destruct (stack s) as [|[f|r [|a todo]|r] st] eqn:Hst; try done.
  destruct (requests s !! r) as [q|] eqn:Hq; [|done]. cbn. intros [= <-].
  destruct (good_elim s r q Hc Hq) as (Ht & ends & starts & Hi & Hs & Hd).
  pose proof Hi as Hi'. rewrite Hst, items_cons in Hi'. cbn in Hi'. rewrite Nat.eqb_refl in Hi'.
  destruct (top_item _ _ _ _ _ (Library r (a :: todo)) (items r st) _ _ (eq_sym Hi') Hs Hd)
    as [(-> & -> & E)|[-> E]].
  - by apply start_action.
  - inversion Hd as [| |v did todo' Hp Hn Ha E1 E2| |]; simplify_eq.
    by apply (end_action s r q a todo st (items r st) v did).
Qed.

(** *** A blocked [send] is on top *)

Definition unblocked (t : task) : Prop := match t with Blocked _ => False | _ => True end.
Definition clear (s : ajax) : Prop := Forall unblocked (stack s).
Definition blocked_top (s : ajax) : Prop := Forall unblocked (tail (stack s)).

Lemma clear_blocked_top s : clear s -> blocked_top s.
Proof. unfold clear, blocked_top. destruct (stack s); [done|]. by intros [_ ?]%Forall_cons. Qed.

Lemma clear_push t s : unblocked t -> clear s -> clear (push t s).
Proof. intros Ht Hs. by constructor. Qed.

Lemma clear_enter f s : clear s -> clear (enter f s).
Proof. intros Hs. destruct f; by constructor. Qed.

Lemma clear_throw s : clear s -> clear (throw s).
Proof.
  unfold clear, throw. cbn. induction (stack s) as [|[f|r todo|r] st IH]; cbn; [done|done|..];
    by intros [_ ?]%Forall_cons; apply IH.
Qed.

Lemma clear_script_handler r et q j s : clear s -> clear (script_handler r et q j s).
Proof. unfold script_handler. case_bool_decide; [|done]. intros. by constructor. Qed.

Lemma clear_xhr_handler r resp q s : clear s -> clear (xhr_handler r resp q s).
Proof. unfold xhr_handler. intros. destruct (handle _ _ _ _); by constructor. Qed.

Lemma clear_call_window v data s : clear s -> clear (call_window v data s).
Proof. destruct v as [[]|]; cbn; try done. intros. by constructor. Qed.

Lemma clear_cancel r q s : clear s -> clear (cancel r q s).
Proof.
  unfold cancel. destruct (r_jsonp q); [apply clear_script_handler|]. intros. by constructor.
Qed.

#[local] Hint Resolve clear_push clear_enter clear_throw clear_script_handler clear_xhr_handler
  clear_call_window clear_cancel clear_blocked_top : ajax.

Lemma run_action_blocked r a q s : clear s -> blocked_top (run_action r a q s).
Proof.
  intros Hs. destruct a as [o n|c|e| | |]; cbn [run_action].
  - unfold run_prepare. destruct (prepare o n (settings q)) as [[o' dt]|]; [|eauto with ajax].
    destruct (is_word "jsonp" dt).
    + unfold ajaxJSONP. destruct (choose_name o' s) as [name s1] eqn:E.
      assert (stack s1 = stack s) as Hst by (unfold choose_name in E; by destruct (truthy _); simplify_eq).
      apply clear_blocked_top. constructor; [done|]. cbn. by rewrite Hst.
    + destruct (headers o' dt); [|eauto with ajax]. destruct (override_mime o' dt); [|eauto with ajax].
      apply clear_blocked_top. by constructor.
  - unfold call. destruct (isFunction _); eauto with ajax.
  - destruct (is_global q); [eauto with ajax|].
    destruct e; try (by apply clear_blocked_top). apply clear_blocked_top. by constructor.
  - unfold send. destruct (r_jsonp q); [by apply clear_blocked_top|].
    destruct (is_async q); [by apply clear_blocked_top|done].
  - unfold ajaxStop. destruct (is_global q); [|by apply clear_blocked_top].
    destruct (_ =? 0); [|by apply clear_blocked_top]. apply clear_blocked_top. by constructor.
  - destruct (r_jsonp q) as [j|]; [|by apply clear_blocked_top]. unfold restore.
    destruct (responseData j); [|by apply clear_blocked_top]. by apply clear_blocked_top, clear_call_window.
Qed.

Lemma clear_under s t st : blocked_top s -> stack s = t :: st -> clear (with_stack st s).
Proof. unfold blocked_top, clear. intros Hb Hst. by rewrite Hst in Hb. Qed.

Lemma clear_running s : blocked_top s -> is_running s = true -> clear s.
Proof.
  unfold blocked_top, clear, is_running. destruct (stack s) as [|[f|r todo|r] st]; try done.
  intros. by constructor.
Qed.

Lemma clear_idle s : is_idle s = true -> clear s.
Proof. unfold clear, is_idle. by destruct (stack s). Qed.

Lemma step_blocked s e s' : blocked_top s -> step s e = Some s' -> blocked_top s'.
Proof.
  intros Hb. destruct e as [| |v|v|o n|r|r o| |r resp|r|r data|r failed]; cbn [step].
  - unfold library_step. destruct (stack s) as [|[f|r [|a todo]|r] st] eqn:Hst; try done.
    destruct (requests s !! r) as [q|]; [|done]. intros [= <-]. apply run_action_blocked.
    pose proof (clear_under s _ _ Hb Hst). destruct todo; [done|]. by constructor.
  - destruct (is_idle s) eqn:E; [|done]. intros [= <-]. apply clear_idle in E. eauto with ajax.
  - destruct (stack s) as [|[f|r todo|r] st] eqn:Hst; try done. apply clear_under in Hst; [|done].
    destruct f as [|r [| | |]|r []|r code|d]; cbn; try (by intros [= <-]; eauto with ajax);
      try (destruct (requests s !! r); cbn; [|done]; intros [= <-]; destruct (is_false v); eauto with ajax);
      try (intros [= <-]; apply clear_blocked_top, clear_push; done); apply clear_blocked_top, clear_push; done.
  - destruct (stack s) as [|[f|r todo|r] st] eqn:Hst; try done. apply clear_under in Hst; [|done].
    destruct f as [|r c|r ev|r code|d]; cbn; try (by intros [= <-]; eauto with ajax).
    destruct (requests s !! r); cbn; [|done]. destruct (_ || _); [done|]. intros [= <-]. eauto with ajax.
  - destruct (is_running s) eqn:E; [|done]. intros [= <-]. apply clear_running in E; [|done].
    unfold ajax_call, ajaxStart. destruct (is_global _); [|by apply clear_blocked_top, clear_push].
    destruct (_ =? 0); apply clear_blocked_top; [apply clear_enter|]; by constructor.
  - destruct (is_running s) eqn:E; [|done]. apply clear_running in E; [|done].
    destruct (requests s !! r) as [q|]; cbn; [|done]. intros [= <-]. unfold abort.
    destruct (r_jsonp q); [eauto with ajax|]. destruct (decide _); eauto with ajax.
  - destruct (requests s !! r) as [q|]; cbn; [|done]. destruct (_ && _); [|done]. by intros [= <-].
  - destruct (stack s) as [|[f|r [|[] todo]|r] st] eqn:Hst; try done; apply clear_under in Hst; try done.
    + destruct (requests s !! r) as [q|]; cbn; [|done]. destruct (r_jsonp q); [done|].
      intros [= <-]. eauto with ajax.
    + intros [= <-]. by apply clear_blocked_top, clear_throw.
  - destruct (requests s !! r) as [q|]; cbn; [|done]. destruct (_ && _); [|done].
    destruct (stack s) as [|[f|r' todo|r'] st] eqn:Hst; try done.
    + intros [= <-]. apply clear_blocked_top, clear_xhr_handler. unfold clear. by rewrite Hst.
    + destruct (decide (r = r')); [|done]. intros [= <-].
      by eapply clear_blocked_top, clear_xhr_handler, clear_under.
  - destruct (requests s !! r) as [q|]; cbn; [|done]. destruct (is_idle s) eqn:E; [|done].
    apply clear_idle in E. destruct (abortTimeout q); [|done]. intros [= <-]. unfold timeout.
    destruct (r_jsonp q); [by apply clear_blocked_top, clear_script_handler|].
    apply clear_blocked_top. by constructor.
  - destruct (requests s !! r) as [q|]; cbn; [|done]. destruct (r_jsonp q) as [j|]; [|done].
    destruct (is_idle s) eqn:E; [|done]. apply clear_idle in E. destruct (appended j); [|done].
    intros [= <-]. eauto with ajax.
  - destruct (requests s !! r) as [q|]; cbn; [|done]. destruct (r_jsonp q) as [j|]; [|done].
    destruct (is_idle s) eqn:E; [|done]. apply clear_idle in E. destruct (appended j); [|done].
    intros [= <-]. eauto with ajax.
Qed.

(** *** All steps *)

Lemma pop_consistent s f st :
  consistent s -> stack s = Running f :: st -> (forall r, belongs r (Running f) = false) ->
  consistent (with_stack st s).
Proof.
  intros Hc Hst Hf. eapply consistent_same; [done|done|]. intros r. unfold view_of. cbn.
  by rewrite Hst, items_cons, Hf.
Qed.

Lemma others_pop r s t st :
  stack s = t :: st -> (forall r0, r0 <> r -> belongs r0 t = false) -> others r s (with_stack st s).
Proof.
  intros Hst Ht. apply others_stack. intros r0 Hr. by rewrite Hst, items_cons, Ht.
Qed.

(** A request that is not done and has no place on the stack may end. *)
Lemma xhr_end s s1 r q v :
  consistent s -> others r s s1 -> requests s1 !! r = Some q -> r_jsonp q = None ->
  items r (stack s1) = [] -> start_log r (log s1) `prefix_of` start_calls (is_global q) r ->
  end_log r (log s1) = [] -> consistent (push (Library r (end_actions v)) (settle r s1)).
Proof.
  intros Hc Ho Hq Hj Hi Hs He. apply (consistent_at r s); [done|eapply others_trans; [done|apply others_settle_push]|].
  replace (end_actions v) with (all_actions (brief_of q) v).
  - apply settle_push; [done| |done]. rewrite Hi. by apply start_settled.
  - unfold all_actions, brief_of. rewrite Hj. apply app_nil_r.
Qed.

(** [ajaxBeforeSend] returns [false]. *)
Lemma cancel_consistent s r q t st :
  consistent s -> stack s = t :: st -> belongs r t = true -> (forall r0, r0 <> r -> belongs r0 t = false) ->
  requests s !! r = Some q -> start_state (exception s) r (brief_of q) [t] (start_log r (log s)) ->
  started (brief_of q) -> items r st = [] ->
  end_state (exception s) r (brief_of q) [] (end_log r (log s)) ->
  consistent (cancel r q (with_stack st s)).
Proof.
  intros Hc Hst Ht Ho Hq Hs Hb Hi He. pose proof (others_pop r s t st Hst Ho) as Hop.
  pose proof (start_prefix _ _ _ _ _ Hs) as Hpre. unfold cancel. destruct (r_jsonp q) as [j|] eqn:Ej.
  - apply (consistent_at r s); [done|eapply others_trans; [exact Hop|apply others_script_handler]|].
    assert (forall s', others r s s' -> exception s -> exception s') as Hex by (intros ? [? _]; done).
    pose proof (others_trans _ _ _ _ Hop (others_script_handler r (Some Aborted) q j (with_stack st s))) as Hot.
    apply script_handler_good; [done|done|..].
    + intros Hp. cbn. rewrite Hi. split; [by apply start_settled|].
      apply end_none in He as [_ ?]; [done|]. cbn. intuition congruence.
    + intros Hp. destruct Hb as [Hb|[_ Hb]]; cbn in Hb; [naive_solver|].
      apply (good_intro _ _ r q [] []); [done| |done|..].
      * by destruct (good_elim s r q Hc Hq).
      * constructor; [done|cbn; rewrite Hb; naive_solver|cbn; congruence].
      * eapply good_mono_end, He. eauto.
  - destruct Hb as [Hb|[Hx _]]; [|cbn in Hx; by rewrite Ej in Hx]. cbn in Hb.
    apply end_none in He as [_ He]; [|cbn; congruence].
    by apply (xhr_end s (with_stack st s) r q (FailedWith None Aborted)).
Qed.

(** A place of the start is on top, and the request goes on to [t']. *)
Lemma start_forward s r q t st todo :
  consistent s -> stack s = t :: st -> belongs r t = true -> (forall r0, r0 <> r -> belongs r0 t = false) ->
  requests s !! r = Some q -> items r st = [] ->
  start_state (exception s) r (brief_of q) [Library r todo] (start_log r (log s)) ->
  end_state (exception s) r (brief_of q) [] (end_log r (log s)) ->
  consistent (push (Library r todo) (with_stack st s)).
Proof.
  intros Hc Hst Ht Ho Hq Hi Hs He. pose proof (others_pop r s t st Hst Ho) as Hop.
  apply (consistent_at r s); [done|eapply others_trans; [exact Hop|apply others_library]|].
  apply (good_intro _ _ r q [] [Library r todo]); try done.
  - by destruct (good_elim s r q Hc Hq).
  - cbn. rewrite items_cons. cbn. by rewrite Nat.eqb_refl, Hi.
Qed.

Lemma belongs_only r t : belongs r t = true -> forall r0, r0 <> r -> belongs r0 t = false.
Proof.
  intros Ht r0 Hr. destruct t as [[|r' []|r' []|r' code|d]|r' todo|r']; cbn in *; try done;
    apply Nat.eqb_eq in Ht as <-; by apply Nat.eqb_neq.
Qed.

(** The place on top, when it belongs to a request. *)
Lemma top_elim s t st r q :
  consistent s -> stack s = t :: st -> belongs r t = true -> requests s !! r = Some q ->
  (items r st = [] /\ start_state (exception s) r (brief_of q) [t] (start_log r (log s))
   /\ end_state (exception s) r (brief_of q) [] (end_log r (log s)))
  \/ (start_state (exception s) r (brief_of q) (items r st) (start_log r (log s))
      /\ end_state (exception s) r (brief_of q) [t] (end_log r (log s))).
Proof.
  intros Hc Hst Ht Hq. destruct (good_elim s r q Hc Hq) as (_ & ends & starts & Hi & Hs & Hd).
  rewrite Hst, items_cons, Ht in Hi. cbn in Hi.
  destruct (top_item _ _ _ _ _ t (items r st) _ _ (eq_sym Hi) Hs Hd) as [(-> & -> & E)|[-> ->]]; auto.
Qed.

(** The response that was a script has run. *)
Lemma eval_consistent s r q code st v :
  consistent s -> stack s = Running (FEval r code) :: st -> requests s !! r = Some q ->
  consistent (push (Library r (end_actions v)) (with_stack st s)).
Proof.
  intros Hc Hst Hq. assert (belongs r (Running (FEval r code)) = true) as Ht by apply Nat.eqb_refl.
  pose proof (others_pop r s _ st Hst (belongs_only _ _ Ht)) as Hop.
  destruct (top_elim s _ st r q Hc Hst Ht Hq) as [(_ & Hs & _)|[Hs Hd]]; [inversion Hs|].
  apply (consistent_at r s); [done|eapply others_trans; [exact Hop|apply others_library]|].
  inversion Hd as [|? Hp Hx E1 E2| | |].
  apply (good_intro _ _ r q [Library r (end_actions v)] (items r st)); try done.
  - by destruct (good_elim s r q Hc Hq).
  - cbn. rewrite items_cons. cbn. by rewrite Nat.eqb_refl.
  - cbn. rewrite <- E2. apply (E_todo _ r (brief_of q) v []); [done|by destruct v|].
    unfold all_actions. by rewrite Hx, app_nil_r.
Qed.

Lemma return_from_consistent s f st v s' :
  consistent s -> stack s = Running f :: st -> return_from f v (with_stack st s) = Some s' -> consistent s'.
Proof.
  intros Hc Hst. assert ((forall r, belongs r (Running f) = false) -> consistent (with_stack st s)) as Hpop
    by by eapply pop_consistent.
  destruct f as [|r [| | |]|r []|r code|d]; cbn [return_from]; try (intros [= <-]; by apply Hpop).
  - cbn. destruct (requests s !! r) as [q|] eqn:Hq; cbn; [|done]. intros [= <-].
    assert (belongs r (Running (FCallback r BeforeSend)) = true) as Ht by apply Nat.eqb_refl.
    destruct (top_elim s _ st r q Hc Hst Ht Hq) as [(Hi & Hs & He)|[_ Hd]]; [|inversion Hd].
    assert (started (brief_of q)) as Hb by by inversion Hs.
    destruct (is_false v); [by eapply cancel_consistent, He; eauto using belongs_only|].
    eapply start_forward, He; eauto using belongs_only.
    inversion Hs as [| |? E1 E2| | | | | |]. by constructor.
  - cbn. destruct (requests s !! r) as [q|] eqn:Hq; cbn; [|done]. intros [= <-].
    assert (belongs r (Running (FEvent r AjaxBeforeSend)) = true) as Ht by apply Nat.eqb_refl.
    destruct (top_elim s _ st r q Hc Hst Ht Hq) as [(Hi & Hs & He)|[_ Hd]]; [|inversion Hd].
    assert (started (brief_of q)) as Hb by by inversion Hs.
    destruct (is_false v); [by eapply cancel_consistent, He; eauto using belongs_only|].
    eapply start_forward, He; eauto using belongs_only.
    inversion Hs as [| | | |? Hg E1 E2| | | |].
    pose proof (S_send_event (exception s) r (brief_of q) Hb) as Hse. by rewrite Hg in Hse.
  - intros [= <-]. destruct (requests s !! r) as [q|] eqn:Hq.
    + by apply (eval_consistent s r q code st (Succeeded (VStr code))).
    + specialize (Hc r). unfold good, view_of in Hc. rewrite Hq, Hst, items_cons in Hc. cbn in Hc.
      rewrite Nat.eqb_refl in Hc. by destruct Hc.
Qed.

Lemma known_request s f st r :
  consistent s -> stack s = Running f :: st -> belongs r (Running f) = true ->
  exists q, requests s !! r = Some q.
Proof.
  intros Hc Hst Ht. specialize (Hc r). unfold good, view_of in Hc.
  destruct (requests s !! r) as [q|]; [eauto|]. rewrite Hst, items_cons, Ht in Hc. by destruct Hc.
Qed.

Lemma throw_from_consistent s f st v s' :
  consistent s -> stack s = Running f :: st -> throw_from f v (with_stack st s) = Some s' -> consistent s'.
Proof.
  intros Hc Hst. assert (consistent (throw (with_stack st s))) as Ht by by eapply (consistent_throw s st [_]).
  destruct f as [|r c|r e|r code|d]; cbn [throw_from]; try (by intros [= <-]).
  - intros [= <-]. by eapply pop_consistent.
  - cbn. destruct (requests s !! r); cbn; [|done]. destruct (_ || _); [done|]. by intros [= <-].
  - intros [= <-]. destruct (known_request s _ st r Hc Hst) as [q Hq]; [apply Nat.eqb_refl|].
    destruct (truthy v);
      [by apply (eval_consistent s r q code st (FailedWith None ParserError))
      |by apply (eval_consistent s r q code st (Succeeded (VStr code)))].
Qed.

Lemma lookup_snoc_other {A} (l : list A) x i : i <> length l -> (l ++ [x]) !! i = l !! i.
Proof.
  intros Hi. destruct (decide (i < length l)%nat); [by apply lookup_app_l|].
  rewrite !lookup_ge_None_2; [done|lia|rewrite length_app; cbn; lia].
Qed.

Lemma ajax_call_consistent s o n : consistent s -> consistent (ajax_call o n s).
Proof.
  intros Hc. set (r := length (requests s)). set (q := Request (init_settings o) VUndef [] [] New false None).
  assert (requests s !! r = None) as Hn by by apply lookup_ge_None_2.
  pose proof (Hc r) as Hr. unfold good, view_of in Hr. rewrite Hn in Hr. destruct Hr as (Hi & Hs & He).
  cbn in Hi, Hs, He.
  set (s1 := push (Library r [Prepare o n]) (with_requests (requests s ++ [q]) s)).
  assert (others r s s1) as Ho.
  { eapply others_trans; [|apply others_library]. split; [done|]. intros r0 Hr. unfold view_of. cbn.
    by rewrite lookup_snoc_other. }
  assert (consistent s1) as H1.
  { apply (consistent_at r s); [done|done|].
    apply (good_intro _ _ r q [] [Library r [Prepare o n]]).
    - cbn. apply list_lookup_middle. done.
    - done.
    - cbn. rewrite items_cons. cbn. by rewrite Nat.eqb_refl, Hi.
    - cbn. rewrite Hs. by constructor.
    - cbn. rewrite He. by constructor. }
  unfold ajax_call. fold r q s1. unfold ajaxStart. destruct (is_global q); [|done].
  cbn [active]. destruct (_ =? 0); [|done].
  eapply consistent_same; [exact H1|unfold exception; cbn; set_solver|]. intros r0. unfold view_of. cbn.
  rewrite items_cons, start_log_snoc, end_log_snoc. cbn. by rewrite !app_nil_r.
Qed.

Lemma clear_items s r : clear s -> Blocked r ∉ items r (stack s).
Proof.
  unfold clear, items. intros Hs Hin%list_elem_of_In%List.filter_In.
  destruct Hin as [Hin%list_elem_of_In _]. rewrite Forall_forall in Hs. by apply Hs in Hin.
Qed.

(** A request that waits, when no [send] blocks, has no place on the stack. *)
Lemma waiting_items s r q :
  consistent s -> clear s -> requests s !! r = Some q -> r_phase q = Waiting ->
  items r (stack s) = [] /\ start_log r (log s) = start_calls (is_global q) r /\ end_log r (log s) = [].
Proof.
  intros Hc Hcl Hq Hp. destruct (good_elim s r q Hc Hq) as (_ & ends & starts & Hi & Hs & Hd).
  apply end_none in Hd as [-> ->]; [|cbn; congruence]. cbn in Hi.
  pose proof (clear_items s r Hcl) as Hb. rewrite Hi in Hb.
  inversion Hs as [? ? Hn|[Hn|[_ Hn]]|[Hn|[_ Hn]]|[Hn|[_ Hn]]|[Hn|[_ Hn]]|[Hn|[_ Hn]]|[Hn|[_ Hn]]| |l Hl Hex Hw E1 E2];
    subst; cbn in *; try congruence.
  - exfalso. apply Hb. match goal with E : [Blocked r] = _ |- _ => rewrite <- E end.
    by apply list_elem_of_singleton.
  - split_and!; auto.
Qed.

Lemma idle_items s r : is_idle s = true -> items r (stack s) = [].
Proof. unfold is_idle. by destruct (stack s). Qed.

Lemma xhr_handler_consistent s s1 r q resp :
  consistent s -> others r s s1 -> requests s1 !! r = Some q -> r_jsonp q = None ->
  items r (stack s1) = [] -> start_log r (log s1) `prefix_of` start_calls (is_global q) r ->
  end_log r (log s1) = [] -> consistent (xhr_handler r resp q s1).
Proof.
  intros Hc Ho Hq Hj Hi Hs He.
  apply (consistent_at r s); [done|eapply others_trans; [done|apply others_xhr_handler]|].
  by apply xhr_handler_good.
Qed.

Lemma abort_consistent s r q :
  consistent s -> clear s -> requests s !! r = Some q -> consistent (abort r q s).
Proof.
  intros Hc Hcl Hq. unfold abort. destruct (r_jsonp q) as [j|] eqn:Ej; [by apply script_handler_consistent|].
  destruct (decide (r_phase q = Waiting)) as [Hp|]; [|done].
  destruct (waiting_items s r q Hc Hcl Hq Hp) as (Hi & Hs & He).
  by apply (xhr_handler_consistent s); [..|rewrite Hs|].
Qed.

Lemma timeout_consistent s r q :
  consistent s -> is_idle s = true -> requests s !! r = Some q -> abortTimeout q = true ->
  consistent (timeout r q s).
Proof.
  intros Hc Hid Hq Ht. unfold timeout.
  set (s1 := update r (set_timer false) s).
  assert (others r s s1) as Ho by apply others_update.
  assert (requests s1 !! r = Some (set_timer false q)) as Hq1 by (cbn; by rewrite list_lookup_alter_eq, Hq).
  destruct (good_elim s r q Hc Hq) as (Hto & ends & starts & Hi & Hs & Hd).
  assert (consistent s1) as H1.
  { apply (consistent_at r s); [done|done|].
    apply (good_intro _ _ r (set_timer false q) ends starts); try done.
    - by apply (start_state_same _ r (brief_of q)).
    - by apply (end_state_same _ r (brief_of q)). }
  destruct (r_jsonp q) as [j|] eqn:Ej.
  - assert (script_handler r (Some Timeout) q j s1 = script_handler r (Some Timeout) (set_timer false q) j s1) as ->
      by done.
    by apply script_handler_consistent.
  - destruct (Hto Ht) as [Hp|Hp]; [cbn; by rewrite Ej|..]; cbn in Hp.
    all: assert (ends = [] /\ end_log r (log s) = []) as [-> Hel]
      by (apply end_none in Hd as [-> ?]; [done|cbn; congruence]).
    all: eapply (xhr_end s s1 r (set_timer false q) (FailedWith None Timeout)); try done.
    all: first [by apply idle_items | exact (start_prefix _ _ _ _ _ Hs)].
Qed.

(** A synchronous [send] throws. *)
Lemma lost_consistent s r st :
  consistent s -> stack s = Blocked r :: st ->
  consistent (throw (update r (set_phase Lost) (with_stack st s))).
Proof.
  intros Hc Hst. destruct (requests s !! r) as [q|] eqn:Hq; cycle 1.
  { specialize (Hc r). unfold good, view_of in Hc. rewrite Hq, Hst, items_cons in Hc. cbn in Hc.
    rewrite Nat.eqb_refl in Hc. by destruct Hc. }
  assert (belongs r (Blocked r) = true) as Ht by apply Nat.eqb_refl.
  destruct (top_elim s _ st r q Hc Hst Ht Hq) as [(Hi & Hs & He)|[_ Hd]]; [|inversion Hd].
  inversion Hs as [| | | | | | |Hw Hx E1 E2|]. apply end_none in He as [_ He]; [|congruence].
  assert (consistent (throw (with_stack st s))) as Hthrow by by eapply (consistent_throw s st [_]).
  change (throw (update r (set_phase Lost) (with_stack st s)))
    with (update r (set_phase Lost) (throw (with_stack st s))).
  apply (consistent_at r (throw (with_stack st s))); [done|apply others_update|].
  destruct (items_unwind r st) as [k Ek].
  apply (good_intro _ _ r (set_phase Lost q) [] []).
  - cbn. by rewrite list_lookup_alter_eq, Hq.
  - right. done.
  - cbn. by rewrite Ek, Hi, drop_nil.
  - cbn. rewrite start_log_snoc, <- E2. cbn. rewrite app_nil_r.
    constructor; [done|intros _; unfold exception; cbn; set_solver|done].
  - cbn. rewrite end_log_snoc, He. by constructor.
Qed.

(** The reply to a synchronous [send]. *)
Lemma blocked_reply_consistent s r q resp st :
  consistent s -> stack s = Blocked r :: st -> requests s !! r = Some q ->
  r_phase q = Waiting -> r_jsonp q = None -> consistent (xhr_handler r resp q (with_stack st s)).
Proof.
  intros Hc Hst Hq Hw Hj. assert (belongs r (Blocked r) = true) as Ht by apply Nat.eqb_refl.
  destruct (top_elim s _ st r q Hc Hst Ht Hq) as [(Hi & Hs & He)|[_ Hd]]; [|inversion Hd].
  apply end_none in He as [_ He]; [|cbn; congruence].
  apply (xhr_handler_consistent s); try done; [by eapply others_pop, belongs_only|].
  exact (start_prefix _ _ _ _ _ Hs).
Qed.

Lemma step_consistent s e s' : blocked_top s -> consistent s -> step s e = Some s' -> consistent s'.
Proof.
  intros Hb Hc. destruct e as [| |v|v|o n|r|r o| |r resp|r|r data|r failed]; cbn [step].
  - by apply library_step_consistent.
  - destruct (is_idle s); [|done]. intros [= <-]. eapply consistent_same; [done|done|]. intros r.
    unfold view_of. cbn. by rewrite items_cons.
  - destruct (stack s) as [|[f|r todo|r] st] eqn:Hst; try done. by apply return_from_consistent.
  - destruct (stack s) as [|[f|r todo|r] st] eqn:Hst; try done. by apply throw_from_consistent.
  - destruct (is_running s); [|done]. intros [= <-]. by apply ajax_call_consistent.
  - destruct (is_running s) eqn:E; [|done]. destruct (requests s !! r) as [q|] eqn:Hq; cbn; [|done].
    intros [= <-]. apply abort_consistent; [done|by apply clear_running|done].
  - destruct (requests s !! r) as [q|] eqn:Hq; cbn; [|done].
    destruct (is_running s); [|done]. cbn. case_bool_decide as Hg; [|done]. intros [= <-].
    eapply consistent_same; [done|done|]. intros r0. unfold view_of. cbn. rewrite list_lookup_alter.
    destruct (decide (r = r0)) as [<-|]; [|done]. rewrite Hq.
    assert (brief_of (set_settings o q) = brief_of q) as E; [|by cbn; rewrite E].
    unfold brief_of, is_global at 1. change (settings (set_settings o q)) with o. by rewrite Hg.
  - destruct (stack s) as [|[f|r [|[] todo]|r] st] eqn:Hst; try done.
    + destruct (requests s !! r) as [q|] eqn:Hq; cbn; [|done]. destruct (r_jsonp q); [done|].
      intros [= <-]. by eapply (consistent_throw s st [_]).
    + intros [= <-]. by apply lost_consistent.
  - destruct (requests s !! r) as [q|] eqn:Hq; cbn; [|done].
    case_bool_decide as Hw; [|done]. case_bool_decide as Hj; [|done]. cbn.
    destruct (stack s) as [|[f|r' todo|r'] st] eqn:Hst; try done.
    + intros [= <-]. destruct (waiting_items s r q Hc) as (Hi & Hs & He); try done.
      { unfold clear. by rewrite Hst. }
      by apply (xhr_handler_consistent s); [..|rewrite Hs|].
    + destruct (decide (r = r')) as [<-|]; [|done]. intros [= <-]. by apply blocked_reply_consistent.
  - destruct (requests s !! r) as [q|] eqn:Hq; cbn; [|done]. destruct (is_idle s) eqn:Hid; [|done].
    destruct (abortTimeout q) eqn:Et; [|done]. intros [= <-]. by apply timeout_consistent.
  - destruct (requests s !! r) as [q|] eqn:Hq; cbn; [|done]. destruct (r_jsonp q) as [j|]; [|done].
    destruct (is_idle s && appended j); [|done]. intros [= <-].
    eapply consistent_same; [done| |intros; apply view_call_window].
    unfold exception. destruct (window s !! callbackName j) as [[]|]; done.
  - destruct (requests s !! r) as [q|] eqn:Hq; cbn; [|done]. destruct (r_jsonp q) as [j|] eqn:Ej; [|done].
    destruct (is_idle s && appended j); [|done]. intros [= <-]. by apply script_handler_consistent.
Qed.

Lemma reachable_consistent w l s : run (init w) l = Some s -> blocked_top s /\ consistent s.
Proof.
  assert (forall s0, blocked_top s0 -> consistent s0 -> run s0 l = Some s -> blocked_top s /\ consistent s) as H1.
  { induction l as [|e l IH]; intros s0 Hb Hc; cbn; [by intros [= <-]|].
    destruct (step s0 e) as [s1|] eqn:E; cbn; [|done].
    apply IH; [by eapply step_blocked|by eapply step_consistent]. }
  apply H1; [constructor|]. intros r. split_and!; done.
Qed.

(** ** Theorems *)

Lemma end_prefix exc r b it l :
  end_state exc r b it l -> exists v, l `prefix_of` end_calls (b_global b) r v.
Proof.
  assert (forall v did todo, all_actions b v = did ++ todo ->
    future (b_global b) r did `prefix_of` end_calls (b_global b) r v) as Hf.
  { intros v did todo E. exists (future (b_global b) r todo).
    rewrite <- (future_end (b_global b) r v (if b_xhr b then [] else [Restore])) by by destruct (b_xhr b).
    unfold all_actions in E. rewrite E. unfold future. apply bind_app. }
  destruct 1; eauto; exists (Succeeded VNull); apply prefix_nil.
Qed.

(** C2: whatever the page does and however responses, timers, aborts and
    exceptions interleave, the calls the page sees of each request follow the
    protocol: first [beforeSend], then its two events when the request is
    global, each at most once; at the end either [success] or [error], never
    both, then the event, then [complete] with the same status, then its
    event, each at most once and in this order; and nothing of the end is seen
    before the response has been handled. *)
Theorem request_protocol w events s r q :
  run (init w) events = Some s -> requests s !! r = Some q ->
  start_log r (log s) `prefix_of` start_calls (is_global q) r
  /\ (exists v, end_log r (log s) `prefix_of` end_calls (is_global q) r v)
  /\ (r_phase q <> Done -> end_log r (log s) = []).
Proof.
  intros Hr Hq. destruct (reachable_consistent w events s Hr) as [_ Hc].
  destruct (good_elim s r q Hc Hq) as (_ & ends & starts & Hi & Hs & Hd). split_and!.
  - exact (start_prefix _ _ _ _ _ Hs).
  - exact (end_prefix _ _ _ _ _ Hd).
  - intros Hp. by destruct (end_none _ _ _ _ _ Hd Hp).
Qed.

(** C11: when all code has returned and no exception has left the library, each
    request has either made all calls of its start and waits for the browser,
    or has been ended with the complete sequence of calls of its end, exactly
    once. *)
Theorem request_served w events s r q :
  run (init w) events = Some s -> stack s = [] -> LException ∉ log s -> requests s !! r = Some q ->
  (r_phase q = Waiting /\ start_log r (log s) = start_calls (is_global q) r /\ end_log r (log s) = [])
  \/ (r_phase q = Done /\ exists v, end_log r (log s) = end_calls (is_global q) r v).
Proof.
  intros Hr Hst He Hq. destruct (reachable_consistent w events s Hr) as [_ Hc].
  destruct (good_elim s r q Hc Hq) as (_ & ends & starts & Hi & Hs & Hd).
  rewrite Hst in Hi. symmetry in Hi. apply app_eq_nil in Hi as [-> ->].
  inversion Hs as [| | | | | | | |l Hl Hex Hw]; subst. cbn in *.
  inversion Hd as [Hp E| | |v Hp E|v did todo Hp Hx]; [|right; eauto|done].
  left. cbn in Hp. destruct (r_phase q); try done; try (exfalso; apply He, Hex; tauto). auto.
Qed.

End Steps.

(** ** Samples *)

Module Sample.

Export AjaxSettings.Sample.

(** A parser that knows two documents. *)
#[export] Instance parsers : Parsers := {|
  canonical_number := fun s => if decide (s = js "7") then Some (VNum 7) else None;
  json_parse := fun s =>
    if decide (s = js "[]") then Ret (VArr []) else if decide (s = js "7") then Ret (VNum 7) else Throw;
|}.

(** The page asks for the file list; [beforeSend] and the handlers return. *)
Definition ask : list event :=
  [EPage; EAjax (VObj list_options) 0; EReturn VUndef;
   ELibrary; ELibrary; EReturn VUndef; ELibrary; EReturn VUndef; ELibrary; EReturn VUndef; ELibrary;
   EReturn VUndef].

Definition answer (status : Z) (body : string) : event :=
  EReply 0 (Response status [] (Some (js "application/json")) (js body) VNull).

(** The calls of the end and the return from each, then [ajaxStop]. *)
Definition finish : list event :=
  [ELibrary; EReturn VUndef; ELibrary; EReturn VUndef; ELibrary; EReturn VUndef; ELibrary; EReturn VUndef;
   ELibrary; EReturn VUndef].

Definition asked : option ajax := run (init ∅) ask.
Definition answered : option ajax := run (init ∅) (ask ++ [answer 200 "[]"] ++ finish).

Example success_log :
  log <$> answered
  = Some [LEvent 0 AjaxStart; LCallback 0 BeforeSend; LEvent 0 AjaxBeforeSend; LEvent 0 AjaxSend;
          LCallback 0 (Success (VArr [])); LEvent 0 AjaxSuccess; LCallback 0 (Complete Ok);
          LEvent 0 AjaxComplete; LEvent 0 AjaxStop].
Proof. vm_compute. reflexivity. Qed.

(** A body that is not JSON, a refused request, an abort from [beforeSend]. *)
Example error_logs :
  ((fun s => end_log 0 (log s)) <$> run (init ∅) (ask ++ [answer 200 "oops"] ++ finish))
    = Some (end_calls true 0 (FailedWith None ParserError))
  /\ ((fun s => end_log 0 (log s)) <$> run (init ∅) (ask ++ [answer 404 "[]"] ++ finish))
    = Some (end_calls true 0 (FailedWith None Failed))
  /\ ((fun s => end_log 0 (log s)) <$> run (init ∅)
        ([EPage; EAjax (VObj list_options) 0; EReturn VUndef; ELibrary; ELibrary; EReturn (VBool false)]
         ++ finish))
    = Some (end_calls true 0 (FailedWith None Aborted)).
Proof. vm_compute. split_and!; reflexivity. Qed.

(** Concrete states, for the theorems. *)
Definition state_after (l : list event) : ajax := default (init ∅) (run (init ∅) l).
Definition request_after (l : list event) (r : nat) : request :=
  default (Request [] VUndef [] [] New false None) (requests (state_after l) !! r).

Definition whole : list event := ask ++ [answer 200 "[]"] ++ finish.

Lemma request_protocol_witness :
  start_log 0 (log (state_after whole)) `prefix_of` start_calls (is_global (request_after whole 0)) 0
  /\ (exists v, end_log 0 (log (state_after whole)) `prefix_of` end_calls (is_global (request_after whole 0)) 0 v)
  /\ (r_phase (request_after whole 0) <> Done -> end_log 0 (log (state_after whole)) = []).
Proof. apply (request_protocol ∅ whole); vm_compute; reflexivity. Defined.

Lemma request_served_witness :
  (r_phase (request_after whole 0) = Waiting
   /\ start_log 0 (log (state_after whole)) = start_calls (is_global (request_after whole 0)) 0
   /\ end_log 0 (log (state_after whole)) = [])
  \/ (r_phase (request_after whole 0) = Done
      /\ exists v, end_log 0 (log (state_after whole)) = end_calls (is_global (request_after whole 0)) 0 v).
Proof.
  apply (request_served ∅ whole).
  - vm_compute. reflexivity.
  - vm_compute. reflexivity.
  - intros Hin. vm_compute in Hin. repeat (apply elem_of_cons in Hin as [?|Hin]; [discriminate|]).
    by apply elem_of_nil in Hin.
  - vm_compute. reflexivity.
Defined.

(** Two JSONP requests with the same callback name overlap: the first answer
    is taken for the second request, and the first one fails. *)
Definition jsonp_options : object :=
  [(js "url", VStr (js "/q?cb=?")); (js "jsonpCallback", VStr (js "cb"));
   (js "global", VBool false)].

Definition ask_jsonp : list event :=
  [EPage; EAjax (VObj jsonp_options) 0; ELibrary; ELibrary; EReturn VUndef; ELibrary; ELibrary; ELibrary;
   EReturn VUndef].

Definition finish_quiet : list event :=
  [ELibrary; EReturn VUndef; ELibrary; ELibrary; EReturn VUndef; ELibrary; ELibrary; ELibrary].

Example jsonp_overlap :
  let s := state_after (ask_jsonp ++ ask_jsonp
             ++ [EScriptCall 0 (VNum 1); EScriptEnd 0 false] ++ finish_quiet
             ++ [EScriptCall 1 (VNum 2); EScriptEnd 1 false] ++ finish_quiet) in
  end_log 0 (log s) = end_calls false 0 (FailedWith None Failed)
  /\ end_log 1 (log s) = end_calls false 1 (Succeeded (VNum 1)).
Proof. vm_compute. split; reflexivity. Qed.

End Sample.
