(* ===== verification/AjaxActive.v ===== *)
(** * The counter of active requests (ajax.js)

    [$.active] and the events [ajaxStart] and [ajaxStop]: what each request
    adds to the counter, and that every step of the machine of [Ajax] keeps
    the sum. *)

From stdpp Require Import base gmap list strings.
From Stdlib Require Import NArith.
From S2P Require Import Prelude JsString JsUri ZeptoCore AjaxParam AjaxSettings Ajax AjaxProtocol.

#[local] Arguments items : simpl never.
#[local] Arguments start_log : simpl never.
#[local] Arguments end_log : simpl never.

Section Counter.
Context `{Page, Parsers}.

(** *** The number of active requests

    What a request adds to [$.active]: one from its call until its [Stop]. *)

Definition is_stop (a : action) : bool := match a with Stop => true | _ => false end.

Definition item_weight (t : task) : nat :=
  match t with
  | Library _ todo => if existsb is_stop todo then 1 else 0
  | Running (FEval _ _) => 1
  | _ => 0
  end.

Definition weight (it : list task) : nat := sum_list (item_weight <$> it).

#[local] Arguments weight : simpl never.

Definition due (v : view) : nat :=
  match v_brief v with
  | Some b => if b_global b then if decide (b_phase b = Done) then weight (v_items v) else 1 else 0
  | None => 0
  end.

Definition charge (s : ajax) : nat := sum_list ((fun r => due (view_of s r)) <$> seq 0 (length (requests s))).

Definition balanced (s : ajax) : Prop :=
  Z.of_nat (charge s) <= active s /\ (~ exception s -> Z.of_nat (charge s) = active s).

Lemma sum_change {A} (f g : A -> nat) (x : A) l :
  NoDup l -> x ∈ l -> (forall y, y <> x -> f y = g y) ->
  (sum_list (f <$> l) + g x = sum_list (g <$> l) + f x)%nat.
Proof.
  intros Hn Hin Hfg. induction Hn as [|y l Hy Hn IH]; [by apply elem_of_nil in Hin|].
  cbn. apply elem_of_cons in Hin as [->|Hin].
  - assert (f <$> l = g <$> l) as ->; [|lia].
    apply list_fmap_ext. intros i z Hz. apply Hfg. intros ->. by apply Hy, list_elem_of_lookup_2 with i.
  - rewrite (Hfg y) by (intros ->; done). specialize (IH Hin). lia.
Qed.

Lemma sum_le {A} (f g : A -> nat) l :
  (forall y, f y <= g y)%nat -> (sum_list (f <$> l) <= sum_list (g <$> l))%nat.
Proof. intros H1. induction l as [|y l IH]; cbn; [lia|]. specialize (H1 y). lia. Qed.

Lemma sum_elem {A} (f : A -> nat) (x : A) l : x ∈ l -> (f x <= sum_list (f <$> l))%nat.
Proof. induction 1 as [|x y l Hin IH]; cbn; lia. Qed.

Lemma balanced_at r s s' :
  balanced s -> others r s s' -> length (requests s') = length (requests s) ->
  (r < length (requests s))%nat ->
  active s' - active s = Z.of_nat (due (view_of s' r)) - Z.of_nat (due (view_of s r)) -> balanced s'.
Proof.
  intros [Hle Heq] [He Hv] Hl Hr Hd.
  assert (charge s' + due (view_of s r) = charge s + due (view_of s' r))%nat as Hc.
  { unfold charge. rewrite Hl. apply (sum_change (fun i => due (view_of s' i)) (fun i => due (view_of s i))).
    - apply NoDup_seq.
    - apply elem_of_seq. lia.
    - intros y Hy. by rewrite Hv. }
  split; [lia|]. intros Hn. assert (~ exception s) as Hns by tauto. specialize (Heq Hns). lia.
Qed.

Lemma balanced_same s s' :
  balanced s -> (exception s -> exception s') -> length (requests s') = length (requests s) ->
  (forall r, view_of s' r = view_of s r) -> active s' = active s -> balanced s'.
Proof.
  intros [Hle Heq] He Hl Hv Ha.
  assert (charge s' = charge s) as Hc.
  { unfold charge. rewrite Hl. f_equal. apply list_fmap_ext. intros i y _. by rewrite Hv. }
  split; [lia|]. intros Hn. rewrite Hc, Ha. tauto.
Qed.

Lemma weight_drop k it : (weight (drop k it) <= weight it)%nat.
Proof.
  unfold weight. revert k. induction it as [|t it IH]; intros [|k]; cbn; [lia|lia|lia|].
  specialize (IH k). lia.
Qed.

Lemma weight_app a b : weight (a ++ b) = (weight a + weight b)%nat.
Proof. unfold weight. induction a as [|t a IH]; cbn; [done|]. rewrite IH. lia. Qed.

Lemma balanced_throw s st pre : stack s = pre ++ st -> balanced s -> balanced (throw (with_stack st s)).
Proof.
  intros Hst [Hle Heq]. split.
  - assert (charge (throw (with_stack st s)) <= charge s)%nat; [|change (active (throw _)) with (active s); lia].
    apply sum_le. intros r. unfold due. cbn [v_brief view_of]. cbn.
    destruct (requests s !! r) as [q|]; cbn; [|lia]. destruct (is_global q); [|lia].
    destruct (decide (r_phase q = Done)); [|lia]. destruct (items_unwind r st) as [k ->].
    rewrite Hst, items_app. pose proof (weight_drop k (items r st)).
    rewrite weight_app. lia.
  - intros Hn. exfalso. apply Hn. unfold exception. cbn. set_solver.
Qed.

(** The settings keep [global] while they are prepared. *)
Lemma serializeData_global o o' : serializeData o = Ret o' -> sget "global" o' = sget "global" o.
Proof.
  unfold serializeData. match goal with |- (?m ≫= _) = _ -> _ => destruct m as [o1|] eqn:E1 end;
    cbn [mbind result_bind]; [|discriminate].
  assert (sget "global" o1 = sget "global" o) as <-.
  { revert E1. destruct (_ && _ && _); [|by intros [= <-]].
    destruct (param _ _); cbn [mbind result_bind]; [|discriminate]. intros [= <-]. by sget_simpl. }
  destruct (truthy (sget "data" o1)); [|by intros [= <-]].
  match goal with |- (?m ≫= _) = _ -> _ => destruct m as [g|] end; cbn [mbind result_bind]; [|discriminate].
  intros [= <-]. destruct g; [by sget_simpl|done].
Qed.

Lemma prepare_global options now o o' dt :
  prepare options now o = Ret (o', dt) -> sget "global" o' = sget "global" o.
Proof.
  unfold prepare. destruct (set_url (set_crossDomain o)) as [o1|] eqn:E1; cbn [mbind result_bind]; [|discriminate].
  destruct (serializeData o1) as [o2|] eqn:E2; cbn [mbind result_bind]; [|discriminate].
  assert (sget "global" o2 = sget "global" o) as <-.
  { rewrite (serializeData_global _ _ E2). revert E1. unfold set_url, set_crossDomain.
    match goal with |- (?m ≫= _) = _ -> _ => destruct m end; cbn [mbind result_bind]; [|discriminate].
    intros [= <-]. sget_simpl. repeat case_match; by sget_simpl. }
  intros [= <- _]. unfold bust_cache, append_url.
  repeat match goal with |- context [if ?b then _ else _] => destruct b end; by sget_simpl.
Qed.

Lemma start_weight exc r b it l : start_state exc r b it l -> weight it = 0%nat.
Proof. by destruct 1. Qed.

Lemma stop_in_actions b v : existsb is_stop (all_actions b v) = true.
Proof. by destruct v, (b_xhr b). Qed.

Lemma stop_once b v did todo : all_actions b v = did ++ Stop :: todo -> existsb is_stop todo = false.
Proof.
  intros E. assert (length (List.filter is_stop (all_actions b v)) = 1%nat) as Hl by (unfold all_actions; by destruct v, (b_xhr b)).
  rewrite E, List.filter_app, length_app in Hl. cbn in Hl.
  destruct (existsb is_stop todo) eqn:Ex; [|done]. apply existsb_exists in Ex as (a & Hin & Ha).
  assert (In a (List.filter is_stop todo)) as Hf by by apply List.filter_In.
  destruct (List.filter is_stop todo); [done|]. cbn in Hl. lia.
Qed.

Lemma due_open s r q :
  requests s !! r = Some q -> r_phase q <> Done -> due (view_of s r) = Nat.b2n (is_global q).
Proof.
  intros Hq Hp. unfold due. cbn. rewrite Hq. cbn. rewrite decide_False by done. by destruct (is_global q).
Qed.

Lemma due_done s r q :
  requests s !! r = Some q -> r_phase q = Done ->
  due (view_of s r) = (if is_global q then weight (items r (stack s)) else 0)%nat.
Proof. intros Hq Hp. unfold due. cbn. rewrite Hq. cbn. by rewrite decide_True. Qed.

Lemma weight_cons t it : weight (t :: it) = (item_weight t + weight it)%nat.
Proof. done. Qed.

(** The request ends: its place in the counter passes to its [Stop]. *)
Lemma balanced_end s s1 r q t :
  balanced s -> others r s s1 -> active s1 = active s -> length (requests s1) = length (requests s) ->
  requests s1 !! r = Some q -> due (view_of s r) = Nat.b2n (is_global q) ->
  weight (items r (stack s1)) = 0%nat -> belongs r t = true -> item_weight t = 1%nat ->
  others r s1 (push t (settle r s1)) -> balanced (push t (settle r s1)).
Proof.
  intros Hb Ho Ha Hl Hq Hd Hw Ht Hi Ho'.
  apply (balanced_at r s); [done|by eapply others_trans| | |].
  - cbn. by rewrite length_alter.
  - rewrite <- Hl. by eapply lookup_lt_Some.
  - rewrite Hd. erewrite due_done; [|cbn; by rewrite list_lookup_alter_eq, Hq|done].
    cbn. rewrite items_cons, Ht. cbn. rewrite weight_cons, Hi, Hw, Ha.
    change (is_global (set_timer false (set_phase Done q))) with (is_global q).
    destruct (is_global q); cbn; lia.
Qed.

Lemma balanced_script_handler s s1 r et q j :
  balanced s -> others r s s1 -> active s1 = active s -> requests s1 = requests s ->
  requests s !! r = Some q -> r_jsonp q = Some j ->
  weight (items r (stack s1)) = 0%nat -> balanced s1 -> balanced (script_handler r et q j s1).
Proof.
  intros Hb Ho Ha Hl Hq Hj Hw Hb1. unfold script_handler. case_bool_decide as Hp; [|done].
  eapply (balanced_end s s1 r q); try done; try congruence.
  - apply due_open; [done|]. intuition congruence.
  - apply Nat.eqb_refl.
  - by destruct et, (responseData j).
  - apply others_settle_push.
Qed.

Lemma balanced_xhr_handler s s1 r q resp :
  balanced s -> others r s s1 -> active s1 = active s -> requests s1 = requests s ->
  requests s !! r = Some q -> r_phase q <> Done ->
  weight (items r (stack s1)) = 0%nat -> balanced (xhr_handler r resp q s1).
Proof.
  intros Hb Ho Ha Hl Hq Hp Hw. pose proof (due_open s r q Hq Hp) as Hd. unfold xhr_handler.
  destruct (handle _ _ _ _) as [d|e t|code]; eapply (balanced_end s s1 r q); try done; try congruence;
    try apply Nat.eqb_refl; try apply others_settle_push.
  exact (others_trans _ _ _ _ (others_update _ _ _) (others_enter r (FEval r code) _ eq_refl)).
Qed.

(** What an action changes of the counter. *)
Definition moved (r : nat) (d : Z) (q : request) (s s' : ajax) : Prop :=
  others r s s' /\ length (requests s') = length (requests s) /\ active s' = active s - d
  /\ weight (items r (stack s')) = weight (items r (stack s))
  /\ exists q', requests s' !! r = Some q' /\ is_global q' = is_global q
       /\ (r_phase q' = Done <-> r_phase q = Done).

Lemma moved_refl r q s : requests s !! r = Some q -> moved r 0 q s s.
Proof. intros Hq. split_and!; [done|done|lia|done|]. eauto 10. Qed.

Lemma moved_enter r f q s :
  requests s !! r = Some q -> frame_of r f -> item_weight (Running f) = 0%nat -> moved r 0 q s (enter f s).
Proof.
  intros Hq Hf Hw. split_and!; [by apply others_enter|by destruct f|destruct f; cbn; lia| |].
  - assert (stack (enter f s) = Running f :: stack s) as -> by by destruct f.
    rewrite items_cons. destruct (belongs r (Running f)); [|done]. cbn. by rewrite weight_cons, Hw.
  - exists q. split_and!; [by destruct f|done|done].
Qed.

Lemma moved_library r todo q s :
  requests s !! r = Some q -> existsb is_stop todo = false -> moved r 0 q s (push (Library r todo) s).
Proof.
  intros Hq Hw. split_and!; [apply others_library|done|cbn; lia| |eauto 10].
  cbn. rewrite items_cons. cbn. rewrite Nat.eqb_refl. cbn. rewrite weight_cons. cbn. by rewrite Hw.
Qed.

Lemma moved_trans r d1 d2 q s1 s2 s3 q2 :
  moved r d1 q s1 s2 -> requests s2 !! r = Some q2 -> moved r d2 q2 s2 s3 -> moved r (d1 + d2) q s1 s3.
Proof.
  intros (O1 & L1 & A1 & W1 & q' & Q1 & G1 & P1) Hq (O2 & L2 & A2 & W2 & q3 & Q2 & G2 & P2).
  simplify_eq. split_and!; [by eapply others_trans|lia|lia|lia|]. exists q3. split_and!; [done|congruence|].
  by rewrite P2, P1.
Qed.

Lemma moved_update r f q s :
  requests s !! r = Some q -> is_global (f q) = is_global q -> (r_phase (f q) = Done <-> r_phase q = Done) ->
  moved r 0 q s (update r f s).
Proof.
  intros Hq Hg Hp. split_and!; [apply others_update|cbn; by rewrite length_alter|cbn; lia|done|].
  exists (f q). split_and!; [|done|done]. cbn. by rewrite list_lookup_alter_eq, Hq.
Qed.

Lemma moved_views r q s s' :
  requests s !! r = Some q -> (exception s -> exception s') -> length (requests s') = length (requests s) ->
  active s' = active s -> (forall r0, view_of s' r0 = view_of s r0) -> moved r 0 q s s'.
Proof.
  intros Hq He Hl Ha Hv. pose proof (Hv r) as Hr. injection Hr as Hb Hi _ _.
  split_and!; [by split; auto|done|lia|by rewrite Hi|].
  rewrite Hq in Hb. destruct (requests s' !! r) as [q'|]; [|done]. exists q'.
  cbn in Hb. injection Hb as Hg Hp _ _. split_and!; [done|done|by rewrite Hp].
Qed.

Lemma moved_due r d q s s' :
  requests s !! r = Some q -> moved r d q s s' -> due (view_of s' r) = due (view_of s r).
Proof.
  intros Hq (_ & _ & _ & Hw & q' & Hq' & Hg & Hp). unfold due. cbn. rewrite Hq, Hq'. cbn. rewrite Hg.
  destruct (is_global q); [|done]. destruct (decide (r_phase q' = Done)), (decide (r_phase q = Done)); tauto.
Qed.

Lemma balanced_moved r d q s s0 s' :
  balanced s -> others r s s0 -> requests s0 = requests s -> active s0 = active s ->
  requests s !! r = Some q -> moved r d q s0 s' ->
  Z.of_nat (due (view_of s0 r)) = Z.of_nat (due (view_of s r)) - d -> balanced s'.
Proof.
  intros Hb Ho Hr Ha Hq Hm Hd. assert (requests s0 !! r = Some q) as Hq0 by congruence.
  pose proof (moved_due _ _ _ _ _ Hq0 Hm) as Hdue. destruct Hm as (Ho' & Hl & Ha' & _).
  apply (balanced_at r s); [done|by eapply others_trans|congruence|by eapply lookup_lt_Some|].
  rewrite Hdue, Hd. lia.
Qed.

Lemma length_call_window v data s : length (requests (call_window v data s)) = length (requests s).
Proof. destruct v as [[]|]; cbn; try done. by rewrite length_alter. Qed.

Lemma length_restore r q j s : length (requests (restore r q j s)) = length (requests s).
Proof.
  unfold restore. destruct (responseData j); [rewrite length_call_window|]; cbn; by rewrite length_alter.
Qed.

Lemma call_window_log v data s : log (call_window v data s) = log s /\ active (call_window v data s) = active s.
Proof. by destruct v as [[]|]. Qed.

Lemma restore_log r q j s : log (restore r q j s) = log s /\ active (restore r q j s) = active s.
Proof.
  unfold restore. destruct (responseData j); [|done].
  destruct (call_window_log (originalCallback j) j0
    (update r (set_jsonp (Jsonp (callbackName j) None None (appended j)))
       (set_window (callbackName j) (originalCallback j) s))) as [-> ->]. done.
Qed.

Lemma run_ending r a q s :
  ending_action a -> requests s !! r = Some q ->
  (run_action r a q s = throw s)
  \/ moved r (if is_stop a then Z.b2z (is_global q) else 0) q s (run_action r a q s).
Proof.
  intros Ha Hq. destruct a as [o n|c|e| | |]; try done; cbn [run_action is_stop].
  - unfold call. destruct (isFunction _); [right|by left]. by apply moved_enter.
  - right. destruct (is_global q); [by apply moved_enter|]. by destruct e; try done; apply moved_refl.
  - right. unfold ajaxStop. destruct (is_global q) eqn:Eg; [|by apply moved_refl].
    assert (moved r 1 q s (with_active (active s - 1) s)) as Hm by (split_and!; try done; eauto 10).
    cbn [Z.b2z]. destruct (_ =? 0); [|done]. change 1 with (1 + 0).
    eapply moved_trans; [exact Hm|done|]. by apply moved_enter.
  - right. destruct (r_jsonp q) as [j|] eqn:Ej; [|by apply moved_refl].
    destruct (restore_log r q j s) as [El Ea].
    apply moved_views; [done|unfold exception; by rewrite El|apply length_restore|done|].
    intros r0. by apply view_restore.
Qed.

Lemma run_starting r a q s :
  ~ ending_action a -> a <> Stop -> requests s !! r = Some q ->
  (r_phase q = Done -> (forall o n, a <> Prepare o n) /\ (a = Send -> r_jsonp q <> None)) ->
  (run_action r a q s = throw s) \/ moved r 0 q s (run_action r a q s).
Proof.
  intros Ha Hns Hq Hd. destruct a as [o n|c|e| | |]; try done; cbn [run_action].
  - assert (r_phase q <> Done) as Hp by (intros E; by destruct (Hd E) as [Hno _]; eapply Hno).
    unfold run_prepare. destruct (prepare o n (settings q)) as [[o' dt]|] eqn:Ep; [|by left].
    apply prepare_global in Ep.
    assert (forall f s1, requests s1 = requests s -> active s1 = active s -> stack s1 = stack s ->
      log s1 = log s -> settings (f q) = o' -> r_phase (f q) = Starting ->
      moved r 0 q s (push (Library r [Call BeforeSend]) (update r f s1))) as Hm.
    { intros f s1 E1 E2 E3 E4 Hf1 Hf2. change 0 with (0 + (0 + 0)).
      eapply moved_trans; [|rewrite E1; exact Hq|].
      - apply moved_views; [done|unfold exception; by rewrite E4|by rewrite E1|done|].
        intros r0. unfold view_of. by rewrite E1, E3, E4.
      - assert (requests (update r f s1) !! r = Some (f q)) as Hfq
          by (cbn; by rewrite list_lookup_alter_eq, E1, Hq).
        apply (moved_trans r 0 0 q s1 (update r f s1) _ (f q)); [|done|by apply moved_library].
        apply moved_update; [by rewrite E1|unfold is_global; by rewrite Hf1, Ep|].
        rewrite Hf2. split; [discriminate|done]. }
    destruct (is_word "jsonp" dt).
    + right. unfold ajaxJSONP, choose_name. destruct (truthy _); by apply Hm.
    + destruct (headers o' dt); [|by left]. destruct (override_mime o' dt); [|by left]. right. by apply Hm.
  - destruct c; try done. unfold call. destruct (isFunction _); [right; by apply moved_enter|by left].
  - right. destruct (is_global q); [by apply moved_enter|].
    destruct e; try (by apply moved_refl); by apply moved_library.
  - right. unfold send. destruct (r_jsonp q) as [j|] eqn:Ej.
    + change 0 with (0 + 0).
      apply (moved_trans r 0 0 q s (set_window (callbackName j) (Some (Recorder r)) s) _ q);
        [by apply moved_views|done|apply moved_update; [done|done|]].
      cbn. case_decide as E; [|done]. rewrite E. split; discriminate.
    + assert (r_phase q <> Done) as Hp by (intros E; by destruct (Hd E) as [_ Hx]; apply Hx).
      assert (moved r 0 q s (update r (fun q => set_timer (has_timeout q) (set_phase Waiting q)) s)) as Hm.
      { apply moved_update; [done|done|]. split; [discriminate|done]. }
      destruct (is_async q); [done|]. change 0 with (0 + 0).
      eapply moved_trans; [exact Hm|cbn; rewrite list_lookup_alter_eq, Hq; done|].
      split_and!; [apply others_blocked|done|cbn; lia| |].
      * cbn. rewrite items_cons. cbn. by rewrite Nat.eqb_refl.
      * eexists. split_and!; [cbn; by rewrite list_lookup_alter_eq, Hq|done|done].
Qed.

Lemma library_step_balanced s s' :
  consistent s -> balanced s -> library_step s = Some s' -> balanced s'.
Proof.
  intros Hc Hb. unfold library_step. destruct (stack s) as [|[f|r [|a todo]|r] st] eqn:Hst; try done.
  destruct (requests s !! r) as [q|] eqn:Hq; [|done]. cbn. intros [= <-].
  set (s0 := with_stack (return_to r todo st) s).
  assert (belongs r (Library r (a :: todo)) = true) as Ht by apply Nat.eqb_refl.
  assert (others r s s0) as Ho by by eapply others_return_to.
  assert (balanced (throw (with_stack st s))) as Hthrow by by eapply (balanced_throw s st [_]).
  destruct (top_elim s _ st r q Hc Hst Ht Hq) as [(Hi & Hs & He)|[Hs Hd]].
  - assert (~ ending_action a /\ a <> Stop /\ existsb is_stop (a :: todo) = false) as (Hna & Hns & Hnst)
      by (inversion Hs; by split_and!; [intros []|..]).
    assert (r_phase q = Done -> (forall o n, a <> Prepare o n) /\ (a = Send -> r_jsonp q <> None)) as Hdone.
    { intros Hp. inversion Hs as [? ? Hn| | | | | |[Hn|[Hx _]]| |]; cbn in *; try congruence;
        (split; [done|]); try done. intros _ E. rewrite bool_decide_eq_true_2 in Hx; done. }
    destruct (run_starting r a q s0 Hna Hns Hq Hdone) as [->|Hm]; [by unfold s0; rewrite throw_return_to|].
    eapply (balanced_moved r 0 q s s0); try done.
    assert (due (view_of s0 r) = due (view_of s r)) as ->; [|lia].
    unfold due. cbn. destruct (requests s !! r); [|done]. cbn. destruct (is_global _); [|done].
    destruct (decide _); [|done]. rewrite items_return_to, Hst, items_cons, Ht, Hi.
    rewrite weight_app, weight_cons. cbn [item_weight]. rewrite Hnst.
    destruct todo; [done|]. cbn [return_to]. rewrite weight_cons. cbn [item_weight].
    cbn [existsb] in Hnst. apply orb_false_iff in Hnst as [_ Hnst]. cbn [existsb]. by rewrite Hnst.
  - inversion Hd as [| |v did todo' Hp Hn Ha E1 E2| |]; simplify_eq. cbn in Hp.
    pose proof (all_actions_ending _ _ _ _ _ Ha) as Hea. pose proof (start_weight _ _ _ _ _ Hs) as Hw.
    destruct (run_ending r a q s0 Hea Hq) as [->|Hm]; [by unfold s0; rewrite throw_return_to|].
    eapply (balanced_moved r _ q s s0); try done.
    rewrite (due_done s0 r q), (due_done s r q) by done. cbn [stack s0 with_stack].
    rewrite items_return_to, Hst, items_cons, Ht, return_to_app, !weight_app, Hw.
    destruct (is_global q); [|by destruct (is_stop a)].
    destruct (is_stop a) eqn:Es.
    + destruct a; try done. apply stop_once in Ha.
      destruct todo; [done|]. cbn [return_to]. rewrite !weight_cons. cbn [item_weight existsb is_stop orb].
      cbn [existsb] in Ha. by rewrite Ha.
    + destruct todo; cbn [return_to]; rewrite ?weight_cons; cbn [item_weight existsb]; rewrite Es; cbn; lia.
Qed.

Lemma pop_balanced s f st :
  balanced s -> stack s = Running f :: st -> (forall r, belongs r (Running f) = false) ->
  balanced (with_stack st s).
Proof.
  intros Hb Hst Hf. eapply balanced_same; try done. intros r. unfold view_of. cbn.
  by rewrite Hst, items_cons, Hf.
Qed.

(** A place without weight is replaced by a function without [Stop]. *)
Lemma forward_balanced s r q t st todo :
  balanced s -> stack s = t :: st -> belongs r t = true -> requests s !! r = Some q ->
  item_weight t = (if existsb is_stop todo then 1 else 0)%nat ->
  balanced (push (Library r todo) (with_stack st s)).
Proof.
  intros Hb Hst Ht Hq Hw. pose proof (others_pop r s t st Hst (belongs_only _ _ Ht)) as Hop.
  apply (balanced_at r s); [done|eapply others_trans; [exact Hop|apply others_library]|done|by eapply lookup_lt_Some|].
  assert (due (view_of (push (Library r todo) (with_stack st s)) r) = due (view_of s r)) as ->; [|cbn; lia].
  unfold due. cbn. rewrite Hq. cbn. destruct (is_global q); [|done]. destruct (decide _); [|done].
  rewrite Hst, !items_cons, Ht. cbn. rewrite Nat.eqb_refl. cbn [app].
  rewrite !weight_cons, Hw. done.
Qed.

Lemma pop_start_balanced s r q t st :
  balanced s -> stack s = t :: st -> belongs r t = true -> requests s !! r = Some q ->
  item_weight t = 0%nat -> balanced (with_stack st s).
Proof.
  intros Hb Hst Ht Hq Hw. pose proof (others_pop r s t st Hst (belongs_only _ _ Ht)) as Hop.
  apply (balanced_at r s); [done|done|done|by eapply lookup_lt_Some|].
  assert (due (view_of (with_stack st s) r) = due (view_of s r)) as ->; [|cbn; lia].
  unfold due. cbn. rewrite Hq. cbn. destruct (is_global q); [|done]. destruct (decide _); [|done].
  rewrite Hst, items_cons, Ht, weight_app, weight_cons, Hw. done.
Qed.

Lemma cancel_balanced s r q t st :
  balanced s -> stack s = t :: st -> belongs r t = true -> requests s !! r = Some q ->
  item_weight t = 0%nat -> items r st = [] -> started (brief_of q) ->
  balanced (cancel r q (with_stack st s)).
Proof.
  intros Hb Hst Ht Hq Hw Hi Hs. pose proof (others_pop r s t st Hst (belongs_only _ _ Ht)) as Hop.
  unfold cancel. destruct (r_jsonp q) as [j|] eqn:Ej.
  - eapply (balanced_script_handler s); try done; [cbn; by rewrite Hi|]. by eapply pop_start_balanced.
  - destruct Hs as [Hs|[Hx _]]; [|cbn in Hx; by rewrite Ej in Hx]. cbn in Hs.
    eapply (balanced_end s (with_stack st s) r q); try done.
    + apply due_open; [done|congruence].
    + cbn. by rewrite Hi.
    + apply Nat.eqb_refl.
    + apply others_settle_push.
Qed.

Lemma return_from_balanced s f st v s' :
  consistent s -> balanced s -> stack s = Running f :: st ->
  return_from f v (with_stack st s) = Some s' -> balanced s'.
Proof.
  intros Hc Hb Hst. assert ((forall r, belongs r (Running f) = false) -> balanced (with_stack st s)) as Hpop
    by by eapply pop_balanced.
  destruct f as [|r [| | |]|r []|r code|d]; cbn [return_from]; try (intros [= <-]; by apply Hpop).
  - cbn. destruct (requests s !! r) as [q|] eqn:Hq; cbn; [|done]. intros [= <-].
    assert (belongs r (Running (FCallback r BeforeSend)) = true) as Ht by apply Nat.eqb_refl.
    destruct (top_elim s _ st r q Hc Hst Ht Hq) as [(Hi & Hs & He)|[_ Hd]]; [|inversion Hd].
    destruct (is_false v); [|by eapply forward_balanced].
    eapply cancel_balanced; try done. by inversion Hs.
  - cbn. destruct (requests s !! r) as [q|] eqn:Hq; cbn; [|done]. intros [= <-].
    assert (belongs r (Running (FEvent r AjaxBeforeSend)) = true) as Ht by apply Nat.eqb_refl.
    destruct (top_elim s _ st r q Hc Hst Ht Hq) as [(Hi & Hs & He)|[_ Hd]]; [|inversion Hd].
    destruct (is_false v); [|by eapply forward_balanced].
    eapply cancel_balanced; try done. by inversion Hs.
  - intros [= <-]. destruct (known_request s _ st r Hc Hst) as [q Hq]; [apply Nat.eqb_refl|].
    eapply forward_balanced; try done. apply Nat.eqb_refl.
Qed.

Lemma throw_from_balanced s f st v s' :
  consistent s -> balanced s -> stack s = Running f :: st ->
  throw_from f v (with_stack st s) = Some s' -> balanced s'.
Proof.
  intros Hc Hb Hst. assert (balanced (throw (with_stack st s))) as Ht by by eapply (balanced_throw s st [_]).
  destruct f as [|r c|r e|r code|d]; cbn [throw_from]; try (by intros [= <-]).
  - intros [= <-]. by eapply pop_balanced.
  - cbn. destruct (requests s !! r); cbn; [|done]. destruct (_ || _); [done|]. by intros [= <-].
  - intros [= <-]. destruct (known_request s _ st r Hc Hst) as [q Hq]; [apply Nat.eqb_refl|].
    eapply forward_balanced; try done; [apply Nat.eqb_refl|]. by destruct (truthy v).
Qed.

Lemma ajax_call_balanced s o n : balanced s -> balanced (ajax_call o n s).
Proof.
  intros [Hle Heq]. set (r := length (requests s)).
  set (q := Request (init_settings o) VUndef [] [] New false None). set (s' := ajax_call o n s).
  assert (active s' = active s + Z.b2z (is_global q)) as Ha.
  { unfold s', ajax_call, ajaxStart. fold q. destruct (is_global q); [|cbn; lia].
    cbn [active push with_stack with_requests]. by destruct (_ =? 0). }
  assert (requests s' = requests s ++ [q]) as Hr.
  { unfold s', ajax_call, ajaxStart. fold q. destruct (is_global q); [|done].
    cbn [active push with_stack with_requests]. by destruct (_ =? 0). }
  assert (log s' = log s \/ log s' = log s ++ [LEvent r AjaxStart]) as Hlog.
  { unfold s', ajax_call, ajaxStart. fold q. destruct (is_global q); [|by left].
    cbn [active push with_stack with_requests]. destruct (_ =? 0); [by right|by left]. }
  assert (forall i, i <> r -> view_of s' i = view_of s i) as Hv.
  { intros i Hi. unfold view_of. rewrite Hr, lookup_snoc_other by done. f_equal.
    - unfold s', ajax_call, ajaxStart. fold q r. destruct (is_global q); [|].
      + cbn [active push with_stack with_requests]. destruct (_ =? 0); cbn;
          rewrite ?items_cons; cbn; by rewrite (proj2 (Nat.eqb_neq i r)).
      + cbn. rewrite items_cons. cbn. by rewrite (proj2 (Nat.eqb_neq i r)).
    - destruct Hlog as [->| ->]; [done|]. rewrite start_log_snoc. apply app_nil_r.
    - destruct Hlog as [->| ->]; [done|]. rewrite end_log_snoc. apply app_nil_r. }
  assert (charge s' = charge s + Nat.b2n (is_global q))%nat as Hc.
  { unfold charge. rewrite Hr, length_app. cbn [length]. rewrite Nat.add_1_r, seq_S, fmap_app.
    assert (forall l1 l2, sum_list (l1 ++ l2) = sum_list l1 + sum_list l2)%nat as Happ
      by (induction l1 as [|x l1 IH]; intros l2; cbn; [done|rewrite IH; lia]).
    rewrite Happ. f_equal.
    - f_equal. apply list_fmap_ext. intros i x Hx. rewrite Hv; [done|].
      apply list_elem_of_lookup_2, elem_of_seq in Hx. unfold r. lia.
    - cbn. fold r. rewrite (due_open s' r q); [lia| |done]. rewrite Hr. by apply list_lookup_middle. }
  assert (exception s -> exception s') as He.
  { unfold exception. intros Hx. destruct Hlog as [->| ->]; [done|]. apply elem_of_app. by left. }
  clearbody s'.
  split; [|intros Hn; specialize (Heq ltac:(tauto))]; rewrite Ha, Hc; destruct (is_global q); cbn; lia.
Qed.

Lemma timeout_balanced s r q :
  consistent s -> balanced s -> is_idle s = true -> requests s !! r = Some q -> abortTimeout q = true ->
  balanced (timeout r q s).
Proof.
  intros Hc Hb Hid Hq Ht. unfold timeout. set (s1 := update r (set_timer false) s).
  assert (requests s1 !! r = Some (set_timer false q)) as Hq1 by (cbn; by rewrite list_lookup_alter_eq, Hq).
  assert (balanced s1) as Hb1.
  { apply (balanced_moved r 0 q s s); try done; [|lia]. by apply moved_update. }
  assert (items r (stack s1) = []) as Hi by by apply idle_items.
  destruct (r_jsonp q) as [j|] eqn:Ej.
  - change (script_handler r (Some Timeout) q j s1) with (script_handler r (Some Timeout) (set_timer false q) j s1).
    eapply (balanced_script_handler s1); try done. by rewrite Hi.
  - destruct (good_elim s r q Hc Hq) as [Hto _].
    assert (r_phase q <> Done) as Hp
      by (destruct (Hto Ht) as [Hp|Hp]; [cbn; by rewrite Ej|cbn in Hp; congruence..]).
    eapply (balanced_end s1 s1 r (set_timer false q)); try done.
    + by apply due_open.
    + by rewrite Hi.
    + apply Nat.eqb_refl.
    + apply others_settle_push.
Qed.

Lemma start_items_weight s r q :
  consistent s -> requests s !! r = Some q -> r_phase q <> Done -> weight (items r (stack s)) = 0%nat.
Proof.
  intros Hc Hq Hp. destruct (good_elim s r q Hc Hq) as (_ & ends & starts & Hi & Hs & Hd).
  apply end_none in Hd as [-> _]; [|done]. rewrite Hi. by eapply start_weight.
Qed.

Lemma script_handler_balanced s r et q j :
  consistent s -> balanced s -> requests s !! r = Some q -> r_jsonp q = Some j ->
  balanced (script_handler r et q j s).
Proof.
  intros Hc Hb Hq Hj. destruct (decide (r_phase q = Done)) as [Hp|Hp].
  - unfold script_handler. rewrite bool_decide_eq_false_2; [done|]. rewrite Hp. naive_solver.
  - eapply (balanced_script_handler s); try done. by eapply start_items_weight.
Qed.

Lemma lost_balanced s r st :
  consistent s -> balanced s -> stack s = Blocked r :: st ->
  balanced (throw (update r (set_phase Lost) (with_stack st s))).
Proof.
  intros Hc Hb Hst. change (throw (update r (set_phase Lost) (with_stack st s)))
    with (update r (set_phase Lost) (throw (with_stack st s))).
  assert (balanced (throw (with_stack st s))) as Ht by by eapply (balanced_throw s st [_]).
  destruct (requests s !! r) as [q|] eqn:Hq; cycle 1.
  { eapply balanced_same; [exact Ht|done|cbn; by rewrite length_alter| |done].
    intros r0. unfold view_of. cbn. rewrite list_lookup_alter. case_decide; [|done]. subst. by rewrite Hq. }
  apply (balanced_moved r 0 q (throw (with_stack st s)) (throw (with_stack st s))); try done; [|lia].
  apply moved_update; [done|done|].
  assert (belongs r (Blocked r) = true) as Hbe by apply Nat.eqb_refl.
  destruct (top_elim s _ st r q Hc Hst Hbe Hq) as [(_ & Hs & _)|[_ Hd]]; [|inversion Hd].
  inversion Hs as [| | | | | | |Hw Hx E1 E2|]. cbn in Hw. rewrite Hw. split; discriminate.
Qed.

Lemma step_balanced s e s' :
  blocked_top s -> consistent s -> balanced s -> step s e = Some s' -> balanced s'.
Proof.
  intros Hbt Hc Hb. destruct e as [| |v|v|o n|r|r o| |r resp|r|r data|r failed]; cbn [step].
  - by apply library_step_balanced.
  - destruct (is_idle s); [|done]. intros [= <-]. by eapply balanced_same.
  - destruct (stack s) as [|[f|r todo|r] st] eqn:Hst; try done. by apply return_from_balanced.
  - destruct (stack s) as [|[f|r todo|r] st] eqn:Hst; try done. by apply throw_from_balanced.
  - destruct (is_running s); [|done]. intros [= <-]. by apply ajax_call_balanced.
  - destruct (is_running s) eqn:E; [|done]. destruct (requests s !! r) as [q|] eqn:Hq; cbn; [|done].
    intros [= <-]. unfold abort. destruct (r_jsonp q) as [j|] eqn:Ej; [by apply script_handler_balanced|].
    destruct (decide (r_phase q = Waiting)) as [Hp|]; [|done].
    apply (balanced_xhr_handler s s r q); try done; [congruence|].
    apply (start_items_weight s r q); [done..|congruence].
  - destruct (requests s !! r) as [q|] eqn:Hq; cbn; [|done].
    destruct (is_running s); [|done]. cbn. case_bool_decide as Hg; [|done]. intros [= <-].
    apply (balanced_moved r 0 q s s); try done; [|lia]. by apply moved_update.
  - destruct (stack s) as [|[f|r [|[] todo]|r] st] eqn:Hst; try done.
    + destruct (requests s !! r) as [q|] eqn:Hq; cbn; [|done]. destruct (r_jsonp q); [done|].
      intros [= <-]. by eapply (balanced_throw s st [_]).
    + intros [= <-]. by apply lost_balanced.
  - destruct (requests s !! r) as [q|] eqn:Hq; cbn; [|done].
    case_bool_decide as Hw; [|done]. case_bool_decide as Hj; [|done]. cbn.
    assert (weight (items r (stack s)) = 0%nat) as Hwt by (apply (start_items_weight s r q); [done..|congruence]).
    destruct (stack s) as [|[f|r' todo|r'] st] eqn:Hst; try done.
    + intros [= <-]. apply (balanced_xhr_handler s s r q); try done; [congruence|]. by rewrite Hst.
    + destruct (decide (r = r')) as [<-|]; [|done]. intros [= <-].
      apply (balanced_xhr_handler s (with_stack st s) r q); try done; [|congruence|].
      * eapply others_pop, belongs_only; [done|]. apply Nat.eqb_refl.
      * rewrite items_cons in Hwt. cbn in Hwt. rewrite Nat.eqb_refl in Hwt. cbn in Hwt.
        by rewrite weight_cons in Hwt.
  - destruct (requests s !! r) as [q|] eqn:Hq; cbn; [|done]. destruct (is_idle s) eqn:Hid; [|done].
    destruct (abortTimeout q) eqn:Et; [|done]. intros [= <-]. by apply timeout_balanced.
  - destruct (requests s !! r) as [q|] eqn:Hq; cbn; [|done]. destruct (r_jsonp q) as [j|]; [|done].
    destruct (is_idle s && appended j); [|done]. intros [= <-].
    destruct (call_window_log (window s !! callbackName j) data s) as [El Ea].
    eapply balanced_same; [done|unfold exception; by rewrite El|apply length_call_window
      |intros; apply view_call_window|done].
  - destruct (requests s !! r) as [q|] eqn:Hq; cbn; [|done]. destruct (r_jsonp q) as [j|] eqn:Ej; [|done].
    destruct (is_idle s && appended j); [|done]. intros [= <-]. by apply script_handler_balanced.
Qed.

(** *** Runs *)

Definition invariant (s : ajax) : Prop := blocked_top s /\ consistent s /\ balanced s.

Lemma reachable_invariant w l s : run (init w) l = Some s -> invariant s.
Proof.
  assert (forall s0, invariant s0 -> run s0 l = Some s -> invariant s) as H1.
  { induction l as [|e l IH]; intros s0 Hi; cbn; [by intros [= <-]|].
    destruct (step s0 e) as [s1|] eqn:E; cbn; [|done]. apply IH. destruct Hi as (Hb & Hc & Hba).
    split_and!; [by eapply step_blocked|by eapply step_consistent|by eapply step_balanced]. }
  apply H1. split_and!; [constructor| |split; [done|done]]. intros r. split_and!; done.
Qed.

(** *** Start and stop *)

Definition start_stop (e : entry) : bool :=
  match e with LEvent _ (AjaxStart | AjaxStop) => true | _ => false end.

(** The events [ajaxStart] and [ajaxStop] in their order: [Some on] when they
    alternate, with the state they leave. *)
Fixpoint alternating (on : bool) (l : list entry) : option bool :=
  match l with
  | [] => Some on
  | LEvent _ AjaxStart :: l' => if on then None else alternating true l'
  | LEvent _ AjaxStop :: l' => if on then alternating false l' else None
  | _ :: l' => alternating on l'
  end.

Lemma alternating_app on l1 l2 :
  alternating on (l1 ++ l2) = on' ← alternating on l1; alternating on' l2.
Proof.
  revert on. induction l1 as [|e l1 IH]; intros on; [done|]. cbn.
  destruct e as [r c|r []|]; try apply IH; destruct on; try done; apply IH.
Qed.

Definition switched (s : ajax) : Prop := alternating false (log s) = Some (0 <? active s).

(** Nothing is started or stopped. *)
Definition quiet (s s' : ajax) : Prop :=
  active s' = active s /\ exists l, log s' = log s ++ l /\ Forall (fun e => start_stop e = false) l.

Lemma quiet_refl s : quiet s s.
Proof. split; [done|]. exists []. by rewrite app_nil_r. Qed.

Lemma quiet_trans s1 s2 s3 : quiet s1 s2 -> quiet s2 s3 -> quiet s1 s3.
Proof.
  intros (A1 & l1 & E1 & F1) (A2 & l2 & E2 & F2). split; [congruence|]. exists (l1 ++ l2).
  rewrite E2, E1, app_assoc. split; [done|]. by apply Forall_app.
Qed.

Lemma quiet_switched s s' : switched s -> quiet s s' -> switched s'.
Proof.
  unfold switched. intros Hs (Ha & l & El & Hl). rewrite El, alternating_app, Hs, Ha. cbn. clear El.
  generalize (0 <? active s) as on. induction Hl as [|e l He Hl IH]; intros on; [done|].
  destruct e as [r c|r []|]; cbn in *; try done; apply IH.
Qed.

Lemma quiet_same s s' : active s' = active s -> log s' = log s -> quiet s s'.
Proof. intros Ha El. split; [done|]. exists []. by rewrite app_nil_r. Qed.

Definition quiet_frame (f : frame) : Prop :=
  match f with FEvent _ (AjaxStart | AjaxStop) => False | _ => True end.

Lemma quiet_enter f s : quiet_frame f -> quiet s (enter f s).
Proof.
  intros Hf. split; [by destruct f|].
  destruct f as [|r c|r e|r code|d]; cbn; try (exists []; by rewrite app_nil_r);
    (eexists; split; [done|]; constructor; [|done]). 1: done. by destruct e.
Qed.

Lemma quiet_throw s : quiet s (throw s).
Proof. split; [done|]. eexists. split; [done|]. by constructor. Qed.

Lemma quiet_script_handler r et q j s : quiet s (script_handler r et q j s).
Proof. unfold script_handler. case_bool_decide; [by apply quiet_same|apply quiet_refl]. Qed.

Lemma quiet_xhr_handler r resp q s : quiet s (xhr_handler r resp q s).
Proof. unfold xhr_handler. destruct (handle _ _ _ _); by apply quiet_same. Qed.

Lemma quiet_cancel r q s : quiet s (cancel r q s).
Proof. unfold cancel. destruct (r_jsonp q); [apply quiet_script_handler|by apply quiet_same]. Qed.

#[local] Hint Resolve quiet_refl quiet_same quiet_enter quiet_throw quiet_script_handler
  quiet_xhr_handler quiet_cancel : ajax.

Lemma start_switched s s' : switched s -> active s = 0 ->
  active s' = 1 -> (exists r, log s' = log s ++ [LEvent r AjaxStart]) -> switched s'.
Proof.
  unfold switched. intros Hs Ha Ha' [r ->]. by rewrite alternating_app, Hs, Ha, Ha'.
Qed.

Lemma stop_switched s s' : switched s -> active s = 1 ->
  active s' = 0 -> (exists r, log s' = log s ++ [LEvent r AjaxStop]) -> switched s'.
Proof.
  unfold switched. intros Hs Ha Ha' [r ->]. by rewrite alternating_app, Hs, Ha, Ha'.
Qed.

Lemma same_switched s s' :
  switched s -> log s' = log s -> (0 <? active s') = (0 <? active s) -> switched s'.
Proof. unfold switched. by intros Hs -> ->. Qed.

Lemma ajaxStart_switched r q s : 0 <= active s -> switched s -> switched (ajaxStart r q s).
Proof.
  intros Ha Hs. unfold ajaxStart. destruct (is_global q); [|done].
  destruct (Z.eqb_spec (active s) 0) as [E|E].
  - apply (start_switched s); [done|done|cbn; lia|]. by eexists.
  - apply (same_switched s); [done|done|]. cbn. destruct (Z.ltb_spec 0 (active s + 1)), (Z.ltb_spec 0 (active s)); lia.
Qed.

Lemma ajaxStop_switched r q s : (is_global q = true -> 0 < active s) -> switched s -> switched (ajaxStop r q s).
Proof.
  intros Ha Hs. unfold ajaxStop. destruct (is_global q); [|done]. specialize (Ha eq_refl).
  destruct (Z.eqb_spec (active s - 1) 0) as [E|E].
  - apply (stop_switched s); [done|lia|cbn; lia|]. by eexists.
  - apply (same_switched s); [done|done|]. cbn. destruct (Z.ltb_spec 0 (active s - 1)), (Z.ltb_spec 0 (active s)); lia.
Qed.

Lemma run_prepare_quiet r o n q s : quiet s (run_prepare r o n q s).
Proof.
  unfold run_prepare. destruct (prepare o n (settings q)) as [[o' dt]|]; [|eauto with ajax].
  destruct (is_word "jsonp" dt).
  - unfold ajaxJSONP, choose_name. destruct (truthy _); by apply quiet_same.
  - destruct (headers o' dt); [|eauto with ajax]. destruct (override_mime o' dt); [|eauto with ajax].
    by apply quiet_same.
Qed.

(** A [Stop] of a global request is due. *)
Lemma stop_due s r q todo st :
  invariant s -> stack s = Library r (Stop :: todo) :: st -> requests s !! r = Some q ->
  is_global q = true -> 0 < active s.
Proof.
  intros (_ & Hc & Hle & _) Hst Hq Hg.
  assert (1 <= due (view_of s r))%nat as Hd.
  { unfold due. cbn. rewrite Hq. cbn. rewrite Hg. destruct (decide _); [|lia].
    rewrite Hst, items_cons. cbn. rewrite Nat.eqb_refl. cbn. rewrite weight_cons. cbn. lia. }
  assert (due (view_of s r) <= charge s)%nat; [|lia].
  unfold charge. apply lookup_lt_Some in Hq.
  apply (sum_elem (fun i => due (view_of s i))), elem_of_seq. lia.
Qed.

Lemma action_frames s r a todo st q :
  consistent s -> stack s = Library r (a :: todo) :: st -> requests s !! r = Some q ->
  a <> Trigger AjaxStart /\ a <> Trigger AjaxStop.
Proof.
  intros Hc Hst Hq. assert (belongs r (Library r (a :: todo)) = true) as Ht by apply Nat.eqb_refl.
  destruct (top_elim s _ st r q Hc Hst Ht Hq) as [(Hi & Hs & He)|[Hs Hd]].
  - by inversion Hs; subst.
  - inversion Hd as [| |v did todo' Hp Hn Ha E1 E2| |]. apply all_actions_ending in Ha. by destruct a as [| |[]| | |].
Qed.

Lemma library_step_switched s s' : invariant s -> switched s -> library_step s = Some s' -> switched s'.
Proof.
  intros Hi Hs. unfold library_step. destruct (stack s) as [|[f|r [|a todo]|r] st] eqn:Hst; try done.
  destruct (requests s !! r) as [q|] eqn:Hq; [|done]. cbn. intros [= <-].
  set (s0 := with_stack (return_to r todo st) s).
  destruct (action_frames s r a todo st q) as [Hn1 Hn2]; [apply Hi|done..|].
  assert (switched s0) as Hs0 by done.
  destruct a as [o n|c|e| | |]; cbn [run_action].
  - eapply quiet_switched, run_prepare_quiet. done.
  - eapply quiet_switched; [done|]. unfold call. destruct (isFunction _); eauto with ajax.
    by apply quiet_enter.
  - destruct (is_global q).
    + eapply quiet_switched, quiet_enter; [done|]. by destruct e.
    + by destruct e.
  - eapply quiet_switched; [done|]. unfold send. destruct (r_jsonp q); [by apply quiet_same|].
    destruct (is_async q); by apply quiet_same.
  - apply ajaxStop_switched; [|done]. by apply (stop_due s r q todo st).
  - destruct (r_jsonp q) as [j|]; [|done]. eapply quiet_switched; [done|].
    destruct (restore_log r q j s0). by apply quiet_same.
Qed.

Lemma step_switched s e s' : invariant s -> switched s -> step s e = Some s' -> switched s'.
Proof.
  intros Hi Hs. destruct e as [| |v|v|o n|r|r o| |r resp|r|r data|r failed]; cbn [step].
  - by apply library_step_switched.
  - destruct (is_idle s); [|done]. by intros [= <-].
  - destruct (stack s) as [|[f|r todo|r] st]; try done.
    destruct f as [|r [| | |]|r []|r code|d]; cbn; try (by intros [= <-]);
      (destruct (requests s !! r); cbn; [|done]; intros [= <-]; destruct (is_false v); [|done];
       by eapply quiet_switched, quiet_cancel).
  - destruct (stack s) as [|[f|r todo|r] st]; try done.
    destruct f as [|r c|r ev|r code|d]; cbn; try (intros [= <-]; by eapply quiet_switched, quiet_throw);
      try (by intros [= <-]).
    destruct (requests s !! r); cbn; [|done]. destruct (_ || _); [done|]. intros [= <-].
    by eapply quiet_switched, quiet_throw.
  - destruct (is_running s); [|done]. intros [= <-]. destruct Hi as (_ & _ & Hle & _).
    apply ajaxStart_switched; [cbn; lia|done].
  - destruct (is_running s); [|done]. destruct (requests s !! r) as [q|]; cbn; [|done].
    intros [= <-]. eapply quiet_switched; [done|]. unfold abort.
    destruct (r_jsonp q); [eauto with ajax|]. destruct (decide _); eauto with ajax.
  - destruct (requests s !! r) as [q|]; cbn; [|done]. destruct (_ && _); [|done]. by intros [= <-].
  - destruct (stack s) as [|[f|r [|[] todo]|r] st]; try done.
    + destruct (requests s !! r) as [q|]; cbn; [|done]. destruct (r_jsonp q); [done|].
      intros [= <-]. by eapply quiet_switched, quiet_throw.
    + intros [= <-]. by eapply quiet_switched, quiet_throw.
  - destruct (requests s !! r) as [q|]; cbn; [|done]. destruct (_ && _); [|done].
    destruct (stack s) as [|[f|r' todo|r'] st]; try done.
    + intros [= <-]. eapply quiet_switched; eauto with ajax.
    + destruct (decide (r = r')); [|done]. intros [= <-]. by eapply quiet_switched, quiet_xhr_handler.
  - destruct (requests s !! r) as [q|]; cbn; [|done]. destruct (_ && _); [|done]. intros [= <-].
    unfold timeout. destruct (r_jsonp q); [by eapply quiet_switched, quiet_script_handler|done].
  - destruct (requests s !! r) as [q|]; cbn; [|done]. destruct (r_jsonp q) as [j|]; [|done].
    destruct (is_idle s && appended j); [|done]. intros [= <-]. eapply quiet_switched; [done|].
    destruct (call_window_log (window s !! callbackName j) data s). by apply quiet_same.
  - destruct (requests s !! r) as [q|]; cbn; [|done]. destruct (r_jsonp q) as [j|]; [|done].
    destruct (is_idle s && appended j); [|done]. intros [= <-]. eapply quiet_switched; eauto with ajax.
Qed.

(** ** Theorems *)

(** C23: on a page that makes its requests with [$.ajax] and its shorthands
    (not with [$.ajaxJSONP] itself, see [direct_jsonp]), and whose callbacks do
    not switch [settings.global] of a request on or off: when all code has
    returned and no exception has left the library, [$.active] is the number of
    global requests that wait for the browser. *)
Theorem active_counts w events s :
  run (init w) events = Some s -> stack s = [] -> LException ∉ log s ->
  active s = Z.of_nat (length (filter (fun q => is_global q = true /\ r_phase q = Waiting) (requests s))).
Proof.
  intros Hr Hst He. destruct (reachable_invariant w events s Hr) as (_ & Hc & _ & Heq).
  rewrite <- (Heq He). f_equal. unfold charge.
  assert (forall r q, requests s !! r = Some q -> due (view_of s r)
    = if decide (is_global q = true /\ r_phase q = Waiting) then 1%nat else 0%nat) as Hd.
  { intros r q Hq. unfold due. cbn. rewrite Hq, Hst. cbn.
    destruct (good_elim s r q Hc Hq) as (_ & ends & starts & Hi & Hs & Hd).
    rewrite Hst in Hi. symmetry in Hi. apply app_eq_nil in Hi as [-> ->].
    inversion Hs as [| | | | | | | |l Hl Hex Hw]; subst. cbn in *.
    destruct (is_global q); [|by rewrite decide_False by naive_solver].
    destruct (r_phase q) eqn:Ep; try (exfalso; apply He, Hex; tauto); by repeat case_decide; naive_solver. }
  clear Heq Hc Hr. revert Hd. generalize (view_of s) as f. generalize (requests s) as l. clear.
  intros l f. revert f. induction l as [|q l IH]; intros f Hd; [done|].
  rewrite filter_cons. cbn [length seq fmap list_fmap sum_list]. rewrite (Hd 0%nat q eq_refl).
  assert ((fun r => due (f r)) <$> seq 1 (length l) = (fun r => due (f (S r))) <$> seq 0 (length l)) as ->
    by by rewrite <- fmap_S_seq, <- list_fmap_compose.
  rewrite (IH (fun r => f (S r))) by (intros r q'; apply (Hd (S r))).
  by destruct (decide _).
Qed.

(** The events [ajaxStart] and [ajaxStop] alternate, beginning with
    [ajaxStart], and the last one is [ajaxStart] exactly when [$.active] is
    positive; this holds even when callbacks throw. *)
Theorem start_stop_alternate w events s :
  run (init w) events = Some s -> alternating false (log s) = Some (0 <? active s) /\ 0 <= active s.
Proof.
  intros Hr. split; [|destruct (reachable_invariant w events s Hr) as (_ & _ & Hle & _); lia].
  assert (forall l s0, invariant s0 -> switched s0 -> run s0 l = Some s -> switched s) as Hgo.
  { induction l as [|e l IH]; intros s0 Hi Hs; cbn; [by intros [= <-]|].
    destruct (step s0 e) as [s1|] eqn:E; cbn; [|done]. apply IH; [|by eapply step_switched].
    destruct Hi as (Hb & Hc & Hba).
    split_and!; [by eapply step_blocked|by eapply step_consistent|by eapply step_balanced]. }
  apply (Hgo events (init w)); [by apply (reachable_invariant w [])|done|exact Hr].
Qed.

End Counter.

(** ** Samples *)

Module Sample.

Import AjaxProtocol.Sample.

Lemma idle_log l : forallb (fun e => match e with LException => false | _ => true end) l = true -> LException ∉ l.
Proof. intros H Hin. rewrite forallb_forall in H. by specialize (H _ (proj1 (list_elem_of_In _ _) Hin)). Qed.

Lemma active_counts_witness :
  active (state_after ask)
  = Z.of_nat (length (filter (fun q => is_global q = true /\ r_phase q = Waiting) (requests (state_after ask)))).
Proof.
  apply (active_counts ∅ ask).
  - vm_compute. reflexivity.
  - vm_compute. reflexivity.
  - apply idle_log. vm_compute. reflexivity.
Defined.

Lemma start_stop_alternate_witness :
  alternating false (log (state_after whole)) = Some (0 <? active (state_after whole))
  /\ 0 <= active (state_after whole).
Proof. apply (start_stop_alternate ∅ whole). vm_compute. reflexivity. Defined.

(** A callback that throws: the request stays in the counter for good, no
    [complete] and no [ajaxStop] follow. *)
Example throwing_success :
  let s := state_after (ask ++ [answer 200 "[]"; ELibrary; EThrow VNull]) in
  stack s = [] /\ active s = 1 /\ end_log 0 (log s) = [LCallback 0 (Success (VArr []))].
Proof. vm_compute. split_and!; reflexivity. Qed.

(** [$.ajaxJSONP] with a [type], from code of the page: with all callbacks
    given the request ends without having been counted, and [$.active] is
    negative; without [beforeSend] the call throws. *)
Definition direct (callbacks : list string) : object :=
  [(js "url", VStr (js "/q?cb=?")); (js "type", VStr (js "GET")); (js "global", VBool true)]
  ++ ((fun c => (js c, VFun (js c) VUndef)) <$> callbacks).

Definition in_page : ajax := state_after [EPage].

Example direct_jsonp :
  (active <$> run (ajaxJSONP_call (direct ["beforeSend"; "success"; "error"; "complete"]%string) 0 in_page)
      ([ELibrary; EReturn (VBool false); ELibrary; EReturn VUndef; ELibrary; EReturn VUndef;
        ELibrary; EReturn VUndef; ELibrary; EReturn VUndef; ELibrary])) = Some (-1)
  /\ (log <$> run (ajaxJSONP_call (direct []) 0 in_page) [ELibrary]) = Some [LException].
Proof. vm_compute. split; reflexivity. Qed.

End Sample.
