(* ===== verification/ZeptoEvent.v ===== *)
(** * Events of Zepto (zepto.js)

    The second module of zepto.js: the table of handlers, which is kept under
    the number of an element, and the listeners of the browser that go with
    it.  [$.fn.on], [$.fn.off] and [$.fn.one] change both; the theorems show
    that they stay in step and what each call adds and removes.

    Functions are objects: what counts is which object a function is.  A
    function is one of the page, a wrapper that [add] made for [mouseenter]
    and [mouseleave], or the result of [$.proxy].  Namespaces are words
    without characters that mean something in a regular expression, and types
    are not names of [Object.prototype] (the source finds those in its table
    [hover]). *)

From stdpp Require Import base gmap list sorting strings.
From Stdlib Require Import NArith.
From S2P Require Import Prelude JsString ZeptoCore.

(** ** The browser *)

Class Browser := {
  focusinSupported : bool;
  is_node : nat -> bool;                         (* ['addEventListener' in element] *)
  closest : jstr -> nat -> nat -> option nat;    (* [$(target).closest(selector, element)] *)
}.

(** ** Functions and handlers *)

Inductive fn :=
| Page (n : nat)
| ReturnFalse
| Hover (id : nat) (inner : fn)
| Bound (id : nat) (inner : fn).

#[export] Instance fn_eq_dec : EqDecision fn.
Proof. solve_decision. Defined.

(** What the listener calls: the function itself, the closure [autoRemove] of
    an element, or the closure [delegator] of an element, which calls the
    [autoRemove] of another one when the handler is to run once. *)
Inductive closure :=
| CFn (f : fn)
| CAuto (el : nat) (f : fn)
| CDelegate (el : nat) (sel : jstr) (auto : option nat) (f : fn).

Record handler := Handler {
  h_e : jstr;
  h_ns : jstr;
  h_fn : fn;
  h_sel : option jstr;
  h_del : option closure;
  h_call : closure;              (* [delegator || fn] *)
  h_data : jsval;
  h_element : nat;
  h_proxy : nat;                 (* which function object [proxy] is *)
  h_i : nat;
}.

Record listener := Listener { l_type : jstr; l_handler : handler; l_capture : bool }.

Inductive obj := OElement (n : nat) | OFunction (f : fn).

#[export] Instance obj_eq_dec : EqDecision obj.
Proof. solve_decision. Defined.

(** The state: the numbers [_zid] that objects have got, the table
    [handlers], the listeners of the browser, the functions given to
    [$(document).ready]. *)
Record estate := Events {
  next_zid : nat;
  zids : list (obj * nat);
  handlers : gmap nat (list (option handler));
  listeners : gmap nat (list listener);
  next_fn : nat;
  ready : list fn;
}.

Definition init : estate := Events 1 [] ∅ ∅ 0 [].

Definition with_handlers (h : gmap nat (list (option handler))) (s : estate) : estate :=
  Events (next_zid s) (zids s) h (listeners s) (next_fn s) (ready s).
Definition with_listeners (l : gmap nat (list listener)) (s : estate) : estate :=
  Events (next_zid s) (zids s) (handlers s) l (next_fn s) (ready s).
Definition with_next_fn (n : nat) (s : estate) : estate :=
  Events (next_zid s) (zids s) (handlers s) (listeners s) n (ready s).

Fixpoint assoc (o : obj) (l : list (obj * nat)) : option nat :=
  match l with
  | [] => None
  | (o', n) :: l' => if decide (o = o') then Some n else assoc o l'
  end.

(** A function made by [$.proxy] has had the number of its original from the
    beginning. *)
Fixpoint original (f : fn) : fn := match f with Bound _ g => original g | _ => f end.

Definition key (o : obj) : obj :=
  match o with OElement n => OElement n | OFunction f => OFunction (original f) end.

(** [zid]: an object gets its number when it is first asked for. *)
Definition zid (o : obj) (s : estate) : nat * estate :=
  match assoc (key o) (zids s) with
  | Some n => (n, s)
  | None =>
      (next_zid s,
       Events (S (next_zid s)) ((key o, next_zid s) :: zids s) (handlers s) (listeners s) (next_fn s) (ready s))
  end.

(** ** Names of events *)

(** [parse]: the type and the namespaces, in order. *)
Definition parse (event : jstr) : jstr * jstr :=
  match split_char 46 event with
  | e :: parts => (e, join (js " ") (sort parts))
  | [] => ([], [])
  end.

(** The regular expression of [matcherFor]: a space or the beginning, the
    namespaces with [ .* ?] for the first space, a space or the end. *)
Inductive token := TLit (c : N) | TAny | TMaybe (c : N).

Fixpoint tokens (first : bool) (ns : jstr) : list token :=
  match ns with
  | [] => []
  | c :: r =>
      if first && (c =? 32)%N then TLit 32 :: TAny :: TMaybe 32 :: tokens false r
      else TLit c :: tokens first r
  end.

Fixpoint match_here (t : list token) (s : jstr) : bool :=
  match t with
  | [] => match s with [] => true | c :: _ => (c =? 32)%N end
  | TLit c :: t' => match s with d :: s' => (c =? d)%N && match_here t' s' | [] => false end
  | TMaybe c :: t' =>
      match_here t' s || match s with d :: s' => (c =? d)%N && match_here t' s' | [] => false end
  | TAny :: t' =>
      (fix any (s : jstr) : bool :=
         match_here t' s || match s with d :: s' => negb (line_end d) && any s' | [] => false end) s
  end.

Fixpoint match_after_space (t : list token) (s : jstr) : bool :=
  match s with
  | [] => false
  | c :: s' => ((c =? 32)%N && match_here t s') || match_after_space t s'
  end.

Definition matcher (ns s : jstr) : bool :=
  match_here (tokens true ns) s || match_after_space (tokens true ns) s.

Definition hover (e : jstr) : option jstr :=
  if decide (e = js "mouseenter") then Some (js "mouseover")
  else if decide (e = js "mouseleave") then Some (js "mouseout") else None.

Definition focus (e : jstr) : option jstr :=
  if decide (e = js "focus") then Some (js "focusin")
  else if decide (e = js "blur") then Some (js "focusout") else None.

Section Events.
Context `{Browser}.

Definition realEvent (e : jstr) : jstr :=
  match hover e with
  | Some e' => e'
  | None => if focusinSupported then default e (focus e) else e
  end.

Definition eventCapture (h : handler) (capture : bool) : bool :=
  (bool_decide (is_Some (h_del h)) && (negb focusinSupported && bool_decide (is_Some (focus (h_e h)))))
  || capture.

(** ** The table *)

(** The test of [findHandlers]; the numbers of the functions are asked for
    only when the tests before have succeeded. *)
Definition test_handler (e ns : jstr) (f : option fn) (sel : option jstr) (h : handler) (s : estate)
    : bool * estate :=
  if (bool_decide (e = []) || bool_decide (h_e h = e)) && (bool_decide (ns = []) || matcher ns (h_ns h)) then
    let '(same, s) :=
      match f with
      | None => (true, s)
      | Some g =>
          let '(n, s) := zid (OFunction (h_fn h)) s in
          let '(m, s) := zid (OFunction g) s in (bool_decide (n = m), s)
      end in
    (same && match sel with None | Some [] => true | Some w => bool_decide (h_sel h = Some w) end, s)
  else (false, s).

Fixpoint filter_handlers (e ns : jstr) (f : option fn) (sel : option jstr) (l : list (option handler))
    (s : estate) : list handler * estate :=
  match l with
  | [] => ([], s)
  | None :: l' => filter_handlers e ns f sel l' s
  | Some h :: l' =>
      let '(b, s) := test_handler e ns f sel h s in
      let '(r, s) := filter_handlers e ns f sel l' s in
      (if b then h :: r else r, s)
  end.

Definition findHandlers (el : nat) (event : jstr) (f : option fn) (sel : option jstr) (s : estate)
    : list handler * estate :=
  let '(e, ns) := parse event in
  let '(id, s) := zid (OElement el) s in
  filter_handlers e ns f sel (default [] (handlers s !! id)) s.

(** [addEventListener] and [removeEventListener], which compare the type, the
    function and the capture. *)
Definition add_listener (el : nat) (l : listener) (s : estate) : estate :=
  with_listeners (<[el := default [] (listeners s !! el) ++ [l]]> (listeners s)) s.

Definition same_listener (a b : listener) : bool :=
  bool_decide (l_type a = l_type b) && bool_decide (h_proxy (l_handler a) = h_proxy (l_handler b))
  && Bool.eqb (l_capture a) (l_capture b).

Definition remove_listener (el : nat) (l : listener) (s : estate) : estate :=
  with_listeners
    (<[el := List.filter (fun l' => negb (same_listener l l')) (default [] (listeners s !! el))]> (listeners s)) s.

Definition listener_of (capture : bool) (h : handler) : listener :=
  Listener (realEvent (h_e h)) h (eventCapture h capture).

(** One word of [add]; [f] is the variable [fn], which the closure for
    [mouseenter] and [mouseleave] replaces for the words that follow. *)
Definition add_event (el id : nat) (data : jsval) (sel : option jstr) (del : option closure) (capture : bool)
    (event : jstr) (f : fn) (s : estate) : fn * estate :=
  if decide (event = js "ready") then
    (f, Events (next_zid s) (zids s) (handlers s) (listeners s) (next_fn s) (ready s ++ [f]))
  else
    let '(e, ns) := parse event in
    let '(f', s) :=
      if bool_decide (is_Some (hover e)) then (Hover (next_fn s) f, with_next_fn (S (next_fn s)) s) else (f, s) in
    let set := default [] (handlers s !! id) in
    let h := Handler e ns f sel del (default (CFn f') del) data el (next_fn s) (length set) in
    let s := with_next_fn (S (next_fn s)) s in
    let s := with_handlers (<[id := set ++ [Some h]]> (handlers s)) s in
    (f', if is_node el then add_listener el (listener_of capture h) s else s).

Fixpoint add_words (el id : nat) (data : jsval) (sel : option jstr) (del : option closure) (capture : bool)
    (words : list jstr) (f : fn) (s : estate) : estate :=
  match words with
  | [] => s
  | w :: ws => let '(f, s) := add_event el id data sel del capture w f s in
               add_words el id data sel del capture ws f s
  end.

Definition add (el : nat) (events : jstr) (f : fn) (data : jsval) (sel : option jstr) (del : option closure)
    (capture : bool) (s : estate) : estate :=
  let '(id, s) := zid (OElement el) s in
  let s := match handlers s !! id with
           | Some _ => s
           | None => with_handlers (<[id := []]> (handlers s)) s
           end in
  add_words el id data sel del capture (split_space events) f s.

(** [delete handlers[id][i]] and the listener. *)
Definition delete_handler (el id : nat) (capture : bool) (s : estate) (h : handler) : estate :=
  let s := with_handlers (alter (fun set => <[h_i h := None]> set) id (handlers s)) s in
  if is_node el then remove_listener el (listener_of capture h) s else s.

Definition remove_word (el id : nat) (f : option fn) (sel : option jstr) (capture : bool) (s : estate)
    (event : jstr) : estate :=
  let '(found, s) := findHandlers el event f sel s in
  foldl (delete_handler el id capture) s found.

Definition remove (el : nat) (events : jstr) (f : option fn) (sel : option jstr) (capture : bool)
    (s : estate) : estate :=
  let '(id, s) := zid (OElement el) s in
  foldl (remove_word el id f sel capture) s (split_space events).

(** [$.proxy(fn, context)]: a new function with the number of [fn]. *)
Definition proxy (f : fn) (s : estate) : fn * estate :=
  let '(_, s) := zid (OFunction f) s in (Bound (next_fn s) f, with_next_fn (S (next_fn s)) s).

(** ** [on], [one], [off] *)

(** The arguments of a call. *)
Inductive arg := AUndef | AFalse | AStr (s : jstr) | AFun (f : fn) | AVal (v : jsval).

Definition arg_string (a : arg) : bool := match a with AStr _ => true | _ => false end.
Definition arg_fun (a : arg) : bool := match a with AFun _ => true | _ => false end.
Definition arg_false (a : arg) : bool := match a with AFalse => true | _ => false end.
Definition arg_undef (a : arg) : bool := match a with AUndef => true | _ => false end.

(** The selector, the data and the callback of [on]. *)
Definition on_arguments (selector data callback : arg) : arg * arg * arg :=
  let '(selector, data, callback) :=
    if negb (arg_string selector) && negb (arg_fun callback) && negb (arg_false callback)
    then (AUndef, selector, data) else (selector, data, callback) in
  let '(data, callback) :=
    if arg_undef callback || arg_false data then (AUndef, data) else (data, callback) in
  (selector, data, if arg_false callback then AFun ReturnFalse else callback).

Definition off_arguments (selector callback : arg) : arg * arg :=
  let '(selector, callback) :=
    if negb (arg_string selector) && negb (arg_fun callback) && negb (arg_false callback)
    then (AUndef, selector) else (selector, callback) in
  (selector, if arg_false callback then AFun ReturnFalse else callback).

Definition arg_selector (a : arg) : option jstr := match a with AStr (c :: w) => Some (c :: w) | _ => None end.
Definition arg_value (a : arg) : jsval :=
  match a with
  | AUndef => VUndef | AFalse => VBool false | AStr s => VStr s | AVal v => v
  | AFun _ => VFun (js "function") VUndef
  end.

(** The closure [add] gets on one element of the collection: the variable
    [autoRemove] is shared, so the delegators of all elements use the one of
    the last element. *)
Definition on_closure (els : list nat) (el : nat) (sel : option jstr) (one : bool) (f : fn) : option closure :=
  match sel with
  | Some w => Some (CDelegate el w (if one then last els else None) f)
  | None => if one then Some (CAuto el f) else None
  end.

Definition on (els : list nat) (event : jstr) (selector data callback : arg) (one : bool) (s : estate)
    : option estate :=
  let '(selector, data, callback) := on_arguments selector data callback in
  match callback with
  | AFun f =>
      let sel := arg_selector selector in
      Some (foldl (fun s el => add el event f (arg_value data) sel (on_closure els el sel one f) false s) s els)
  | _ => None
  end.

Definition off (els : list nat) (event : jstr) (selector callback : arg) (s : estate) : estate :=
  let '(selector, callback) := off_arguments selector callback in
  let f := match callback with AFun f => Some f | _ => None end in
  foldl (fun s el => remove el event f (arg_selector selector) false s) s els.

(** ** Dispatch *)

(** An event: its type, its target, and whether the related target is the
    element a handler is bound to, or inside it. *)
Record event := Event {
  ev_type : jstr;
  ev_target : nat;
  related_inside : nat -> bool;
  stopped : bool;             (* [isImmediatePropagationStopped] *)
  prevented : bool;
}.

(** A call of a page function: the function, [this] and [e.data]. *)
Record call := Call { c_fn : nat; c_this : nat; c_data : jsval }.

(** What a page function does with the event. *)
Record reaction := Reaction { returns_false : bool; stops : bool }.

Variable react : nat -> reaction.

Definition set_stopped (b : bool) (e : event) : event :=
  Event (ev_type e) (ev_target e) (related_inside e) (stopped e || b) (prevented e).
Definition set_prevented (b : bool) (e : event) : event :=
  Event (ev_type e) (ev_target e) (related_inside e) (stopped e) (prevented e || b).

(** Result: what the function returned was [false], the event, the calls. *)
Fixpoint call_fn (f : fn) (this : nat) (data : jsval) (e : event) : bool * event * list call :=
  match f with
  | Page n => (returns_false (react n), set_stopped (stops (react n)) e, [Call n this data])
  | ReturnFalse => (true, e, [])
  | Hover _ g => if related_inside e this then (false, e, []) else call_fn g this data e
  | Bound _ g => call_fn g this data e
  end.

Definition call_closure (c : closure) (this : nat) (data : jsval) (e : event) (s : estate)
    : bool * event * list call * estate :=
  match c with
  | CFn f => (call_fn f this data e, s)
  | CAuto el f => (call_fn f this data e, remove el (ev_type e) (Some f) None false s)
  | CDelegate el w auto f =>
      match closest w (ev_target e) el with
      | Some m =>
          if decide (m = el) then (false, e, [], s)
          else (call_fn f m data e,
                match auto with Some el' => remove el' (ev_type e) (Some f) None false s | None => s end)
      | None => (false, e, [], s)
      end
  end.

(** [handler.proxy(e)]. *)
Definition call_proxy (h : handler) (e : event) (s : estate) : event * list call * estate :=
  if stopped e then (e, [], s)
  else let '(result, e, calls, s) := call_closure (h_call h) (h_element h) (h_data h) e s in
       (set_prevented result e, calls, s).

(** The browser calls the listeners of the type that were there at the
    beginning and have not been removed since. *)
Fixpoint run_listeners (el : nat) (l : list listener) (e : event) (s : estate) : event * list call * estate :=
  match l with
  | [] => (e, [], s)
  | x :: l' =>
      if stopped e then (e, [], s)
      else if existsb (same_listener x) (default [] (listeners s !! el)) then
        let '(e, calls, s) := call_proxy (l_handler x) e s in
        let '(e, calls', s) := run_listeners el l' e s in (e, calls ++ calls', s)
      else run_listeners el l' e s
  end.

Definition dispatch (el : nat) (e : event) (s : estate) : event * list call * estate :=
  run_listeners el (List.filter (fun x => bool_decide (l_type x = ev_type e)) (default [] (listeners s !! el))) e s.

(** [triggerHandler] on one element: no browser, the handlers found first. *)
Fixpoint run_handlers (l : list handler) (e : event) (s : estate) : event * list call * estate :=
  match l with
  | [] => (e, [], s)
  | h :: l' =>
      let '(e, calls, s) := call_proxy h e s in
      if stopped e then (e, calls, s)
      else let '(e, calls', s) := run_handlers l' e s in (e, calls ++ calls', s)
  end.

Definition triggerHandler (el : nat) (name : jstr) (e : event) (s : estate) : event * list call * estate :=
  let '(found, s) := findHandlers el name None None s in run_handlers found e s.

End Events.

(** ** The table and the listeners *)

Section Invariant.
Context `{Browser}.

(** The handlers an element has, in order. *)
Definition live (el : nat) (s : estate) : list handler :=
  match assoc (OElement el) (zids s) with
  | Some id => omap (fun x => x) (default [] (handlers s !! id))
  | None => []
  end.

Definition bound_listeners (el : nat) (s : estate) : list listener := default [] (listeners s !! el).

Record wf (s : estate) : Prop := {
  wf_range : forall o n, assoc o (zids s) = Some n -> (n < next_zid s)%nat;
  wf_inj : forall o o' n, assoc o (zids s) = Some n -> assoc o' (zids s) = Some n -> o = o';
  wf_owner : forall id, is_Some (handlers s !! id) -> exists el, assoc (OElement el) (zids s) = Some id;
  wf_slot : forall id set i h, handlers s !! id = Some set -> set !! i = Some (Some h) ->
    h_i h = i /\ (h_proxy h < next_fn s)%nat;
  wf_proxies : forall el, NoDup (h_proxy <$> live el s);
  wf_listeners : forall el, bound_listeners el s = if is_node el then listener_of false <$> live el s else [];
}.

(** *** Numbers *)

(** Only numbers have been given. *)
Record grown (s s' : estate) : Prop := {
  grown_assoc : forall o n, assoc o (zids s) = Some n -> assoc o (zids s') = Some n;
  grown_handlers : handlers s' = handlers s;
  grown_listeners : listeners s' = listeners s;
  grown_next : next_fn s' = next_fn s;
  grown_live : forall el, live el s' = live el s;
}.

Lemma grown_refl s : grown s s.
Proof. by split. Qed.

Lemma grown_trans s1 s2 s3 : grown s1 s2 -> grown s2 s3 -> grown s1 s3.
Proof. intros [? ? ? ? ?] [? ? ? ? ?]. split; intros; naive_solver congruence. Qed.

Lemma zid_spec o s n s' :
  wf s -> zid o s = (n, s') -> grown s s' /\ wf s' /\ assoc (key o) (zids s') = Some n.
Proof.
  intros Hw. unfold zid. destruct (assoc (key o) (zids s)) as [m|] eqn:E; intros [= <- <-].
  { split_and!; [apply grown_refl|done|done]. }
  set (s' := Events _ _ _ _ _ _).
  assert (forall o', assoc o' (zids s') = if decide (o' = key o) then Some (next_zid s) else assoc o' (zids s))
    as Ha by done.
  assert (forall el, live el s' = live el s) as Hl.
  { intros el. unfold live. rewrite Ha. destruct (decide (OElement el = key o)) as [Eo|]; [|done].
    rewrite Eo, E. cbn. destruct (handlers s !! next_zid s) eqn:Eh; [|done].
    destruct (wf_owner s Hw (next_zid s)) as [el' Hel]; [by rewrite Eh|].
    apply (wf_range s Hw) in Hel. lia. }
  assert (grown s s') as Hg.
  { split; try done. intros o' n' Ho. rewrite Ha. destruct (decide (o' = key o)); congruence. }
  split_and!; [done| |by rewrite Ha, decide_True].
  split.
  - intros o' n'. rewrite Ha. cbn. destruct (decide _); [intros [= <-]; lia|].
    intros Ho%(wf_range s Hw). lia.
  - intros o1 o2 n'. rewrite !Ha. destruct (decide (o1 = key o)) as [->|], (decide (o2 = key o)) as [->|]; try done.
    + intros [= <-] Ho%(wf_range s Hw). lia.
    + intros Ho%(wf_range s Hw) [= <-]. lia.
    + apply (wf_inj s Hw).
  - intros id Hid. destruct (wf_owner s Hw id Hid) as [el Hel]. exists el. by apply (grown_assoc s s' Hg).
  - apply (wf_slot s Hw).
  - intros el. rewrite Hl. apply (wf_proxies s Hw).
  - intros el. rewrite Hl. apply (wf_listeners s Hw).
Qed.

(** *** [findHandlers] *)

Definition same_fn (f g : fn) : bool := bool_decide (original f = original g).

(** The test, without the numbers. *)
Definition hit (event : jstr) (f : option fn) (sel : option jstr) (h : handler) : bool :=
  let '(e, ns) := parse event in
  (bool_decide (e = []) || bool_decide (h_e h = e)) && (bool_decide (ns = []) || matcher ns (h_ns h))
  && match f with None => true | Some g => same_fn (h_fn h) g end
  && match sel with None | Some [] => true | Some w => bool_decide (h_sel h = Some w) end.

Lemma test_handler_spec event f sel h s :
  wf s -> exists s', test_handler (parse event).1 (parse event).2 f sel h s = (hit event f sel h, s')
    /\ grown s s' /\ wf s'.
Proof.
  intros Hw. unfold test_handler, hit. destruct (parse event) as [e ns]. cbn [fst snd].
  destruct (_ && _); cbn [andb]; [|exists s; auto using grown_refl].
  destruct f as [g|]; [|exists s; auto using grown_refl].
  destruct (zid (OFunction (h_fn h)) s) as [n s1] eqn:E1.
  destruct (zid_spec _ _ _ _ Hw E1) as (G1 & W1 & A1).
  destruct (zid (OFunction g) s1) as [m s2] eqn:E2.
  destruct (zid_spec _ _ _ _ W1 E2) as (G2 & W2 & A2).
  exists s2. split_and!; [|by eapply grown_trans|done]. f_equal. f_equal.
  apply (grown_assoc _ _ G2) in A1. unfold same_fn. cbn [key] in *.
  destruct (decide (n = m)) as [<-|Hne].
  - pose proof (wf_inj _ W2 _ _ _ A1 A2) as E. rewrite !bool_decide_eq_true_2; congruence.
  - rewrite !bool_decide_eq_false_2; [done| |done]. intros E. rewrite E in A1. congruence.
Qed.

Lemma filter_handlers_spec event f sel l s :
  wf s -> exists s', filter_handlers (parse event).1 (parse event).2 f sel l s
      = (List.filter (hit event f sel) (omap (fun x => x) l), s') /\ grown s s' /\ wf s'.
Proof.
  revert s. induction l as [|[h|] l IH]; intros s Hw; cbn.
  - exists s. auto using grown_refl.
  - destruct (test_handler_spec event f sel h s Hw) as (s1 & -> & G1 & W1).
    destruct (IH s1 W1) as (s2 & -> & G2 & W2). exists s2.
    split_and!; [by destruct (hit event f sel h)|by eapply grown_trans|done].
  - by apply IH.
Qed.

Lemma findHandlers_spec el event f sel s :
  wf s -> exists s', findHandlers el event f sel s = (List.filter (hit event f sel) (live el s), s')
    /\ grown s s' /\ wf s'.
Proof.
  intros Hw. unfold findHandlers.
  pose proof (filter_handlers_spec event f sel) as Hf. destruct (parse event) as [e ns]. cbn [fst snd] in Hf.
  destruct (zid (OElement el) s) as [id s1] eqn:E1.
  destruct (zid_spec _ _ _ _ Hw E1) as (G1 & W1 & A1). cbn [key] in A1.
  destruct (Hf (default [] (handlers s1 !! id)) s1 W1) as (s2 & -> & G2 & W2).
  exists s2. split_and!; [|by eapply grown_trans|done].
  rewrite <- (grown_live _ _ G1). unfold live. by rewrite A1.
Qed.

(** *** Removal *)

Definition drop_proxy (p : nat) (l : list handler) : list handler :=
  List.filter (fun h => negb (h_proxy h =? p)%nat) l.

Lemma drop_proxy_none p l : p ∉ h_proxy <$> l -> drop_proxy p l = l.
Proof.
  induction l as [|h l IH]; [done|]. cbn. rewrite not_elem_of_cons. intros [Hp Hl].
  rewrite (proj2 (Nat.eqb_neq (h_proxy h) p)) by done. cbn. f_equal. by apply IH.
Qed.

(** An entry of the sparse array is deleted. *)
Lemma delete_slot (set : list (option handler)) i h :
  set !! i = Some (Some h) -> NoDup (h_proxy <$> omap (fun x => x) set) ->
  omap (fun x => x) (<[i := None]> set) = drop_proxy (h_proxy h) (omap (fun x => x) set).
Proof.
  revert i. induction set as [|[h'|] set IH]; intros [|i] Hi Hn; cbn in *; simplify_eq.
  - apply NoDup_cons in Hn as [Hh _]. rewrite Nat.eqb_refl. cbn. symmetry. by apply drop_proxy_none.
  - apply NoDup_cons in Hn as [Hh Hn]. rewrite (proj2 (Nat.eqb_neq (h_proxy h') (h_proxy h))).
    + cbn. f_equal. by apply IH.
    + intros E. apply Hh. rewrite E. apply list_elem_of_fmap. exists h. split; [done|].
      apply list_elem_of_omap. exists (Some h). split; [by eapply list_elem_of_lookup_2|done].
  - by apply IH.
Qed.

Lemma live_elem el s h :
  wf s -> h ∈ live el s -> exists id set, assoc (OElement el) (zids s) = Some id
    /\ handlers s !! id = Some set /\ set !! h_i h = Some (Some h).
Proof.
  intros Hw. unfold live. destruct (assoc (OElement el) (zids s)) as [id|] eqn:Ea; [|by rewrite elem_of_nil].
  destruct (handlers s !! id) as [set|] eqn:Eh; [|by rewrite elem_of_nil]. cbn.
  intros ([h'|] & Hin & E)%list_elem_of_omap; simplify_eq/=. apply list_elem_of_lookup in Hin as [i Hi].
  destruct (wf_slot s Hw id set i h Eh Hi) as [<- _]. eauto.
Qed.

Lemma drop_proxy_nodup p l : NoDup (h_proxy <$> l) -> NoDup (h_proxy <$> drop_proxy p l).
Proof.
  induction l as [|h l IH]; [done|]. cbn. intros [Hh Hn]%NoDup_cons.
  destruct (negb _); [|by apply IH]. cbn. apply NoDup_cons. split; [|by apply IH].
  intros Hin. apply Hh. apply list_elem_of_fmap in Hin as (h' & -> & Hin).
  apply list_elem_of_fmap. exists h'. split; [done|].
  apply list_elem_of_In, List.filter_In in Hin as [Hin _]. by apply list_elem_of_In.
Qed.

Lemma filter_listeners h l :
  List.filter (fun x => negb (same_listener (listener_of false h) x)) (listener_of false <$> l)
  = listener_of false <$> List.filter (fun h' => negb (same_listener (listener_of false h) (listener_of false h'))) l.
Proof. induction l as [|h' l IH]; [done|]. cbn. destruct (negb _); cbn; by rewrite IH. Qed.

Lemma proxy_inj l h h' :
  NoDup (h_proxy <$> l) -> h ∈ l -> h' ∈ l -> h_proxy h = h_proxy h' -> h = h'.
Proof.
  intros Hn H1 H2 E. apply list_elem_of_lookup in H1 as [i H1]. apply list_elem_of_lookup in H2 as [j H2].
  assert (i = j) as ->; [|congruence].
  eapply NoDup_lookup; [exact Hn|by rewrite list_lookup_fmap, H1|by rewrite list_lookup_fmap, H2, E].
Qed.

(** With distinct proxies, a listener is known by its proxy. *)
Lemma same_listener_proxy h l :
  h ∈ l -> NoDup (h_proxy <$> l) ->
  List.filter (fun h' => negb (same_listener (listener_of false h) (listener_of false h'))) l
  = drop_proxy (h_proxy h) l.
Proof.
  intros Hin Hn. apply List.filter_ext_in. intros h' Hin'%list_elem_of_In. f_equal.
  unfold same_listener. cbn. destruct (Nat.eqb_spec (h_proxy h') (h_proxy h)) as [E|Hne].
  - assert (h' = h) as -> by by eapply proxy_inj.
    rewrite !bool_decide_eq_true_2 by done. by rewrite eqb_reflx.
  - rewrite (bool_decide_eq_false_2 (h_proxy h = h_proxy h')) by congruence. by rewrite andb_false_r.
Qed.

Lemma live_other el el' id s f :
  wf s -> assoc (OElement el) (zids s) = Some id -> el' <> el ->
  live el' (with_handlers (alter f id (handlers s)) s) = live el' s.
Proof.
  intros Hw Ha Hne. unfold live. cbn. destruct (assoc (OElement el') (zids s)) as [id'|] eqn:Ea'; [|done].
  rewrite lookup_alter_ne; [done|]. intros <-. pose proof (wf_inj s Hw _ _ _ Ha Ea'). congruence.
Qed.

Lemma delete_handler_spec el id s h :
  wf s -> assoc (OElement el) (zids s) = Some id -> h ∈ live el s ->
  let s' := delete_handler el id false s h in
  wf s' /\ live el s' = drop_proxy (h_proxy h) (live el s)
  /\ (forall el', el' <> el -> live el' s' = live el' s) /\ zids s' = zids s.
Proof.
  intros Hw Ha Hin s'. destruct (live_elem el s h Hw Hin) as (id' & set & Ea & Eh & Ei). simplify_eq.
  set (s1 := with_handlers (alter (fun set => <[h_i h := None]> set) id (handlers s)) s).
  assert (live el s1 = drop_proxy (h_proxy h) (live el s)) as L1.
  { unfold live, s1. cbn. rewrite Ha, lookup_alter_eq, Eh. cbn. apply delete_slot; [done|].
    pose proof (wf_proxies s Hw el) as Hn. unfold live in Hn. by rewrite Ha, Eh in Hn. }
  assert (forall el', el' <> el -> live el' s1 = live el' s) as L2 by (intros; by eapply live_other).
  assert (zids s' = zids s /\ handlers s' = handlers s1) as [Z1 H1]
    by (unfold s', delete_handler; by destruct (is_node el)).
  assert (forall e, live e s' = live e s1) as L3 by (intros e; unfold live; by rewrite H1, Z1).
  split_and!; [|by rewrite L3|intros; by rewrite L3, L2|done].
  assert (next_zid s' = next_zid s /\ next_fn s' = next_fn s) as [N1 N2]
    by (unfold s', delete_handler; by destruct (is_node el)).
  split.
  - rewrite Z1, N1. apply (wf_range s Hw).
  - rewrite Z1. apply (wf_inj s Hw).
  - intros id0. rewrite Z1, H1. cbn. rewrite lookup_alter_is_Some. apply (wf_owner s Hw).
  - intros id0 set0 i h0. rewrite H1, N2. cbn. rewrite lookup_alter_Some.
    intros [(<- & set1 & Es & ->)|[_ Es]] Hi; [|by eapply (wf_slot s Hw)].
    destruct (decide (i = h_i h)) as [->|Hne].
    { apply list_lookup_insert_Some in Hi as [(_ & ? & _)|[? _]]; done. }
    rewrite list_lookup_insert_ne in Hi by done. by eapply (wf_slot s Hw).
  - intros el0. rewrite L3. destruct (decide (el0 = el)) as [->|Hne].
    + rewrite L1. apply drop_proxy_nodup, (wf_proxies s Hw).
    + rewrite L2 by done. apply (wf_proxies s Hw).
  - intros el0. rewrite L3. destruct (decide (el0 = el)) as [->|Hne].
    + rewrite L1. unfold bound_listeners, s', delete_handler. pose proof (wf_listeners s Hw el) as Hl.
      destruct (is_node el) eqn:En; [|exact Hl]. cbn. rewrite lookup_insert_eq. cbn.
      unfold bound_listeners in Hl. rewrite Hl, filter_listeners, same_listener_proxy; [done|done|apply (wf_proxies s Hw)].
    + rewrite L2 by done. rewrite <- (wf_listeners s Hw el0).
      unfold bound_listeners, s', delete_handler. destruct (is_node el); [|done]. cbn. by rewrite lookup_insert_ne.
Qed.

Lemma delete_all el id hs s :
  wf s -> assoc (OElement el) (zids s) = Some id -> NoDup (h_proxy <$> hs) -> (forall h, h ∈ hs -> h ∈ live el s) ->
  let s' := foldl (delete_handler el id false) s hs in
  wf s' /\ live el s' = List.filter (fun h => negb (existsb (fun g => (h_proxy h =? h_proxy g)%nat) hs)) (live el s)
  /\ (forall el', el' <> el -> live el' s' = live el' s) /\ zids s' = zids s.
Proof.
  revert s. induction hs as [|h hs IH]; intros s Hw Ha Hn Hin; cbn [foldl].
  { split_and!; try done. cbn. symmetry. rewrite <- (List.filter_true (live el s)) at 2.
    by apply List.filter_ext. }
  apply NoDup_cons in Hn as [Hh Hn].
  destruct (delete_handler_spec el id s h Hw Ha) as (W1 & L1 & O1 & Z1); [apply Hin; constructor|].
  set (s1 := delete_handler el id false s h) in *.
  destruct (IH s1 W1) as (W2 & L2 & O2 & Z2); [by rewrite Z1|done| |].
  { intros g Hg. rewrite L1. apply list_elem_of_In, List.filter_In. split.
    - apply list_elem_of_In, Hin. by constructor.
    - apply negb_true_iff, Nat.eqb_neq. intros E. apply Hh. rewrite <- E. by apply list_elem_of_fmap_2. }
  split_and!; [done| |intros el' Hne; by rewrite O2, O1|by rewrite Z2, Z1].
  rewrite L2, L1. unfold drop_proxy. rewrite bfilter_filter. apply List.filter_ext. intros g. cbn.
  by rewrite negb_orb.
Qed.

Lemma proxies_nodup (P : handler -> bool) l : NoDup (h_proxy <$> l) -> NoDup (h_proxy <$> List.filter P l).
Proof.
  induction l as [|h l IH]; [done|]. cbn. intros [Hh Hn]%NoDup_cons.
  destruct (P h); [|by apply IH]. cbn. apply NoDup_cons. split; [|by apply IH].
  intros (h' & E & Hin)%list_elem_of_fmap. apply Hh. rewrite E. apply list_elem_of_fmap_2.
  apply list_elem_of_In, List.filter_In in Hin as [Hin _]. by apply list_elem_of_In.
Qed.

Lemma remove_word_spec el id f sel s event :
  wf s -> assoc (OElement el) (zids s) = Some id ->
  let s' := remove_word el id f sel false s event in
  wf s' /\ live el s' = List.filter (fun h => negb (hit event f sel h)) (live el s)
  /\ (forall el', el' <> el -> live el' s' = live el' s) /\ assoc (OElement el) (zids s') = Some id.
Proof.
  intros Hw Ha. unfold remove_word.
  destruct (findHandlers_spec el event f sel s Hw) as (s1 & -> & G1 & W1).
  pose proof (wf_proxies s Hw el) as Hn.
  destruct (delete_all el id (List.filter (hit event f sel) (live el s)) s1) as (W2 & L2 & O2 & Z2); try done.
  - by apply (grown_assoc _ _ G1).
  - by apply proxies_nodup.
  - intros h Hin. rewrite (grown_live _ _ G1).
    apply list_elem_of_In, List.filter_In in Hin as [Hin _]. by apply list_elem_of_In.
  - split_and!; [done| |intros el' Hne; by rewrite O2, (grown_live _ _ G1)|rewrite Z2; by apply (grown_assoc _ _ G1)].
    rewrite L2, (grown_live _ _ G1). apply List.filter_ext_in. intros h Hin. f_equal.
    apply list_elem_of_In in Hin. apply eq_true_iff_eq. rewrite existsb_exists. split.
    + intros (g & Hg & E%Nat.eqb_eq). apply List.filter_In in Hg as [Hg Hit].
      apply list_elem_of_In in Hg. by rewrite (proxy_inj _ h g Hn Hin Hg E).
    + intros Hit. exists h. split; [|apply Nat.eqb_refl]. apply List.filter_In. by rewrite <- list_elem_of_In.
Qed.

(** [remove] takes away exactly the handlers one of its words hits. *)
Definition hit_any (events : jstr) (f : option fn) (sel : option jstr) (h : handler) : bool :=
  existsb (fun w => hit w f sel h) (split_space events).

Lemma remove_spec el events f sel s :
  wf s ->
  let s' := remove el events f sel false s in
  wf s' /\ live el s' = List.filter (fun h => negb (hit_any events f sel h)) (live el s)
  /\ (forall el', el' <> el -> live el' s' = live el' s).
Proof.
  intros Hw. unfold remove, hit_any. destruct (zid (OElement el) s) as [id s1] eqn:E1.
  destruct (zid_spec _ _ _ _ Hw E1) as (G1 & W1 & A1). cbn [key] in A1.
  assert (forall ws s, wf s -> assoc (OElement el) (zids s) = Some id ->
    let s' := foldl (remove_word el id f sel false) s ws in
    wf s' /\ live el s' = List.filter (fun h => negb (existsb (fun w => hit w f sel h) ws)) (live el s)
    /\ (forall el', el' <> el -> live el' s' = live el' s)) as Hall.
  { induction ws as [|w ws IH]; intros s0 Hw0 Ha0; cbn [foldl].
    - split_and!; [done| |done]. cbn. symmetry. rewrite <- (List.filter_true (live el s0)) at 2.
      by apply List.filter_ext.
    - destruct (remove_word_spec el id f sel s0 w Hw0 Ha0) as (W2 & L2 & O2 & A2).
      destruct (IH _ W2 A2) as (W3 & L3 & O3).
      split_and!; [done| |intros el' Hne; by rewrite O3, O2].
      rewrite L3, L2, bfilter_filter. apply List.filter_ext. intros h. cbn. by rewrite negb_orb. }
  destruct (Hall (split_space events) s1 W1 A1) as (W2 & L2 & O2).
  split_and!; [done|by rewrite L2, (grown_live _ _ G1)|intros el' Hne; by rewrite O2, (grown_live _ _ G1)].
Qed.

(** *** Addition *)

(** What is visible of a handler. *)
Record binding := Binding {
  b_e : jstr; b_ns : jstr; b_fn : fn; b_sel : option jstr; b_del : option closure; b_call : closure; b_data : jsval;
  b_this : nat }.

Definition binding_of (h : handler) : binding :=
  Binding (h_e h) (h_ns h) (h_fn h) (h_sel h) (h_del h) (h_call h) (h_data h) (h_element h).

(** What the words of [add] bind; [n] counts the functions made. *)
Fixpoint bindings (el : nat) (data : jsval) (sel : option jstr) (del : option closure) (words : list jstr) (f : fn) (n : nat)
    : list binding :=
  match words with
  | [] => []
  | w :: ws =>
      if decide (w = js "ready") then bindings el data sel del ws f n
      else
        let '(e, ns) := parse w in
        let '(f', n') := if bool_decide (is_Some (hover e)) then (Hover n f, S n) else (f, n) in
        Binding e ns f sel del (default (CFn f') del) data el :: bindings el data sel del ws f' (S n')
  end.

(** A handler is appended. *)
Lemma append_spec el id e ns f sel del c data set s :
  wf s -> assoc (OElement el) (zids s) = Some id -> handlers s !! id = Some set ->
  let h := Handler e ns f sel del c data el (next_fn s) (length set) in
  let s1 := with_handlers (<[id := set ++ [Some h]]> (handlers s)) (with_next_fn (S (next_fn s)) s) in
  let s' := if is_node el then add_listener el (listener_of false h) s1 else s1 in
  wf s' /\ live el s' = live el s ++ [h]
  /\ (forall el', el' <> el -> live el' s' = live el' s) /\ zids s' = zids s
  /\ is_Some (handlers s' !! id) /\ next_fn s' = S (next_fn s).
Proof.
  intros Hw Ha Es h s1 s'.
  assert (zids s' = zids s /\ handlers s' = handlers s1 /\ next_fn s' = S (next_fn s) /\ next_zid s' = next_zid s)
    as (Z1 & H1 & N1 & N2) by (unfold s'; by destruct (is_node el)).
  assert (live el s' = live el s ++ [h]) as L1.
  { unfold live. rewrite H1, Z1, Ha. cbn. rewrite lookup_insert_eq, Es. cbn. by rewrite omap_app. }
  assert (forall el', el' <> el -> live el' s' = live el' s) as L2.
  { intros el' Hne. unfold live. rewrite H1, Z1. cbn.
    destruct (assoc (OElement el') (zids s)) as [id'|] eqn:Ea'; [|done].
    rewrite lookup_insert_ne; [done|]. intros <-. pose proof (wf_inj s Hw _ _ _ Ha Ea'). congruence. }
  assert (forall el' h', h' ∈ live el' s -> (h_proxy h' < next_fn s)%nat) as Hlt.
  { intros el' h' Hin. destruct (live_elem el' s h' Hw Hin) as (i & st & _ & E1 & E2).
    by destruct (wf_slot s Hw _ _ _ _ E1 E2). }
  split_and!; [|done|done|done| |done].
  2: { rewrite H1. cbn. rewrite lookup_insert_eq. eauto. }
  split.
  - rewrite Z1, N2. apply (wf_range s Hw).
  - rewrite Z1. apply (wf_inj s Hw).
  - intros id0. rewrite Z1, H1. cbn. rewrite lookup_insert_is_Some.
    intros [<-|[_ Hs]]; [eauto|by apply (wf_owner s Hw)].
  - intros id0 set0 i h0. rewrite H1, N1. cbn. rewrite lookup_insert_Some.
    intros [[<- <-]|[_ E0]] Hi.
    + apply lookup_snoc_Some in Hi as [[_ Hi]|[-> E]]; [|simplify_eq; cbn; lia].
      destruct (wf_slot s Hw _ _ _ _ Es Hi). lia.
    + destruct (wf_slot s Hw _ _ _ _ E0 Hi). lia.
  - intros el0. destruct (decide (el0 = el)) as [->|Hne]; [|rewrite L2 by done; apply (wf_proxies s Hw)].
    rewrite L1, fmap_app. apply NoDup_app. split_and!; [apply (wf_proxies s Hw)| |apply NoDup_singleton].
    intros p (h' & E & Hin)%list_elem_of_fmap Hp%list_elem_of_singleton. apply Hlt in Hin. cbn in Hp. lia.
  - intros el0. unfold bound_listeners. destruct (decide (el0 = el)) as [->|Hne].
    + rewrite L1. pose proof (wf_listeners s Hw el) as Hl. unfold bound_listeners in Hl. unfold s'.
      destruct (is_node el); [|exact Hl]. cbn. rewrite lookup_insert_eq. cbn. by rewrite Hl, fmap_app.
    + rewrite L2 by done. rewrite <- (wf_listeners s Hw el0). unfold bound_listeners, s'.
      destruct (is_node el); [|done]. cbn. by rewrite lookup_insert_ne.
Qed.

Lemma wf_same s s' :
  wf s -> next_zid s' = next_zid s -> zids s' = zids s -> handlers s' = handlers s -> listeners s' = listeners s ->
  (next_fn s <= next_fn s')%nat -> wf s' /\ (forall el, live el s' = live el s).
Proof.
  intros Hw E1 E2 E3 E4 E5.
  assert (forall el, live el s' = live el s) as L by (intros; unfold live; by rewrite E2, E3).
  split; [|done]. split.
  - rewrite E1, E2. apply (wf_range s Hw).
  - rewrite E2. apply (wf_inj s Hw).
  - rewrite E2, E3. apply (wf_owner s Hw).
  - intros id set i h. rewrite E3. intros Hs Hi. destruct (wf_slot s Hw _ _ _ _ Hs Hi). lia.
  - intros el. rewrite L. apply (wf_proxies s Hw).
  - intros el. rewrite L. unfold bound_listeners. rewrite E4. apply (wf_listeners s Hw).
Qed.

Lemma add_words_spec el id data sel del words f s :
  wf s -> assoc (OElement el) (zids s) = Some id -> is_Some (handlers s !! id) ->
  let s' := add_words el id data sel del false words f s in
  wf s' /\ (exists hs, live el s' = live el s ++ hs /\ binding_of <$> hs = bindings el data sel del words f (next_fn s))
  /\ (forall el', el' <> el -> live el' s' = live el' s).
Proof.
  revert f s. induction words as [|w ws IH]; intros f s Hw Ha Hs; cbn [add_words bindings].
  { split_and!; [done|exists []; by rewrite app_nil_r|done]. }
  unfold add_event. destruct (decide (w = js "ready")).
  { match goal with |- context [add_words _ _ _ _ _ _ _ _ ?s0] =>
      destruct (wf_same s s0) as [W1 L1]; try done;
      destruct (IH f s0 W1 Ha Hs) as (W2 & (hs & L2 & B2) & O2) end.
    split_and!; [done|exists hs; by rewrite L2, L1|intros el' Hne; by rewrite O2, L1]. }
  destruct (parse w) as [e ns].
  assert (exists f' s1, (if bool_decide (is_Some (hover e)) then (Hover (next_fn s) f, with_next_fn (S (next_fn s)) s)
                         else (f, s)) = (f', s1)
    /\ (if bool_decide (is_Some (hover e)) then (Hover (next_fn s) f, S (next_fn s)) else (f, next_fn s)) = (f', next_fn s1)
    /\ wf s1 /\ (forall el, live el s1 = live el s) /\ zids s1 = zids s /\ handlers s1 = handlers s)
    as (f' & s1 & -> & -> & W1 & L1 & Z1 & H1).
  { destruct (bool_decide _); [|by exists f, s].
    destruct (wf_same s (with_next_fn (S (next_fn s)) s)) as [W1 L1]; try done; [cbn; lia|].
    by eexists _, _. }
  destruct Hs as [set Es]. rewrite H1, Es. cbn [default from_option].
  destruct (append_spec el id e ns f sel del (default (CFn f') del) data set s1 W1) as (W2 & L2 & O2 & Z2 & S2 & N2);
    [by rewrite Z1|by rewrite H1|].
  match goal with |- context [add_words _ _ _ _ _ _ _ _ ?s0] =>
    destruct (IH f' s0) as (W3 & (hs & L3 & B3) & O3) end.
  - exact W2.
  - etransitivity; [|exact Ha]. rewrite <- Z1, <- Z2. by destruct (is_node el).
  - exact S2.
  - split_and!; [exact W3| |].
    + eexists (_ :: hs). split; [rewrite L3|cbn [fmap list_fmap]; rewrite B3].
      * etransitivity; [apply (f_equal (fun l => l ++ hs)); exact L2|].
        rewrite L1, <- app_assoc. reflexivity.
      * f_equal. f_equal. exact N2.
    + intros el' Hne. rewrite O3 by done. etransitivity; [by apply O2|]. apply L1.
Qed.

Lemma add_spec el events f data sel del s :
  wf s ->
  let s' := add el events f data sel del false s in
  wf s' /\ (exists hs, live el s' = live el s ++ hs
             /\ binding_of <$> hs = bindings el data sel del (split_space events) f (next_fn s))
  /\ (forall el', el' <> el -> live el' s' = live el' s).
Proof.
  intros Hw. unfold add. destruct (zid (OElement el) s) as [id s1] eqn:E1.
  destruct (zid_spec _ _ _ _ Hw E1) as (G1 & W1 & A1). cbn [key] in A1.
  set (s2 := match handlers s1 !! id with Some _ => s1 | None => _ end).
  assert (wf s2 /\ (forall el, live el s2 = live el s1) /\ zids s2 = zids s1 /\ next_fn s2 = next_fn s1
          /\ is_Some (handlers s2 !! id)) as (W2 & L2 & Z2 & N2 & S2).
  { unfold s2. destruct (handlers s1 !! id) as [set|] eqn:Eh; [by rewrite Eh|].
    set (s3 := with_handlers _ s1).
    assert (forall el', live el' s3 = live el' s1) as L3.
    { intros el'. unfold live. cbn. destruct (assoc (OElement el') (zids s1)) as [id'|] eqn:Ea; [|done].
      destruct (decide (id = id')) as [<-|Hne]; [by rewrite lookup_insert_eq, Eh|by rewrite lookup_insert_ne]. }
    split_and!; [|done|done|done|cbn; rewrite lookup_insert_eq; eauto].
    split; try apply W1.
    - intros id0. cbn. rewrite lookup_insert_is_Some. intros [<-|[_ Hs]]; [eauto|by apply (wf_owner s1 W1)].
    - intros id0 set i h. cbn. rewrite lookup_insert_Some. intros [[<- <-]|[_ Es]]; [done|by eapply (wf_slot s1 W1)].
    - intros el'. rewrite L3. apply (wf_proxies s1 W1).
    - intros el'. rewrite L3. apply (wf_listeners s1 W1). }
  destruct (add_words_spec el id data sel del (split_space events) f s2) as (W3 & (hs & L3 & B3) & O3);
    [done|by rewrite Z2|done|].
  split_and!; [done| |intros el' Hne; by rewrite O3, L2, (grown_live _ _ G1)].
  exists hs. rewrite L3, L2, (grown_live _ _ G1), B3, N2, (grown_next _ _ G1). done.
Qed.

(** *** Collections *)

Lemma off_fold els events f sel s :
  wf s ->
  let s' := foldl (fun s el => remove el events f sel false s) s els in
  wf s'
  /\ (forall el, el ∈ els -> live el s' = List.filter (fun h => negb (hit_any events f sel h)) (live el s))
  /\ (forall el, el ∉ els -> live el s' = live el s).
Proof.
  revert s. induction els as [|x els IH]; intros s Hw; cbn [foldl].
  { split_and!; [done|intros el Hin; by apply elem_of_nil in Hin|done]. }
  destruct (remove_spec x events f sel s Hw) as (W1 & L1 & O1).
  destruct (IH _ W1) as (W2 & L2 & O2). split_and!; [done|..].
  - intros el Hin. destruct (decide (el = x)) as [->|Hne].
    + destruct (decide (x ∈ els)) as [Hx|Hx]; [|by rewrite O2].
      rewrite L2, L1, bfilter_filter by done. apply List.filter_ext. intros h. apply andb_diag.
    + apply elem_of_cons in Hin as [?|Hin]; [done|]. by rewrite L2, O1.
  - intros el [Hne Hx]%not_elem_of_cons. by rewrite O2, O1.
Qed.

Lemma on_fold els events f data sel (del : nat -> option closure) s :
  wf s ->
  let s' := foldl (fun s el => add el events f data sel (del el) false s) s els in
  wf s'
  /\ (forall el, exists hs, live el s' = live el s ++ hs
        /\ Forall (fun h => exists n, binding_of h ∈ bindings el data sel (del el) (split_space events) f n) hs)
  /\ (forall el, el ∉ els -> live el s' = live el s).
Proof.
  revert s. induction els as [|x els IH]; intros s Hw; cbn [foldl].
  { split_and!; [done|intros el; exists []; by rewrite app_nil_r|done]. }
  destruct (add_spec x events f data sel (del x) s Hw) as (W1 & (hs & L1 & B1) & O1).
  destruct (IH _ W1) as (W2 & L2 & O2). split_and!; [done|..].
  - intros el. destruct (L2 el) as (hs2 & L3 & F3). destruct (decide (el = x)) as [->|Hne].
    + exists (hs ++ hs2). rewrite L3, L1, app_assoc. split; [done|]. apply Forall_app. split; [|done].
      apply Forall_forall. intros h Hh. exists (next_fn s). rewrite <- B1. by apply list_elem_of_fmap_2.
    + exists hs2. by rewrite L3, O1.
  - intros el [Hne Hx]%not_elem_of_cons. by rewrite O2, O1.
Qed.

Lemma on_wf els event selector data callback one s s' :
  wf s -> on els event selector data callback one s = Some s' -> wf s'.
Proof.
  intros Hw. unfold on. destruct (on_arguments selector data callback) as [[sel d] c].
  destruct c; try done. intros [= <-].
  by destruct (on_fold els event f (arg_value d) (arg_selector sel) (fun el => on_closure els el (arg_selector sel) one f) s Hw).
Qed.

Lemma off_wf els event selector callback s : wf s -> wf (off els event selector callback s).
Proof.
  intros Hw. unfold off. destruct (off_arguments selector callback) as [sel c]. by apply off_fold.
Qed.

Lemma proxy_wf f s : wf s -> wf (proxy f s).2.
Proof.
  intros Hw. unfold proxy. destruct (zid (OFunction f) s) as [n s1] eqn:E.
  destruct (zid_spec _ _ _ _ Hw E) as (_ & W1 & _). cbn.
  destruct (wf_same s1 (with_next_fn (S (next_fn s1)) s1)); try done. cbn. lia.
Qed.

Section Dispatch.
Variable react : nat -> reaction.

Lemma call_closure_wf c this data e s : wf s -> wf (call_closure react c this data e s).2.
Proof.
  intros Hw. destruct c as [f|el f|el w auto f]; cbn.
  - done.
  - by destruct (remove_spec el (ev_type e) (Some f) None s Hw).
  - destruct (closest w (ev_target e) el) as [m|]; [|done]. case_decide; [done|].
    destruct auto as [el'|]; [|done]. by destruct (remove_spec el' (ev_type e) (Some f) None s Hw).
Qed.

Lemma call_proxy_wf h e s : wf s -> wf (call_proxy react h e s).2.
Proof.
  intros Hw. unfold call_proxy. destruct (stopped e); [done|].
  pose proof (call_closure_wf (h_call h) (h_element h) (h_data h) e s Hw) as Hc.
  by destruct (call_closure react _ _ _ _ _) as [[[result e'] calls] s'].
Qed.

Lemma run_listeners_wf el l e s : wf s -> wf (run_listeners react el l e s).2.
Proof.
  revert e s. induction l as [|x l IH]; intros e s Hw; cbn; [done|].
  destruct (stopped e); [done|]. destruct (existsb _ _); [|by apply IH].
  pose proof (call_proxy_wf (l_handler x) e s Hw) as Hc.
  destruct (call_proxy react _ _ _) as [[e1 c1] s1]. specialize (IH e1 s1 Hc).
  by destruct (run_listeners react el l e1 s1) as [[e2 c2] s2].
Qed.

Lemma run_handlers_wf l e s : wf s -> wf (run_handlers react l e s).2.
Proof.
  revert e s. induction l as [|x l IH]; intros e s Hw; cbn; [done|].
  pose proof (call_proxy_wf x e s Hw) as Hc. destruct (call_proxy react _ _ _) as [[e1 c1] s1].
  destruct (stopped e1); [done|]. specialize (IH e1 s1 Hc).
  by destruct (run_handlers react l e1 s1) as [[e2 c2] s2].
Qed.

(** What a page may do with the library. *)
Inductive op :=
| OOn (els : list nat) (event : jstr) (selector data callback : arg) (one : bool)
| OOff (els : list nat) (event : jstr) (selector callback : arg)
| OProxy (f : fn)
| ODispatch (el : nat) (e : event)
| OTrigger (el : nat) (name : jstr) (e : event).

Definition run_op (s : estate) (o : op) : option estate :=
  match o with
  | OOn els event selector data callback one => on els event selector data callback one s
  | OOff els event selector callback => Some (off els event selector callback s)
  | OProxy f => Some (proxy f s).2
  | ODispatch el e => Some (dispatch react el e s).2
  | OTrigger el name e => Some (triggerHandler react el name e s).2
  end.

Fixpoint run_ops (s : estate) (l : list op) : option estate :=
  match l with
  | [] => Some s
  | o :: l' => s' ← run_op s o; run_ops s' l'
  end.

Lemma init_wf : wf init.
Proof.
  split; try (intros; done).
  - intros id [? E]. unfold init in E. cbn [handlers] in E. by rewrite lookup_empty in E.
  - intros el. constructor.
  - intros el. unfold bound_listeners. cbn. by destruct (is_node el).
Qed.

Lemma run_ops_wf l s : run_ops init l = Some s -> wf s.
Proof.
  assert (forall l s0, wf s0 -> run_ops s0 l = Some s -> wf s) as Hgo.
  { clear l. induction l as [|o l IH]; intros s0 Hw; cbn; [by intros [= <-]|].
    destruct (run_op s0 o) as [s1|] eqn:E; cbn; [|done]. apply IH. destruct o; cbn in E; simplify_eq.
    - by eapply on_wf.
    - by apply off_wf.
    - by apply proxy_wf.
    - by apply run_listeners_wf.
    - unfold triggerHandler. destruct (findHandlers_spec el name None None s0 Hw) as (s2 & -> & _ & W2).
      by apply run_handlers_wf. }
  apply Hgo, init_wf.
Qed.

(** ** Theorems *)

(** C3: whatever the page binds, unbinds and dispatches, the listeners the
    browser has on an element are the handlers Zepto has for it, in the order
    in which they were bound, each with the type and capture it was added
    with, and an object that is not a node has none. *)
Theorem listeners_refine ops s el :
  run_ops init ops = Some s ->
  bound_listeners el s = if is_node el then listener_of false <$> live el s else [].
Proof. intros Hr. apply (wf_listeners s (run_ops_wf ops s Hr)). Qed.

(** [off] takes from each element of the collection exactly the handlers
    that a word of the list hits (type, namespaces, function, selector), keeps
    the order of the others, and leaves all other elements alone. *)
Theorem off_exact ops s els event selector callback el :
  run_ops init ops = Some s ->
  let '(sel, cb) := off_arguments selector callback in
  let f := match cb with AFun f => Some f | _ => None end in
  live el (off els event selector callback s)
  = if decide (el ∈ els) then List.filter (fun h => negb (hit_any event f (arg_selector sel) h)) (live el s)
    else live el s.
Proof.
  intros Hr. unfold off. destruct (off_arguments selector callback) as [sel cb].
  destruct (off_fold els event match cb with AFun f => Some f | _ => None end (arg_selector sel) s
              (run_ops_wf ops s Hr)) as (_ & L1 & O1).
  destruct (decide (el ∈ els)); [by apply L1|by apply O1].
Qed.

Lemma match_here_refl first ns : match_here (tokens first ns) ns = true.
Proof.
  revert first. induction ns as [|c ns IH]; intros first; [done|]. cbn [tokens].
  destruct (first && (c =? 32)%N) eqn:E.
  - apply andb_true_iff in E as [_ ->%N.eqb_eq]. cbn. by destruct ns; rewrite IH.
  - cbn. by rewrite N.eqb_refl, IH.
Qed.

Lemma hit_bound w f h :
  (binding_of h).(b_e) = (parse w).1 -> (binding_of h).(b_ns) = (parse w).2 -> h_fn h = f ->
  hit w (Some f) None h = true.
Proof.
  cbn. unfold hit, same_fn, matcher. destruct (parse w) as [e ns]. cbn. intros -> -> ->.
  rewrite match_here_refl, (bool_decide_eq_true_2 (e = e)), (bool_decide_eq_true_2 (original f = original f)) by done.
  by rewrite !orb_true_r.
Qed.

Lemma bindings_plain el data sel del words f n b :
  Forall (fun w => hover (parse w).1 = None) words -> b ∈ bindings el data sel del words f n ->
  b_fn b = f /\ exists w, w ∈ words /\ b_e b = (parse w).1 /\ b_ns b = (parse w).2.
Proof.
  intros Hf. revert n. induction Hf as [|w words Hw Hf IH]; intros n; cbn; [by rewrite elem_of_nil|].
  destruct (decide (w = js "ready")).
  { intros (? & w' & Hin & ?)%IH. split; [done|]. exists w'. split; [by constructor|done]. }
  destruct (parse w) as [e ns] eqn:Ep. cbn in Hw.
  rewrite bool_decide_eq_false_2 by (rewrite Hw; by intros []).
  rewrite elem_of_cons. intros [->|(? & w' & Hin & ?)%IH].
  - split; [done|]. exists w. rewrite Ep. split; [constructor|done].
  - split; [done|]. exists w'. split; [by constructor|done].
Qed.

(** Binding a function to a collection and unbinding it with the same list
    of events leaves the handlers and the listeners of every element as they
    were, when the function was not bound there before and the list has
    neither [mouseenter] nor [mouseleave]. *)
Theorem on_off_restores ops s els event f one s1 el :
  run_ops init ops = Some s ->
  Forall (fun w => hover (parse w).1 = None) (split_space event) ->
  (forall h, h ∈ live el s -> same_fn (h_fn h) f = false) ->
  on els event (AFun f) AUndef AUndef one s = Some s1 ->
  live el (off els event (AFun f) AUndef s1) = live el s
  /\ bound_listeners el (off els event (AFun f) AUndef s1) = bound_listeners el s.
Proof.
  intros Hr Hh Hf Hon. pose proof (run_ops_wf ops s Hr) as Hw.
  pose proof (on_wf _ _ _ _ _ _ _ _ Hw Hon) as W1. pose proof (off_wf els event (AFun f) AUndef s1 W1) as W2.
  assert (live el (off els event (AFun f) AUndef s1) = live el s) as E; [|split; [done|]].
  2: { by rewrite (wf_listeners _ W2), (wf_listeners _ Hw), E. }
  assert (s1 = foldl (fun s el => add el event f VUndef None (on_closure els el None one f) false s) s els) as ->
    by (unfold on in Hon; cbn in Hon; by simplify_eq).
  destruct (on_fold els event f VUndef None (fun el => on_closure els el None one f) s Hw) as (W3 & L3 & O3).
  unfold off. cbn [off_arguments arg_string arg_fun arg_false negb andb arg_selector].
  destruct (off_fold els event (Some f) None _ W3) as (_ & L4 & O4). clear W1 W2.
  destruct (decide (el ∈ els)) as [Hin|Hni]; [|by rewrite O4, O3].
  rewrite L4 by done. destruct (L3 el) as (hs & -> & F3). rewrite List.filter_app.
  assert (List.filter (fun h => negb (hit_any event (Some f) None h)) (live el s) = live el s) as ->.
  { rewrite <- (List.filter_true (live el s)) at 2. apply List.filter_ext_in. intros h Hh'%list_elem_of_In.
    apply negb_true_iff. unfold hit_any. apply not_true_iff_false. intros (w & _ & Hit)%existsb_exists.
    unfold hit in Hit. destruct (parse w). rewrite (Hf h Hh') in Hit. by rewrite andb_false_r in Hit. }
  assert (List.filter (fun h => negb (hit_any event (Some f) None h)) hs = []) as ->; [|by rewrite app_nil_r].
  rewrite <- (List.filter_false hs). apply List.filter_ext_in. intros h Hin'%list_elem_of_In.
  rewrite Forall_forall in F3. destruct (F3 h Hin') as [n Hb].
  destruct (bindings_plain _ _ _ _ _ _ _ _ Hh Hb) as (Ef & w & Hwin & Ee & Ens).
  apply negb_false_iff, existsb_exists. exists w. split; [by apply list_elem_of_In|].
  by apply hit_bound.
Qed.

(** *** Handlers that run once *)

Lemma real_plain e : realEvent e = e -> hover e = None.
Proof.
  unfold realEvent. destruct (hover e) as [e'|] eqn:E; [|done]. intros ->. revert E. unfold hover.
  repeat case_decide; subst; try done; intros E; apply (f_equal (default [])) in E; vm_compute in E; discriminate.
Qed.

Lemma hit_type e f sel h : parse e = (e, []) -> e <> [] -> h_e h <> e -> hit e f sel h = false.
Proof.
  intros Hp He Hne. unfold hit. rewrite Hp. by rewrite (bool_decide_eq_false_2 (e = [])), (bool_decide_eq_false_2 (h_e h = e)).
Qed.

Lemma type_listeners el e s :
  wf s -> is_node el = true ->
  List.filter (fun x => bool_decide (l_type x = e)) (bound_listeners el s)
  = listener_of false <$> List.filter (fun h => bool_decide (realEvent (h_e h) = e)) (live el s).
Proof.
  intros Hw Hn. rewrite (wf_listeners s Hw el), Hn. induction (live el s) as [|h l IH]; [done|].
  cbn. destruct (bool_decide _); cbn; by rewrite IH.
Qed.

(** A handler bound with [one] runs for the first event of its type and
    is gone then: the page function is called exactly once, the handlers of
    the element are those from before, and a second event calls nothing.  The
    event must be one the browser knows by the same name, and the element has
    no other handler for it. *)
Theorem one_once ops s el e n s1 ev :
  run_ops init ops = Some s -> is_node el = true ->
  split_space e = [e] -> parse e = (e, []) -> e <> [] -> e <> js "ready" -> realEvent e = e ->
  (forall h, h ∈ live el s -> realEvent (h_e h) <> e) ->
  on [el] e (AFun (Page n)) AUndef AUndef true s = Some s1 ->
  ev_type ev = e -> stopped ev = false ->
  exists ev' s2, dispatch react el ev s1 = (ev', [Call n el VUndef], s2)
    /\ live el s2 = live el s /\ dispatch react el ev s2 = (ev, [], s2).
Proof.
  intros Hr Hnode Hsp Hp Hne Hrd Hre Hno Hon Het Hst. pose proof (run_ops_wf ops s Hr) as Hw.
  set (f := Page n) in *. assert (s1 = add el e f VUndef None (Some (CAuto el f)) false s) as ->
    by (unfold on in Hon; cbn in Hon; by simplify_eq). clear Hon.
  destruct (add_spec el e f VUndef None (Some (CAuto el f)) s Hw) as (W1 & (hs & L1 & B1) & _).
  set (s1 := add _ _ _ _ _ _ _ s) in *. rewrite Hsp in B1. cbn in B1.
  rewrite decide_False, Hp in B1 by done. rewrite bool_decide_eq_false_2 in B1 by (rewrite real_plain; [by intros []|done]).
  destruct hs as [|h [|]]; [discriminate| |discriminate]. injection B1 as E1 E2 E3 E4 E5 E6 E7 E8.
  destruct (remove_spec el e (Some f) None s1 W1) as (W2 & L2 & _).
  set (s2 := remove el e (Some f) None false s1) in *.
  assert (live el s2 = live el s) as Hlive.
  { rewrite L2, L1, List.filter_app. unfold hit_any. rewrite Hsp. rewrite bfilter_all, bfilter_none; [by rewrite app_nil_r|..].
    - intros h' ->%list_elem_of_singleton. cbn. rewrite orb_false_r. apply negb_false_iff.
      apply hit_bound; cbn; by rewrite ?Hp.
    - intros h' Hin. cbn. rewrite hit_type; [done..|]. intros E. apply (Hno h' Hin). by rewrite E. }
  assert (List.filter (fun h => bool_decide (realEvent (h_e h) = e)) (live el s) = []) as Hnone.
  { apply bfilter_none. intros h' Hin. apply bool_decide_eq_false_2. by apply Hno. }
  exists (set_prevented (returns_false (react n)) (set_stopped (stops (react n)) ev)), s2. split_and!; [|done|].
  - unfold dispatch. fold (bound_listeners el s1). rewrite Het, type_listeners by done.
    rewrite L1, List.filter_app, Hnone. cbn. rewrite E1, Hre, bool_decide_eq_true_2 by done. cbn. rewrite Hst.
    fold (bound_listeners el s1). assert (existsb (same_listener (listener_of false h)) (bound_listeners el s1) = true) as ->.
    { apply existsb_exists. exists (listener_of false h). split.
      - apply list_elem_of_In. rewrite (wf_listeners s1 W1 el), Hnode, L1, fmap_app. apply elem_of_app. right.
        by apply list_elem_of_singleton.
      - unfold same_listener. rewrite !bool_decide_eq_true_2 by done. by rewrite eqb_reflx. }
    unfold call_proxy. rewrite Hst, E6. cbn. rewrite E7, E8, Het. done.
  - unfold dispatch. fold (bound_listeners el s2). rewrite Het, type_listeners by done. by rewrite Hlive, Hnone.
Qed.

End Dispatch.

End Invariant.

(** ** Samples *)

Module Sample.

(** Nodes with even numbers; a target matches every selector. *)
#[export] Instance browser : Browser := {|
  focusinSupported := false;
  is_node := Nat.even;
  closest := fun _ target _ => Some target;
|}.

Definition plain (_ : nat) : reaction := Reaction false false.

Definition click : event := Event (js "click") 2 (fun _ => false) false false.
Definition over : event := Event (js "mouseover") 2 (fun _ => false) false false.

Definition bind (els : list nat) (e : string) (n : nat) : op := OOn els (js e) (AFun (Page n)) AUndef AUndef false.
Definition bind_one (els : list nat) (e : string) (n : nat) : op := OOn els (js e) (AFun (Page n)) AUndef AUndef true.
Definition unbind (els : list nat) (e : string) (n : nat) : op := OOff els (js e) (AFun (Page n)) AUndef.

Definition after (ops : list op) : estate := default init (run_ops plain init ops).
Definition names (el : nat) (s : estate) : list (jstr * fn) := (fun h => (h_e h, h_fn h)) <$> live el s.

Definition setup : list op := [bind [2; 4]%nat "click.menu" 1; bind [2]%nat "blur" 2; OProxy (Page 1)].

Lemma listeners_refine_witness :
  bound_listeners 2 (after setup) = if is_node 2 then listener_of false <$> live 2 (after setup) else [].
Proof. apply (listeners_refine plain setup). vm_compute. reflexivity. Defined.

Lemma off_exact_witness :
  live 2 (off [2%nat] (js ".menu") (AFun (Page 1)) AUndef (after setup))
  = List.filter (fun h => negb (hit_any (js ".menu") (Some (Page 1)) None h)) (live 2 (after setup)).
Proof.
  apply (off_exact plain setup (after setup) [2%nat] (js ".menu") (AFun (Page 1)) AUndef 2).
  vm_compute. reflexivity.
Defined.

Definition rebound : estate :=
  default init (on [2%nat] (js "click focus.x") (AFun (Page 7)) AUndef AUndef false (after setup)).

Lemma on_off_restores_witness :
  live 2 (off [2%nat] (js "click focus.x") (AFun (Page 7)) AUndef rebound) = live 2 (after setup)
  /\ bound_listeners 2 (off [2%nat] (js "click focus.x") (AFun (Page 7)) AUndef rebound)
     = bound_listeners 2 (after setup).
Proof.
  apply (on_off_restores plain setup (after setup) [2%nat] (js "click focus.x") (Page 7) false rebound 2).
  - vm_compute. reflexivity.
  - apply (bool_decide_unpack _). vm_compute. exact I.
  - intros h Hin. vm_compute in Hin. repeat (apply elem_of_cons in Hin as [->|Hin]; [vm_compute; reflexivity|]).
    by apply elem_of_nil in Hin.
  - vm_compute. reflexivity.
Defined.

Definition with_one : estate :=
  default init (on [4%nat] (js "tap") (AFun (Page 9)) AUndef AUndef true (after setup)).
Definition tap : event := Event (js "tap") 4 (fun _ => false) false false.

Lemma one_once_witness :
  exists ev' s2, dispatch plain 4 tap with_one = (ev', [Call 9 4 VUndef], s2)
    /\ live 4 s2 = live 4 (after setup) /\ dispatch plain 4 tap s2 = (tap, [], s2).
Proof.
  apply (one_once plain setup (after setup) 4 (js "tap") 9 with_one tap).
  - vm_compute. reflexivity.
  - reflexivity.
  - vm_compute. reflexivity.
  - vm_compute. reflexivity.
  - discriminate.
  - intros E. vm_compute in E. discriminate E.
  - vm_compute. reflexivity.
  - intros h Hin. vm_compute in Hin. repeat (apply elem_of_cons in Hin as [->|Hin]; [vm_compute; discriminate|]).
    by apply elem_of_nil in Hin.
  - vm_compute. reflexivity.
  - reflexivity.
  - reflexivity.
Defined.

(** The wrapper made for [mouseenter] is taken as the function of the words
    that follow, so [off] with the same arguments leaves the second handler. *)
Example hover_leak :
  names 2 (after [bind [2]%nat "mouseenter click" 1; unbind [2]%nat "mouseenter click" 1])
  = [(js "click", Hover 0 (Page 1))].
Proof. vm_compute. reflexivity. Qed.

(** [one] unbinds by the type of the browser's event, which is [mouseover]:
    the handler for [mouseenter] stays, and runs for the second event too. *)
Example one_hover :
  let s := after [bind_one [2]%nat "mouseenter" 1] in
  let '(_, c1, s1) := dispatch plain 2 over s in
  let '(_, c2, s2) := dispatch plain 2 over s1 in
  (c1, c2, names 2 s2) = ([Call 1 2 VUndef], [Call 1 2 VUndef], [(js "mouseenter", Page 1)]).
Proof. vm_compute. reflexivity. Qed.

(** [one] with a selector on two elements: an event on the first element
    takes the handler from the last one. *)
Example one_delegated :
  let s := after [OOn [4; 6]%nat (js "click") (AStr (js "a")) (AFun (Page 1)) AUndef true] in
  let '(_, calls, s1) := dispatch plain 4 click s in
  (calls, length (live 4 s1), length (live 6 s1)) = ([Call 1 2 VUndef], 1%nat, 0%nat).
Proof. vm_compute. reflexivity. Qed.

(** An empty word between two spaces hits every handler. *)
Example off_double_space :
  names 2 (after [bind [2]%nat "keyup" 1; bind [2]%nat "scroll" 2;
                  OOff [2%nat] (js "click  blur") AUndef AUndef]) = [].
Proof. vm_compute. reflexivity. Qed.

(** The namespaces [a.b] are also found in [a.xb]. *)
Example namespace_suffix : matcher (js "a b") (js "a xb") = true.
Proof. vm_compute. reflexivity. Qed.

(** The forms of the call. *)
Example call_forms :
  on_arguments (AFun (Page 1)) AUndef AUndef = (AUndef, AUndef, AFun (Page 1))
  /\ on_arguments (AStr (js "a")) (AFun (Page 1)) AUndef = (AStr (js "a"), AUndef, AFun (Page 1))
  /\ on_arguments (AStr (js "a")) (AVal (VNum 1)) (AFun (Page 1)) = (AStr (js "a"), AVal (VNum 1), AFun (Page 1))
  /\ on_arguments (AVal (VNum 1)) (AFun (Page 1)) AUndef = (AUndef, AVal (VNum 1), AFun (Page 1))
  /\ on_arguments AFalse AUndef AUndef = (AUndef, AUndef, AFun ReturnFalse).
Proof. by split_and!. Qed.

End Sample.
