(* ===== verification/ZeptoNode.v ===== *)
(** * Class names, styles and data of a node (zepto.js)

    [hasClass], [addClass], [removeClass] and [toggleClass] work on the text
    of the attribute [class] with regular expressions; the theorems relate
    them to the list of words of the text.  The data module keeps values for
    a node in a table, under names in camel case, and falls back to the
    attributes [data-*].

    Class names are words without characters that mean something in a regular
    expression. *)

From stdpp Require Import base gmap list strings.
From Stdlib Require Import NArith.
From S2P Require Import Prelude JsString ZeptoCore.

(** The names every object has from [Object.prototype]: [name in {}]. *)
Definition proto_names : list jstr :=
  [js "constructor"; js "toString"; js "toLocaleString"; js "valueOf"; js "hasOwnProperty";
   js "isPrototypeOf"; js "propertyIsEnumerable"; js "__proto__"; js "__defineGetter__";
   js "__defineSetter__"; js "__lookupGetter__"; js "__lookupSetter__"].

(** ** Class names *)

(** The name and what ends it. *)
Definition after_name (name s : jstr) : option jstr :=
  if starts_with name s then
    match drop (length name) s with
    | [] => Some []
    | c :: r => if is_space c then Some r else None
    end
  else None.

(** The first match of [classRE(name)]: the text before and after it. *)
Fixpoint find_name (name s : jstr) : option (jstr * jstr) :=
  match s with
  | [] => None
  | c :: r =>
      match (if is_space c then after_name name r else None) with
      | Some after => Some ([], after)
      | None => (fun '(b, a) => (c :: b, a)) <$> find_name name r
      end
  end.

Definition classRE (name s : jstr) : option (jstr * jstr) :=
  match after_name name s with
  | Some after => Some ([], after)
  | None => find_name name s
  end.

(** [hasClass] on one node; the cache of regular expressions is an object, so
    a name of [Object.prototype] is found in it and is no expression. *)
Definition hasClass (name cls : jstr) : result bool :=
  if decide (name = []) then Ret false
  else if decide (name ∈ proto_names) then Throw
  else Ret (bool_decide (is_Some (classRE name cls))).

Fixpoint new_classes (names : list jstr) (cls : jstr) : result (list jstr) :=
  match names with
  | [] => Ret []
  | k :: ks =>
      match hasClass k cls, new_classes ks cls with
      | Ret has, Ret l => Ret (if has then l else k :: l)
      | _, _ => Throw
      end
  end.

Definition addClass (name cls : jstr) : result jstr :=
  if decide (name = []) then Ret cls
  else match new_classes (split_runs name) cls with
  | Ret [] => Ret cls
  | Ret l => Ret (cls ++ (if decide (cls = []) then [] else js " ") ++ join (js " ") l)
  | Throw => Throw
  end.

(** [classList.replace(classRE(klass), " ")]. *)
Definition remove_one (cls klass : jstr) : jstr :=
  if decide (klass ∈ proto_names) then cls
  else match classRE klass cls with
  | Some (b, a) => b ++ js " " ++ a
  | None => cls
  end.

(** [None]: called without a name. *)
Definition removeClass (name : option jstr) (cls : jstr) : jstr :=
  match name with
  | None => []
  | Some n => trim (foldl remove_one cls (split_runs n))
  end.

Fixpoint toggle_words (when : option bool) (names : list jstr) (cls : jstr) : result jstr :=
  match names with
  | [] => Ret cls
  | k :: ks =>
      let on := match when with
                | Some b => Ret b
                | None => match hasClass k cls with Ret has => Ret (negb has) | Throw => Throw end
                end in
      match on with
      | Ret true => match addClass k cls with Ret cls' => toggle_words when ks cls' | Throw => Throw end
      | Ret false => toggle_words when ks (removeClass (Some k) cls)
      | Throw => Throw
      end
  end.

Definition toggleClass (name : jstr) (when : option bool) (cls : jstr) : result jstr :=
  if decide (name = []) then Ret cls else toggle_words when (split_runs name) cls.

(** ** The text of a style *)

(** [!value && value !== 0]. *)
Definition no_value (v : jsval) : bool :=
  match v with VNum 0 => false | _ => negb (truthy v) end.

(** [css(property, value)]: the property to remove, or the text to append. *)
Definition css_one (property : jstr) (value : jsval) : jstr + jstr :=
  if no_value value then inl (dasherize property)
  else inr (dasherize property ++ js ":" ++ maybeAddPx property value).

(** [css(properties)]: what is removed, and the text that is appended. *)
Definition css_many (l : list (jstr * jsval)) : list jstr * jstr :=
  foldl (fun '(removed, text) '(k, v) =>
    if no_value v then (removed ++ [dasherize k], text)
    else (removed, text ++ dasherize k ++ js ":" ++ maybeAddPx k v ++ js ";")) ([], []) l.

(** ** Data *)

Section Data.
Context `{Parsers}.

(** The attributes of a node. *)
Abbreviation attributes := (list (jstr * jstr)).

Record store := Store {
  uuid : nat;
  ids : gmap nat nat;                          (* [node[exp]] *)
  data : gmap nat (list (jstr * jsval));
}.

Definition empty_store : store := Store 0 ∅ ∅.

Definition has_key (k : jstr) (o : list (jstr * jsval)) : bool :=
  bool_decide (k ∈ o.*1) || bool_decide (k ∈ proto_names).

(** The value of a name that is in the object: its own, or the one of the
    prototype. *)
Definition get_key (k : jstr) (o : list (jstr * jsval)) : jsval :=
  if decide (k ∈ o.*1) then obj_get k o else VFun k VUndef.

Definition data_prefix : jstr := js "data-".

(** [attributeData]. *)
Definition attributeData (attrs : attributes) : list (jstr * jsval) :=
  foldl (fun o '(n, v) =>
    if str_index data_prefix n =? 0
    then obj_set (camelize (replace_first data_prefix [] n)) (deserializeValue v) o else o) [] attrs.

(** [setData]; without a name it only makes the store. *)
Definition setData (node : nat) (attrs : attributes) (entry : option (jstr * jsval)) (s : store)
    : list (jstr * jsval) * store :=
  let '(id, s) :=
    match ids s !! node with
    | Some id => (id, s)
    | None => (S (uuid s), Store (S (uuid s)) (<[node := S (uuid s)]> (ids s)) (data s))
    end in
  let o := default (attributeData attrs) (data s !! id) in
  let o := match entry with Some (n, v) => obj_set (camelize n) v o | None => o end in
  (o, Store (uuid s) (ids s) (<[id := o]> (data s))).

(** [name.replace(capitalRE, '-$1').toLowerCase()]. *)
Definition attr_name (name : jstr) : jstr :=
  data_prefix ++ to_lower (name ≫= fun c => if is_upper c then [45%N; c] else [c]).

Fixpoint get_attribute (n : jstr) (attrs : attributes) : option jstr :=
  match attrs with
  | [] => None
  | (k, v) :: l => if decide (k = n) then Some v else get_attribute n l
  end.

(** The first [$.fn.data], which reads the attribute. *)
Definition dataAttr (name : jstr) (attrs : attributes) : jsval :=
  match get_attribute (attr_name name) attrs with
  | Some v => deserializeValue v
  | None => VUndef
  end.

Definition getData (node : nat) (attrs : attributes) (name : jstr) (s : store) : jsval :=
  match ids s !! node ≫= fun id => data s !! id with
  | Some o =>
      if has_key name o then get_key name o
      else if has_key (camelize name) o then get_key (camelize name) o
      else dataAttr name attrs
  | None => dataAttr name attrs
  end.

(** [removeData]: the given names, or what [$.each] finds in the store. *)
Definition removeData (node : nat) (names : option jstr) (s : store) : store :=
  match ids s !! node with
  | Some id =>
      match data s !! id with
      | Some o =>
          let keys := match names with
                      | Some n => camelize <$> split_runs n
                      | None => match each_entries (VObj o) with Ret es => es.*1 | Throw => [] end
                      end in
          let o' := List.filter (fun p => negb (bool_decide (p.1 ∈ keys))) o in
          Store (uuid s) (ids s) (<[id := o']> (data s))
      | None => s
      end
  | None => s
  end.

(** The store of a node, [data()]. *)
Definition getStore (node : nat) (attrs : attributes) (s : store) : list (jstr * jsval) * store :=
  match ids s !! node ≫= fun id => data s !! id with
  | Some o => (o, s)
  | None => setData node attrs None s
  end.

(** The first argument of [data]. *)
Inductive data_name := NUndef | NStr (n : jstr) | NObj (entries : list (jstr * jsval)).

(** [$.fn.data(name, value)] on a collection; the result [None] is the
    collection itself. *)
Definition fn_data (nodes : list (nat * attributes)) (name : data_name) (value : jsval) (s : store)
    : result (option jsval * store) :=
  let set_all entry :=
    Ret (None, foldl (fun s '(node, attrs) => snd (setData node attrs entry s)) s nodes) in
  match value, name with
  | VUndef, NObj entries =>
      match each_entries (VObj entries) with
      | Ret es =>
          Ret (None, foldl (fun s '(node, attrs) =>
                       foldl (fun s e => snd (setData node attrs (Some e) s)) s es) s nodes)
      | Throw => Throw
      end
  | VUndef, NStr n =>
      Ret (Some match nodes with (node, attrs) :: _ => getData node attrs n s | [] => VUndef end, s)
  | VUndef, NUndef =>
      match nodes with
      | (node, attrs) :: _ => let '(o, s') := getStore node attrs s in Ret (Some (VObj o), s')
      | [] => Ret (Some VUndef, s)
      end
  | _, NStr n => set_all (Some (n, value))
  | _, NUndef => set_all None
  | _, NObj _ => match nodes with [] => Ret (None, s) | _ => Throw end
  end.

End Data.

(** ** The words of a class attribute *)

Definition nonempty (w : jstr) : bool := match w with [] => false | _ => true end.

Definition words (s : jstr) : list jstr := List.filter nonempty (split_space s).

(** A class name. *)
Definition word (k : jstr) : Prop := k <> [] /\ Forall (fun c => is_space c = false) k.

Definition spaceless (k : jstr) : Prop := Forall (fun c => is_space c = false) k.

Lemma split_space_nonnil s : exists w ws, split_space s = w :: ws.
Proof.
  induction s as [|c s (w & ws & E)]; cbn; [eauto|]. destruct (is_space c); [eauto|]. rewrite E. eauto.
Qed.

Lemma split_space_app a c b :
  is_space c = true -> split_space (a ++ c :: b) = split_space a ++ split_space b.
Proof.
  intros Hc. induction a as [|d a IH]; cbn; [by rewrite Hc|]. rewrite IH.
  destruct (is_space d); [done|]. destruct (split_space_nonnil a) as (w & ws & ->). done.
Qed.

Lemma split_space_spaceless k : spaceless k -> split_space k = [k].
Proof. induction 1 as [|c k Hc Hk IH]; [done|]. cbn. by rewrite Hc, IH. Qed.

Lemma words_app a c b : is_space c = true -> words (a ++ c :: b) = words a ++ words b.
Proof. intros Hc. unfold words. by rewrite split_space_app, List.filter_app. Qed.

Lemma words_spaceless k : spaceless k -> words k = if nonempty k then [k] else [].
Proof. intros Hk. unfold words. by rewrite split_space_spaceless. Qed.

Lemma split_space_parts s : Forall spaceless (split_space s).
Proof.
  induction s as [|c s IH]; cbn; [by repeat constructor|]. destruct (is_space c) eqn:E.
  - constructor; [constructor|done].
  - destruct (split_space_nonnil s) as (w & ws & Es). rewrite Es in *. apply Forall_cons in IH as [Hw IH].
    constructor; [by constructor|done].
Qed.

Lemma words_word s k : k ∈ words s -> word k.
Proof.
  unfold words. intros Hin%list_elem_of_In%List.filter_In. destruct Hin as [Hin Hn].
  split; [by destruct k|]. pose proof (split_space_parts s) as Hf. rewrite Forall_forall in Hf.
  by apply Hf, list_elem_of_In.
Qed.

(** *** The regular expression *)

Lemma after_name_split name s a :
  after_name name s = Some a ->
  (s = name /\ a = []) \/ (exists c, is_space c = true /\ s = name ++ c :: a).
Proof.
  unfold after_name. destruct (starts_with name s) eqn:Es; [|done].
  apply starts_with_spec in Es as [r ->]. rewrite drop_app_length.
  destruct r as [|c r]; [intros [= <-]; left; by rewrite app_nil_r|].
  destruct (is_space c) eqn:Ec; [|done]. intros [= <-]. right. eauto.
Qed.

Lemma after_name_words name s a :
  spaceless name -> after_name name s = Some a -> words s = words name ++ words a.
Proof.
  intros Hn [[-> ->]|(c & Hc & ->)]%after_name_split; [by rewrite app_nil_r|by apply words_app].
Qed.

Lemma find_name_words name s b a :
  spaceless name -> find_name name s = Some (b, a) ->
  words s = words b ++ words name ++ words a.
Proof.
  intros Hn.
  assert (forall s b a, find_name name s = Some (b, a) -> exists c s', is_space c = true /\ s = b ++ c :: s'
    /\ after_name name s' = Some a) as Hf.
  { clear s b a. induction s as [|c s IH]; intros b a; cbn; [done|].
    destruct (if is_space c then after_name name s else None) as [a'|] eqn:E.
    - intros [= <- <-]. destruct (is_space c) eqn:Ec; [|done]. by exists c, s.
    - destruct (find_name name s) as [[b' a']|]; cbn; [|done]. intros [= <- <-].
      destruct (IH b' a' eq_refl) as (c' & s' & Hc & -> & Ha). by exists c', s'. }
  intros (c & s' & Hc & -> & Ha)%Hf. rewrite words_app by done. by rewrite (after_name_words name s' a).
Qed.

Lemma classRE_words name s b a :
  spaceless name -> classRE name s = Some (b, a) -> words s = words b ++ words name ++ words a.
Proof.
  intros Hn. unfold classRE. destruct (after_name name s) as [a'|] eqn:E.
  - intros [= <- <-]. by apply after_name_words.
  - by apply find_name_words.
Qed.

Lemma split_space_head s w ws :
  split_space s = w :: ws -> s = w \/ exists c a, is_space c = true /\ s = w ++ c :: a.
Proof.
  revert w ws. induction s as [|c s IH]; intros w ws; cbn; [intros [= <- <-]; by left|].
  destruct (is_space c) eqn:Ec; [intros [= <- <-]; right; by exists c, s|].
  destruct (split_space_nonnil s) as (w' & ws' & E). rewrite E. intros [= <- <-].
  destruct (IH _ _ E) as [-> |(d & a & Hd & ->)]; [by left|right; by exists d, a].
Qed.

Lemma after_name_first name s ws : split_space s = name :: ws -> is_Some (after_name name s).
Proof.
  intros [-> |(c & a & Hc & ->)]%split_space_head; unfold after_name.
  - rewrite <- (app_nil_r name) at 2. rewrite starts_with_app.
    rewrite <- (app_nil_r name) at 2. rewrite drop_app_length. eauto.
  - rewrite starts_with_app, drop_app_length, Hc. eauto.
Qed.

Lemma find_name_later name s w ws :
  word name -> split_space s = w :: ws -> name ∈ ws -> is_Some (find_name name s).
Proof.
  intros Hn. revert w ws. induction s as [|c s IH]; intros w ws; cbn; [by intros [= <- <-] ?%elem_of_nil|].
  destruct (split_space_nonnil s) as (w' & ws' & E). rewrite E. destruct (is_space c).
  - intros [= <- <-] [<-|Hin]%elem_of_cons.
    + destruct (after_name_first name s ws' E) as [a ->]. eauto.
    + destruct (after_name name s); [eauto|]. destruct (IH _ _ E Hin) as [[b a] ->]. eauto.
  - intros [= <- <-] Hin. destruct (IH _ _ E Hin) as [[b a] ->]. eauto.
Qed.

Lemma classRE_found name s : word name -> is_Some (classRE name s) <-> name ∈ words s.
Proof.
  intros Hn. split.
  - intros [[b a] E]. apply classRE_words in E; [|apply Hn]. rewrite E, (words_spaceless name) by apply Hn.
    destruct Hn as [Hne _]. destruct name; [done|]. cbn. set_solver.
  - unfold words. intros Hin%list_elem_of_In%List.filter_In. destruct Hin as [Hin%list_elem_of_In _].
    destruct (split_space_nonnil s) as (w & ws & E). rewrite E in Hin. unfold classRE.
    apply elem_of_cons in Hin as [<-|Hin].
    + destruct (after_name_first name s ws E) as [a ->]. eauto.
    + destruct (after_name name s); [eauto|]. by eapply find_name_later.
Qed.

(** The regular expression of [hasClass] finds a class name exactly when
    it is one of the words of the attribute. *)
Theorem hasClass_equiv name cls :
  word name -> name ∉ proto_names -> hasClass name cls = Ret (bool_decide (name ∈ words cls)).
Proof.
  intros Hn Hp. unfold hasClass. rewrite decide_False by apply Hn. rewrite decide_False by done.
  f_equal. apply bool_decide_ext. by apply classRE_found.
Qed.

(** *** Lists of class names *)

Lemma split_runs_nonnil s : exists w ws, split_runs s = w :: ws.
Proof.
  induction s as [|c s (w & ws & E)]; cbn; [eauto|]. destruct (is_space c).
  - destruct s as [|d s]; [eauto|]. destruct (is_space d); [by rewrite E; eauto|eauto].
  - rewrite E. eauto.
Qed.

Lemma split_runs_space c d s :
  is_space c = true ->
  split_runs (c :: d :: s) = if is_space d then split_runs (d :: s) else [] :: split_runs (d :: s).
Proof. intros Hc. cbn [split_runs]. by rewrite Hc. Qed.

Lemma split_space_space c s : is_space c = true -> split_space (c :: s) = [] :: split_space s.
Proof. intros Hc. cbn [split_space]. by rewrite Hc. Qed.

(** A run of white space separates like one: only empty parts are lost. *)
Lemma split_runs_head s w ws :
  split_runs s = w :: ws ->
  exists ws', split_space s = w :: ws' /\ List.filter nonempty ws' = List.filter nonempty ws.
Proof.
  revert w ws. induction s as [|c s IH]; intros w ws; [intros [= <- <-]; by exists []|].
  destruct (split_runs_nonnil s) as (w1 & ws1 & E1). destruct (IH _ _ E1) as (ws1' & E2 & Ef).
  destruct (is_space c) eqn:Ec.
  - rewrite split_space_space by done. destruct s as [|d s].
    + cbn. rewrite Ec. intros [= <- <-]. by exists [[]].
    + rewrite split_runs_space, E1, E2 by done. destruct (is_space d) eqn:Ed.
      * rewrite split_space_space in E2 by done. injection E2 as <- <-. intros [= <- <-]. by eexists.
      * intros [= <- <-]. eexists. split; [done|]. cbn. by rewrite Ef.
  - cbn. rewrite Ec, E1, E2. intros [= <- <-]. eauto.
Qed.

Lemma split_runs_words s : List.filter nonempty (split_runs s) = words s.
Proof.
  destruct (split_runs_nonnil s) as (w & ws & E). destruct (split_runs_head _ _ _ E) as (ws' & E' & Hf).
  unfold words. rewrite E, E'. cbn. by rewrite Hf.
Qed.

Lemma split_runs_parts s : Forall spaceless (split_runs s).
Proof.
  induction s as [|c s IH]; [by repeat constructor|]. destruct (is_space c) eqn:E; [|cbn; rewrite E].
  - destruct s as [|d s]; [cbn; rewrite E; by repeat constructor|]. rewrite split_runs_space by done.
    destruct (is_space d); [done|]. constructor; [constructor|done].
  - destruct (split_runs_nonnil s) as (w & ws & Es). rewrite Es in *. apply Forall_cons in IH as [Hw IH].
    constructor; [by constructor|done].
Qed.

Lemma words_join l : Forall spaceless l -> words (join (js " ") l) = List.filter nonempty l.
Proof.
  induction 1 as [|w l Hw Hl IH]; [done|]. destruct l as [|w' l].
  - cbn [join List.filter]. rewrite words_spaceless by done. by destruct (nonempty w).
  - change (join (js " ") (w :: w' :: l)) with (w ++ 32%N :: join (js " ") (w' :: l)).
    rewrite words_app, IH, words_spaceless by done. cbn [List.filter]. by destruct (nonempty w).
Qed.

Lemma words_spaces t : Forall (fun c => is_space c = true) t -> words t = [].
Proof.
  induction 1 as [|c t Hc Ht IH]; [done|].
  change (c :: t) with ([] ++ c :: t). by rewrite words_app, IH.
Qed.

Lemma words_spaces_after s t : Forall (fun c => is_space c = true) t -> words (s ++ t) = words s.
Proof.
  intros [|c t' Hc Ht]; [by rewrite app_nil_r|]. rewrite words_app by done.
  by rewrite (words_spaces t'), app_nil_r.
Qed.

Lemma words_spaces_before s t : Forall (fun c => is_space c = true) t -> words (t ++ s) = words s.
Proof.
  induction 1 as [|c t Hc Ht IH]; [done|]. change ((c :: t) ++ s) with ([] ++ c :: (t ++ s)).
  by rewrite words_app, IH.
Qed.

Lemma trim_left_split s : exists t, Forall (fun c => is_space c = true) t /\ s = t ++ trim_left s.
Proof.
  induction s as [|c s (t & Ht & E)]; cbn; [by exists []|]. destruct (is_space c) eqn:Ec; [|by exists []].
  exists (c :: t). split; [by constructor|]. cbn. by rewrite <- E.
Qed.

Lemma words_trim s : words (trim s) = words s.
Proof.
  unfold trim. destruct (trim_left_split s) as (t & Ht & E). rewrite E at 2. rewrite words_spaces_before by done.
  destruct (trim_left_split (reverse (trim_left s))) as (t' & Ht' & E').
  apply (f_equal reverse) in E'. rewrite reverse_involutive, reverse_app in E'. rewrite E' at 2.
  rewrite words_spaces_after; [done|by apply Forall_reverse].
Qed.

Lemma word_proto_empty : [] ∉ proto_names.
Proof. vm_compute. intros H. repeat (apply elem_of_cons in H as [H|H]; [done|]). by apply elem_of_nil in H. Qed.

(** The names that are asked for, as class names. *)
Definition regular (names : list jstr) : Prop := Forall (fun k => k ∉ proto_names) names.

Definition not_in (l : list jstr) (k : jstr) : bool := negb (bool_decide (k ∈ l)).

Lemma empty_no_word s : [] ∉ words s.
Proof. intros [H _]%words_word. done. Qed.

Lemma hasClass_words k cls :
  spaceless k -> k ∉ proto_names -> hasClass k cls = Ret (bool_decide (k ∈ words cls)).
Proof.
  intros Hk Hp. unfold hasClass. case_decide as E; [subst|].
  - by rewrite bool_decide_eq_false_2 by apply empty_no_word.
  - rewrite decide_False by done. f_equal. apply bool_decide_ext. by apply classRE_found.
Qed.

Lemma new_classes_words names cls :
  Forall spaceless names -> regular names ->
  new_classes names cls = Ret (List.filter (not_in (words cls)) names).
Proof.
  induction 1 as [|k ks Hk Hks IH]; [done|]. intros [Hp Hps]%Forall_cons. cbn.
  rewrite hasClass_words, IH by done. unfold not_in. by destruct (bool_decide (k ∈ words cls)).
Qed.

Lemma regular_runs n : regular (words n) -> regular (split_runs n).
Proof.
  unfold regular. rewrite <- split_runs_words, !Forall_forall. intros Hr k Hk Hp. destruct k as [|c k].
  - by apply word_proto_empty.
  - eapply Hr; [|done]. by apply list_elem_of_In, List.filter_In; split; [apply list_elem_of_In|].
Qed.

(** [addClass] appends the given names that are not in the attribute yet. *)
Lemma addClass_run n cls :
  regular (words n) ->
  exists cls', addClass n cls = Ret cls' /\
    words cls' = words cls ++ List.filter (not_in (words cls)) (words n).
Proof.
  intros Hr. unfold addClass. case_decide as En; [subst n; exists cls; by rewrite app_nil_r|].
  rewrite new_classes_words by (apply split_runs_parts || by apply regular_runs).
  rewrite <- (split_runs_words n), bfilter_comm.
  assert (Forall spaceless (List.filter (not_in (words cls)) (split_runs n))) as Hs.
  { apply Forall_forall. intros k Hk%list_elem_of_In%List.filter_In. destruct Hk as [Hk%list_elem_of_In _].
    pose proof (split_runs_parts n) as Hf. rewrite Forall_forall in Hf. by apply Hf. }
  destruct (List.filter (not_in (words cls)) (split_runs n)) as [|k ks];
    [exists cls; by rewrite app_nil_r|]. eexists. split; [done|].
  destruct (decide (cls = [])) as [->|].
  - rewrite (app_nil_l (join _ _)), (app_nil_l (join _ _)). by rewrite words_join.
  - change (js " " ++ ?r) with (32%N :: r). by rewrite words_app, words_join.
Qed.

Lemma remove_one_words cls k :
  spaceless k -> k ∉ proto_names -> NoDup (words cls) ->
  words (remove_one cls k) = List.filter (not_in [k]) (words cls).
Proof.
  intros Hk Hp Hnd.
  assert (forall l, k ∉ l -> List.filter (not_in [k]) l = l) as Hid.
  { induction l as [|x l IH]; [done|]. intros [Hx Hl]%not_elem_of_cons. cbn. unfold not_in at 1.
    rewrite bool_decide_eq_false_2 by set_solver. cbn. by rewrite IH. }
  unfold remove_one. rewrite decide_False by done. destruct (classRE k cls) as [[b a]|] eqn:E.
  - apply classRE_words in E; [|done]. change (js " " ++ ?r) with (32%N :: r). rewrite words_app by done.
    rewrite E in *. apply NoDup_app in Hnd as (_ & Hd & Hnd). apply NoDup_app in Hnd as (_ & Hd' & _).
    rewrite !List.filter_app, (words_spaceless k) in * by done. destruct (nonempty k) eqn:Ek.
    + rewrite (Hid (words b)) by (intros Hin; apply (Hd _ Hin); set_solver).
      rewrite (Hid (words a)) by (apply Hd'; set_solver). cbn. unfold not_in.
      by rewrite bool_decide_eq_true_2 by set_solver.
    + destruct k; [|done]. by rewrite (Hid (words b)), (Hid (words a)) by apply empty_no_word.
  - rewrite Hid; [done|]. intros Hin. assert (word k) as Hw by by eapply words_word.
    apply (classRE_found k cls) in Hin; [|done]. rewrite E in Hin. by destruct Hin.
Qed.

Lemma remove_names_words ks cls :
  Forall spaceless ks -> regular ks -> NoDup (words cls) ->
  words (foldl remove_one cls ks) = List.filter (not_in ks) (words cls).
Proof.
  intros Hs. revert cls. induction Hs as [|k ks Hk Hks IH]; intros cls Hr Hnd.
  - symmetry. apply forallb_filter_id. apply List.forallb_forall. intros x _. unfold not_in.
    by rewrite bool_decide_eq_false_2 by apply not_elem_of_nil.
  - apply Forall_cons in Hr as [Hp Hr]. cbn [foldl].
    rewrite IH; [|done|rewrite remove_one_words by done; by apply bfilter_nodup].
    rewrite remove_one_words by done. clear. induction (words cls) as [|x l IH]; [done|].
    cbn [List.filter]. rewrite <- IH.
    replace (not_in (k :: ks) x) with (not_in [k] x && not_in ks x); [by destruct (not_in [k] x)|].
    unfold not_in. repeat case_bool_decide; set_solver.
Qed.

(** [removeClass] keeps the other names, in their order. *)
Lemma removeClass_run n cls :
  regular (words n) -> NoDup (words cls) ->
  words (removeClass (Some n) cls) = List.filter (not_in (words n)) (words cls).
Proof.
  intros Hr Hnd. unfold removeClass. rewrite words_trim.
  rewrite remove_names_words by (done || apply split_runs_parts || by apply regular_runs).
  apply List.filter_ext_in. intros k Hk%list_elem_of_In. unfold not_in. f_equal. apply bool_decide_ext.
  rewrite <- split_runs_words, !list_elem_of_In, List.filter_In. apply words_word in Hk as [Hne _].
  by destruct k; [|tauto].
Qed.

(** *** The list of class names that the attribute stands for *)

Inductive class_op :=
| Add (names : jstr)
| Remove (names : option jstr)
| Toggle (names : jstr) (when : option bool).

Definition class_step (op : class_op) (cls : jstr) : result jstr :=
  match op with
  | Add n => addClass n cls
  | Remove n => Ret (removeClass n cls)
  | Toggle n when => toggleClass n when cls
  end.

Fixpoint class_run (ops : list class_op) (cls : jstr) : result jstr :=
  match ops with
  | [] => Ret cls
  | op :: ops => match class_step op cls with Ret cls' => class_run ops cls' | Throw => Throw end
  end.

Definition add_names (ns l : list jstr) : list jstr := l ++ List.filter (not_in l) ns.

Definition remove_names (ns l : list jstr) : list jstr := List.filter (not_in ns) l.

Definition toggle_name (when : option bool) (l : list jstr) (k : jstr) : list jstr :=
  if default (not_in l k) when then add_names [k] l else remove_names [k] l.

Definition abs_step (op : class_op) (l : list jstr) : list jstr :=
  match op with
  | Add n => add_names (words n) l
  | Remove None => []
  | Remove (Some n) => remove_names (words n) l
  | Toggle n when => foldl (toggle_name when) l (words n)
  end.

(** The names of an operation: none of [Object.prototype], and none twice in
    what is added. *)
Definition op_ok (op : class_op) : Prop :=
  match op with
  | Add n => regular (words n) /\ NoDup (words n)
  | Remove (Some n) | Toggle n _ => regular (words n)
  | Remove None => True
  end.

Lemma add_names_nodup ns l : NoDup ns -> NoDup l -> NoDup (add_names ns l).
Proof.
  intros Hn Hl. apply NoDup_app. split; [done|]. split; [|by apply bfilter_nodup].
  intros x Hx Hf%list_elem_of_In%List.filter_In. destruct Hf as [_ Hf]. unfold not_in in Hf.
  by rewrite bool_decide_eq_true_2 in Hf.
Qed.

Lemma remove_names_nodup ns l : NoDup l -> NoDup (remove_names ns l).
Proof. apply bfilter_nodup. Qed.

Lemma toggle_name_nodup when l k : NoDup l -> NoDup (toggle_name when l k).
Proof.
  intros Hl. unfold toggle_name. destruct (default _ when);
    [apply add_names_nodup; [apply NoDup_singleton|done]|by apply remove_names_nodup].
Qed.

Lemma abs_step_nodup op l : op_ok op -> NoDup l -> NoDup (abs_step op l).
Proof.
  destruct op as [n|[n|]|n when]; cbn.
  - intros [_ Hn]. by apply add_names_nodup.
  - intros _. apply remove_names_nodup.
  - constructor.
  - intros _. revert l. induction (words n) as [|k ks IH]; intros l Hl; [done|]. by apply IH, toggle_name_nodup.
Qed.

(** One name of [toggleClass]. *)
Lemma toggle_words_cons when k ks cls :
  spaceless k -> k ∉ proto_names -> NoDup (words cls) ->
  exists cls', toggle_words when (k :: ks) cls = toggle_words when ks cls' /\
    words cls' = if nonempty k then toggle_name when (words cls) k else words cls.
Proof.
  intros Hk Hp Hnd. cbn [toggle_words]. unfold toggle_name.
  assert (words k = if nonempty k then [k] else []) as Hw by by apply words_spaceless.
  assert (regular (words k)) as Hr by (rewrite Hw; destruct (nonempty k); repeat constructor; done).
  assert (words (removeClass (Some k) cls)
    = if nonempty k then remove_names [k] (words cls) else words cls) as Hrm.
  { rewrite removeClass_run, Hw by done. unfold remove_names. destruct (nonempty k); [done|].
    by apply bfilter_all. }
  destruct (addClass_run k cls Hr) as (ca & Ea & Hca).
  assert (words ca = if nonempty k then add_names [k] (words cls) else words cls) as Hadd.
  { rewrite Hca, Hw. destruct (nonempty k); [done|]. by rewrite app_nil_r. }
  rewrite hasClass_words by done. unfold not_in at 1.
  destruct when as [[]|]; cbn [default]; [rewrite Ea; eauto|eauto|].
  destruct (bool_decide (k ∈ words cls)); cbn [negb]; [eauto|rewrite Ea; eauto].
Qed.

Lemma toggle_words_run when ks cls :
  Forall spaceless ks -> regular ks -> NoDup (words cls) ->
  exists cls', toggle_words when ks cls = Ret cls' /\
    words cls' = foldl (toggle_name when) (words cls) (List.filter nonempty ks).
Proof.
  intros Hs. revert cls. induction Hs as [|k ks Hk Hks IH]; intros cls Hr Hnd; [cbn; eauto|].
  apply Forall_cons in Hr as [Hp Hr].
  destruct (toggle_words_cons when k ks cls) as (cls1 & -> & E1); [done..|].
  destruct (IH cls1) as (cls' & E & E'); [done|rewrite E1; destruct (nonempty k); [by apply toggle_name_nodup|done]|].
  exists cls'. split; [done|]. rewrite E', E1. cbn [List.filter]. by destruct (nonempty k).
Qed.

Lemma class_step_run op cls :
  op_ok op -> NoDup (words cls) ->
  exists cls', class_step op cls = Ret cls' /\ words cls' = abs_step op (words cls).
Proof.
  destruct op as [n|[n|]|n when]; cbn [op_ok class_step abs_step].
  - intros [Hr _] _. by apply addClass_run.
  - intros Hr Hnd. eexists. split; [done|]. by apply removeClass_run.
  - intros _ _. by eexists.
  - intros Hr Hnd. unfold toggleClass. case_decide as En; [subst; eauto|]. rewrite <- (split_runs_words n).
    apply toggle_words_run; [apply split_runs_parts|by apply regular_runs|done].
Qed.


(** ** The data of the nodes *)

Section DataSpec.
Context `{Parsers}.

Inductive reached : store -> Prop :=
| reached_empty : reached empty_store
| reached_set node attrs entry s : reached s -> reached (snd (setData node attrs entry s))
| reached_remove node names s : reached s -> reached (removeData node names s).

Definition no_hyphen (k : jstr) : Prop := Forall (fun c => c <> 45%N) k.

(** The numbers of the nodes are distinct and were handed out, and the names
    in the stores are in camel case. *)
Record wf (s : store) : Prop := Wf {
  ids_bound node id : ids s !! node = Some id -> (id <= uuid s)%nat;
  ids_inj n1 n2 id : ids s !! n1 = Some id -> ids s !! n2 = Some id -> n1 = n2;
  keys_camel id o : data s !! id = Some o -> Forall no_hyphen o.*1;
}.

Lemma camelize_no_hyphen s : no_hyphen (camelize s).
Proof.
  unfold camelize. generalize false. induction s as [|c s IH]; intros b; cbn; [constructor|].
  destruct (N.eqb_spec c 45); [apply IH|]. constructor; [|apply IH].
  destruct (b && _); [|done]. unfold upper_unit.
  destruct (N.leb_spec 97 c), (N.leb_spec c 122); cbn [andb]; lia.
Qed.

Lemma camelize_id s : no_hyphen s -> camelize s = s.
Proof.
  unfold camelize. induction 1 as [|c s Hc Hs IH]; [done|]. cbn. destruct (N.eqb_spec c 45); [done|].
  by rewrite IH.
Qed.

Lemma obj_set_keys (P : jstr -> Prop) k v o : P k -> Forall P o.*1 -> Forall P (obj_set k v o).*1.
Proof.
  intros Hk. induction o as [|[k' v'] o IH]; cbn; [by repeat constructor|]. intros [Hk' Ho]%Forall_cons.
  case_decide; cbn; constructor; auto.
Qed.

Lemma obj_set_key k v o : k ∈ (obj_set k v o).*1.
Proof.
  induction o as [|[k' v'] o IH]; cbn; [apply list_elem_of_here|]. case_decide; cbn;
    [subst; apply list_elem_of_here|by apply list_elem_of_further].
Qed.

Lemma attributeData_camel attrs : Forall no_hyphen (attributeData attrs).*1.
Proof.
  unfold attributeData. assert (Forall no_hyphen (@nil (jstr * jsval)).*1) as Hn by constructor.
  revert Hn. generalize (@nil (jstr * jsval)). induction attrs as [|[n v] attrs IH]; intros o Ho; cbn; [done|].
  apply IH. case_match; [|done]. apply obj_set_keys; [apply camelize_no_hyphen|done].
Qed.

(** What [setData] leaves: the number of the node and its store. *)
Lemma setData_split node attrs entry s :
  wf s ->
  exists id, let '(o, s') := setData node attrs entry s in
    s' = Store (uuid s') (<[node := id]> (ids s)) (<[id := o]> (data s)) /\ (uuid s <= uuid s')%nat
    /\ (ids s !! node = Some id /\ uuid s' = uuid s \/ ids s !! node = None /\ id = uuid s' /\ uuid s' = S (uuid s))
    /\ o = (fun o => match entry with Some (n, v) => obj_set (camelize n) v o | None => o end)
            (default (attributeData attrs) (data s !! id)).
Proof.
  intros Hw. unfold setData. destruct (ids s !! node) as [id|] eqn:E; cbn.
  - exists id. rewrite (insert_id (ids s) node id) by done. split; [done|]. split; [lia|]. split; [by left|done].
  - exists (S (uuid s)). split; [done|]. split; [lia|]. split; [by right|done].
Qed.

Lemma setData_wf node attrs entry s : wf s -> wf (snd (setData node attrs entry s)).
Proof.
  intros Hw. destruct (setData_split node attrs entry s Hw) as (id & Hs).
  destruct (setData node attrs entry s) as [o s']. destruct Hs as (Es & Hu & Hid & Ho). cbn [snd].
  assert (forall n, n <> node -> ids s !! n <> Some id) as Hother.
  { intros n Hn Hi. destruct Hid as [[Hid _]|(_ & -> & Hid)]; [by eapply Hn, (ids_inj s Hw)|].
    apply (ids_bound s Hw) in Hi. lia. }
  rewrite Es. split; cbn.
  - intros n i [[<- <-]|[_ Hi]]%lookup_insert_Some; [|apply (ids_bound s Hw) in Hi; lia].
    destruct Hid as [[Hid _]|(_ & -> & _)]; [apply (ids_bound s Hw) in Hid; lia|lia].
  - intros n1 n2 i [[<- <-]|[Hn1 H1]]%lookup_insert_Some [[<- Hi]|[Hn2 H2]]%lookup_insert_Some; try done.
    + by destruct (Hother n2).
    + subst i. by destruct (Hother n1).
    + by eapply (ids_inj s Hw).
  - intros i o' [[<- <-]|[_ Hd]]%lookup_insert_Some; [|by eapply keys_camel].
    assert (Forall no_hyphen (default (attributeData attrs) (data s !! id)).*1) as Hk.
    { destruct (data s !! id) eqn:Ed; [by eapply keys_camel|apply attributeData_camel]. }
    rewrite Ho. destruct entry as [[n v]|]; [|done]. apply obj_set_keys; [apply camelize_no_hyphen|done].
Qed.

Lemma removeData_wf node names s : wf s -> wf (removeData node names s).
Proof.
  intros Hw. unfold removeData. destruct (ids s !! node) as [id|] eqn:Ei; [|done].
  destruct (data s !! id) as [o|] eqn:Ed; [|done]. split; cbn; [apply Hw|apply Hw|].
  intros i o' [[<- <-]|[_ Hd]]%lookup_insert_Some; [|by eapply keys_camel].
  apply (keys_camel s Hw) in Ed. rewrite Forall_forall in *. intros k ([k' v] & -> & Hk)%list_elem_of_fmap.
  apply Ed, list_elem_of_fmap. exists (k', v). split; [done|]. apply list_elem_of_In.
  by apply list_elem_of_In, List.filter_In in Hk as [Hk _].
Qed.

Lemma reached_wf s : reached s -> wf s.
Proof.
  induction 1; [|by apply setData_wf|by apply removeData_wf]. split; cbn; intros *; by rewrite ?lookup_empty.
Qed.

Lemma proto_no_hyphen k : k ∈ proto_names -> camelize k = k.
Proof.
  intros Hk. pose proof (proj1 (Forall_forall (fun k => camelize k = k) proto_names)) as Hf.
  apply Hf; [|done]. vm_compute. repeat constructor.
Qed.

Lemma own_key_camel (o : list (jstr * jsval)) k : Forall no_hyphen o.*1 -> k ∈ o.*1 -> camelize k = k.
Proof. rewrite Forall_forall. intros Ho Hk. by apply camelize_id, Ho. Qed.

(** Reading a name that the store has under its name in camel case. *)
Lemma getData_own node attrs name s id o :
  wf s -> ids s !! node = Some id -> data s !! id = Some o -> camelize name ∈ o.*1 ->
  getData node attrs name s = obj_get (camelize name) o.
Proof.
  intros Hw Hi Hd Hk. unfold getData. rewrite Hi. cbn. rewrite Hd. unfold get_key, has_key.
  destruct (decide (name ∈ o.*1)) as [Hn|Hn].
  - rewrite bool_decide_eq_true_2 by done. cbn. by rewrite (own_key_camel o name) by (done || by eapply keys_camel).
  - rewrite (bool_decide_eq_false_2 (name ∈ o.*1)) by done. rewrite (bool_decide_eq_true_2 (camelize name ∈ _)) by done.
    destruct (decide (name ∈ proto_names)) as [Hp|Hp]; [by rewrite proto_no_hyphen in Hk|].
    rewrite bool_decide_eq_false_2 by done. cbn. by rewrite decide_True by done.
Qed.

Lemma getData_missing node attrs name s id o :
  wf s -> ids s !! node = Some id -> data s !! id = Some o -> camelize name ∉ o.*1 ->
  camelize name ∉ proto_names -> getData node attrs name s = dataAttr name attrs.
Proof.
  intros Hw Hi Hd Hk Hp. unfold getData, has_key. rewrite Hi. cbn. rewrite Hd.
  rewrite (bool_decide_eq_false_2 (camelize name ∈ _)), (bool_decide_eq_false_2 (camelize name ∈ proto_names)) by done.
  rewrite (bool_decide_eq_false_2 (name ∈ o.*1)), (bool_decide_eq_false_2 (name ∈ proto_names)); [done|..].
  - intros Hn. by rewrite proto_no_hyphen in Hp.
  - intros Hn. apply Hk. by rewrite (own_key_camel o name) by (done || by eapply keys_camel).
Qed.

Lemma getData_frame node attrs name s s' :
  (forall id, ids s !! node = Some id -> data s' !! id = data s !! id) -> ids s' !! node = ids s !! node ->
  getData node attrs name s' = getData node attrs name s.
Proof.
  intros Hd Hi. unfold getData. rewrite Hi. destruct (ids s !! node) as [id|]; [|done]. cbn. by rewrite Hd.
Qed.

(** A value stored for a node is read back under the same name, hyphenated
    or in camel case, until it is removed, and from then on the name stands
    for the attribute of the node; the data of other nodes do not change. *)
Theorem data_roundtrip s node attrs name v :
  reached s -> camelize name ∉ proto_names ->
  let s' := snd (setData node attrs (Some (name, v)) s) in
  (forall attrs' name', camelize name' = camelize name -> getData node attrs' name' s' = v)
  /\ (forall names attrs', camelize name ∈ camelize <$> split_runs names ->
        getData node attrs' name (removeData node (Some names) s') = dataAttr name attrs')
  /\ (forall node' attrs' name', node' <> node ->
        getData node' attrs' name' s' = getData node' attrs' name' s).
Proof.
  intros Hw%reached_wf Hp s'. assert (wf s') as Hw' by by apply setData_wf. subst s'.
  destruct (setData_split node attrs (Some (name, v)) s Hw) as (id & Hs).
  destruct (setData node attrs (Some (name, v)) s) as [o s']. destruct Hs as (Es & _ & Hid & Ho). cbn [snd] in *.
  assert (ids s' !! node = Some id) as Hi by (rewrite Es; apply lookup_insert_eq).
  assert (data s' !! id = Some o) as Hd by (rewrite Es; apply lookup_insert_eq).
  split; [|split].
  - intros attrs' name' E. rewrite (getData_own node attrs' name' s' id o), E, Ho; [|done..|].
    + rewrite obj_get_set. by rewrite decide_True.
    + rewrite E, Ho. apply obj_set_key.
  - intros names attrs' Hin. eapply getData_missing; [by apply removeData_wf|..]; unfold removeData; rewrite ?Hi, ?Hd;
      [done|apply lookup_insert_eq| |done].
    intros ([k w] & E & Hk)%list_elem_of_fmap. cbn in E. subst k.
    apply list_elem_of_In, List.filter_In in Hk as [_ Hk]. cbn in Hk. by rewrite bool_decide_eq_true_2 in Hk.
  - intros node' attrs' name' Hne. apply getData_frame; rewrite Es; cbn; [|by rewrite lookup_insert_ne].
    intros i Hi'. rewrite lookup_insert_ne; [done|]. intros ->.
    destruct Hid as [[Hid _]|(_ & -> & Hu)]; [by eapply Hne, (ids_inj s Hw)|].
    apply (ids_bound s Hw) in Hi'. lia.
Qed.

End DataSpec.

(** ** Concrete nodes *)

Module Sample.

#[export] Instance parsers : Parsers := {| canonical_number _ := None; json_parse _ := Throw |}.

Lemma hasClass_equiv_witness : hasClass (js "on") (js "tab on") = Ret true.
Proof.
  rewrite (hasClass_equiv (js "on") (js "tab on")).
  - reflexivity.
  - split; [discriminate|repeat constructor].
  - apply (bool_decide_unpack _). vm_compute. exact I.
Defined.


Lemma data_roundtrip_witness :
  getData 1 [] (js "userName") (snd (setData 1 [] (Some (js "user-name", VNum 7)) empty_store)) = VNum 7.
Proof.
  assert (camelize (js "user-name") ∉ proto_names) as Hp by (apply (bool_decide_unpack _); vm_compute; exact I).
  destruct (data_roundtrip empty_store 1 [] (js "user-name") (VNum 7) reached_empty Hp) as [Hget _].
  apply Hget. reflexivity.
Defined.

(** A name that is in the attribute twice is removed once. *)
Example removeClass_twice : removeClass (Some (js "a")) (js "a b a") = js "b a".
Proof. reflexivity. Qed.

(** A name that is given twice is added twice. *)
Example addClass_twice : addClass (js "a a") (js "b") = Ret (js "b a a").
Proof. reflexivity. Qed.

(** The cache of regular expressions has the names of [Object.prototype]. *)
Example hasClass_constructor : hasClass (js "constructor") (js "b") = Throw.
Proof. reflexivity. Qed.

(** So has a store: the attribute is not read. *)
Example getData_constructor :
  getData 1 [(js "data-constructor", js "x")] (js "constructor") (snd (setData 1 [] None empty_store))
  = VFun (js "constructor") VUndef.
Proof. reflexivity. Qed.

(** [removeData()] goes through a store with a number [length] as through an
    array, and leaves what it holds. *)
Example removeData_length :
  let s := snd (setData 1 [] (Some (js "length", VNum 2)) (snd (setData 1 [] (Some (js "file", VNum 7)) empty_store))) in
  getData 1 [] (js "file") (removeData 1 None s) = VNum 7.
Proof. reflexivity. Qed.

End Sample.
