(* ===== verification/ZeptoTree.v ===== *)
(** * The document (zepto.js)

    The tree of the document as the browser keeps it, nodes with numbers and
    links in both directions, and the functions of Zepto that walk through it
    and change it.  Every operation keeps the tree well formed, whatever it is
    called with; the loops that walk up end at the root; and the four
    insertions put nodes where they should.

    A selector is the predicate it stands for.  The scripts that an insertion
    runs are recorded; they do not change the document while it goes on. *)

From stdpp Require Import base gmap list sets fin_maps.
From S2P Require Import Prelude ZeptoCore.

(** ** The document of the browser *)

(** [script]: an element that is an inline script. *)
Inductive kind := KDocument | KElement (script : bool) | KText.

#[export] Instance kind_eq_dec : EqDecision kind.
Proof. solve_decision. Defined.

Record document := Document {
  kinds : gmap nat kind;
  parentNode : gmap nat nat;
  childNodes : gmap nat (list nat);
  next_node : nat;
  documentElement : nat;
  scripts : list nat;          (** the scripts that were run *)
}.

#[export] Instance document_eta : Eta document :=
  fun r => Document (kinds r) (parentNode r) (childNodes r) (next_node r) (documentElement r) (scripts r).

Definition childs (d : document) (p : nat) : list nat := default [] (childNodes d !! p).

Definition is_element (d : document) (x : nat) : bool :=
  match kinds d !! x with Some (KElement _) => true | _ => false end.

Definition isDocument (d : document) (x : nat) : bool :=
  match kinds d !! x with Some KDocument => true | _ => false end.

(** The nodes above a node. *)
Fixpoint up (fuel : nat) (d : document) (x : nat) : list nat :=
  match fuel with
  | O => []
  | S n => match parentNode d !! x with Some p => p :: up n d p | None => [] end
  end.

(** More than the nodes above any node. *)
Definition height (d : document) : nat := size (parentNode d).

Definition ancestors (d : document) (x : nat) : list nat := up (height d) d x.

Fixpoint after_node (x : nat) (l : list nat) : option nat :=
  match l with
  | [] => None
  | y :: l' => if decide (y = x) then head l' else after_node x l'
  end.

Definition nextSibling (d : document) (x : nat) : option nat :=
  p ← parentNode d !! x; after_node x (childs d p).

Definition firstChild (d : document) (x : nat) : option nat := head (childs d x).

(** The other nodes of a list. *)
Definition others (x : nat) (l : list nat) : list nat :=
  List.filter (fun y => negb (bool_decide (y = x))) l.

(** [removeChild] on the parent. *)
Definition unlink (x : nat) (d : document) : document :=
  match parentNode d !! x with
  | Some p => d <| parentNode ::= delete x |>
                <| childNodes ::= <[p := others x (childs d p)]> |>
  | None => d
  end.

Fixpoint insert_at (ref : option nat) (x : nat) (l : list nat) : list nat :=
  match l with
  | [] => [x]
  | y :: l' => if decide (Some y = ref) then x :: l else y :: insert_at ref x l'
  end.

Definition link (p x : nat) (ref : option nat) (d : document) : document :=
  d <| parentNode ::= <[x := p]> |> <| childNodes ::= <[p := insert_at ref x (childs d p)]> |>.

(** [p.insertBefore(x, ref)] throws when [p] cannot hold [x] or is inside it,
    and when [ref] is not a child of [p]. *)
Definition holds (d : document) (p x : nat) : bool :=
  match kinds d !! p, kinds d !! x with
  | Some (KElement _), Some (KElement _ | KText) => true
  | Some KDocument, Some (KElement _) => negb (existsb (is_element d) (childs d p))
  | _, _ => false
  end.

Definition insertable (d : document) (p x : nat) (ref : option nat) : bool :=
  holds d p x && negb (bool_decide (x = p \/ x ∈ ancestors d p))
  && match ref with Some r => bool_decide (parentNode d !! r = Some p) | None => true end.

Definition insertBefore (p x : nat) (ref : option nat) (d : document) : option document :=
  if insertable d p x ref then
    let ref := if decide (ref = Some x) then nextSibling d x else ref in
    Some (link p x ref (unlink x d))
  else None.

Definition create (k : kind) (d : document) : nat * document :=
  (next_node d, d <| kinds ::= <[next_node d := k]> |> <| next_node ::= S |>).

(** [cloneNode(true)]. *)
Fixpoint clone (fuel : nat) (x : nat) (d : document) : nat * document :=
  let '(y, d1) := create (default KText (kinds d !! x)) d in
  match fuel with
  | O => (y, d1)
  | S n =>
      (y, foldl (fun d c => let '(c', d') := clone n c d in default d' (insertBefore y c' None d'))
            d1 (childs d x))
  end.

Definition cloneNode (x : nat) (d : document) : nat * document := clone (S (height d)) x d.

(** ** Walking *)

(** [$.contains] where the browser has no [contains]. *)
Fixpoint contains_loop (fuel : nat) (d : document) (parent node : nat) : bool :=
  match fuel with
  | O => false
  | S n =>
      match parentNode d !! node with
      | Some p => if decide (p = parent) then true else contains_loop n d parent p
      | None => false
      end
  end.

Definition contains (d : document) (parent node : nat) : bool := contains_loop (height d) d parent node.

(** [closest]: the loop stops at a match, at the context, at the document, or
    above the root. *)
Fixpoint closest_loop (fuel : nat) (d : document) (matches : nat -> bool) (context : option nat) (node : nat)
    : option nat :=
  if matches node then Some node
  else match fuel with
  | O => None
  | S n =>
      if bool_decide (Some node = context) || isDocument d node then None
      else p ← parentNode d !! node; closest_loop n d matches context p
  end.

Definition closest (d : document) (matches : nat -> bool) (context : option nat) (nodes : list nat) : option nat :=
  node ← head nodes; closest_loop (height d) d matches context node.

(** [filtered]. *)
Definition filtered (sel : option (nat -> bool)) (nodes : list nat) : list nat :=
  match sel with Some f => List.filter f nodes | None => nodes end.

(** One turn of the loop of [parents]: [found] are the ancestors so far. *)
Fixpoint parents_turn (d : document) (nodes found : list nat) : list nat * list nat :=
  match nodes with
  | [] => ([], found)
  | x :: nodes' =>
      match parentNode d !! x with
      | Some p =>
          if isDocument d p || bool_decide (p ∈ found) then parents_turn d nodes' found
          else let '(next, found') := parents_turn d nodes' (found ++ [p]) in (p :: next, found')
      | None => parents_turn d nodes' found
      end
  end.

Fixpoint parents_loop (fuel : nat) (d : document) (nodes found : list nat) : list nat :=
  match fuel, nodes with
  | _, [] | O, _ => found
  | S n, _ => let '(next, found') := parents_turn d nodes found in parents_loop n d next found'
  end.

Definition parents (d : document) (nodes : list nat) (sel : option (nat -> bool)) : list nat :=
  filtered sel (parents_loop (S (height d)) d nodes []).

Definition children (d : document) (x : nat) : list nat := List.filter (is_element d) (childs d x).

Definition fn_parent (d : document) (nodes : list nat) (sel : option (nat -> bool)) : list nat :=
  filtered sel (uniq (omap (fun x => parentNode d !! x) nodes)).

Definition fn_children (d : document) (nodes : list nat) (sel : option (nat -> bool)) : list nat :=
  filtered sel (nodes ≫= children d).

Definition fn_contents (d : document) (nodes : list nat) : list nat := nodes ≫= childs d.

(** [children(el.parentNode)] throws for a node without a parent. *)
Fixpoint siblings_of (d : document) (nodes : list nat) : result (list nat) :=
  match nodes with
  | [] => Ret []
  | x :: nodes' =>
      match parentNode d !! x, siblings_of d nodes' with
      | Some p, Ret l => Ret (others x (children d p) ++ l)
      | _, _ => Throw
      end
  end.

Definition siblings (d : document) (nodes : list nat) (sel : option (nat -> bool)) : result (list nat) :=
  match siblings_of d nodes with Ret l => Ret (filtered sel l) | Throw => Throw end.

(** ** Changing *)

(** [each] with a function that may throw: the document so far, and whether
    it threw. *)
Fixpoint each_node {A} (f : A -> document -> document * bool) (l : list A) (d : document) : document * bool :=
  match l with
  | [] => (d, false)
  | x :: l' => let '(d', threw) := f x d in if threw then (d', true) else each_node f l' d'
  end.

Definition remove (nodes : list nat) (d : document) : document := foldl (fun d x => unlink x d) d nodes.

(** [traverseNode] with the function that runs scripts. *)
Fixpoint run_scripts (fuel : nat) (x : nat) (d : document) : document :=
  let d := match kinds d !! x with
           | Some (KElement true) => d <| scripts ::= fun l => l ++ [x] |>
           | _ => d
           end in
  match fuel with
  | O => d
  | S n => foldl (fun d c => run_scripts n c d) d (childs d x)
  end.

Inductive operator := After | Prepend | Before | Append.

(** The parent and the node to insert before. *)
Definition place (op : operator) (target : nat) (d : document) : option nat * option nat :=
  match op with
  | After => (parentNode d !! target, nextSibling d target)
  | Prepend => (Some target, firstChild d target)
  | Before => (parentNode d !! target, Some target)
  | Append => (Some target, None)
  end.

Definition insert_one (copyByClone : bool) (parent ref : option nat) (parentInDocument : bool)
    (node : nat) (d : document) : document * bool :=
  let '(node, d) := if copyByClone then cloneNode node d else (node, d) in
  match parent with
  | None => if copyByClone then (d, true) else (unlink node d, false)
  | Some p =>
      match insertBefore p node ref d with
      | Some d' => (if parentInDocument then run_scripts (S (height d')) node d' else d', false)
      | None => (d, true)
      end
  end.

(** The functions [after], [prepend], [before] and [append]. *)
Definition adjacency (op : operator) (targets nodes : list nat) (d : document) : document * bool :=
  match nodes with
  | [] => (d, false)
  | _ =>
      each_node (fun target d =>
        let '(parent, ref) := place op target d in
        let inDocument := match parent with Some p => contains d (documentElement d) p | None => false end in
        each_node (insert_one (1 <? length targets)%nat parent ref inDocument) nodes d) targets d
  end.

(** Sequencing. *)
Definition and_then (r : document * bool) (f : document -> document * bool) : document * bool :=
  let '(d, threw) := r in if threw then (d, true) else f d.

Definition replaceWith (nodes content : list nat) (d : document) : document * bool :=
  and_then (adjacency Before nodes content d) (fun d => (remove nodes d, false)).

(** The inmost element of a structure. *)
Fixpoint inmost (fuel : nat) (d : document) (structure : list nat) : list nat :=
  match fuel, fn_children d structure None with
  | S n, c :: _ => inmost n d [c]
  | _, _ => structure
  end.

Definition wrapAll (nodes structure : list nat) (d : document) : document * bool :=
  match nodes with
  | [] => (d, false)
  | x :: _ =>
      and_then (adjacency Before [x] structure d) (fun d =>
        adjacency Append (inmost (S (height d)) d structure) nodes d)
  end.

Definition wrap (nodes structure : list nat) (d : document) : document * bool :=
  match head structure with
  | None => match nodes with [] => (d, false) | _ => (d, true) end
  | Some s =>
      let copy := bool_decide (is_Some (parentNode d !! s)) || (1 <? length nodes)%nat in
      each_node (fun x d =>
        let '(s, d) := if copy : bool then cloneNode s d else (s, d) in wrapAll [x] [s] d) nodes d
  end.

Definition wrapInner (nodes structure : list nat) (d : document) : document * bool :=
  each_node (fun x d =>
    match childs d x with
    | [] => adjacency Append [x] structure d
    | contents => wrapAll contents structure d
    end) nodes d.

Definition unwrap (nodes : list nat) (d : document) : document * bool :=
  each_node (fun p d => replaceWith [p] (children d p) d) (fn_parent d nodes None) d.

(** [empty]: the children lose their parent. *)
Definition empty (nodes : list nat) (d : document) : document :=
  foldl (fun d x => if is_element d x then foldl (fun d c => unlink c d) d (childs d x) else d) d nodes.

(** ** Well-formed documents *)

(** [y] is the parent of [x]. *)
Definition parent_of (d : document) (y x : nat) : Prop := parentNode d !! x = Some y.

Record wf (d : document) : Prop := Wf {
  wf_links x p : parentNode d !! x = Some p <-> x ∈ childs d p;
  wf_nodup p : NoDup (childs d p);
  wf_known x p : parentNode d !! x = Some p -> is_Some (kinds d !! x) /\ is_Some (kinds d !! p);
  wf_acc x : Acc (parent_of d) x;
  wf_next x : is_Some (kinds d !! x) -> (x < next_node d)%nat;
  wf_root x : kinds d !! x = Some KDocument -> parentNode d !! x = None;
}.

(** [a] is above [x]. *)
Inductive above (d : document) (a : nat) : nat -> Prop :=
| above_parent x : parentNode d !! x = Some a -> above d a x
| above_step x p : parentNode d !! x = Some p -> above d a p -> above d a x.

Lemma above_irrefl d x : Acc (parent_of d) x -> ~ above d x x.
Proof.
  assert (forall a x p, above d a x -> parentNode d !! a = Some p -> above d p x) as Hup.
  { intros a y p Ha. induction Ha as [y Hy|y q Hy Ha IH]; intros Hp; eapply above_step; eauto using above_parent. }
  induction 1 as [x _ IH]. intros Ha. inversion Ha as [y Hy|y q Hy Hq]; subst.
  - by apply (IH x).
  - apply (IH q Hy). by eapply Hup.
Qed.

(** *** The nodes above a node, all of them *)

Fixpoint path (d : document) (x : nat) (l : list nat) : Prop :=
  match l with
  | [] => parentNode d !! x = None
  | p :: l' => parentNode d !! x = Some p /\ path d p l'
  end.

Lemma path_exists d x : Acc (parent_of d) x -> exists l, path d x l.
Proof.
  induction 1 as [x _ IH]. destruct (parentNode d !! x) as [p|] eqn:E; [|by exists []].
  destruct (IH p E) as [l Hl]. by exists (p :: l).
Qed.

Lemma path_above d x l a : path d x l -> a ∈ l <-> above d a x.
Proof.
  revert x. induction l as [|p l IH]; intros x; cbn.
  - intros E. rewrite elem_of_nil. split; [done|]. inversion 1; congruence.
  - intros [E Hl]. rewrite elem_of_cons, (IH p Hl). split.
    + intros [->|Ha]; [by constructor|by eapply above_step].
    + inversion 1 as [y Hy|y q Hy Hq]; subst; rewrite E in Hy; injection Hy as <-; auto.
Qed.

Lemma path_nodup d x l : wf d -> path d x l -> NoDup (x :: l).
Proof.
  intros Hw. revert x. induction l as [|p l IH]; intros x Hl; [apply NoDup_singleton|].
  apply NoDup_cons. split; [|by apply IH; destruct Hl].
  rewrite (path_above d x (p :: l)) by done. apply above_irrefl, Hw.
Qed.

Lemma path_height d x l : wf d -> path d x l -> (length l <= height d)%nat.
Proof.
  intros Hw Hl. pose proof (path_nodup d x l Hw Hl) as Hn. unfold height. rewrite <- size_dom.
  assert (forall l x, path d x l -> forall y, y ∈ removelast (x :: l) -> y ∈ dom (parentNode d)) as Hd.
  { clear. induction l as [|p l IH]; intros x Hl y; [by intros ?%elem_of_nil|]. destruct Hl as [E Hl].
    change (removelast (x :: p :: l)) with (x :: removelast (p :: l)).
    intros [->|Hy]%elem_of_cons; [by eapply elem_of_dom_2|by eapply IH]. }
  replace (length l) with (length (removelast (x :: l))).
  2: { rewrite removelast_firstn_len, length_take. cbn. lia. }
  assert (NoDup (removelast (x :: l))) as Hnr.
  { rewrite removelast_firstn_len. by apply (sublist_NoDup _ _ Hn), sublist_take. }
  rewrite <- (size_list_to_set (C := gset nat) _ Hnr). apply subseteq_size. intros y Hy%elem_of_list_to_set.
  by eapply Hd.
Qed.

Lemma up_path d x l fuel : path d x l -> (length l <= fuel)%nat -> up fuel d x = l.
Proof.
  revert x fuel. induction l as [|p l IH]; intros x fuel.
  - intros E _. destruct fuel; [done|]. cbn. cbn in E. by rewrite E.
  - intros [E Hl] Hf. cbn in Hf. destruct fuel as [|fuel]; [lia|]. cbn. rewrite E. f_equal. apply IH; [done|lia].
Qed.

Lemma ancestors_path d x : wf d -> path d x (ancestors d x).
Proof.
  intros Hw. destruct (path_exists d x) as [l Hl]; [apply Hw|]. unfold ancestors.
  by rewrite (up_path d x l) by (done || by eapply path_height).
Qed.

Lemma ancestors_above d x a : wf d -> a ∈ ancestors d x <-> above d a x.
Proof. intros Hw. by apply path_above, ancestors_path. Qed.

(** *** Removing a node from its parent *)

Lemma elem_of_others x y l : y ∈ others x l <-> y ∈ l /\ y <> x.
Proof. unfold others. rewrite bfilter_elem, negb_true_iff, bool_decide_eq_false. done. Qed.

Lemma others_id x l : x ∉ l -> others x l = l.
Proof. intros Hx. apply bfilter_all. intros y Hy. rewrite bool_decide_eq_false_2 by congruence. done. Qed.

Lemma others_nodup x l : NoDup l -> NoDup (others x l).
Proof. apply bfilter_nodup. Qed.

Lemma unlink_parent x d : parentNode (unlink x d) = delete x (parentNode d).
Proof. unfold unlink. destruct (parentNode d !! x) eqn:E; [done|]. by rewrite delete_id. Qed.

Lemma unlink_childs x d q : wf d -> childs (unlink x d) q = others x (childs d q).
Proof.
  intros Hw. assert (parentNode d !! x <> Some q -> others x (childs d q) = childs d q) as Hid.
  { intros Hq. apply others_id. by rewrite <- (wf_links d Hw). }
  unfold unlink. destruct (parentNode d !! x) as [p|] eqn:E; [|by rewrite Hid].
  destruct (decide (q = p)) as [->|Hq]; [|rewrite Hid by congruence]; unfold childs at 1; cbn.
  - by rewrite lookup_insert_eq.
  - by rewrite lookup_insert_ne.
Qed.

Lemma unlink_rest x d :
  kinds (unlink x d) = kinds d /\ next_node (unlink x d) = next_node d
  /\ documentElement (unlink x d) = documentElement d.
Proof. unfold unlink. by destruct (parentNode d !! x). Qed.

Lemma Acc_mono {A} (R S : A -> A -> Prop) x : (forall y z, S y z -> R y z) -> Acc R x -> Acc S x.
Proof. intros Hs. induction 1 as [x _ IH]. constructor. auto. Qed.

Lemma unlink_wf x d : wf d -> wf (unlink x d).
Proof.
  intros Hw. destruct (unlink_rest x d) as (Ek & En & _).
  assert (forall y p, parentNode (unlink x d) !! y = Some p <-> y <> x /\ parentNode d !! y = Some p) as Hp.
  { intros y p. rewrite unlink_parent, lookup_delete_Some. naive_solver. }
  split.
  - intros y p. rewrite Hp, unlink_childs, elem_of_others, <- (wf_links d Hw) by done. tauto.
  - intros p. rewrite unlink_childs by done. by apply others_nodup, Hw.
  - intros y p [_ Hy]%Hp. rewrite Ek. by apply Hw.
  - intros y. eapply Acc_mono; [|by apply (wf_acc d Hw)]. by intros a b [_ Hab]%Hp.
  - intros y. rewrite Ek, En. apply Hw.
  - intros y. rewrite Ek, unlink_parent, lookup_delete_None. right. by apply Hw.
Qed.

(** *** Giving a node a parent *)

Lemma insert_at_perm ref x l : insert_at ref x l ≡ₚ x :: l.
Proof.
  induction l as [|y l IH]; cbn; [done|]. case_decide; [done|]. by rewrite IH, Permutation_swap.
Qed.

Lemma link_childs p x ref d q :
  childs (link p x ref d) q = if decide (q = p) then insert_at ref x (childs d p) else childs d q.
Proof.
  unfold childs at 1. cbn. case_decide as E; [subst; by rewrite lookup_insert_eq|by rewrite lookup_insert_ne].
Qed.

(** Above a node that [x] is not above, nothing changes when [x] gets a
    parent. *)
Lemma above_frame d d' x y a :
  (forall z, z <> x -> parentNode d' !! z = parentNode d !! z) -> y <> x -> ~ above d x y ->
  above d' a y <-> above d a y.
Proof.
  intros Hf. assert (forall d d', (forall z, z <> x -> parentNode d' !! z = parentNode d !! z) ->
    forall y, above d' a y -> y <> x -> ~ above d x y -> above d a y) as Hg.
  { clear. intros d d' Hf y. induction 1 as [y Hy|y p Hy Ha IH]; intros Hne Hx; rewrite Hf in Hy by done.
    - by constructor.
    - eapply above_step; [done|]. apply IH; [intros ->; apply Hx; by constructor|].
      intros Hp. apply Hx. by eapply above_step. }
  intros Hne Hx. split; intros Ha; [by eapply Hg|]. eapply Hg; [| |done|]; [intros z Hz; symmetry; by apply Hf|done|].
  intros Hx'. apply Hx. revert Hx' Hx. clear Ha. intros Hx'. induction Hx' as [y Hy|y p Hy Ha IH]; intros Hx.
  - rewrite Hf in Hy by done. by constructor.
  - rewrite Hf in Hy by done. destruct (decide (p = x)) as [->|Hp]; [by constructor|].
    eapply above_step; [done|]. apply IH; [done|]. intros Hpx. apply Hx. by eapply above_step.
Qed.

Lemma link_wf p x ref d :
  wf d -> parentNode d !! x = None -> p <> x -> ~ above d x p ->
  is_Some (kinds d !! p) -> is_Some (kinds d !! x) -> kinds d !! x <> Some KDocument -> wf (link p x ref d).
Proof.
  intros Hw Hx Hpx Hab Hkp Hkx Hdoc.
  assert (forall y q, parentNode (link p x ref d) !! y = Some q
    <-> (y = x /\ q = p) \/ (y <> x /\ parentNode d !! y = Some q)) as Hp.
  { intros y q. cbn. rewrite lookup_insert_Some. naive_solver. }
  assert (forall q, x ∉ childs d q) as Hnx by (intros q; rewrite <- (wf_links d Hw); congruence).
  split.
  - intros y q. rewrite Hp, link_childs. destruct (decide (q = p)) as [->|Hq].
    + rewrite insert_at_perm, elem_of_cons, <- (wf_links d Hw).
      destruct (decide (y = x)) as [->|]; [|naive_solver]. naive_solver congruence.
    + rewrite <- (wf_links d Hw). destruct (decide (y = x)) as [->|]; naive_solver congruence.
  - intros q. rewrite link_childs. case_decide; [|apply Hw]. rewrite insert_at_perm. apply NoDup_cons.
    split; [apply Hnx|apply Hw].
  - intros y q [[-> ->]|[_ Hy]]%Hp; [done|by apply Hw].
  - assert (forall y, y <> x -> ~ above d x y -> Acc (parent_of (link p x ref d)) y) as Hout.
    { intros y. induction (wf_acc d Hw y) as [y _ IH]. intros Hne Hax. constructor. intros z Hz.
      apply Hp in Hz as [[-> _]|[_ Hz]]; [done|]. apply IH; [done|intros ->; apply Hax; by constructor|].
      intros Hxz. apply Hax. by eapply above_step. }
    assert (Acc (parent_of (link p x ref d)) x) as Hacc.
    { constructor. intros z Hz. apply Hp in Hz as [[_ ->]|[? _]]; [by apply Hout|done]. }
    intros y. induction (wf_acc d Hw y) as [y _ IH]. constructor. intros z Hz.
    apply Hp in Hz as [[_ ->]|[_ Hz]]; [by apply Hout|by apply IH].
  - intros y. cbn. apply Hw.
  - intros y. cbn. intros Hy. rewrite lookup_insert_ne by congruence. by apply Hw.
Qed.

(** *** Every operation *)

Lemma holds_known d p x :
  holds d p x = true ->
  is_Some (kinds d !! p) /\ is_Some (kinds d !! x) /\ kinds d !! x <> Some KDocument.
Proof. unfold holds. destruct (kinds d !! p) as [[]|], (kinds d !! x) as [[]|]; try done; eauto. Qed.

Lemma insertable_spec d p x ref :
  wf d -> insertable d p x ref = true <->
  holds d p x = true /\ x <> p /\ ~ above d x p /\ (forall r, ref = Some r -> parentNode d !! r = Some p).
Proof.
  intros Hw. unfold insertable. rewrite !andb_true_iff, negb_true_iff, bool_decide_eq_false, ancestors_above by done.
  destruct ref as [r|].
  - rewrite bool_decide_eq_true. naive_solver.
  - naive_solver.
Qed.

Lemma above_unlink d x a y : above (unlink x d) a y -> above d a y.
Proof.
  induction 1 as [y Hy|y p Hy Ha IH]; rewrite unlink_parent in Hy; apply lookup_delete_Some in Hy as [_ Hy];
    [by constructor|by eapply above_step].
Qed.

Lemma insertBefore_wf p x ref d d' : wf d -> insertBefore p x ref d = Some d' -> wf d'.
Proof.
  intros Hw. unfold insertBefore. destruct (insertable d p x ref) eqn:E; [|done]. intros [= <-].
  apply insertable_spec in E as (Hh & Hne & Ha & _); [|done]. apply holds_known in Hh as (Hkp & Hkx & Hd).
  destruct (unlink_rest x d) as (Ek & _ & _).
  apply link_wf; [by apply unlink_wf|by rewrite unlink_parent, lookup_delete_eq|congruence| |by rewrite Ek..].
  by intros ?%above_unlink.
Qed.

Lemma create_wf k d : wf d -> wf (snd (create k d)).
Proof.
  intros Hw. split; cbn; [apply Hw|apply Hw| |apply Hw| |].
  - intros x p Hx. destruct (wf_known d Hw x p Hx) as [Hkx Hkp].
    assert (forall y, is_Some (kinds d !! y) -> is_Some (<[next_node d := k]> (kinds d) !! y)) as Hk.
    { intros y Hy. apply lookup_insert_is_Some'. by right. }
    auto.
  - intros x [kx [[<- _]|[_ Hx]]%lookup_insert_Some]; [lia|].
    assert (x < next_node d)%nat by (apply Hw; by exists kx). lia.
  - intros x [[<- _]|[_ Hx]]%lookup_insert_Some; [|by apply Hw].
    destruct (parentNode d !! next_node d) as [p|] eqn:E; [|done].
    apply (wf_known d Hw) in E as [E _]. apply (wf_next d Hw) in E. lia.
Qed.

Lemma clone_wf fuel x d : wf d -> wf (snd (clone fuel x d)).
Proof.
  revert x d. induction fuel as [|n IH]; intros x d Hw; cbn [clone];
    pose proof (create_wf (default KText (kinds d !! x)) d Hw) as Hc;
    destruct (create _ d) as [y d1]; cbn [snd] in *; [done|].
  clear Hw. revert d1 Hc. induction (childs d x) as [|c l IHl]; intros d1 Hc; cbn [foldl]; [done|].
  apply IHl. pose proof (IH c d1 Hc) as Hc'. destruct (clone n c d1) as [c' d2]. cbn [snd] in Hc'.
  destruct (insertBefore y c' None d2) eqn:E; cbn; [by eapply insertBefore_wf|done].
Qed.

Lemma foldl_wf {A} (f : document -> A -> document) l d :
  (forall d x, wf d -> wf (f d x)) -> wf d -> wf (foldl f d l).
Proof. intros Hf. revert d. induction l as [|x l IH]; intros d Hw; cbn; [done|]. by apply IH, Hf. Qed.

Lemma run_scripts_same fuel x d :
  kinds (run_scripts fuel x d) = kinds d /\ parentNode (run_scripts fuel x d) = parentNode d
  /\ childNodes (run_scripts fuel x d) = childNodes d /\ next_node (run_scripts fuel x d) = next_node d
  /\ documentElement (run_scripts fuel x d) = documentElement d.
Proof.
  revert x d. induction fuel as [|n IH]; intros x d; cbn [run_scripts]; [by repeat case_match|].
  set (d1 := match kinds d !! x with Some (KElement true) => _ | _ => d end).
  assert (kinds d1 = kinds d /\ parentNode d1 = parentNode d /\ childNodes d1 = childNodes d
    /\ next_node d1 = next_node d /\ documentElement d1 = documentElement d) as H1 by (unfold d1; by repeat case_match).
  clearbody d1. generalize (childs d1 x). intros l. revert d1 H1.
  induction l as [|c l IHl]; intros d1 H1; cbn [foldl]; [done|].
  apply IHl. destruct (IH c d1) as (E1 & E2 & E3 & E4 & E5). naive_solver congruence.
Qed.

Lemma same_wf d d' :
  kinds d' = kinds d -> parentNode d' = parentNode d -> childNodes d' = childNodes d -> next_node d' = next_node d ->
  wf d -> wf d'.
Proof.
  destruct d, d'. cbn. intros -> -> -> -> Hw. split; [apply (wf_links _ Hw)|apply (wf_nodup _ Hw)
    |apply (wf_known _ Hw)|apply (wf_acc _ Hw)|apply (wf_next _ Hw)|apply (wf_root _ Hw)].
Qed.

Lemma run_scripts_wf fuel x d : wf d -> wf (run_scripts fuel x d).
Proof. destruct (run_scripts_same fuel x d) as (E1 & E2 & E3 & E4 & _). by apply same_wf. Qed.

Create HintDb tree.
#[export] Hint Resolve unlink_wf create_wf clone_wf run_scripts_wf insertBefore_wf : tree.

Lemma each_node_wf {A} (f : A -> document -> document * bool) l d :
  (forall x d, wf d -> wf (fst (f x d))) -> wf d -> wf (fst (each_node f l d)).
Proof.
  intros Hf. revert d. induction l as [|x l IH]; intros d Hw; cbn [each_node]; [done|].
  pose proof (Hf x d Hw) as Hx. destruct (f x d) as [d' []]; [done|]. by apply IH.
Qed.

Lemma each_node_one {A} (f : A -> document -> document * bool) x d : each_node f [x] d = f x d.
Proof. cbn. by destruct (f x d) as [? []]. Qed.

Lemma insert_one_wf copy parent ref run x d : wf d -> wf (fst (insert_one copy parent ref run x d)).
Proof.
  intros Hw. unfold insert_one.
  assert (wf (snd (if copy then cloneNode x d else (x, d)))) as Hc by (destruct copy; [by apply clone_wf|done]).
  destruct (if copy then cloneNode x d else (x, d)) as [x' d1]. cbn [snd] in Hc.
  destruct parent as [p|]; [|destruct copy; cbn; auto with tree].
  destruct (insertBefore p x' ref d1) as [d2|] eqn:E; [|done].
  destruct run; cbn [fst]; eauto with tree.
Qed.

Lemma adjacency_wf op targets nodes d : wf d -> wf (fst (adjacency op targets nodes d)).
Proof.
  intros Hw. unfold adjacency. destruct nodes as [|n nodes]; [done|]. apply each_node_wf; [|done].
  intros t d1 H1. destruct (place op t d1) as [parent ref]. apply each_node_wf; [|done].
  intros x d2 H2. by apply insert_one_wf.
Qed.

Lemma remove_wf nodes d : wf d -> wf (remove nodes d).
Proof. intros Hw. apply foldl_wf; auto with tree. Qed.

Lemma and_then_wf r f : wf (fst r) -> (forall d, wf d -> wf (fst (f d))) -> wf (fst (and_then r f)).
Proof. destruct r as [d []]; cbn; auto. Qed.

Lemma replaceWith_wf nodes content d : wf d -> wf (fst (replaceWith nodes content d)).
Proof. intros Hw. apply and_then_wf; [by apply adjacency_wf|]. intros d1 H1. by apply remove_wf. Qed.

Lemma wrapAll_wf nodes structure d : wf d -> wf (fst (wrapAll nodes structure d)).
Proof.
  intros Hw. unfold wrapAll. destruct nodes; [done|]. apply and_then_wf; [by apply adjacency_wf|].
  intros d1 H1. by apply adjacency_wf.
Qed.

Lemma wrap_wf nodes structure d : wf d -> wf (fst (wrap nodes structure d)).
Proof.
  intros Hw. unfold wrap. destruct (head structure) as [s|]; [|by destruct nodes].
  apply each_node_wf; [|done]. intros x d1 H1. set (copy := (_ || _)).
  assert (wf (snd (if copy then cloneNode s d1 else (s, d1)))) as Hc by (destruct copy; [by apply clone_wf|done]).
  destruct (if copy then cloneNode s d1 else (s, d1)) as [s' d2]. by apply wrapAll_wf.
Qed.

Lemma wrapInner_wf nodes structure d : wf d -> wf (fst (wrapInner nodes structure d)).
Proof.
  intros Hw. apply each_node_wf; [|done]. intros x d1 H1.
  destruct (childs d1 x); [by apply adjacency_wf|by apply wrapAll_wf].
Qed.

Lemma unwrap_wf nodes d : wf d -> wf (fst (unwrap nodes d)).
Proof. intros Hw. apply each_node_wf; [|done]. intros p d1 H1. by apply replaceWith_wf. Qed.

Lemma empty_wf nodes d : wf d -> wf (empty nodes d).
Proof.
  intros Hw. apply foldl_wf; [|done]. intros d1 x H1. destruct (is_element d1 x); [|done].
  apply foldl_wf; auto with tree.
Qed.

(** ** Theorems *)

(** What a page does to the document: nodes are made, and the functions of
    Zepto are called with any nodes. *)
Inductive tree_op :=
| OCreate (k : kind)
| OAdjacency (op : operator) (targets nodes : list nat)
| ORemove (nodes : list nat)
| OEmpty (nodes : list nat)
| OReplaceWith (nodes content : list nat)
| OWrapAll (nodes structure : list nat)
| OWrap (nodes structure : list nat)
| OWrapInner (nodes structure : list nat)
| OUnwrap (nodes : list nat).

(** The document afterwards, also when the call threw. *)
Definition tree_step (d : document) (op : tree_op) : document :=
  match op with
  | OCreate k => snd (create k d)
  | OAdjacency op targets nodes => fst (adjacency op targets nodes d)
  | ORemove nodes => remove nodes d
  | OEmpty nodes => empty nodes d
  | OReplaceWith nodes content => fst (replaceWith nodes content d)
  | OWrapAll nodes structure => fst (wrapAll nodes structure d)
  | OWrap nodes structure => fst (wrap nodes structure d)
  | OWrapInner nodes structure => fst (wrapInner nodes structure d)
  | OUnwrap nodes => fst (unwrap nodes d)
  end.

Lemma tree_step_wf d op : wf d -> wf (tree_step d op).
Proof.
  intros H1. destruct op; cbn [tree_step];
    auto using create_wf, adjacency_wf, remove_wf, empty_wf, replaceWith_wf, wrapAll_wf, wrap_wf, wrapInner_wf, unwrap_wf.
Qed.

(** Whatever functions of Zepto are called, with whatever nodes, and
    whether or not they throw half way, the document stays a forest: a node is
    among the children of a node exactly when that is its parent, once, and no
    node is above itself. *)
Theorem document_wf ops d :
  wf d ->
  let d' := foldl tree_step d ops in
  (forall x p, parentNode d' !! x = Some p <-> x ∈ childs d' p) /\ (forall p, NoDup (childs d' p))
  /\ (forall x, ~ above d' x x).
Proof.
  intros Hw d'. assert (wf d') as Hw'; [|split_and!; [apply Hw'|apply Hw'|intros x; apply above_irrefl, Hw']].
  apply foldl_wf; [apply tree_step_wf|done].
Qed.

(** The loop of [$.contains] ends, and answers whether the first node is
    above the second. *)
Theorem contains_equiv d a x : wf d -> contains d a x = true <-> above d a x.
Proof.
  intros Hw. rewrite <- ancestors_above by done. unfold contains, ancestors.
  generalize (height d). intros fuel. revert x. induction fuel as [|n IH]; intros x; cbn; [by rewrite elem_of_nil|].
  destruct (parentNode d !! x) as [p|]; [|by rewrite elem_of_nil]. rewrite elem_of_cons.
  case_decide; [naive_solver|]. rewrite IH. naive_solver congruence.
Qed.

(** The nodes [closest] looks at. *)
Fixpoint upto (stop : nat -> bool) (l : list nat) : list nat :=
  match l with
  | [] => []
  | x :: l' => if stop x then [x] else x :: upto stop l'
  end.

(** [closest] is the first match among the node and the nodes above it, in
    this order, up to the context and the document; its loop ends. *)
Theorem closest_equiv d matches context x :
  wf d ->
  closest d matches context [x]
  = List.find matches (upto (fun y => bool_decide (Some y = context) || isDocument d y) (x :: ancestors d x)).
Proof.
  intros Hw. set (stop := fun y => _).
  assert (forall l y fuel, path d y l -> (length l <= fuel)%nat ->
    closest_loop fuel d matches context y = List.find matches (upto stop (y :: l))) as Hl.
  { induction l as [|p l IH]; intros y fuel Hp Hf; cbn in Hp.
    - destruct fuel; cbn [closest_loop upto List.find]; destruct (matches y) eqn:E; rewrite ?E.
      all: fold (stop y); destruct (stop y); cbn [List.find]; rewrite ?E, ?Hp; done.
    - destruct Hp as [E Hp]. cbn in Hf. destruct fuel as [|fuel]; [lia|]. cbn [closest_loop upto].
      fold (stop y). destruct (stop y); cbn [List.find]; destruct (matches y); try done.
      rewrite E. cbn. apply IH; [done|lia]. }
  pose proof (ancestors_path d x Hw) as Hx. apply Hl; [done|]. by eapply path_height.
Qed.

(** *** [parents] *)

(** The parent [parents] goes on to. *)
Definition step_up (d : document) (x p : nat) : Prop := parentNode d !! x = Some p /\ isDocument d p = false.

Lemma parents_turn_spec d nodes found next found' :
  parents_turn d nodes found = (next, found') -> NoDup found ->
  found' = found ++ next /\ NoDup found'
  /\ (forall p, p ∈ next -> exists x, x ∈ nodes /\ step_up d x p)
  /\ (forall x p, x ∈ nodes -> step_up d x p -> p ∈ found').
Proof.
  revert found next found'. induction nodes as [|x nodes IH]; intros found next found'; cbn.
  - intros [= <- <-] Hn. rewrite app_nil_r. split_and!; [done|done|by intros p ?%elem_of_nil|by intros y p ?%elem_of_nil].
  - assert (forall f' : list nat, (forall y p, y ∈ nodes -> step_up d y p -> p ∈ f') ->
      (forall p, step_up d x p -> p ∈ f') -> forall y p, y ∈ x :: nodes -> step_up d y p -> p ∈ f') as Hall.
    { intros f' H1 H2 y p [->|Hy]%elem_of_cons; eauto. }
    destruct (parentNode d !! x) as [q|] eqn:E.
    2: { intros Ht Hn. destruct (IH _ _ _ Ht Hn) as (E1 & E2 & E3 & E4).
         split_and!; [done|done|set_solver|]. apply Hall; [done|]. intros p [Hp _]. congruence. }
    destruct (isDocument d q || bool_decide (q ∈ found)) eqn:Eq.
    + intros Ht Hn. destruct (IH _ _ _ Ht Hn) as (E1 & E2 & E3 & E4).
      split_and!; [done|done|set_solver|]. apply Hall; [done|]. intros p [Hp Hd]. rewrite E in Hp. injection Hp as ->.
      rewrite Hd in Eq. apply bool_decide_eq_true in Eq. rewrite E1. set_solver.
    + apply orb_false_iff in Eq as [Hd Hq%bool_decide_eq_false].
      destruct (parents_turn d nodes (found ++ [q])) as [next1 found1] eqn:Ht. intros [= <- <-] Hn.
      assert (NoDup (found ++ [q])) as Hn' by (apply NoDup_app; split_and!; [done|set_solver|apply NoDup_singleton]).
      destruct (IH _ _ _ Ht Hn') as (E1 & E2 & E3 & E4). split_and!.
      * by rewrite E1, <- app_assoc.
      * done.
      * intros p [->|Hp]%elem_of_cons; [exists x; split; [set_solver|done]|set_solver].
      * apply Hall; [done|]. intros p [Hp _]. rewrite E in Hp. injection Hp as ->. rewrite E1. set_solver.
Qed.

Lemma ancestors_parent d x p : wf d -> parentNode d !! x = Some p -> ancestors d x = p :: ancestors d p.
Proof.
  intros Hw E. pose proof (ancestors_path d x Hw) as Hx. destruct (ancestors d x) as [|q l]; cbn in Hx; [congruence|].
  destruct Hx as [E' Hl]. rewrite E in E'. injection E' as <-. f_equal. symmetry.
  apply up_path; [done|]. by eapply path_height.
Qed.

(** The loop: [found] has the parents of all nodes but those in [nodes]. *)
Lemma parents_loop_spec d (start : list nat) fuel nodes found :
  wf d -> NoDup found ->
  (forall y, y ∈ nodes -> (length (ancestors d y) < fuel)%nat) ->
  (forall y, y ∈ nodes -> y ∈ start \/ y ∈ found) ->
  (forall p, p ∈ found -> isDocument d p = false /\ exists x, x ∈ start /\ above d p x) ->
  (forall y p, y ∈ start \/ y ∈ found -> step_up d y p -> p ∈ found \/ y ∈ nodes) ->
  let r := parents_loop fuel d nodes found in
  NoDup r /\ (forall p, p ∈ r -> isDocument d p = false /\ exists x, x ∈ start /\ above d p x)
  /\ (forall y p, y ∈ start \/ y ∈ r -> step_up d y p -> p ∈ r).
Proof.
  intros Hw. revert nodes found. induction fuel as [|fuel IH]; intros nodes found Hn Hf Hs Hfound Hc.
  { destruct nodes as [|y nodes]; [|specialize (Hf y); set_solver by lia]. cbn. split_and!; [done|done|set_solver]. }
  destruct nodes as [|y0 nodes0]; [cbn; split_and!; [done|done|set_solver]|].
  set (nodes := y0 :: nodes0) in *. cbn [parents_loop]. fold nodes. change (match nodes with [] => _ | _ => _ end)
    with (let '(next, found') := parents_turn d nodes found in parents_loop fuel d next found').
  destruct (parents_turn d nodes found) as [next found'] eqn:Ht.
  destruct (parents_turn_spec _ _ _ _ _ Ht Hn) as (E1 & E2 & E3 & E4).
  apply IH; [done| | | |].
  - intros p (x & Hx & Hp & _)%E3. specialize (Hf x Hx). rewrite (ancestors_parent d x p Hw Hp) in Hf. cbn in Hf. lia.
  - intros p Hp. right. rewrite E1. set_solver.
  - intros p. rewrite E1, elem_of_app. intros [Hp|(x & Hx & Hp & Hd)%E3]; [by apply Hfound|]. split; [done|].
    destruct (Hs x Hx) as [Hxs|(_ & z & Hz & Ha)%Hfound]; [exists x; split; [done|by constructor]|].
    exists z. split; [done|]. clear -Ha Hp. induction Ha as [z E|z q E Ha IH]; eapply above_step; eauto using above_parent.
  - intros y p Hy Hp. rewrite E1 in Hy. rewrite elem_of_app in Hy.
    destruct (decide (y ∈ next)) as [Hin|Hin]; [by right|]. left.
    destruct (Hc y p) as [Hpf|Hyn]; [tauto|done|rewrite E1; set_solver|by apply (E4 y)].
Qed.

(** [parents] ends, and finds every node above one of the given nodes, the
    document excepted, exactly once. *)
Theorem parents_spec d nodes :
  wf d ->
  NoDup (parents d nodes None)
  /\ forall p, p ∈ parents d nodes None <-> isDocument d p = false /\ exists x, x ∈ nodes /\ above d p x.
Proof.
  intros Hw. unfold parents, filtered.
  destruct (parents_loop_spec d nodes (S (height d)) nodes [] Hw) as (H1 & H2 & H3);
    [constructor| |tauto|by intros p ?%elem_of_nil|set_solver|].
  { intros y _. pose proof (ancestors_path d y Hw) as Hy. apply path_height in Hy; [lia|done]. }
  split; [done|]. intros p. split; [apply H2|]. intros (Hd & x & Hx & Ha).
  assert (x ∈ nodes \/ x ∈ parents_loop (S (height d)) d nodes []) as Hx' by by left. clear Hx.
  revert Hx'. set (r := parents_loop _ d nodes []) in *. clearbody r.
  induction Ha as [x E|x q E Ha IH]; intros Hx; [by apply (H3 x)|]. apply IH. right. apply (H3 x); [done|].
  split; [done|]. unfold isDocument. destruct (kinds d !! q) as [[]|] eqn:Ek; try done.
  apply (wf_root d Hw) in Ek. inversion Ha; congruence.
Qed.

(** *** Where inserted nodes go *)

(** The rest of a list without the given nodes. *)
Definition without (ns l : list nat) : list nat := List.filter (fun y => negb (bool_decide (y ∈ ns))) l.

Lemma without_cons n ns l : without (n :: ns) l = without ns (others n l).
Proof.
  unfold without, others. induction l as [|y l IH]; [done|]. cbn [List.filter].
  destruct (decide (y = n)) as [->|Hy].
  - rewrite (bool_decide_eq_true_2 (n ∈ n :: ns)), (bool_decide_eq_true_2 (n = n)) by (done || set_solver). done.
  - rewrite (bool_decide_eq_false_2 (y = n)) by done. cbn [negb List.filter]. rewrite IH.
    by rewrite (bool_decide_ext (y ∈ n :: ns) (y ∈ ns)) by (rewrite elem_of_cons; naive_solver).
Qed.

Lemma without_id ns l : (forall y, y ∈ l -> y ∉ ns) -> without ns l = l.
Proof. intros Hl. apply bfilter_all. intros y Hy. rewrite bool_decide_eq_false_2; [done|by apply Hl]. Qed.

Lemma without_app ns l l' : without ns (l ++ l') = without ns l ++ without ns l'.
Proof. apply List.filter_app. Qed.

Definition ref_list (ref : option nat) : list nat := match ref with Some r => [r] | None => [] end.

Lemma insert_at_split ref x a b :
  (forall r, ref = Some r -> r ∉ a) -> (ref = None -> b = []) ->
  insert_at ref x (a ++ ref_list ref ++ b) = a ++ x :: ref_list ref ++ b.
Proof.
  intros Ha Hb. induction a as [|y a IH]; cbn [app].
  - destruct ref as [r|]; [|by rewrite Hb]. cbn. by rewrite decide_True.
  - cbn [insert_at]. rewrite decide_False by (intros E; symmetry in E; apply (Ha y E); set_solver).
    f_equal. apply IH. intros r Hr. specialize (Ha r Hr). set_solver.
Qed.

(** A node that can go under the element [p]. *)
Definition fits (d : document) (p x : nat) : Prop :=
  holds d p x = true /\ x <> p /\ ~ above d x p.

Lemma insert_step p x ref a b d :
  wf d -> fits d p x -> ref <> Some x -> childs d p = a ++ ref_list ref ++ b -> (ref = None -> b = []) ->
  exists d', insertBefore p x ref d = Some d'
    /\ childs d' p = others x a ++ x :: ref_list ref ++ others x b
    /\ (forall y, parentNode d' !! y = if decide (y = x) then Some p else parentNode d !! y)
    /\ kinds d' = kinds d /\ documentElement d' = documentElement d.
Proof.
  intros Hw (Hh & Hne & Ha) Hr Hc Hb. exists (link p x ref (unlink x d)).
  pose proof (wf_nodup d Hw p) as Hnd. rewrite Hc in Hnd. apply NoDup_app in Hnd as (_ & Hnd & _).
  assert (forall r, ref = Some r -> r ∉ a) as Hra by (intros r -> Hin; apply (Hnd r Hin); cbn; set_solver).
  destruct (unlink_rest x d) as (Ek & _ & Ed). split_and!.
  - unfold insertBefore. rewrite (proj2 (insertable_spec d p x ref Hw)).
    + by rewrite decide_False.
    + split_and!; [done|done|done|]. intros r ->. apply (wf_links d Hw). rewrite Hc. cbn. set_solver.
  - rewrite link_childs, decide_True, unlink_childs, Hc by done.
    assert (others x (a ++ ref_list ref ++ b) = others x a ++ ref_list ref ++ others x b) as ->.
    { unfold others. rewrite !List.filter_app. destruct ref as [r|]; [|done]. cbn.
      by rewrite bool_decide_eq_false_2 by congruence. }
    apply insert_at_split; [|intros ->; by rewrite (Hb eq_refl)]. intros r Hr' Hin.
    apply elem_of_others in Hin as [Hin _]. by apply (Hra r).
  - intros y. cbn. rewrite unlink_parent. case_decide; [subst; by rewrite lookup_insert_eq|].
    by rewrite lookup_insert_ne, lookup_delete_ne.
  - exact Ek.
  - exact Ed.
Qed.

Lemma fits_same d d' p x :
  fits d p x -> kinds d' = kinds d -> is_element d p = true ->
  (forall a, above d' a p <-> above d a p) -> fits d' p x.
Proof.
  intros (Hh & Hne & Ha) Ek Hp Hab. split_and!; [|done|by rewrite Hab].
  unfold holds, is_element in *. rewrite Ek. destruct (kinds d !! p) as [[]|]; try done.
Qed.

Lemma insert_nodes run p ref ns a b d :
  wf d -> is_element d p = true -> NoDup ns -> Forall (fits d p) ns -> (forall r, ref = Some r -> r ∉ ns) ->
  childs d p = a ++ ref_list ref ++ b -> (ref = None -> b = []) ->
  exists d', each_node (insert_one false (Some p) ref run) ns d = (d', false)
    /\ childs d' p = without ns a ++ ns ++ ref_list ref ++ without ns b
    /\ (forall y, parentNode d' !! y = if decide (y ∈ ns) then Some p else parentNode d !! y).
Proof.
  revert a b d. induction ns as [|n ns IH]; intros a b d Hw Hp Hnd Hfit Hr Hc Hb.
  { exists d. rewrite !without_id by set_solver. split_and!; [done|done|]. intros y.
    by rewrite decide_False by apply not_elem_of_nil. }
  apply NoDup_cons in Hnd as [Hn Hnd]. apply Forall_cons in Hfit as [Hfn Hfit].
  destruct (insert_step p n ref a b d Hw Hfn) as (d1 & E1 & Hc1 & Hp1 & Ek & _); [set_solver|done|done|].
  assert (wf d1) as Hw1 by by eapply insertBefore_wf.
  set (d2 := if run then run_scripts (S (height d1)) n d1 else d1).
  assert (kinds d2 = kinds d1 /\ parentNode d2 = parentNode d1 /\ childNodes d2 = childNodes d1 /\ wf d2) as (Ek2 & Ep2 & Ec2 & Hw2).
  { unfold d2. destruct run; [|done]. destruct (run_scripts_same (S (height d1)) n d1) as (? & ? & ? & _).
    split_and!; auto with tree. }
  assert (forall x, above d2 x p <-> above d x p) as Hab.
  { intros x. destruct Hfn as (_ & Hne & Ha). apply (above_frame d d2 n); [|done|done].
    intros z Hz. rewrite Ep2, Hp1. by rewrite decide_False. }
  destruct (IH (others n a ++ [n]) (others n b) d2 Hw2) as (d' & E' & Hc' & Hp').
  - unfold is_element in *. by rewrite Ek2, Ek.
  - done.
  - eapply Forall_impl; [exact Hfit|]. intros x Hx. apply (fits_same d d2); [done|congruence|done|exact Hab].
  - set_solver.
  - unfold childs. rewrite Ec2. fold (childs d1 p). rewrite Hc1, <- app_assoc. done.
  - intros E. by rewrite (Hb E).
  - exists d'. split_and!.
    + cbn [each_node insert_one]. rewrite E1. exact E'.
    + rewrite Hc', without_app, (without_id ns [n]) by set_solver. by rewrite !without_cons, <- !app_assoc.
    + intros y. rewrite Hp', Ep2, Hp1. destruct (decide (y ∈ ns)) as [Hy|Hy].
      * by rewrite decide_True by set_solver.
      * destruct (decide (y = n)) as [->|]; [by rewrite decide_True by set_solver|].
        by rewrite (decide_False (P := y ∈ n :: ns)) by set_solver.
Qed.

Lemma after_node_split x a b : x ∉ a -> after_node x (a ++ x :: b) = head b.
Proof.
  induction a as [|y a IH]; cbn; [by rewrite decide_True|]. intros [Hy Ha]%not_elem_of_cons.
  rewrite decide_False by done. by apply IH.
Qed.

(** The children of the parent after an insertion at [target]. *)
Definition placed (op : operator) (target : nat) (ns l l' : list nat) : Prop :=
  match op with
  | Append => l' = without ns l ++ ns
  | Prepend => l' = ns ++ without ns l
  | Before => exists a b, l = a ++ target :: b /\ l' = without ns a ++ ns ++ target :: without ns b
  | After => exists a b, l = a ++ target :: b /\ l' = without ns a ++ target :: ns ++ without ns b
  end.

Lemma head_split (b : list nat) : exists b', b = ref_list (head b) ++ b' /\ (head b = None -> b' = []).
Proof. destruct b as [|r b]; [by exists []|]. exists b. done. Qed.

(** The place of an operation splits the children of the parent. *)
Lemma place_split op target ns d p ref :
  wf d -> place op target d = (Some p, ref) -> target ∉ ns -> (forall r, ref = Some r -> r ∉ ns) ->
  exists a b, childs d p = a ++ ref_list ref ++ b /\ (ref = None -> b = [])
    /\ placed op target ns (childs d p) (without ns a ++ ns ++ ref_list ref ++ without ns b).
Proof.
  intros Hw Hpl Ht Hr.
  assert (without ns (ref_list ref) = ref_list ref) as Href.
  { apply without_id. destruct ref as [r|]; cbn; set_solver. }
  assert (parentNode d !! target = Some p -> exists a b, childs d p = a ++ target :: b /\ target ∉ a) as Hsplit.
  { intros E. apply (wf_links d Hw), list_elem_of_split in E as (a & b & E). exists a, b. split; [done|].
    pose proof (wf_nodup d Hw p) as Hn. rewrite E in Hn. apply NoDup_app in Hn as (_ & Hn & _). set_solver. }
  destruct op; cbn [place] in Hpl; injection Hpl as Ep Er.
  - destruct (Hsplit Ep) as (a & b & E & Ha). unfold nextSibling in Er. rewrite Ep in Er. cbn in Er.
    rewrite E, after_node_split in Er by done. subst ref. destruct (head_split b) as (b' & Eb & Hb).
    exists (a ++ [target]), b'. split_and!; [by rewrite E, <- app_assoc; cbn; congruence|done|].
    exists a, b. split; [done|]. rewrite Eb at 2. rewrite !without_app, Href, (without_id ns [target]) by set_solver.
    by rewrite <- !app_assoc.
  - subst p. destruct (head_split (childs d target)) as (b' & Eb & Hb). unfold firstChild in Er. rewrite Er in Eb, Hb.
    exists [], b'. split_and!; [done|done|]. cbn [placed]. rewrite Eb at 1. by rewrite without_app, Href.
  - destruct (Hsplit Ep) as (a & b & E & Ha). subst ref. exists a, b. split_and!; [done|done|]. by exists a, b.
  - subst ref p. exists (childs d target), []. cbn. rewrite !app_nil_r. split_and!; done.
Qed.

(** C10: in a well-formed document, [append], [prepend], [before] and [after]
    on one target whose new parent is an element, with nodes that are all
    different, that may stand under that parent and among which are neither
    the target nor the node they are put before (the next sibling for [after],
    the first child for [prepend]), put the nodes in the given order at the
    place their name says, move them from wherever they were, and leave the
    other nodes where they are.  ([after_order] shows what happens when the
    node they are put before is one of them.) *)
Theorem adjacency_spec op target ns d p ref :
  wf d -> place op target d = (Some p, ref) -> is_element d p = true ->
  NoDup ns -> Forall (fits d p) ns -> target ∉ ns -> (forall r, ref = Some r -> r ∉ ns) ->
  exists d', adjacency op [target] ns d = (d', false)
    /\ placed op target ns (childs d p) (childs d' p)
    /\ (forall y, parentNode d' !! y = if decide (y ∈ ns) then Some p else parentNode d !! y).
Proof.
  intros Hw Hpl Hp Hn Hf Ht Hr. destruct (place_split op target ns d p ref) as (a & b & Hc & Hb & Hres); [done..|].
  destruct (insert_nodes (contains d (documentElement d) p) p ref ns a b d) as (d' & E & Hc' & Hp'); [done..|].
  exists d'. rewrite Hc'. split_and!; [|done|done]. unfold adjacency. destruct ns as [|n ns].
  - cbn in E. congruence.
  - rewrite each_node_one, Hpl. exact E.
Qed.

(** ** Samples *)

Module Sample.

(** The document with [html] (1), [body] (2), three paragraphs (3 to 5) and a
    text (6) in the second paragraph. *)
Definition blank : document := Document ∅ ∅ ∅ 0 1 [].

Definition make : list tree_op :=
  [OCreate KDocument; OCreate (KElement false); OCreate (KElement false); OCreate (KElement false);
   OCreate (KElement false); OCreate (KElement false); OCreate KText;
   OAdjacency Append [0] [1]; OAdjacency Append [1] [2]; OAdjacency Append [2] [3; 4; 5];
   OAdjacency Append [4] [6]]%nat.

Definition page : document := foldl tree_step blank make.

Lemma blank_wf : wf blank.
Proof.
  split; cbn; try by intros *; rewrite ?lookup_empty.
  - intros x p. rewrite lookup_empty. unfold childs. cbn. by rewrite lookup_empty, elem_of_nil.
  - intros p. unfold childs. cbn. rewrite lookup_empty. constructor.
Qed.

Lemma page_wf : wf page.
Proof. unfold page. apply foldl_wf; [apply tree_step_wf|apply blank_wf]. Qed.

Lemma document_wf_witness :
  let d' := foldl tree_step blank make in
  (forall x p, parentNode d' !! x = Some p <-> x ∈ childs d' p) /\ (forall p, NoDup (childs d' p))
  /\ (forall x, ~ above d' x x).
Proof. exact (document_wf make blank blank_wf). Defined.

Lemma contains_equiv_witness : above page 1 6.
Proof. apply (contains_equiv page 1 6 page_wf). vm_compute. reflexivity. Defined.

Lemma closest_equiv_witness : closest page (fun x => (x <? 3)%nat) None [6%nat] = Some 2%nat.
Proof.
  rewrite (closest_equiv page (fun x => (x <? 3)%nat) None 6 page_wf). vm_compute. reflexivity.
Defined.

Lemma parents_spec_witness : NoDup (parents page [6; 3]%nat None).
Proof. exact (proj1 (parents_spec page [6; 3]%nat page_wf)). Defined.

(** The third paragraph is put after the first. *)
Lemma adjacency_spec_witness :
  exists d', adjacency After [3%nat] [5%nat] page = (d', false)
    /\ placed After 3 [5%nat] (childs page 2) (childs d' 2)
    /\ (forall y, parentNode d' !! y = if decide (y ∈ [5%nat]) then Some 2%nat else parentNode page !! y).
Proof.
  apply (adjacency_spec After 3 [5%nat] page 2 (Some 4%nat)).
  - exact page_wf.
  - vm_compute. reflexivity.
  - vm_compute. reflexivity.
  - apply NoDup_singleton.
  - constructor; [|constructor]. split; [vm_compute; reflexivity|]. split; [discriminate|].
    rewrite <- ancestors_above by exact page_wf. apply (bool_decide_unpack _). vm_compute. exact I.
  - apply (bool_decide_unpack _). vm_compute. exact I.
  - intros r [= <-]. apply (bool_decide_unpack _). vm_compute. exact I.
Defined.

(** When the first of the nodes is already behind the element, [after] puts
    the others before it. *)
Example after_order :
  (fun r => (childs (fst r) 2, snd r)) (adjacency After [3%nat] [4; 5]%nat page) = ([3; 5; 4]%nat, false).
Proof. vm_compute. reflexivity. Qed.

(** [unwrap] on an element beside a text: the text goes with the parent. *)
Example unwrap_text :
  let d := foldl tree_step page [OAdjacency Append [4%nat] [3%nat]; OUnwrap [3%nat]] in
  (childs d 2, parentNode d !! 6%nat) = ([3; 5]%nat, Some 4%nat) /\ parentNode d !! 4%nat = None.
Proof. vm_compute. split; reflexivity. Qed.

(** [siblings] of a node without a parent throws. *)
Example siblings_detached : siblings (remove [3%nat] page) [3%nat] None = Throw.
Proof. vm_compute. reflexivity. Qed.

(** [before] on two elements throws when one has no parent, after it has
    changed the document. *)
Example before_detached :
  (fun r => (childs (fst r) 2, snd r)) (adjacency Before [4; 3]%nat [5%nat] (remove [3%nat] page))
  = ([7; 4; 5]%nat, true).
Proof. vm_compute. reflexivity. Qed.

End Sample.
