(* ===== verification/ZeptoColl.v ===== *)
(** * Collections (zepto.js)

    The functions of a collection of nodes that select some of its members or
    others of the document, the attributes of its members, and [remove] and
    [empty] as the data module redefines them: they drop the data of the
    nodes that go.  A collection is the list of its nodes, which may have a
    node twice; a selector is the predicate it stands for. *)

From stdpp Require Import base gmap list sets strings.
From S2P Require Import Prelude JsString ZeptoCore ZeptoNode ZeptoTree.

(** ** Members *)

(** A relative index of [Array.prototype.slice]. *)
Definition relative (len z : Z) : nat := Z.to_nat (if z <? 0 then Z.max (len + z) 0 else Z.min z len).

Definition slice (start : Z) (stop : option Z) (l : list nat) : list nat :=
  let len := Z.of_nat (length l) in
  let a := relative len start in
  let b := match stop with Some z => relative len z | None => length l end in
  take (b - a) (drop a l).

Definition get (idx : Z) (l : list nat) : option nat :=
  let i := if 0 <=? idx then idx else idx + Z.of_nat (length l) in
  if i <? 0 then None else l !! Z.to_nat i.

Definition fn_eq (idx : Z) (l : list nat) : list nat :=
  if idx =? -1 then slice idx None l else slice idx (Some (idx + 1)) l.

Definition fn_first (l : list nat) : list nat := option_list (head l).
Definition fn_last (l : list nat) : list nat := option_list (last l).

(** [not] with a function, and with nodes. *)
Definition not_fn (f : nat -> nat -> bool) (l : list nat) : list nat :=
  omap (fun '(i, x) => if f i x then None else Some x) (imap pair l).

Definition not_nodes (excludes l : list nat) : list nat :=
  List.filter (fun x => index_of x excludes <? 0) l.

Definition filter_fn (f : nat -> nat -> bool) (l : list nat) : list nat := not_nodes (not_fn f l) l.

Definition filter_sel (matches : nat -> bool) (l : list nat) : list nat := List.filter matches l.

Definition not_sel (matches : nat -> bool) (l : list nat) : list nat := not_nodes (filter_sel matches l) l.

Definition fn_is (matches : nat -> bool) (l : list nat) : bool :=
  match l with x :: _ => matches x | [] => false end.

Definition fn_add (l l' : list nat) : list nat := uniq (l ++ l').

(** ** The document around the members *)

(** The nodes below a node, in the order of the document. *)
Fixpoint below (fuel : nat) (d : document) (x : nat) : list nat :=
  match fuel with
  | O => []
  | S n => childs d x ≫= fun c => c :: below n d c
  end.

Definition descendants (d : document) (x : nat) : list nat := below (height d) d x.

(** What the browser finds below a node. *)
Definition qsa (d : document) (x : nat) (matches : nat -> bool) : list nat :=
  List.filter (fun y => is_element d y && matches y) (descendants d x).

(** [find] with a selector, and with nodes. *)
Definition find (d : document) (matches : nat -> bool) (l : list nat) : list nat :=
  match l with
  | [x] => qsa d x matches
  | _ => l ≫= fun x => qsa d x matches
  end.

Definition find_nodes (d : document) (candidates l : list nat) : list nat :=
  filter_fn (fun _ node => existsb (fun parent => contains d parent node) l) candidates.

(** [has] with a selector, and with a node. *)
Definition has (d : document) (matches : nat -> bool) (l : list nat) : list nat :=
  filter_fn (fun _ x => negb (length (find d matches [x]) =? 0)%nat) l.

Definition has_node (d : document) (node : nat) (l : list nat) : list nat :=
  filter_fn (fun _ x => contains d x node) l.

Definition index (d : document) (element : option nat) (l : list nat) : Z :=
  match element, head l with
  | Some x, _ => index_of x l
  | None, Some x => index_of x (fn_children d (fn_parent d l None) None)
  | None, None => -1
  end.

(** ** Attributes *)

Abbreviation attribute_table := (gmap nat (list (jstr * jstr))).

Definition attributes_of (x : nat) (t : attribute_table) : list (jstr * jstr) := default [] (t !! x).

Fixpoint put_attribute (name value : jstr) (l : list (jstr * jstr)) : list (jstr * jstr) :=
  match l with
  | [] => [(name, value)]
  | (k, v) :: l' => if decide (k = name) then (k, value) :: l' else (k, v) :: put_attribute name value l'
  end.

(** [setAttribute(node, name, value)]: [null] and [undefined] remove it. *)
Definition setAttribute (x : nat) (name : jstr) (value : jsval) (t : attribute_table) : attribute_table :=
  let l := attributes_of x t in
  <[x := if is_nullish value then List.filter (fun p => negb (bool_decide (p.1 = name))) l
         else put_attribute name (to_string value) l]> t.

(** [attr(name)]; [property] is the property of the element of that name. *)
Definition attr_get (d : document) (property : nat -> jstr -> option jsval) (name : jstr) (l : list nat)
    (t : attribute_table) : jsval :=
  match l with
  | [] => VUndef
  | x :: _ =>
      if is_element d x then
        let result := from_option VStr VNull (get_attribute name (attributes_of x t)) in
        if truthy result then result else default result (property x name)
      else VUndef
  end.

(** [attr(name, value)] and [attr(object)]. *)
Definition attr_set (d : document) (name : jstr) (value : jsval) (l : list nat) (t : attribute_table)
    : attribute_table :=
  foldl (fun t x => if is_element d x then setAttribute x name value t else t) t l.

Definition attr_many (d : document) (entries : list (jstr * jsval)) (l : list nat) (t : attribute_table)
    : attribute_table :=
  foldl (fun t x => if is_element d x
                    then foldl (fun t '(k, v) => setAttribute x k v t) t entries else t) t l.

Definition removeAttr (d : document) (names : jstr) (l : list nat) (t : attribute_table) : attribute_table :=
  foldl (fun t x => if is_element d x
                    then foldl (fun t k => setAttribute x k VUndef t) t (split_char 32 names) else t) t l.

(** ** [remove] and [empty] of the data module *)

(** The members and the elements below them, whose data go. *)
Definition going (d : document) (l : list nat) : list nat :=
  fn_add (find d (fun _ => true) l) l.

Definition clear_data (l : list nat) (s : store) : store := foldl (fun s x => removeData x None s) s l.

Definition data_remove (l : list nat) (d : document) (s : store) : document * store :=
  (remove l d, clear_data (going d l) s).

Definition data_empty (l : list nat) (d : document) (s : store) : document * store :=
  (empty l d, clear_data (find d (fun _ => true) l) s).

(** ** Members: lemmas *)

Lemma take_drop_one {A} (l : list A) i : take 1 (drop i l) = option_list (l !! i).
Proof.
  revert i. induction l as [|x l IH]; intros i; [by destruct i|]. destruct i as [|i]; [done|]. apply IH.
Qed.

(** [eq] is the member [get] gives, as a collection, for every index: from the
    end when it is negative, nothing outside. *)
Theorem eq_get idx l : fn_eq idx l = option_list (get idx l).
Proof.
  unfold fn_eq, get, slice, relative. set (n := length l).
  destruct (idx =? -1) eqn:E1.
  - apply Z.eqb_eq in E1 as ->. cbn [Z.leb Z.compare]. change (-1 <? 0) with true.
    destruct n as [|m] eqn:En; [by destruct l|].
    replace (Z.to_nat (Z.max (Z.of_nat (S m) + -1) 0)) with m by lia.
    rewrite (proj2 (Z.ltb_ge _ 0)) by lia. replace (S m - m)%nat with 1%nat by lia.
    replace (Z.to_nat (-1 + Z.of_nat (S m))) with m by lia. apply take_drop_one.
  - apply Z.eqb_neq in E1. destruct (0 <=? idx) eqn:E2.
    + rewrite (proj2 (Z.ltb_ge idx 0)), (proj2 (Z.ltb_ge (idx + 1) 0)) by lia. apply Z.leb_le in E2.
      destruct (Z.lt_ge_cases idx (Z.of_nat n)).
      * replace (Z.to_nat (Z.min (idx + 1) (Z.of_nat n)) - Z.to_nat (Z.min idx (Z.of_nat n)))%nat with 1%nat by lia.
        replace (Z.to_nat (Z.min idx (Z.of_nat n))) with (Z.to_nat idx) by lia. apply take_drop_one.
      * rewrite (lookup_ge_None_2 l) by (unfold n in *; lia).
        by replace (Z.to_nat (Z.min (idx + 1) (Z.of_nat n)) - Z.to_nat (Z.min idx (Z.of_nat n)))%nat with 0%nat by lia.
    + apply Z.leb_gt in E2. rewrite (proj2 (Z.ltb_lt idx 0)), (proj2 (Z.ltb_lt (idx + 1) 0)) by lia.
      destruct (idx + Z.of_nat n <? 0) eqn:E3.
      * apply Z.ltb_lt in E3.
        by replace (Z.to_nat (Z.max (Z.of_nat n + (idx + 1)) 0) - Z.to_nat (Z.max (Z.of_nat n + idx) 0))%nat
          with 0%nat by lia.
      * apply Z.ltb_ge in E3.
        replace (Z.to_nat (Z.max (Z.of_nat n + (idx + 1)) 0) - Z.to_nat (Z.max (Z.of_nat n + idx) 0))%nat
          with 1%nat by lia.
        replace (Z.to_nat (Z.max (Z.of_nat n + idx) 0)) with (Z.to_nat (idx + Z.of_nat n)) by lia.
        apply take_drop_one.
Qed.

(** The members a function of index and member accepts. *)
Definition accepted (f : nat -> nat -> bool) (l : list nat) : list nat :=
  omap (fun '(i, x) => if f i x then Some x else None) (imap pair l).

Lemma not_fn_elem f l y : y ∈ not_fn f l <-> exists i, l !! i = Some y /\ f i y = false.
Proof.
  unfold not_fn. rewrite list_elem_of_omap. split.
  - intros ([i x] & Hin & E). apply list_elem_of_lookup in Hin as [k Hk].
    rewrite list_lookup_imap in Hk. destruct (l !! k) as [z|] eqn:Ez; [|done]. injection Hk as <- <-.
    destruct (f k z) eqn:Ef; [done|]. injection E as <-. eauto.
  - intros (i & Hi & Hf). exists (i, y). split; [|by rewrite Hf]. apply list_elem_of_lookup. exists i.
    by rewrite list_lookup_imap, Hi.
Qed.

Lemma accepted_filter f l (g : nat -> bool) k :
  (forall i y, l !! i = Some y -> g y = f (k + i)%nat y) ->
  omap (fun '(i, x) => if f i x then Some x else None) (imap (fun i x => ((k + i)%nat, x)) l) = List.filter g l.
Proof.
  revert k. induction l as [|x l IH]; intros k Hg; [done|]. cbn. rewrite (Hg 0%nat x eq_refl).
  rewrite (imap_ext _ (fun i x => ((S k + i)%nat, x))) by (intros; cbn; f_equal; lia).
  rewrite (IH (S k)); [by destruct (f (k + 0)%nat x)|]. intros i y Hi. rewrite (Hg (S i) y Hi). f_equal. lia.
Qed.

(** [filter] with a function, computed by excluding twice, keeps the members
    the function accepts, when no node is in the collection twice. *)
Theorem filter_fn_equiv f l : NoDup l -> filter_fn f l = accepted f l.
Proof.
  intros Hn. unfold filter_fn, not_nodes, accepted. symmetry.
  rewrite (imap_ext pair (fun i x => ((0 + i)%nat, x))) by done.
  apply accepted_filter. intros i y Hi. cbn.
  destruct (f i y) eqn:Ef.
  - apply Z.ltb_lt, index_of_neg. rewrite not_fn_elem. intros (j & Hj & Hf).
    assert (j = i) as -> by by eapply NoDup_lookup. congruence.
  - apply Z.ltb_ge. assert (-1 < index_of y (not_fn f l)) by (apply index_of_nonneg, not_fn_elem; eauto). lia.
Qed.

(** ** The nodes below a node *)

(** The node [k] steps above. *)
Fixpoint par (k : nat) (d : document) (y : nat) : option nat :=
  match k with
  | O => Some y
  | S k' => p ← parentNode d !! y; par k' d p
  end.

Lemma par_add a b d y : par (a + b) d y = (c ← par a d y; par b d c).
Proof.
  revert y. induction a as [|a IH]; intros y; [done|]. cbn. destruct (parentNode d !! y) as [p|]; [|done]. apply IH.
Qed.

Lemma par_above k d y a : par (S k) d y = Some a -> above d a y.
Proof.
  revert y. induction k as [|k IH]; intros y; cbn; destruct (parentNode d !! y) as [p|] eqn:E; cbn; try done.
  - intros [= ->]. by constructor.
  - intros Hp. eapply above_step; [done|]. by apply IH.
Qed.

Lemma above_par d y a : above d a y -> exists k, par (S k) d y = Some a.
Proof.
  induction 1 as [y E|y p E Ha [k IH]]; [exists 0%nat|exists (S k)]; cbn; rewrite E; [done|exact IH].
Qed.

Lemma par_path k d y a l : path d y l -> par (S k) d y = Some a -> (k < length l)%nat.
Proof.
  revert y l. induction k as [|k IH]; intros y l Hl Hp; cbn in Hp;
    destruct (parentNode d !! y) as [p|] eqn:E; try done; destruct l as [|q l]; cbn in Hl; try congruence;
    destruct Hl as [E' Hl]; simplify_eq; cbn; [lia|]. specialize (IH _ _ Hl Hp). lia.
Qed.

Lemma par_cycle k d x : wf d -> par (S k) d x <> Some x.
Proof. intros Hw Hp. apply par_above in Hp. revert Hp. apply above_irrefl, Hw. Qed.

Lemma below_elem n d x y :
  wf d -> y ∈ below n d x <-> exists k, (k < n)%nat /\ par (S k) d y = Some x.
Proof.
  intros Hw. revert x. induction n as [|n IH]; intros x; cbn [below].
  { rewrite elem_of_nil. split; [done|]. intros (k & Hk & _). lia. }
  rewrite list_elem_of_bind. split.
  - intros (c & Hy & Hc%(wf_links d Hw)). apply elem_of_cons in Hy as [->|(k & Hk & Hp)%IH].
    + exists 0%nat. split; [lia|]. cbn. by rewrite Hc.
    + exists (S k). split; [lia|]. rewrite <- (Nat.add_1_r (S k)), par_add, Hp. cbn. by rewrite Hc.
  - intros (k & Hk & Hp). rewrite <- (Nat.add_1_r k), par_add in Hp.
    destruct (par k d y) as [c|] eqn:Ec; [|done]. cbn in Hp. destruct (parentNode d !! c) as [p|] eqn:Ep; [|done].
    injection Hp as ->. exists c. split; [|by apply (wf_links d Hw)].
    destruct k as [|k]; [injection Ec as ->; apply list_elem_of_here|]. apply list_elem_of_further, IH. exists k. split; [lia|done].
Qed.

Lemma descendants_elem d x y : wf d -> y ∈ descendants d x <-> above d x y.
Proof.
  intros Hw. unfold descendants. rewrite below_elem by done. split.
  - intros (k & _ & Hp). by eapply par_above.
  - intros (k & Hp)%above_par. exists k. split; [|done]. pose proof (ancestors_path d y Hw) as Hl.
    pose proof (par_path k d y x _ Hl Hp). apply path_height in Hl; [lia|done].
Qed.

(** Children of one node have nothing below them in common. *)
Lemma children_disjoint d x c1 c2 k1 k2 y :
  wf d -> parentNode d !! c1 = Some x -> parentNode d !! c2 = Some x ->
  par k1 d y = Some c1 -> par k2 d y = Some c2 -> c1 = c2.
Proof.
  intros Hw.
  assert (forall c1 c2 k1 k2, (k1 <= k2)%nat -> parentNode d !! c1 = Some x -> parentNode d !! c2 = Some x ->
    par k1 d y = Some c1 -> par k2 d y = Some c2 -> c1 = c2) as Hle.
  { clear c1 c2 k1 k2. intros c1 c2 k1 k2 Hk E1 E2 H1 H2. replace k2 with (k1 + (k2 - k1))%nat in H2 by lia.
    rewrite par_add, H1 in H2. cbn in H2. destruct (k2 - k1)%nat as [|m]; cbn in H2; [congruence|].
    rewrite E1 in H2. cbn in H2. exfalso. apply (par_cycle m d x Hw). rewrite <- (Nat.add_1_r m), par_add, H2. cbn.
    by rewrite E2. }
  intros E1 E2 H1 H2. destruct (Nat.le_ge_cases k1 k2); [by eapply Hle|symmetry; by eapply Hle].
Qed.

Lemma below_par n d c y : wf d -> y ∈ c :: below n d c -> exists k, par k d y = Some c.
Proof. intros Hw [->|(k & _ & Hp)%below_elem]%elem_of_cons; [by exists 0%nat|by exists (S k)|done]. Qed.

Lemma below_nodup n d x : wf d -> NoDup (below n d x).
Proof.
  intros Hw. revert x. induction n as [|n IH]; intros x; cbn [below]; [constructor|]. apply NoDup_bind.
  - intros c1 c2 y H1%(wf_links d Hw) H2%(wf_links d Hw) Hy1 Hy2.
    apply below_par in Hy1 as [k1 Hk1], Hy2 as [k2 Hk2]; [|done..]. by eapply children_disjoint.
  - intros c _. apply NoDup_cons. split; [|done]. rewrite below_elem by done. intros (k & _ & Hp). by eapply par_cycle.
  - apply Hw.
Qed.

(** [find] with a selector on one element finds exactly the matching
    elements below it, each once. *)
Theorem find_spec d matches x :
  wf d ->
  NoDup (find d matches [x])
  /\ forall y, y ∈ find d matches [x] <-> is_element d y = true /\ matches y = true /\ above d x y.
Proof.
  intros Hw. unfold find, qsa. split; [by apply bfilter_nodup, below_nodup|].
  intros y. rewrite bfilter_elem, andb_true_iff, descendants_elem by done. tauto.
Qed.

(** ** Attributes: lemmas *)

Lemma get_put_attribute n name v l :
  get_attribute n (put_attribute name v l) = if decide (n = name) then Some v else get_attribute n l.
Proof.
  induction l as [|[k w] l IH]; cbn; [by repeat case_decide; subst|].
  repeat case_decide; subst; cbn; rewrite ?IH; by repeat case_decide.
Qed.

Lemma get_drop_attribute n name l :
  get_attribute n (List.filter (fun p => negb (bool_decide (p.1 = name))) l)
  = if decide (n = name) then None else get_attribute n l.
Proof.
  induction l as [|[k w] l IH]; cbn; [by case_decide|]. case_bool_decide; cbn; rewrite IH; by repeat case_decide; subst.
Qed.

(** What an attribute becomes. *)
Definition attribute_value (value : jsval) : option jstr :=
  if is_nullish value then None else Some (to_string value).

Lemma setAttribute_get x name value y n t :
  get_attribute n (attributes_of y (setAttribute x name value t))
  = if decide (y = x /\ n = name) then attribute_value value else get_attribute n (attributes_of y t).
Proof.
  unfold setAttribute, attributes_of at 1, attribute_value. destruct (decide (y = x)) as [->|Hy].
  - rewrite lookup_insert_eq. cbn. destruct (is_nullish value); rewrite ?get_drop_attribute, ?get_put_attribute;
      by repeat case_decide; try tauto.
  - rewrite lookup_insert_ne by done. by rewrite decide_False by tauto.
Qed.

(** After [attr(name, value)] each element of the collection has the text
    of the value under the name, or nothing when the value is [null] or
    [undefined]; no other attribute and no other node changes. *)
Theorem attr_set_get d name value l t y n :
  get_attribute n (attributes_of y (attr_set d name value l t))
  = if decide (y ∈ l /\ is_element d y = true /\ n = name) then attribute_value value
    else get_attribute n (attributes_of y t).
Proof.
  unfold attr_set. revert t. induction l as [|x l IH]; intros t; cbn [foldl].
  - by rewrite decide_False by (rewrite elem_of_nil; tauto).
  - rewrite IH. destruct (is_element d x) eqn:Ex; rewrite ?setAttribute_get; repeat case_decide; try done;
      exfalso; rewrite elem_of_cons in *; naive_solver congruence.
Qed.

(** ** The data of removed nodes *)

Section Cleared.
Context `{Parsers}.

(** The store of a node. *)
Definition node_data (y : nat) (s : store) : option (list (jstr * jsval)) := ids s !! y ≫= fun id => data s !! id.

(** [$.each] does not take the store for an array. *)
Definition no_length (y : nat) (s : store) : Prop :=
  forall o n, node_data y s = Some o -> obj_get (js "length") o <> VNum n.

Definition cleared (y : nat) (s : store) : Prop := forall o, node_data y s = Some o -> o = [].

Lemma node_data_removed x y s :
  ZeptoNode.wf s ->
  node_data y (removeData x None s)
  = if decide (y = x)
    then (fun o => List.filter (fun p => negb (bool_decide (p.1 ∈ match each_entries (VObj o) with Ret es => es.*1 | Throw => [] end))) o)
           <$> node_data y s
    else node_data y s.
Proof.
  intros Hw. unfold removeData, node_data. destruct (decide (y = x)) as [->|Hy].
  - destruct (ids s !! x) as [id|] eqn:Ei; cbn; [|by rewrite Ei]. destruct (data s !! id) as [o|] eqn:Ed; cbn.
    + rewrite Ei. cbn. by rewrite lookup_insert_eq.
    + rewrite Ei. cbn. by rewrite Ed.
  - destruct (ids s !! x) as [id|] eqn:Ei; [|done]. destruct (data s !! id) as [o|] eqn:Ed; [|done]. cbn.
    destruct (ids s !! y) as [i|] eqn:Ey; [|done]. cbn. rewrite lookup_insert_ne; [done|]. intros ->.
    by eapply Hy, (ids_inj s Hw).
Qed.

Lemma removed_empties o :
  (forall n, obj_get (js "length") o <> VNum n) ->
  List.filter (fun p => negb (bool_decide (p.1 ∈ match each_entries (VObj o) with Ret es => es.*1 | Throw => [] end))) o
  = [].
Proof.
  intros Hn. assert (each_entries (VObj o) = Ret o) as ->
    by (unfold each_entries; destruct (obj_get (js "length") o) eqn:E; try done; by destruct (Hn z)).
  apply bfilter_none. intros p Hp. rewrite bool_decide_eq_true_2; [done|]. by apply list_elem_of_fmap_2.
Qed.

Lemma clear_data_wf l s : ZeptoNode.wf s -> ZeptoNode.wf (clear_data l s).
Proof. revert s. induction l as [|x l IH]; intros s Hw; cbn; [done|]. by apply IH, removeData_wf. Qed.

Lemma clear_data_other l y s : ZeptoNode.wf s -> y ∉ l -> node_data y (clear_data l s) = node_data y s.
Proof.
  revert s. induction l as [|x l IH]; intros s Hw; [done|]. intros [Hy Hl]%not_elem_of_cons.
  change (clear_data (x :: l) s) with (clear_data l (removeData x None s)).
  rewrite IH by (done || by apply removeData_wf). rewrite node_data_removed by done. by rewrite decide_False.
Qed.

Lemma clear_data_cleared l y s : ZeptoNode.wf s -> cleared y s -> cleared y (clear_data l s).
Proof.
  revert s. induction l as [|x l IH]; intros s Hw Hc; [done|].
  change (clear_data (x :: l) s) with (clear_data l (removeData x None s)). apply IH; [by apply removeData_wf|].
  intros o. rewrite node_data_removed by done. case_decide; [|apply Hc].
  destruct (node_data y s) as [o'|] eqn:E; cbn; [|done]. intros [= <-]. by rewrite (Hc o' E).
Qed.

Lemma clear_data_in l y s : ZeptoNode.wf s -> no_length y s -> y ∈ l -> cleared y (clear_data l s).
Proof.
  revert s. induction l as [|x l IH]; intros s Hw Hn Hy; [by apply elem_of_nil in Hy|].
  change (clear_data (x :: l) s) with (clear_data l (removeData x None s)).
  destruct (decide (y = x)) as [->|Hne].
  - apply clear_data_cleared; [by apply removeData_wf|]. intros o. rewrite node_data_removed, decide_True by done.
    destruct (node_data x s) as [o'|] eqn:E; cbn; [|done]. intros [= <-]. apply removed_empties. intros n. by apply Hn.
  - apply elem_of_cons in Hy as [->|Hy]; [done|]. apply IH; [by apply removeData_wf| |done].
    intros o n. rewrite node_data_removed, decide_False by done. apply Hn.
Qed.

Lemma cleared_getData y s attrs name :
  ZeptoNode.wf s -> cleared y s -> camelize name ∉ proto_names -> getData y attrs name s = dataAttr name attrs.
Proof.
  intros Hw Hc Hp. destruct (ids s !! y) as [id|] eqn:Ei; [|unfold getData; by rewrite Ei].
  destruct (data s !! id) as [o|] eqn:Ed; [|unfold getData; rewrite Ei; cbn; by rewrite Ed].
  assert (o = []) as -> by (apply Hc; unfold node_data; rewrite Ei; exact Ed).
  eapply getData_missing; [done|done|done|apply not_elem_of_nil|done].
Qed.

Lemma going_elem d l y :
  wf d -> y ∈ going d l <-> y ∈ l \/ (is_element d y = true /\ exists x, x ∈ l /\ above d x y).
Proof.
  intros Hw. unfold going, fn_add. rewrite uniq_first_seen, (proj2 (first_seen_spec [] _)), elem_of_app.
  assert (y ∈ find d (fun _ => true) l <-> is_element d y = true /\ exists x, x ∈ l /\ above d x y) as ->.
  { transitivity (y ∈ l ≫= fun x => qsa d x (fun _ => true)).
    - unfold find. destruct l as [|x [|]]; [done| |done]. cbn. by rewrite app_nil_r.
    - rewrite list_elem_of_bind. unfold qsa. setoid_rewrite bfilter_elem. setoid_rewrite descendants_elem; [|done].
      setoid_rewrite andb_true_r. naive_solver. }
  rewrite elem_of_nil. tauto.
Qed.

(** [remove] takes the given nodes out of the document and drops the data
    of these nodes and of the elements below them, so that a name stands for
    the attribute again; the data of the other nodes stay. *)
Theorem remove_drops_data l d s :
  wf d -> reached s ->
  let '(d', s') := data_remove l d s in
  (forall x, x ∈ l -> parentNode d' !! x = None)
  /\ (forall y attrs name, y ∈ l \/ (is_element d y = true /\ exists x, x ∈ l /\ above d x y) ->
        no_length y s -> camelize name ∉ proto_names -> getData y attrs name s' = dataAttr name attrs)
  /\ (forall y attrs name, y ∉ l -> ~ (is_element d y = true /\ exists x, x ∈ l /\ above d x y) ->
        getData y attrs name s' = getData y attrs name s).
Proof.
  intros Hw Hs%reached_wf. unfold data_remove. split_and!.
  - assert (forall l d x, (x ∈ l \/ parentNode d !! x = None) -> parentNode (remove l d) !! x = None) as Hr; [|auto].
    clear. induction l as [|z l IH]; intros d x Hx; cbn; [by destruct Hx as [?%elem_of_nil|]|].
    apply IH. rewrite unlink_parent, lookup_delete_None. rewrite elem_of_cons in Hx. naive_solver.
  - intros y attrs name Hy Hn Hp. apply cleared_getData; [by apply clear_data_wf| |done].
    apply clear_data_in; [done|done|]. by apply going_elem.
  - intros y attrs name Hy Hb. unfold getData. change (ids ?s !! y ≫= _) with (node_data y s).
    rewrite clear_data_other; [done|done|]. rewrite going_elem by done. tauto.
Qed.

End Cleared.

(** ** Samples *)

Module Sample.

Import ZeptoTree.Sample.
#[local] Existing Instance ZeptoNode.Sample.parsers.

Lemma filter_fn_equiv_witness : filter_fn (fun i _ => (i <? 1)%nat) [3; 4]%nat = [3%nat].
Proof.
  rewrite (filter_fn_equiv (fun i _ => (i <? 1)%nat) [3; 4]%nat).
  - reflexivity.
  - apply (bool_decide_unpack _). vm_compute. exact I.
Defined.

Lemma find_spec_witness : NoDup (find page (fun _ => true) [1%nat]).
Proof. exact (proj1 (find_spec page (fun _ => true) 1 page_wf)). Defined.

(** The data of a paragraph go with the body. *)
Definition stored : store := snd (setData 4 [] (Some (js "file", VNum 7)) empty_store).

Lemma remove_drops_data_witness :
  getData 4 [] (js "file") (snd (data_remove [2%nat] page stored)) = VUndef.
Proof.
  assert (reached stored) as Hs by repeat constructor.
  destruct (remove_drops_data [2%nat] page stored page_wf Hs) as (_ & Hd & _).
  rewrite Hd; [reflexivity|..].
  - right. split; [vm_compute; reflexivity|]. exists 2%nat. split; [apply list_elem_of_here|].
    apply ancestors_above; [exact page_wf|]. apply (bool_decide_unpack _). vm_compute. exact I.
  - intros o n E. vm_compute in E. injection E as <-. vm_compute. discriminate.
  - apply (bool_decide_unpack _). vm_compute. exact I.
Defined.

(** With a node twice in the collection, the two exclusions drop both. *)
Example filter_duplicates : filter_fn (fun i _ => (i =? 0)%nat) [3; 3]%nat = [].
Proof. reflexivity. Qed.

(** On nested elements [find] gives what is below both of them twice, and
    [siblings] of two children gives the third child twice. *)
Example find_nested : find page (fun _ => true) [1; 2]%nat = [2; 3; 4; 5; 3; 4; 5]%nat.
Proof. vm_compute. reflexivity. Qed.

Example siblings_repeated : siblings page [3; 4]%nat None = Ret [4; 5; 3; 5]%nat.
Proof. vm_compute. reflexivity. Qed.

End Sample.
