(* ===== verification/ZyFile.v ===== *)
(** * The upload queue ZYFILE (zyFile.js)

    The object [ZYFILE] keeps the list of files waiting to be uploaded, gives
    each file an index, starts one XMLHttpRequest per pending file and reacts
    to the requests' events.  Files are mutable objects ([v.index = ...]) that
    sit in several arrays at once and are compared by identity, so they live
    in a store and the arrays hold references.

    The callbacks of [ZYFILE] are an interface, the class [ZyCallbacks]: the
    theorems here hold for every implementation of it; [ZyUpload] provides
    the one of the program. *)

From stdpp Require Import base gmap list strings.
From S2P Require Import Prelude JsString.

(** ** Data *)

(** A [File] object; [f_index] is the property [funDealtFiles] adds. *)
Record File := mkFile {
  f_name : jstr;
  f_size : Z;
  f_type : jstr;
  f_index : option Z;
}.

#[export] Instance File_eta : Eta File :=
  fun r => mkFile (f_name r) (f_size r) (f_type r) (f_index r).

(** The object [ZYFILE], its callbacks apart.  [files] is the store of the
    [File] objects; the three arrays hold references into it. *)
Record zyfile := mkZyfile {
  fileInput : option jstr;
  uploadInput : option jstr;
  dragDrop : option jstr;
  url : jstr;
  files : gmap nat File;
  uploadFile : list nat;
  lastUploadFile : list nat;
  perUploadFile : list nat;
  fileNum : Z;
}.

#[export] Instance zyfile_eta : Eta zyfile :=
  fun r => mkZyfile (fileInput r) (uploadInput r) (dragDrop r) (url r) (files r)
             (uploadFile r) (lastUploadFile r) (perUploadFile r) (fileNum r).

(** The object as the script declares it. *)
Definition ZYFILE_initial : zyfile := mkZyfile None None None [] ∅ [] [] [] 0.

(** A [change], [dragover], [dragleave] or [drop] event.  [e_target_files] is
    [e.target.files], undefined on an element that is not a file input. *)
Record event := mkEvent {
  e_type : jstr;
  e_target : jstr;
  e_target_files : option (list nat);
  e_dataTransfer_files : list nat;
}.

(** The callbacks, as operations on the page [W].  A callback that can throw
    says so.  [tailorAttr i] is the [tailor] attribute of the element
    [#uploadTailor_i], when there is such an element. *)
Class ZyCallbacks (W : Type) := {
  filterFile : gmap nat File -> list nat -> W -> list nat * W;
  onSelect : zyfile -> list nat -> list nat -> W -> W;
  onDelete : zyfile -> option nat -> list nat -> W -> W * result unit;
  onProgress : zyfile -> nat -> Z -> Z -> W -> W;
  onSuccess : zyfile -> nat -> jstr -> W -> W;
  onFailure : zyfile -> nat -> jstr -> W -> W;
  onComplete : zyfile -> jstr -> W -> W;
  onDragOver : jstr -> W -> W;
  onDragLeave : jstr -> W -> W;
  tailorAttr : option Z -> W -> option jstr;
}.

(** What the queue needs of its filter: the files it lets through are some of
    those it was given, in their order. *)
Class ZyCallbacksLaws (W : Type) `{ZyCallbacks W} :=
  filterFile_sublist : forall h fs w, sublist (fst (filterFile h fs w)) fs.

(** A request in flight: the file of its closure and the body it sent. *)
Record xhr := mkXhr {
  x_file : nat;
  x_url : jstr;
  x_tailor : option jstr;
}.

(** The calls made to the outside, in order. *)
Inductive call :=
| CSelect (selectFile all : list nat)
| CDelete (file : option nat) (rest : list nat)
| CProgress (file : nat)
| CSuccess (file : nat)
| CFailure (file : nat)
| CComplete.

Inductive handler := HDragHover | HGetFiles | HUploadFiles.

(** The queue, the page and the requests in flight. *)
Record sys (W : Type) := mkSys {
  zy : zyfile;
  world : W;
  inflight : list xhr;
  calls : list call;
}.

Arguments mkSys {W}.
Arguments zy {W}.
Arguments world {W}.
Arguments inflight {W}.
Arguments calls {W}.

#[export] Instance sys_eta {W} : Eta (sys W) :=
  fun r => mkSys (zy r) (world r) (inflight r) (calls r).

(** [arr[i]] for an index that may be undefined. *)
Definition array_get {A} (l : list A) (i : option Z) : option A :=
  i ← i; if i <? 0 then None else l !! Z.to_nat i.

Definition file_name (h : gmap nat File) (f : nat) : jstr :=
  from_option f_name [] (h !! f).

(** [e.target.files || e.dataTransfer.files]. *)
Definition event_files (e : event) : list nat :=
  default (e_dataTransfer_files e) (e_target_files e).

(** ** Operations *)

Section Operations.
Context {W : Type} `{ZyCallbacks W}.
Abbreviation sys := (sys W).

Definition funDragHover (e : event) (s : sys) : sys :=
  s <| world ::= if decide (e_type e = js "dragover")
                 then onDragOver (e_target e) else onDragLeave (e_target e) |>.

(** The body of the loop of [funDealtFiles]: number one file. *)
Definition dealtFile (z : zyfile) (v : nat) : zyfile :=
  z <| files ::= alter (fun f => f <| f_index := Some (fileNum z) |>) v |>
    <| fileNum ::= Z.add 1 |>.

Definition funDealtFiles (s : sys) : sys :=
  let z1 := foldl dealtFile (zy s) (uploadFile (zy s)) in
  let selectFile := uploadFile z1 in
  let z2 := z1 <| perUploadFile ::= fun per => per ++ uploadFile z1 |> in
  let z3 := z2 <| uploadFile := lastUploadFile z2 ++ uploadFile z2 |> in
  s <| zy := z3 |>
    <| world ::= onSelect z3 selectFile (uploadFile z3) |>
    <| calls ::= fun l => l ++ [CSelect selectFile (uploadFile z3)] |>.

(** The loop of [funGetFiles] over the names [uArr]: keep the files whose
    name is not among [lArr]. *)
Definition newFiles (uArr lArr : list jstr) (up : list nat) : list nat :=
  omap (fun '(k, v) => if index_of v lArr <? 0 then up !! k else None)
    (imap pair uArr).

Definition funGetFiles (e : event) (s0 : sys) : sys :=
  let s := funDragHover e s0 in
  let fs := event_files e in
  let h := files (zy s) in
  let last := uploadFile (zy s) in
  let '(flt, w) := filterFile h fs (world s) in
  let up := uploadFile (zy s) ++ flt in
  let lArr := file_name h <$> last in
  let uArr := file_name h <$> up in
  let tmpFiles := newFiles uArr lArr up in
  funDealtFiles
    (s <| world := w |>
       <| zy ::= fun z => z <| lastUploadFile := last |>
                            <| uploadFile := tmpFiles |> |>).

Definition funDeleteFile (delFileIndex : option Z) (isCb : bool) (s : sys)
    : sys * result unit :=
  let delFile := array_get (perUploadFile (zy s)) delFileIndex in
  let tmpFile := filter (fun v => delFile <> Some v) (uploadFile (zy s)) in
  let s1 := s <| zy ::= fun z => z <| uploadFile := tmpFile |> |> in
  if isCb then
    let '(w, r) := onDelete (zy s1) delFile (uploadFile (zy s1)) (world s1) in
    (s1 <| world := w |>
        <| calls ::= fun l => l ++ [CDelete delFile (uploadFile (zy s1))] |>, r)
  else (s1, Ret tt).

Definition funUploadFile (file : nat) (s : sys) : sys :=
  let idx := f ← files (zy s) !! file; f_index f in
  let x := mkXhr file (url (zy s)) (tailorAttr idx (world s)) in
  s <| inflight ::= fun l => l ++ [x] |>.

Definition funUploadFiles (s : sys) : sys :=
  foldl (fun s v => funUploadFile v s) s (uploadFile (zy s)).

Definition funReturnNeedFiles (s : sys) : list nat := uploadFile (zy s).

(** The listeners [funUploadFile] adds to a request. *)
Definition xhr_progress (x : xhr) (loaded total : Z) (s : sys) : sys :=
  s <| world ::= onProgress (zy s) (x_file x) loaded total |>
    <| calls ::= fun l => l ++ [CProgress (x_file x)] |>.

Definition xhr_load (x : xhr) (responseText : jstr) (s : sys) : sys :=
  let idx := f ← files (zy s) !! x_file x; f_index f in
  let s1 := fst (funDeleteFile idx false s) in
  let s2 := s1 <| world ::= onSuccess (zy s1) (x_file x) responseText |>
               <| calls ::= fun l => l ++ [CSuccess (x_file x)] |> in
  if decide (uploadFile (zy s2) = [])
  then s2 <| world ::= onComplete (zy s2) (js "全部完成") |>
          <| calls ::= fun l => l ++ [CComplete] |>
  else s2.

Definition xhr_error (x : xhr) (responseText : jstr) (s : sys) : sys :=
  s <| world ::= onFailure (zy s) (x_file x) responseText |>
    <| calls ::= fun l => l ++ [CFailure (x_file x)] |>.

(** [init]: the listeners it installs, as (element, event, handler). *)
Definition init (z : zyfile) : list (jstr * jstr * handler) :=
  match dragDrop z with
  | Some d => [(d, js "dragover", HDragHover); (d, js "dragleave", HDragHover);
               (d, js "drop", HGetFiles)]
  | None => []
  end
  ++ match fileInput z with
     | Some i => [(i, js "change", HGetFiles)]
     | None => []
     end
  ++ match uploadInput z with
     | Some u => [(u, js "click", HUploadFiles)]
     | None => []
     end.

(** A listener runs its handler. *)
Definition run_handler (hd : handler) (e : event) (s : sys) : sys :=
  match hd with
  | HDragHover => funDragHover e s
  | HGetFiles => funGetFiles e s
  | HUploadFiles => funUploadFiles s
  end.

(** ** The events of the page *)

(** [finish x s]: the request [x] is no longer in flight. *)
Fixpoint remove_first (f : nat) (l : list xhr) : list xhr :=
  match l with
  | [] => []
  | x :: l' => if decide (x_file x = f) then l' else x :: remove_first f l'
  end.

Definition finish (x : xhr) (s : sys) : sys :=
  s <| inflight ::= remove_first (x_file x) |>.

Inductive step : sys -> sys -> Prop :=
| StepSelect (e : event) (new : gmap nat File) (s : sys) :
    (** the browser makes new [File] objects for a selection *)
    NoDup (event_files e) ->
    (forall f, f ∈ event_files e -> is_Some (new !! f)) ->
    new ##ₘ files (zy s) ->
    step s (funGetFiles e (s <| zy ::= fun z => z <| files ::= fun h => new ∪ h |> |>))
| StepDrag (e : event) (s : sys) : step s (funDragHover e s)
| StepDelete (i : Z) (s : sys) : step s (fst (funDeleteFile (Some i) true s))
| StepUpload (s : sys) : step s (funUploadFiles s)
| StepProgress (x : xhr) (loaded total : Z) (s : sys) :
    x ∈ inflight s -> step s (xhr_progress x loaded total s)
| StepLoad (x : xhr) (resp : jstr) (s : sys) :
    x ∈ inflight s -> step s (xhr_load x resp (finish x s))
| StepError (x : xhr) (resp : jstr) (s : sys) :
    x ∈ inflight s -> step s (xhr_error x resp (finish x s)).

Definition initial (z : zyfile) (w : W) : sys := mkSys z w [] [].

Definition reachable (s : sys) : Prop :=
  exists z w, files z = ∅ /\ uploadFile z = [] /\ lastUploadFile z = []
    /\ perUploadFile z = [] /\ fileNum z = 0 /\ rtc step (initial z w) s.

(** ** The invariant

    The permanent array lists every file ever accepted, without repetition,
    each at the position its [index] says; the pending files are some of
    them, without repetition, and a request carries one of them. *)
Record Wf (s : sys) : Prop := {
  wf_per_nodup : NoDup (perUploadFile (zy s));
  wf_index : forall i f, perUploadFile (zy s) !! i = Some f ->
    exists F, files (zy s) !! f = Some F /\ f_index F = Some (Z.of_nat i);
  wf_num : fileNum (zy s) = Z.of_nat (length (perUploadFile (zy s)));
  wf_up_nodup : NoDup (uploadFile (zy s));
  wf_up_sub : forall f, f ∈ uploadFile (zy s) -> f ∈ perUploadFile (zy s);
  wf_inflight : forall x, x ∈ inflight s -> x_file x ∈ perUploadFile (zy s);
}.

End Operations.

(** ** Lemmas *)

Lemma newFiles_filter (h : gmap nat File) (lArr : list jstr) (up : list nat) :
  newFiles (file_name h <$> up) lArr up
  = filter (fun f => file_name h f ∉ lArr) up.
Proof.
  unfold newFiles.
  assert (forall pre l,
    omap (fun '(k, v) => if index_of v lArr <? 0 then (pre ++ l) !! k else None)
      (imap (fun k v => (length pre + k, v)%nat) (file_name h <$> l))
    = filter (fun f => file_name h f ∉ lArr) l) as Hgen.
  { intros pre l. revert pre. induction l as [|f l IH]; intros pre; [done|].
    rewrite fmap_cons, imap_cons. simpl.
    specialize (IH (pre ++ [f])). rewrite length_app in IH. simpl in IH.
    rewrite <- app_assoc in IH. simpl in IH.
    assert (imap (fun k v => (length pre + 1 + k, v)%nat) (file_name h <$> l)
            = imap ((fun k v => (length pre + k, v)%nat) ∘ S) (file_name h <$> l)) as <-.
    { apply imap_ext. intros. simpl. f_equal. lia. }
    unfold omap in IH.
    rewrite IH, Nat.add_0_r, list_lookup_middle by done.
    destruct (Z.ltb_spec (index_of (file_name h f) lArr) 0) as [Hlt|Hge].
    - rewrite filter_cons_True; [done|]. by apply index_of_neg.
    - rewrite filter_cons_False; [done|]. intros Hn.
      apply index_of_neg in Hn. lia. }
  exact (Hgen [] up).
Qed.

(** Numbering a list of files. *)
Section Dealt.
Implicit Types (z : zyfile) (l : list nat).

Lemma dealt_other z l f :
  f ∉ l -> files (foldl dealtFile z l) !! f = files z !! f.
Proof.
  revert z. induction l as [|g l IH]; intros z Hf; [done|].
  apply not_elem_of_cons in Hf as [Hne Hf]. simpl. rewrite IH by done. cbn.
  by apply lookup_alter_ne.
Qed.

Lemma dealt_index z l i f F :
  NoDup l -> l !! i = Some f -> files z !! f = Some F ->
  files (foldl dealtFile z l) !! f
  = Some (F <| f_index := Some (fileNum z + Z.of_nat i) |>).
Proof.
  revert z i F. induction l as [|g l IH]; intros z i F Hnd Hi HF; [done|].
  apply NoDup_cons in Hnd as [Hg Hnd]. simpl. destruct i as [|i]; simpl in Hi.
  - simplify_eq. rewrite dealt_other by done. cbn.
    rewrite lookup_alter_eq, HF. by rewrite Z.add_0_r.
  - assert (g <> f). { intros ->. apply Hg. by eapply list_elem_of_lookup_2. }
    rewrite (IH _ i F); [|done|done|cbn; by rewrite lookup_alter_ne].
    assert (fileNum (dealtFile z g) + Z.of_nat i = fileNum z + Z.of_nat (S i)) as <-;
      [|done].
    unfold dealtFile, upd. cbn [fileNum]. lia.
Qed.

Lemma dealt_num z l :
  fileNum (foldl dealtFile z l) = fileNum z + Z.of_nat (length l).
Proof.
  revert z. induction l as [|g l IH]; intros z; [simpl; lia|].
  change (foldl dealtFile z (g :: l)) with (foldl dealtFile (dealtFile z g) l).
  rewrite IH. unfold dealtFile, upd. cbn [fileNum length]. lia.
Qed.

Lemma dealt_arrays z l :
  uploadFile (foldl dealtFile z l) = uploadFile z
  /\ lastUploadFile (foldl dealtFile z l) = lastUploadFile z
  /\ perUploadFile (foldl dealtFile z l) = perUploadFile z
  /\ url (foldl dealtFile z l) = url z.
Proof.
  revert z. induction l as [|g l IH]; intros z; [done|].
  simpl. destruct (IH (dealtFile z g)) as (-> & -> & -> & ->). done.
Qed.

(** Numbering changes nothing but the index of a file. *)
Lemma dealt_name z l f :
  file_name (files (foldl dealtFile z l)) f = file_name (files z) f.
Proof.
  revert z. induction l as [|g l IH]; intros z; [done|]. simpl. rewrite IH.
  unfold file_name. cbn. rewrite lookup_alter. case_decide as Hd; [|done].
  subst. by destruct (files z !! f).
Qed.

End Dealt.

(** ** Effect of the operations on the queue *)

Section Theorems.
Context {W : Type} `{ZyCallbacks W, !ZyCallbacksLaws W}.
Implicit Types (s : sys W) (e : event).

(** The files a selection adds: what the filter lets through, less the files
    whose name is already pending. *)
Definition accepted e s : list nat :=
  let h := files (zy s) in
  filter (fun f => file_name h f ∉ (file_name h <$> uploadFile (zy s)))
    (fst (filterFile h (event_files e) (world (funDragHover e s)))).

Definition selected e s : zyfile :=
  (zy s) <| lastUploadFile := uploadFile (zy s) |> <| uploadFile := accepted e s |>.

Lemma pending_names_dropped (h : gmap nat File) (up l : list nat) :
  filter (fun f => file_name h f ∉ (file_name h <$> up)) (up ++ l)
  = filter (fun f => file_name h f ∉ (file_name h <$> up)) l.
Proof.
  rewrite filter_app, filter_none; [done|].
  apply Forall_forall. intros f Hf Hn. apply Hn.
  by apply list_elem_of_fmap_2.
Qed.

Lemma funGetFiles_zy e s :
  zy (funGetFiles e s)
  = let z := foldl dealtFile (selected e s) (accepted e s) in
    z <| perUploadFile := perUploadFile (zy s) ++ accepted e s |>
      <| uploadFile := uploadFile (zy s) ++ accepted e s |>.
Proof.
  unfold funGetFiles, selected, accepted.
  change (zy (funDragHover e s)) with (zy s).
  destruct (filterFile _ _ _) as [flt w] eqn:E. cbn [fst].
  rewrite newFiles_filter, pending_names_dropped.
  unfold funDealtFiles. cbn.
  match goal with |- context [foldl dealtFile ?z ?l] =>
    destruct (dealt_arrays z l) as (Hu & Hl & Hp & _);
    generalize dependent (foldl dealtFile z l)
  end.
  intros z' Hu Hl Hp. unfold upd. cbn in *. by rewrite Hu, Hl, Hp.
Qed.

Lemma funGetFiles_upload e s :
  uploadFile (zy (funGetFiles e s)) = uploadFile (zy s) ++ accepted e s.
Proof. by rewrite funGetFiles_zy. Qed.

Lemma funGetFiles_per e s :
  perUploadFile (zy (funGetFiles e s)) = perUploadFile (zy s) ++ accepted e s.
Proof. by rewrite funGetFiles_zy. Qed.

Lemma funGetFiles_num e s :
  fileNum (zy (funGetFiles e s)) = fileNum (zy s) + Z.of_nat (length (accepted e s)).
Proof. rewrite funGetFiles_zy. cbn. by rewrite dealt_num. Qed.

Lemma funGetFiles_inflight e s : inflight (funGetFiles e s) = inflight s.
Proof. unfold funGetFiles. by destruct (filterFile _ _ _). Qed.

Lemma accepted_sub e s f : f ∈ accepted e s -> f ∈ event_files e.
Proof.
  intros [_ Hf]%list_elem_of_filter.
  eapply elem_of_sublist; [exact Hf|]. apply filterFile_sublist.
Qed.

Lemma accepted_nodup e s : NoDup (event_files e) -> NoDup (accepted e s).
Proof.
  intros Hnd. apply NoDup_filter. eapply sublist_NoDup; [exact Hnd|].
  apply filterFile_sublist.
Qed.

(** Looking a file up at its own index finds that file. *)
Lemma array_get_index s f F :
  Wf s -> f ∈ perUploadFile (zy s) -> files (zy s) !! f = Some F ->
  array_get (perUploadFile (zy s)) (f_index F) = Some f.
Proof.
  intros Hwf [i Hi]%list_elem_of_lookup HF.
  destruct (wf_index s Hwf i f Hi) as (F' & HF' & Hidx). simplify_eq.
  rewrite Hidx. unfold array_get. simpl.
  rewrite (proj2 (Z.ltb_ge _ _)) by lia. by rewrite Nat2Z.id.
Qed.

Lemma funDeleteFile_upload i cb s :
  uploadFile (zy (fst (funDeleteFile i cb s)))
  = filter (fun v => array_get (perUploadFile (zy s)) i <> Some v) (uploadFile (zy s)).
Proof. unfold funDeleteFile. destruct cb; [|done]. by destruct (onDelete _ _ _ _). Qed.

Lemma funDeleteFile_frame i cb s :
  let s' := fst (funDeleteFile i cb s) in
  files (zy s') = files (zy s) /\ perUploadFile (zy s') = perUploadFile (zy s)
  /\ fileNum (zy s') = fileNum (zy s) /\ inflight s' = inflight s.
Proof. unfold funDeleteFile. destruct cb; [|done]. by destruct (onDelete _ _ _ _). Qed.

Lemma foldl_upload (l : list nat) s :
  let s' := foldl (fun s v => funUploadFile v s) s l in
  zy s' = zy s /\ world s' = world s /\ calls s' = calls s
  /\ x_file <$> inflight s' = (x_file <$> inflight s) ++ l.
Proof.
  revert s. induction l as [|f l IH]; intros s; simpl.
  - by rewrite app_nil_r.
  - destruct (IH (funUploadFile f s)) as (-> & -> & -> & ->).
    split_and!; [done..|]. cbn. by rewrite fmap_app, <- app_assoc.
Qed.

Lemma remove_first_sub f l x : x ∈ remove_first f l -> x ∈ l.
Proof.
  induction l as [|y l IH]; simpl; [done|]. rewrite elem_of_cons.
  case_decide; [by right|]. rewrite elem_of_cons. intros [?|?]; [by left|right; by apply IH].
Qed.

(** ** The invariant is preserved *)

Lemma Wf_initial z (w : W) :
  files z = ∅ -> uploadFile z = [] -> perUploadFile z = [] -> fileNum z = 0 ->
  Wf (initial z w).
Proof.
  intros Hf Hu Hp Hn.
  split; simpl; rewrite ?Hu, ?Hp, ?Hn; try done; try constructor.
  intros x Hx. by apply elem_of_nil in Hx.
Qed.

(** Only the queue fields and the requests matter to the invariant. *)
Lemma Wf_frame s s' :
  Wf s -> files (zy s') = files (zy s) ->
  perUploadFile (zy s') = perUploadFile (zy s) -> fileNum (zy s') = fileNum (zy s) ->
  sublist (uploadFile (zy s')) (uploadFile (zy s)) ->
  (forall x, x ∈ inflight s' -> x_file x ∈ perUploadFile (zy s)) -> Wf s'.
Proof.
  intros [Hpn Hix Hnum Hun Hus Hin] Hf Hp Hn Hu Hi.
  split; rewrite ?Hf, ?Hp, ?Hn; auto.
  - by eapply sublist_NoDup.
  - intros f Hfu. apply Hus. by eapply elem_of_sublist.
Qed.

Lemma Wf_getFiles e (new : gmap nat File) s :
  Wf s -> NoDup (event_files e) ->
  (forall f, f ∈ event_files e -> is_Some (new !! f)) ->
  new ##ₘ files (zy s) ->
  Wf (funGetFiles e (s <| zy ::= fun z => z <| files ::= fun h => new ∪ h |> |>)).
Proof.
  intros Hwf Hnd Hnew Hdisj.
  set (s1 := s <| zy ::= _ |>).
  assert (forall f, f ∈ accepted e s1 -> f ∉ perUploadFile (zy s)) as Hfresh.
  { intros f Hf Hp. apply accepted_sub in Hf. apply Hnew in Hf as [F HF].
    apply list_elem_of_lookup in Hp as [i Hi].
    destruct (wf_index s Hwf i f Hi) as (G & HG & _).
    by eapply map_disjoint_spec. }
  assert (NoDup (accepted e s1)) as Hand by by apply accepted_nodup.
  destruct Hwf as [Hpn Hix Hnum Hun Hus Hin]. split.
  - rewrite funGetFiles_per. apply NoDup_app. split_and!; [done| |done].
    intros f Hp Ha. by eapply Hfresh.
  - rewrite funGetFiles_per, funGetFiles_zy. cbn. intros i f Hi.
    apply lookup_app_Some in Hi as [Hi|[Hle Hi]].
    + assert (f ∉ accepted e s1).
      { intros Ha. apply (Hfresh f Ha). by eapply list_elem_of_lookup_2. }
      rewrite dealt_other by done. cbn.
      destruct (Hix i f Hi) as (F & HF & HFi). exists F. split; [|done].
      by rewrite lookup_union_r by by eapply map_disjoint_Some_r.
    + assert (f ∈ event_files e) as Hfe.
      { eapply accepted_sub. by eapply list_elem_of_lookup_2. }
      destruct (Hnew f Hfe) as [F HF]. eexists. split.
      * eapply dealt_index; [done|done|]. cbn. by apply lookup_union_Some_l.
      * cbn. rewrite Hnum. f_equal. cbn in *. lia.
  - rewrite funGetFiles_per, funGetFiles_num, length_app. cbn. lia.
  - rewrite funGetFiles_upload. apply NoDup_app. split_and!; [done| |done].
    intros f Hu Ha. eapply Hfresh; eauto.
  - rewrite funGetFiles_upload, funGetFiles_per. cbn. set_solver.
  - rewrite funGetFiles_inflight, funGetFiles_per. cbn. set_solver.
Qed.

Lemma Wf_deleteFile i cb s : Wf s -> Wf (fst (funDeleteFile i cb s)).
Proof.
  intros Hwf. destruct (funDeleteFile_frame i cb s) as (Hf & Hp & Hn & Hi).
  eapply Wf_frame; eauto.
  - rewrite funDeleteFile_upload. apply sublist_filter.
  - rewrite Hi. apply Hwf.
Qed.

Lemma Wf_uploadFiles s : Wf s -> Wf (funUploadFiles s).
Proof.
  intros Hwf. unfold funUploadFiles.
  destruct (foldl_upload (uploadFile (zy s)) s) as (Hz & _ & _ & Hx).
  apply (Wf_frame s); [done|by rewrite Hz..|by rewrite Hz|].
  intros x Hxi. apply (list_elem_of_fmap_2 x_file) in Hxi.
  rewrite Hx in Hxi. apply elem_of_app in Hxi as [Hxi|Hxi].
  - apply list_elem_of_fmap in Hxi as (y & -> & Hy). by apply (wf_inflight s).
  - by apply (wf_up_sub s).
Qed.

Lemma Wf_finish x s : Wf s -> Wf (finish x s).
Proof.
  intros Hwf. apply (Wf_frame s); [done..|].
  intros y Hy. cbn in Hy. apply remove_first_sub in Hy. by apply (wf_inflight s).
Qed.

Lemma Wf_load x resp s : Wf s -> Wf (xhr_load x resp s).
Proof.
  intros Hwf. unfold xhr_load.
  set (s1 := fst (funDeleteFile _ _ _)).
  assert (Wf s1) as Hwf1 by by apply Wf_deleteFile.
  case_decide; (apply (Wf_frame s1); [done..|]); apply Hwf1.
Qed.

Lemma Wf_step s s' : step s s' -> Wf s -> Wf s'.
Proof.
  destruct 1; intros Hwf.
  - by apply Wf_getFiles.
  - apply (Wf_frame s); [done..|]. apply Hwf.
  - by apply Wf_deleteFile.
  - by apply Wf_uploadFiles.
  - apply (Wf_frame s); [done..|]. apply Hwf.
  - by apply Wf_load, Wf_finish.
  - apply (Wf_finish x) in Hwf. apply (Wf_frame (finish x s)); [done..|]. apply Hwf.
Qed.

(** ** Lemmas on the requests *)

Lemma xhr_load_upload x resp s :
  Wf s -> x_file x ∈ perUploadFile (zy s) ->
  uploadFile (zy (xhr_load x resp s)) = filter (fun f => f <> x_file x) (uploadFile (zy s)).
Proof.
  intros Hwf Hx. apply list_elem_of_lookup in Hx as [i Hi].
  destruct (wf_index s Hwf i _ Hi) as (F & HF & HFi).
  unfold xhr_load. rewrite HF. simpl.
  assert (array_get (perUploadFile (zy s)) (f_index F) = Some (x_file x)) as Hget.
  { apply array_get_index; [done| |done]. by eapply list_elem_of_lookup_2. }
  case_decide; cbn; rewrite Hget; apply list_filter_iff; naive_solver.
Qed.

Lemma xhr_load_calls x resp s :
  calls (xhr_load x resp s)
  = calls s ++ CSuccess (x_file x)
      :: (if decide (uploadFile (zy (xhr_load x resp s)) = []) then [CComplete] else []).
Proof.
  unfold xhr_load. repeat case_decide; cbn in *; try done; by rewrite <- app_assoc.
Qed.

(** The requests of [l] complete in that order. *)
Definition run_loads (l : list xhr) s : sys W :=
  foldl (fun s x => xhr_load x (js "ok") (finish x s)) s l.

Lemma run_loads_wf l s : Wf s -> Wf (run_loads l s).
Proof.
  revert s. induction l as [|x l IH]; intros s Hwf; [done|].
  simpl. by apply IH, Wf_load, Wf_finish.
Qed.

(** While requests of distinct pending files complete, each file leaves the
    queue once, and only the last completion is announced as the end. *)
Lemma run_loads_drain l s :
  Wf s -> l <> [] -> (x_file <$> l) ≡ₚ uploadFile (zy s) ->
  uploadFile (zy (run_loads l s)) = []
  /\ calls (run_loads l s) = calls s ++ (CSuccess ∘ x_file <$> l) ++ [CComplete].
Proof.
  revert s. induction l as [|x l IH]; intros s Hwf Hne Hperm; [done|]. simpl.
  set (s1 := xhr_load x (js "ok") (finish x s)).
  assert (Wf (finish x s)) as Hwff by by apply Wf_finish.
  assert (x_file x ∈ uploadFile (zy s)) as Hx.
  { rewrite <- Hperm. rewrite fmap_cons. set_solver. }
  assert (uploadFile (zy s1) = filter (fun f => f <> x_file x) (uploadFile (zy s))) as Hu.
  { apply (xhr_load_upload x _ (finish x s)); [done|]. by apply (wf_up_sub s Hwf). }
  assert (x_file <$> l ≡ₚ uploadFile (zy s1)) as Hperm1.
  { rewrite Hu. rewrite <- Hperm, fmap_cons, filter_cons_False by naive_solver.
    rewrite filter_all; [done|]. apply Forall_forall. intros f Hf ->.
    pose proof (wf_up_nodup s Hwf) as Hnd. rewrite <- Hperm in Hnd.
    rewrite fmap_cons in Hnd. by apply NoDup_cons in Hnd as [? _]. }
  assert (calls s1 = calls s ++ CSuccess (x_file x)
            :: (if decide (uploadFile (zy s1) = []) then [CComplete] else [])) as Hc
    by apply xhr_load_calls.
  destruct l as [|y l].
  - simpl in Hperm1. apply Permutation_nil_l in Hperm1.
    rewrite decide_True in Hc by done. split; [done|]. exact Hc.
  - rewrite decide_False in Hc.
    2:{ intros Hnil. rewrite Hnil in Hperm1. by apply Permutation_nil_r in Hperm1. }
    destruct (IH s1) as [H1 H2]; [by apply Wf_load|done|done|].
    split; [done|]. unfold run_loads in H2 |- *. rewrite H2, Hc, <- app_assoc. done.
Qed.

(** ** Properties *)

(** C1: in every reachable state of the upload page the permanent array lists
    each accepted file once, at the position its index names, the counter is
    the number of accepted files, and the pending files and the files of the
    requests in flight are accepted files, the pending ones without
    repetition. *)
Theorem reachable_wf s : reachable s -> Wf s.
Proof.
  intros (z & w & Hf & Hu & _ & Hp & Hn & Hsteps).
  assert (Wf (initial z w)) as Hwf by by apply Wf_initial.
  induction Hsteps; eauto using Wf_step.
Qed.

(** C26: a completed selection appends to the queue exactly the files the
    filter let through whose name is not pending yet, in their order, and
    numbers them from the old value of the counter on. *)
Theorem funGetFiles_spec e (new : gmap nat File) s0 :
  let s := s0 <| zy ::= fun z => z <| files ::= fun h => new ∪ h |> |> in
  Wf s0 -> NoDup (event_files e) ->
  (forall f, f ∈ event_files e -> is_Some (new !! f)) -> new ##ₘ files (zy s0) ->
  uploadFile (zy (funGetFiles e s)) = uploadFile (zy s) ++ accepted e s
  /\ perUploadFile (zy (funGetFiles e s)) = perUploadFile (zy s) ++ accepted e s
  /\ fileNum (zy (funGetFiles e s)) = fileNum (zy s) + Z.of_nat (length (accepted e s))
  /\ forall i f, accepted e s !! i = Some f ->
       (file_name (files (zy s)) f ∉ (file_name (files (zy s)) <$> uploadFile (zy s)))
       /\ exists F, files (zy (funGetFiles e s)) !! f = Some F
            /\ f_index F = Some (fileNum (zy s) + Z.of_nat i)
            /\ f_name F = file_name (files (zy s)) f.
Proof.
  intros s Hwf Hnd Hnew Hdisj.
  split_and!; [apply funGetFiles_upload|apply funGetFiles_per|apply funGetFiles_num|].
  intros i f Hi.
  assert (f ∈ accepted e s) as Hf by by eapply list_elem_of_lookup_2.
  split; [by apply list_elem_of_filter in Hf as [? _]|].
  destruct (Hnew f) as [F HF]; [by eapply accepted_sub|].
  assert (files (zy s) !! f = Some F) as HFs by by apply lookup_union_Some_l.
  exists (F <| f_index := Some (fileNum (zy s) + Z.of_nat i) |>).
  rewrite funGetFiles_zy. cbn. split_and!; [|done|].
  - apply (dealt_index (selected e s)); [by apply accepted_nodup|done|done].
  - unfold file_name. cbn in HFs. by rewrite HFs.
Qed.

(** Deleting a file by its index takes that file, and no other, out of the
    queue and keeps the order of the rest. *)
Theorem funDeleteFile_exact cb f F s :
  Wf s -> f ∈ perUploadFile (zy s) -> files (zy s) !! f = Some F ->
  uploadFile (zy (fst (funDeleteFile (f_index F) cb s)))
  = filter (fun g => g <> f) (uploadFile (zy s)).
Proof.
  intros Hwf Hp HF. rewrite funDeleteFile_upload, (array_get_index s f F) by done.
  apply list_filter_iff. naive_solver.
Qed.

(** C36: in a well-formed state (reachable_wf: every state the page reaches is one),
    when a request finishes with success, its file and no other leaves the
    queue, success is reported for it, and then the end of the whole upload
    exactly when the queue has become empty. *)
Theorem xhr_load_spec x resp s :
  Wf s -> x ∈ inflight s ->
  let s' := xhr_load x resp (finish x s) in
  uploadFile (zy s') = filter (fun f => f <> x_file x) (uploadFile (zy s))
  /\ calls s' = calls s ++ CSuccess (x_file x)
       :: (if decide (uploadFile (zy s') = []) then [CComplete] else []).
Proof.
  intros Hwf Hx s'. split; [|apply xhr_load_calls].
  apply (xhr_load_upload x resp (finish x s)); [by apply Wf_finish|].
  by apply (wf_inflight s Hwf).
Qed.

(** C32: in a well-formed state (reachable_wf: every state the page reaches is
    one), pressing the upload button on a non-empty queue, while no request is
    at work, starts one request per pending file, in the order of the queue,
    and in whatever order the requests end when they all succeed, the queue
    ends empty, every file is reported once and the end of the upload is
    reported once, last.  ([upload_twice_sends_twice] shows what a second press
    does while requests are at work.) *)
Theorem upload_all_completes s order :
  Wf s -> inflight s = [] -> uploadFile (zy s) <> [] ->
  order ≡ₚ inflight (funUploadFiles s) ->
  x_file <$> inflight (funUploadFiles s) = uploadFile (zy s)
  /\ uploadFile (zy (run_loads order (funUploadFiles s))) = []
  /\ calls (run_loads order (funUploadFiles s))
     = calls s ++ (CSuccess ∘ x_file <$> order) ++ [CComplete].
Proof.
  intros Hwf Hin Hne Hord.
  destruct (foldl_upload (uploadFile (zy s)) s) as (Hz & _ & Hc & Hx).
  fold (funUploadFiles s) in *. rewrite Hin in Hx. simpl in Hx.
  split; [exact Hx|]. rewrite <- Hc. apply run_loads_drain.
  - by apply Wf_uploadFiles.
  - intros ->. apply Permutation_nil_l in Hord. rewrite <- Hord in Hx. by apply Hne.
  - rewrite Hord, Hx, Hz. done.
Qed.

(** A failed request leaves its file in the queue, so the end of the upload
    is not reported while that file is pending, whatever else completes. *)
Theorem failure_blocks_completion x y resp resp' s :
  Wf s -> x ∈ inflight s -> y ∈ inflight s -> x_file x <> x_file y ->
  x_file x ∈ uploadFile (zy s) ->
  let s' := xhr_load y resp' (finish y (xhr_error x resp (finish x s))) in
  x_file x ∈ uploadFile (zy s')
  /\ calls s' = calls s ++ [CFailure (x_file x); CSuccess (x_file y)].
Proof.
  intros Hwf Hx Hy Hne Hp.
  set (s1 := xhr_error x resp (finish x s)). cbn zeta.
  assert (Wf s1) as Hwf1.
  { apply (Wf_frame (finish x s)); [by apply Wf_finish|done..|]. by apply Wf_finish. }
  assert (x_file x ∈ uploadFile (zy (xhr_load y resp' (finish y s1)))) as Hstay.
  { rewrite xhr_load_upload; [|by apply Wf_finish|].
    - apply list_elem_of_filter. done.
    - by apply (wf_inflight s Hwf). }
  split; [done|]. rewrite xhr_load_calls, decide_False.
  - cbn. by rewrite <- app_assoc.
  - intros Hnil. rewrite Hnil in Hstay. by apply elem_of_nil in Hstay.
Qed.

(** The upload button does not look at what is already being sent: pressed
    twice, it sends every pending file twice. *)
Theorem upload_twice_sends_twice s :
  x_file <$> inflight (funUploadFiles (funUploadFiles s))
  = (x_file <$> inflight s) ++ uploadFile (zy s) ++ uploadFile (zy s).
Proof.
  unfold funUploadFiles at 1.
  destruct (foldl_upload (uploadFile (zy s)) s) as (Hz & _ & _ & Hx).
  fold (funUploadFiles s) in *.
  destruct (foldl_upload (uploadFile (zy (funUploadFiles s))) (funUploadFiles s))
    as (_ & _ & _ & ->).
  by rewrite Hx, Hz, <- app_assoc.
Qed.

End Theorems.

(** ** A page that accepts everything, for the witnesses *)

Module Sample.

#[local] Instance callbacks : ZyCallbacks unit := {|
  filterFile := fun _ fs w => (fs, w);
  onSelect := fun _ _ _ w => w;
  onDelete := fun _ _ _ w => (w, Ret tt);
  onProgress := fun _ _ _ _ w => w;
  onSuccess := fun _ _ _ w => w;
  onFailure := fun _ _ _ w => w;
  onComplete := fun _ _ w => w;
  onDragOver := fun _ w => w;
  onDragLeave := fun _ w => w;
  tailorAttr := fun _ _ => None;
|}.

#[local] Instance laws : ZyCallbacksLaws unit.
Proof. by intros h fs w. Qed.

Definition f1 : File := mkFile (js "a.txt") 10 (js "text/plain") None.
Definition f2 : File := mkFile (js "b.png") 20 (js "image/png") None.

Definition new : gmap nat File := {[1%nat := f1; 2%nat := f2]}.

Definition ev : event := mkEvent (js "change") (js "fileImage") (Some [1; 2]%nat) [].

Definition s0 : sys unit := initial ZYFILE_initial tt.

Definition s1 : sys unit :=
  funGetFiles ev (s0 <| zy ::= fun z => z <| files ::= fun h => new ∪ h |> |>).

Definition s2 : sys unit := funUploadFiles s1.

Lemma new_ok : forall f, f ∈ event_files ev -> is_Some (new !! f).
Proof.
  intros f Hf. cbn in Hf. apply elem_of_cons in Hf as [->|Hf]; [by eexists|].
  apply list_elem_of_singleton in Hf as ->. by eexists.
Qed.

Lemma ev_nodup : NoDup (event_files ev).
Proof. by apply (bool_decide_unpack _). Qed.

Lemma s1_wf : Wf s1.
Proof.
  apply Wf_getFiles; [by apply Wf_initial|apply ev_nodup|apply new_ok|].
  apply map_disjoint_empty_r.
Qed.

Lemma reachable_wf_witness : reachable s1 /\ Wf s1.
Proof.
  assert (reachable s1) as Hr.
  { exists ZYFILE_initial, tt. split_and!; [done..|]. apply rtc_once.
    apply StepSelect; [apply ev_nodup|apply new_ok|apply map_disjoint_empty_r]. }
  split; [exact Hr|]. exact (reachable_wf s1 Hr).
Defined.

Lemma funGetFiles_spec_witness :
  uploadFile (zy s1) = [1; 2]%nat.
Proof.
  destruct (funGetFiles_spec ev new s0) as (Hu & _).
  - by apply Wf_initial.
  - apply ev_nodup.
  - apply new_ok.
  - apply map_disjoint_empty_r.
  - etransitivity; [exact Hu|]. vm_compute. reflexivity.
Defined.

Lemma funDeleteFile_exact_witness :
  uploadFile (zy (fst (funDeleteFile (Some 0) true s1))) = [2%nat].
Proof.
  etransitivity.
  - refine (funDeleteFile_exact true 1%nat (f1 <| f_index := Some 0 |>) s1 s1_wf _ _).
    + by apply (bool_decide_unpack _).
    + vm_compute. reflexivity.
  - vm_compute. reflexivity.
Defined.

Definition x1 : xhr := mkXhr 1 [] None.
Definition x2 : xhr := mkXhr 2 [] None.

Lemma xhr_load_spec_witness :
  calls (xhr_load x1 (js "ok") (finish x1 s2))
  = [CSelect [1; 2] [1; 2]; CSuccess 1]%nat.
Proof.
  destruct (xhr_load_spec x1 (js "ok") s2) as [_ Hc].
  - apply Wf_uploadFiles, s1_wf.
  - vm_compute. left.
  - etransitivity; [exact Hc|]. vm_compute. reflexivity.
Defined.

Lemma upload_all_completes_witness :
  calls (run_loads [x2; x1] s2)
  = [CSelect [1; 2] [1; 2]; CSuccess 2; CSuccess 1; CComplete]%nat.
Proof.
  destruct (upload_all_completes s1 [x2; x1]) as (_ & _ & Hc).
  - apply s1_wf.
  - reflexivity.
  - vm_compute. discriminate.
  - vm_compute. apply Permutation_swap.
  - etransitivity; [exact Hc|]. vm_compute. reflexivity.
Defined.

Lemma failure_blocks_completion_witness :
  calls (xhr_load x2 (js "ok") (finish x2 (xhr_error x1 [] (finish x1 s2))))
  = [CSelect [1; 2] [1; 2]; CFailure 1; CSuccess 2]%nat.
Proof.
  destruct (failure_blocks_completion x1 x2 [] (js "ok") s2) as [_ Hc].
  - apply Wf_uploadFiles, s1_wf.
  - vm_compute. left.
  - vm_compute. right. left.
  - discriminate.
  - vm_compute. left.
  - etransitivity; [exact Hc|]. vm_compute. reflexivity.
Defined.

End Sample.
