(* ===== verification/JcropCoords.v ===== *)
(** * The selection rectangle of Jcrop (the module Coords)

    [Coords] keeps the two corners of the selection as the mouse left them:
    [(x1, y1)] is where the drag started, [(x2, y2)] where it is now, in any
    order.  Its operations clamp points to the image, move the rectangle,
    and turn the corners into the normalised rectangle the rest of the
    plug-in uses.  Coordinates are rationals, since [setSelect] and the
    animation divide; the sizes of the image are integers, as the
    [width()] and [height()] of jQuery are. *)

From stdpp Require Import base list.
From Stdlib Require Import QArith Qabs Qround Lqa.
From S2P Require Import Prelude.

#[local] Open Scope Q_scope.

(** ** Data *)

(** The variables of the enclosing function that [Coords] reads.  The limits
    are 0 when absent, which the code treats as absent. *)
Record env := mkEnv {
  aspectRatio : Q;
  minSize : Q * Q;
  maxSize : Q * Q;
  boundx : Z;
  boundy : Z;
  xlimit : Q;
  ylimit : Q;
  xmin : Q;
  ymin : Q;
  xscale : Q;
  yscale : Q;
}.

#[export] Instance env_eta : Eta env :=
  fun r => mkEnv (aspectRatio r) (minSize r) (maxSize r) (boundx r) (boundy r)
             (xlimit r) (ylimit r) (xmin r) (ymin r) (xscale r) (yscale r).

(** The variables of [Coords]; the offsets are undefined until the first
    [setCurrent]. *)
Record coords := mkCoords {
  x1 : Q;
  y1 : Q;
  x2 : Q;
  y2 : Q;
  ox : option Q;
  oy : option Q;
}.

#[export] Instance coords_eta : Eta coords :=
  fun r => mkCoords (x1 r) (y1 r) (x2 r) (y2 r) (ox r) (oy r).

Definition coords_initial : coords := mkCoords 0 0 0 0 None None.

(** The object [makeObj] builds. *)
Record rect := mkRect {
  r_x : Z;
  r_y : Z;
  r_x2 : Z;
  r_y2 : Z;
  r_w : Z;
  r_h : Z;
}.

(** The eight handles. *)
Inductive ord := N_ | S_ | E_ | W_ | NE | NW | SE | SW.

#[export] Instance ord_eq_dec : EqDecision ord.
Proof. solve_decision. Defined.

(** ** Operations *)

Section Coords.
Variable v : env.

Definition bx : Q := inject_Z (boundx v).
Definition by_ : Q := inject_Z (boundy v).

(** [rebound] on one coordinate. *)
Definition clamp (b p : Q) : Q :=
  let p := if p <q 0 then 0 else p in
  if b <q p then b else p.

Definition rebound (p : Q * Q) : Q * Q := (clamp bx (fst p), clamp by_ (snd p)).

Definition setPressed (pos : Q * Q) (c : coords) : coords :=
  let pos := rebound pos in
  c <| x1 := fst pos |> <| x2 := fst pos |>
    <| y1 := snd pos |> <| y2 := snd pos |>.

Definition setCurrent (pos : Q * Q) (c : coords) : coords :=
  let pos := rebound pos in
  c <| ox := Some (fst pos - x2 c) |> <| oy := Some (snd pos - y2 c) |>
    <| x2 := fst pos |> <| y2 := snd pos |>.

Definition getOffset (c : coords) : option Q * option Q := (ox c, oy c).

Definition moveOffset (offset : Q * Q) (c : coords) : coords :=
  let ox := fst offset in
  let oy := snd offset in
  let ox := if x1 c + ox <q 0 then ox - (ox + x1 c) else ox in
  let oy := if y1 c + oy <q 0 then oy - (oy + y1 c) else oy in
  let oy := if by_ <q y2 c + oy then oy + (by_ - (y2 c + oy)) else oy in
  let ox := if bx <q x2 c + ox then ox + (bx - (x2 c + ox)) else ox in
  c <| x1 ::= fun a => a + ox |> <| x2 ::= fun a => a + ox |>
    <| y1 ::= fun a => a + oy |> <| y2 ::= fun a => a + oy |>.

Definition flipCoords (a b c d : Q) : Z * Z * Z * Z :=
  let '(xa, xb) := if c <q a then (c, a) else (a, c) in
  let '(ya, yb) := if d <q b then (d, b) else (b, d) in
  (math_round xa, math_round ya, math_round xb, math_round yb).

Definition makeObj (a : Z * Z * Z * Z) : rect :=
  let '(x, y, x2, y2) := a in mkRect x y x2 y2 (x2 - x) (y2 - y).

(** The sign rule of [getRect]: [size > 0 ? a + lim : a - lim]. *)
Definition signed (size a lim : Q) : Q := if 0 <q size then a + lim else a - lim.

(** The limits of [getRect] on one axis: [a] is the fixed end, [b] the moving
    one.  Both tests use the size before either correction. *)
Definition limit_axis (lim mn a b : Q) : Q :=
  let size := b - a in
  let b := if negb (lim =q 0) && (lim <q Qabs size) then signed size a lim else b in
  if negb (mn =q 0) && (Qabs size <q mn) then signed size a mn else b.

(** The corrections of [getRect] against the left (upper) edge, then against
    the right (lower) one, on one axis. *)
Definition push_low (a b : Q) : Q * Q :=
  let '(a, b) := if a <q 0 then (a - a, b - a) else (a, b) in
  if b <q 0 then (a - b, b - b) else (a, b).

Definition push_high (bnd a b : Q) : Q * Q :=
  if bnd <q b then (a - (b - bnd), b - (b - bnd)) else (a, b).

Definition getRect (c : coords) : coords * rect :=
  let nx2 := limit_axis (xlimit v) (xmin v) (x1 c) (x2 c) in
  let ny2 := limit_axis (ylimit v) (ymin v) (y1 c) (y2 c) in
  let '(a, b) := push_low (x1 c) nx2 in
  let '(a', b') := push_low (y1 c) ny2 in
  let '(a, b) := push_high bx a b in
  let '(a', b') := push_high by_ a' b' in
  (** [if (x1 > boundx) { delta = x1 - boundy; y2 -= delta; y1 -= delta }] *)
  let '(a', b') := if bx <q a then (a' - (a - by_), b' - (a - by_)) else (a', b') in
  let '(a', b') := if by_ <q a' then (a' - (a' - by_), b' - (a' - by_)) else (a', b') in
  let c' := c <| x1 := a |> <| y1 := a' |> <| x2 := b |> <| y2 := b' |> in
  (c', makeObj (flipCoords a a' b b')).

(** [rwa / rha < aspect]: a division by 0 gives an infinity or NaN, and the
    comparison is then false. *)
Definition ratio_lt (rwa rha aspect : Q) : bool :=
  negb (rha =q 0) && (rwa / rha <q aspect).

(** First half of [getFixed]: the corner [(xx, yy)] with the wanted ratio.
    A selection that is too narrow keeps its height and is widened ... *)
Definition fixed_wide (aspect : Q) (c : coords) : Q * Q :=
  let rw := x2 c - x1 c in
  let rh := y2 c - y1 c in
  let w := Qabs rh * aspect in
  let xx := if rw <q 0 then x1 c - w else w + x1 c in
  if xx <q 0 then
    let h := Qabs ((0 - x1 c) / aspect) in
    (0, if rh <q 0 then y1 c - h else h + y1 c)
  else if bx <q xx then
    let h := Qabs ((bx - x1 c) / aspect) in
    (bx, if rh <q 0 then y1 c - h else h + y1 c)
  else (xx, y2 c).

(** ... one that is too wide keeps its width and is made taller. *)
Definition fixed_tall (aspect : Q) (c : coords) : Q * Q :=
  let rw := x2 c - x1 c in
  let rh := y2 c - y1 c in
  let h := Qabs rw / aspect in
  let yy := if rh <q 0 then y1 c - h else y1 c + h in
  if yy <q 0 then
    let w := Qabs ((0 - y1 c) * aspect) in
    (if rw <q 0 then x1 c - w else w + x1 c, 0)
  else if by_ <q yy then
    let w := Qabs (by_ - y1 c) * aspect in
    (if rw <q 0 then x1 c - w else w + x1 c, by_)
  else (x2 c, yy).

Definition fixed_corner (aspect : Q) (c : coords) : Q * Q :=
  if ratio_lt (Qabs (x2 c - x1 c)) (Qabs (y2 c - y1 c)) aspect
  then fixed_wide aspect c else fixed_tall aspect c.

(** Second half: the minimal and maximal sizes. *)
Definition fixed_size (aspect : Q) (c : coords) (p : Q * Q) : Q * Q :=
  let '(xx, yy) := p in
  let min_x := fst (minSize v) / xscale v in
  let max_x := fst (maxSize v) / xscale v in
  let max_x := if max_x =q 0 then bx * 10 else max_x in
  if x1 c <q xx then
    let xx := if xx - x1 c <q min_x then x1 c + min_x
              else if max_x <q xx - x1 c then x1 c + max_x else xx in
    (xx, if y1 c <q yy then y1 c + (xx - x1 c) / aspect
         else y1 c - (xx - x1 c) / aspect)
  else if xx <q x1 c then
    let xx := if x1 c - xx <q min_x then x1 c - min_x
              else if max_x <q x1 c - xx then x1 c - max_x else xx in
    (xx, if y1 c <q yy then y1 c + (x1 c - xx) / aspect
         else y1 c - (x1 c - xx) / aspect)
  else (xx, yy).

(** The last corrections of [getFixed], on one axis: the fixed end and the
    corner. *)
Definition fixed_push (bnd a xx : Q) : Q * Q :=
  if xx <q 0 then (a - xx, 0)
  else if bnd <q xx then (a - (xx - bnd), bnd)
  else (a, xx).

Definition getFixed (c : coords) : coords * rect :=
  if aspectRatio v =q 0 then getRect c
  else
    let aspect := aspectRatio v in
    let '(xx, yy) := fixed_size aspect c (fixed_corner aspect c) in
    let '(a, xx) := fixed_push bx (x1 c) xx in
    let '(a', yy) := fixed_push by_ (y1 c) yy in
    (c <| x1 := a |> <| y1 := a' |>, makeObj (flipCoords a a' xx yy)).

(** [getCorner] of a side handle is undefined. *)
Definition getCorner (o : ord) (c : coords) : coords * option (Z * Z) :=
  let '(c', r) := getFixed c in
  (c', match o with
       | NE => Some (r_x2 r, r_y r)
       | NW => Some (r_x r, r_y r)
       | SE => Some (r_x2 r, r_y2 r)
       | SW => Some (r_x r, r_y2 r)
       | _ => None
       end).

(** [unscale]: a rectangle of the displayed image in the pixels of the
    original. *)
Definition unscale (r : rect) : rect :=
  mkRect (parse_int (inject_Z (r_x r) * xscale v)) (parse_int (inject_Z (r_y r) * yscale v))
    (parse_int (inject_Z (r_x2 r) * xscale v)) (parse_int (inject_Z (r_y2 r) * yscale v))
    (parse_int (inject_Z (r_w r) * xscale v)) (parse_int (inject_Z (r_h r) * yscale v)).

End Coords.

Definition oppLockCorner (o : ord) : ord :=
  match o with
  | N_ => SW
  | S_ => NW
  | E_ => NW
  | W_ => NE
  | NE => SW
  | NW => SE
  | SE => NW
  | SW => NE
  end.

(** [presize]: the size at which a [w0] x [h0] image is shown in a [w] x [h]
    box (0: no limit), and the two scales. *)
Definition presize (w0 h0 w h : Q) : (Q * Q) * (Q * Q) :=
  let '(nw, nh) :=
    if (w <q w0) && (0 <q w) then (w, (w / w0) * h0) else (w0, h0) in
  let '(nw, nh) :=
    if (h <q nh) && (0 <q h) then ((h / h0) * w0, h) else (nw, nh) in
  ((nw, nh), (w0 / nw, h0 / nh)).

(** ** Lemmas *)

Lemma Qabs_cases (q : Q) : (0 <= q /\ Qabs q == q) \/ (q <= 0 /\ Qabs q == - q).
Proof.
  destruct (Qlt_le_dec q 0).
  - right. split; [lra|]. apply Qabs_neg. lra.
  - left. split; [lra|]. by apply Qabs_pos.
Qed.

Lemma Qabs_eq_shift (p q d : Q) : 0 <= d -> p == q + d \/ p == q - d -> Qabs (p - q) == d.
Proof.
  intros Hd [->| ->].
  - assert (q + d - q == d) as -> by lra. by apply Qabs_pos.
  - assert (q - d - q == - d) as -> by lra. rewrite Qabs_opp. by apply Qabs_pos.
Qed.

(** Replace the absolute values of the goal by their two cases. *)
Ltac qabs :=
  repeat match goal with
  | |- context [Qabs ?q] =>
      let H := fresh "Habs" in
      pose proof (Qabs_cases q) as H; generalize dependent (Qabs q); intros
  | _ : context [Qabs ?q] |- _ =>
      let H := fresh "Habs" in
      pose proof (Qabs_cases q) as H; generalize dependent (Qabs q); intros
  end.

Record InBounds (v : env) (c : coords) : Prop := {
  ib_x1 : 0 <= x1 c <= bx v;
  ib_y1 : 0 <= y1 c <= by_ v;
  ib_x2 : 0 <= x2 c <= bx v;
  ib_y2 : 0 <= y2 c <= by_ v;
}.

Definition Sorted (c : coords) : Prop := x1 c <= x2 c /\ y1 c <= y2 c.

(** An environment with sensible limits: the minimal size fits the image and
    a maximal size, where there is one, is not below it. *)
Record EnvOk (v : env) : Prop := {
  eo_bx : (0 <= boundx v)%Z;
  eo_by : (0 <= boundy v)%Z;
  eo_xmin : 0 <= xmin v <= bx v;
  eo_ymin : 0 <= ymin v <= by_ v;
  eo_xlimit : 0 <= xlimit v;
  eo_ylimit : 0 <= ylimit v;
  eo_xmax : xlimit v == 0 \/ xmin v <= xlimit v;
  eo_ymax : ylimit v == 0 \/ ymin v <= ylimit v;
  eo_xscale : 0 < xscale v;
  eo_yscale : 0 < yscale v;
}.

(** A rectangle inside the image. *)
Record RectOk (b b' : Z) (r : rect) : Prop := {
  ro_x : (0 <= r_x r <= r_x2 r)%Z;
  ro_x2 : (r_x2 r <= b)%Z;
  ro_y : (0 <= r_y r <= r_y2 r)%Z;
  ro_y2 : (r_y2 r <= b')%Z;
  ro_w : r_w r = (r_x2 r - r_x r)%Z;
  ro_h : r_h r = (r_y2 r - r_y r)%Z;
}.

Lemma bx_nonneg v : EnvOk v -> 0 <= bx v.
Proof. intros H. unfold bx. change 0 with (inject_Z 0). rewrite <- Zle_Qle. apply H. Qed.

Lemma by_nonneg v : EnvOk v -> 0 <= by_ v.
Proof. intros H. unfold by_. change 0 with (inject_Z 0). rewrite <- Zle_Qle. apply H. Qed.

Lemma clamp_range b p : 0 <= b -> 0 <= clamp b p <= b.
Proof. intros Hb. unfold clamp. qcases. Qed.

Lemma clamp_id b p : 0 <= p <= b -> clamp b p = p.
Proof.
  intros Hp. unfold clamp.
  destruct (p <q 0) eqn:E; qreflect; [lra|].
  destruct (b <q p) eqn:E'; qreflect; [lra|done].
Qed.

Lemma clamp_mono b p q : 0 <= b -> p <= q -> clamp b p <= clamp b q.
Proof. intros Hb Hpq. unfold clamp. qcases. Qed.

(** One axis of [getRect]. *)
Definition rect_axis (bnd lim mn a b : Q) : Q * Q :=
  let '(a, b) := push_low a (limit_axis lim mn a b) in push_high bnd a b.

Lemma limit_axis_cases lim mn a b :
  0 <= mn -> 0 <= lim ->
  let b' := limit_axis lim mn a b in
  b' = b \/ (lim < Qabs (b - a) /\ (b' = signed (b - a) a lim))
  \/ (Qabs (b - a) < mn /\ b' = signed (b - a) a mn).
Proof.
  intros Hmn Hlim. unfold limit_axis.
  repeat case_test; qreflect; naive_solver.
Qed.

Lemma signed_cases size a lim :
  (0 < size /\ signed size a lim = a + lim) \/ (size <= 0 /\ signed size a lim = a - lim).
Proof. unfold signed. case_test; qreflect; [left|right]; done. Qed.

Ltac qsigned :=
  repeat match goal with
  | H : context [signed ?s ?a ?l] |- _ =>
      destruct (signed_cases s a l) as [[? ->]|[? ->]]
  end.

Lemma rect_axis_range bnd lim mn a b :
  0 <= bnd -> 0 <= a <= bnd -> 0 <= b <= bnd -> 0 <= mn <= bnd -> 0 <= lim ->
  let '(a', b') := rect_axis bnd lim mn a b in
  0 <= a' <= bnd /\ 0 <= b' <= bnd.
Proof.
  intros Hbnd Ha Hb Hmn Hlim. unfold rect_axis.
  pose proof (limit_axis_cases lim mn a b ltac:(lra) Hlim) as Hc. cbn zeta in Hc.
  generalize dependent (limit_axis lim mn a b). intros b0 Hc.
  unfold push_low, push_high.
  assert ((a <q 0) = false) as -> by (apply Qltb_ge; lra).
  assert (- bnd <= b0 <= 2 * bnd /\ (b0 < 0 -> a - b0 <= bnd) /\ (bnd < b0 -> 0 <= a - (b0 - bnd))) as (H1 & H2 & H3).
  { destruct Hc as [->|[[Hl ->]|[Hl ->]]]; [lra| |];
      (destruct (signed_cases (b - a) a lim) as [[? ->]|[? ->]] ||
       destruct (signed_cases (b - a) a mn) as [[? ->]|[? ->]]);
      try (destruct (signed_cases (b - a) a mn) as [[? ->]|[? ->]]);
      destruct (Qabs_cases (b - a)); lra. }
  destruct (b0 <q 0) eqn:E1; qreflect.
  - destruct (bnd <q b0 - b0) eqn:E2; qreflect; lra.
  - destruct (bnd <q b0) eqn:E2; qreflect; lra.
Qed.

(** The size an axis ends with is the one the limits asked for. *)
Lemma rect_axis_size bnd lim mn a b :
  let '(a', b') := rect_axis bnd lim mn a b in
  b' - a' == limit_axis lim mn a b - a.
Proof.
  unfold rect_axis. generalize (limit_axis lim mn a b). intros b0.
  unfold push_low, push_high. repeat (case_test; cbn); lra.
Qed.

Lemma limit_axis_size lim mn a b :
  0 <= mn -> 0 < lim -> mn <= lim -> mn <= Qabs (limit_axis lim mn a b - a) <= lim.
Proof.
  intros Hmn Hlim Hle. unfold limit_axis.
  assert (forall k, 0 <= k -> Qabs (signed (b - a) a k - a) == k) as Hs.
  { intros k Hk. apply Qabs_eq_shift; [done|].
    destruct (signed_cases (b - a) a k) as [[_ ->]|[_ ->]]; [left|right]; lra. }
  destruct (lim =q 0) eqn:E0; qreflect; [lra|]. simpl.
  pose proof (Qabs_nonneg (b - a)).
  destruct (lim <q Qabs (b - a)) eqn:E1, (mn =q 0) eqn:E2,
    (Qabs (b - a) <q mn) eqn:E3; qreflect; simpl; try (rewrite Hs by lra); lra.
Qed.

(** Inside the bounds the two last corrections of [getRect], the first of
    which mixes up the axes, do not apply. *)
Lemma getRect_axes v c :
  EnvOk v -> InBounds v c ->
  let '(a, b) := rect_axis (bx v) (xlimit v) (xmin v) (x1 c) (x2 c) in
  let '(a', b') := rect_axis (by_ v) (ylimit v) (ymin v) (y1 c) (y2 c) in
  getRect v c
  = (c <| x1 := a |> <| y1 := a' |> <| x2 := b |> <| y2 := b' |>,
     makeObj (flipCoords a a' b b')).
Proof.
  intros Hv [H1 H2 H3 H4].
  pose proof (rect_axis_range (bx v) (xlimit v) (xmin v) (x1 c) (x2 c)
    (bx_nonneg v Hv) H1 H3 (eo_xmin v Hv) (eo_xlimit v Hv)) as Hx.
  pose proof (rect_axis_range (by_ v) (ylimit v) (ymin v) (y1 c) (y2 c)
    (by_nonneg v Hv) H2 H4 (eo_ymin v Hv) (eo_ylimit v Hv)) as Hy.
  unfold getRect, rect_axis in *.
  destruct (push_low (x1 c) _) as [a b], (push_low (y1 c) _) as [a' b'].
  destruct (push_high (bx v) a b) as [p q], (push_high (by_ v) a' b') as [p' q'].
  rewrite (proj2 (Qltb_ge (bx v) p)) by lra.
  by rewrite (proj2 (Qltb_ge (by_ v) p')) by lra.
Qed.

Lemma flip_makeObj_ok b b' p q r s :
  0 <= p <= inject_Z b -> 0 <= q <= inject_Z b' ->
  0 <= r <= inject_Z b -> 0 <= s <= inject_Z b' ->
  RectOk b b' (makeObj (flipCoords p q r s)).
Proof.
  intros Hp Hq Hr Hs. unfold flipCoords.
  destruct (r <q p) eqn:E1, (s <q q) eqn:E2; qreflect; cbn;
    split; cbn; try done;
    repeat split; try (apply math_round_nonneg; lra);
    try (apply math_round_mono; lra); apply math_round_le_Z; lra.
Qed.

Lemma getRect_ok v c :
  EnvOk v -> InBounds v c ->
  InBounds v (fst (getRect v c)) /\ RectOk (boundx v) (boundy v) (snd (getRect v c)).
Proof.
  intros Hv Hc. pose proof (getRect_axes v c Hv Hc) as Hg.
  destruct Hc as [H1 H2 H3 H4].
  pose proof (rect_axis_range (bx v) (xlimit v) (xmin v) (x1 c) (x2 c)
    (bx_nonneg v Hv) H1 H3 (eo_xmin v Hv) (eo_xlimit v Hv)) as Hx.
  pose proof (rect_axis_range (by_ v) (ylimit v) (ymin v) (y1 c) (y2 c)
    (by_nonneg v Hv) H2 H4 (eo_ymin v Hv) (eo_ylimit v Hv)) as Hy.
  destruct (rect_axis (bx v) _ _ _ _) as [a b], (rect_axis (by_ v) _ _ _ _) as [a' b'].
  rewrite Hg. split.
  - split; cbn; lra.
  - apply flip_makeObj_ok; unfold bx, by_ in *; lra.
Qed.

(** A second correction changes nothing. *)
Lemma limit_axis_stable lim mn a b a' :
  0 <= mn -> 0 <= lim -> lim == 0 \/ mn <= lim ->
  forall b', b' - a' == limit_axis lim mn a b - a -> limit_axis lim mn a' b' = b'.
Proof.
  intros Hmn Hlim Hml b' Hb'.
  assert (mn <= Qabs (b' - a') /\ (lim == 0 \/ Qabs (b' - a') <= lim)) as [H1 H2].
  { rewrite Hb'. destruct (Qeq_dec lim 0) as [H0|H0].
    - split; [|by left]. unfold limit_axis.
      rewrite (proj2 (Qeq_bool_iff _ _) H0). cbn.
      destruct (mn =q 0) eqn:E2; qreflect; cbn.
      + pose proof (Qabs_nonneg (b - a)). lra.
      + destruct (Qabs (b - a) <q mn) eqn:E3; qreflect; [|done].
        rewrite (Qabs_eq_shift _ _ mn); [lra|done|].
        destruct (signed_cases (b - a) a mn) as [[_ ->]|[_ ->]]; [left|right]; lra.
    - pose proof (limit_axis_size lim mn a b Hmn ltac:(lra) ltac:(tauto)). lra. }
  unfold limit_axis.
  assert ((negb (lim =q 0) && (lim <q Qabs (b' - a'))) = false) as ->.
  { apply andb_false_iff. destruct H2 as [H2|H2].
    - left. by rewrite (proj2 (Qeq_bool_iff _ _) H2).
    - right. by apply Qltb_ge. }
  by rewrite (proj2 (Qltb_ge _ _) H1), andb_false_r.
Qed.

Lemma rect_axis_stable bnd lim mn a b :
  0 <= bnd -> 0 <= a <= bnd -> 0 <= b <= bnd -> 0 <= mn <= bnd -> 0 <= lim ->
  lim == 0 \/ mn <= lim ->
  let '(a', b') := rect_axis bnd lim mn a b in rect_axis bnd lim mn a' b' = (a', b').
Proof.
  intros Hbnd Ha Hb Hmn Hlim Hml.
  pose proof (rect_axis_range bnd lim mn a b Hbnd Ha Hb Hmn Hlim) as Hr.
  pose proof (rect_axis_size bnd lim mn a b) as Hs.
  destruct (rect_axis bnd lim mn a b) as [a' b']. unfold rect_axis.
  rewrite (limit_axis_stable lim mn a b a' ltac:(lra) Hlim Hml b' Hs).
  unfold push_low, push_high.
  rewrite (proj2 (Qltb_ge a' 0)) by lra. rewrite (proj2 (Qltb_ge b' 0)) by lra.
  by rewrite (proj2 (Qltb_ge bnd b')) by lra.
Qed.

Lemma getRect_idem v c :
  EnvOk v -> InBounds v c -> getRect v (fst (getRect v c)) = getRect v c.
Proof.
  intros Hv Hc. pose proof (getRect_axes v c Hv Hc) as Hg.
  pose proof (getRect_axes v _ Hv (proj1 (getRect_ok v c Hv Hc))) as Hg'.
  destruct Hc as [H1 H2 H3 H4].
  pose proof (rect_axis_stable (bx v) (xlimit v) (xmin v) (x1 c) (x2 c)
    (bx_nonneg v Hv) H1 H3 (eo_xmin v Hv) (eo_xlimit v Hv) (eo_xmax v Hv)) as Hx.
  pose proof (rect_axis_stable (by_ v) (ylimit v) (ymin v) (y1 c) (y2 c)
    (by_nonneg v Hv) H2 H4 (eo_ymin v Hv) (eo_ylimit v Hv) (eo_ymax v Hv)) as Hy.
  destruct (rect_axis (bx v) _ _ _ _) as [a b], (rect_axis (by_ v) _ _ _ _) as [a' b'].
  rewrite Hg in *. cbn in Hg'. rewrite Hx, Hy in Hg'. exact Hg'.
Qed.

(** A selection with both sides positive keeps its orientation. *)
Definition Ordered (c : coords) : Prop := x1 c < x2 c /\ y1 c < y2 c.

Lemma limit_axis_ordered lim mn a b :
  0 <= mn -> 0 <= lim -> a < b -> a < limit_axis lim mn a b.
Proof.
  intros Hmn Hlim Hab. unfold limit_axis, signed.
  assert ((0 <q b - a) = true) as -> by (apply Qltb_lt; lra).
  repeat case_test; qreflect; lra.
Qed.

Lemma getRect_ordered v c :
  EnvOk v -> InBounds v c -> Ordered c -> Ordered (fst (getRect v c)).
Proof.
  intros Hv Hc [Hx Hy]. pose proof (getRect_axes v c Hv Hc) as Hg.
  pose proof (rect_axis_size (bx v) (xlimit v) (xmin v) (x1 c) (x2 c)) as Sx.
  pose proof (rect_axis_size (by_ v) (ylimit v) (ymin v) (y1 c) (y2 c)) as Sy.
  destruct (rect_axis (bx v) _ _ _ _) as [a b], (rect_axis (by_ v) _ _ _ _) as [a' b'].
  rewrite Hg. destruct Hv.
  pose proof (limit_axis_ordered (xlimit v) (xmin v) _ _ ltac:(lra) ltac:(lra) Hx).
  pose proof (limit_axis_ordered (ylimit v) (ymin v) _ _ ltac:(lra) ltac:(lra) Hy).
  split; cbn; lra.
Qed.

Lemma moveOffset_ordered v o c :
  InBounds v c -> Ordered c ->
  InBounds v (moveOffset v o c) /\ Ordered (moveOffset v o c).
Proof.
  intros [H1 H2 H3 H4] [Hx Hy]. unfold moveOffset, Ordered. cbn.
  split_and!; try split; cbn; qcases.
Qed.

(** ** [getFixed] with an aspect ratio and no size limits *)

(** The signed distance at which a corner with ratio [aspect] sits. *)
Lemma Qdiv_mult_cancel (p a : Q) : ~ a == 0 -> p / a * a == p.
Proof. intros Ha. field. done. Qed.

Lemma Qdiv_nonneg (p a : Q) : 0 <= p -> 0 < a -> 0 <= p / a.
Proof. intros Hp Ha. apply Qle_shift_div_l; lra. Qed.

Lemma ratio_lt_spec w h a :
  0 <= w -> 0 <= h -> 0 < a ->
  (ratio_lt w h a = true -> 0 < h /\ w < h * a)
  /\ (ratio_lt w h a = false -> h * a <= w).
Proof.
  intros Hw Hh Ha. unfold ratio_lt. split; intros E.
  - qreflect. assert (0 < h) by lra. split; [done|].
    apply (Qmult_lt_r _ _ (/ h)); [by apply Qinv_lt_0_compat|].
    assert (h * a * / h == a) as -> by (field; lra). done.
  - apply andb_false_iff in E as [E|E]; qreflect.
    + rewrite E. lra.
    + destruct (Qlt_le_dec 0 h) as [Hpos|?]; [|nra].
      apply (Qmult_le_r _ _ (/ h)); [by apply Qinv_lt_0_compat|].
      assert (h * a * / h == a) as -> by (field; lra). done.
Qed.

(** A non-negative quotient as a number with its defining equation. *)
Lemma Qabs_div_spec (p a : Q) :
  0 < a -> 0 <= Qabs (p / a) /\ Qabs (p / a) * a == Qabs p.
Proof.
  intros Ha. split; [apply Qabs_nonneg|].
  rewrite <- (Qabs_pos a) at 2 by lra. rewrite <- Qabs_Qmult.
  by rewrite Qdiv_mult_cancel by lra.
Qed.

Lemma Qmult_lt_cancel (p q a : Q) : 0 < a -> p * a < q * a -> p < q.
Proof. intros Ha H. by apply (Qmult_lt_r _ _ a). Qed.

Lemma Qmult_le_cancel (p q a : Q) : 0 < a -> p * a <= q * a -> p <= q.
Proof. intros Ha H. by apply (Qmult_le_r _ _ a). Qed.

(** The corner has the wanted ratio and lies in the image. *)
Definition ratio_ok (v : env) (a : Q) (c : coords) (p : Q * Q) : Prop :=
  0 <= fst p <= bx v /\ 0 <= snd p <= by_ v
  /\ Qabs (fst p - x1 c) == a * Qabs (snd p - y1 c).

(** It is enough to give the two distances from the fixed end. *)
Lemma ratio_ok_intro v a c xx yy w h :
  0 <= xx <= bx v -> 0 <= yy <= by_ v -> 0 <= w -> 0 <= h -> w == h * a ->
  (xx == x1 c + w \/ xx == x1 c - w) -> (yy == y1 c + h \/ yy == y1 c - h) ->
  ratio_ok v a c (xx, yy).
Proof.
  intros Hx Hy Hw Hh Hr Hxx Hyy. unfold ratio_ok; cbn.
  rewrite (Qabs_eq_shift xx (x1 c) w), (Qabs_eq_shift yy (y1 c) h) by done.
  split_and!; try lra.
Qed.

Lemma fixed_wide_ok v a c :
  InBounds v c -> 0 < a -> 0 < Qabs (y2 c - y1 c) ->
  Qabs (x2 c - x1 c) < Qabs (y2 c - y1 c) * a ->
  ratio_ok v a c (fixed_wide v a c).
Proof.
  intros [H1 H2 H3 H4] Ha Hh0 Hw. unfold fixed_wide.
  set (rw := x2 c - x1 c) in *. set (rh := y2 c - y1 c) in *.
  pose proof (Qabs_cases rw) as Hrw. pose proof (Qabs_cases rh) as Hrh.
  set (rwa := Qabs rw) in *. set (rha := Qabs rh) in *. set (w := rha * a) in *.
  destruct (Qabs_div_spec (0 - x1 c) a Ha) as [Hl0 Hl].
  destruct (Qabs_div_spec (bx v - x1 c) a Ha) as [Hu0 Hu].
  rewrite (Qabs_neg (0 - x1 c)) in Hl by lra.
  rewrite (Qabs_pos (bx v - x1 c)) in Hu by lra.
  set (hl := Qabs ((0 - x1 c) / a)) in *. set (hu := Qabs ((bx v - x1 c) / a)) in *.
  assert (0 <= w) by (unfold w; nra).
  destruct (rw <q 0) eqn:Erw, (rh <q 0) eqn:Erh; qreflect; repeat case_test; qreflect;
    try (exfalso; lra).
  all: try (assert (hl < rha) by (apply (Qmult_lt_cancel _ _ a Ha); fold w; lra)).
  all: try (assert (hu < rha) by (apply (Qmult_lt_cancel _ _ a Ha); fold w; lra)).
  all: first
    [ apply (ratio_ok_intro v a c _ _ (x1 c) hl); solve [unfold rw, rh in *; lra]
    | apply (ratio_ok_intro v a c _ _ (bx v - x1 c) hu); solve [unfold rw, rh in *; lra]
    | apply (ratio_ok_intro v a c _ _ w rha); solve [unfold w, rw, rh in *; lra] ].
Qed.

Lemma fixed_tall_ok v a c :
  InBounds v c -> 0 < a -> Qabs (y2 c - y1 c) * a <= Qabs (x2 c - x1 c) ->
  ratio_ok v a c (fixed_tall v a c).
Proof.
  intros [H1 H2 H3 H4] Ha Hw. unfold fixed_tall.
  set (rw := x2 c - x1 c) in *. set (rh := y2 c - y1 c) in *.
  pose proof (Qabs_cases rw) as Hrw. pose proof (Qabs_cases rh) as Hrh.
  set (rwa := Qabs rw) in *. set (rha := Qabs rh) in *.
  assert (0 <= rwa / a) as Hq by (apply Qdiv_nonneg; [apply Qabs_nonneg|done]).
  pose proof (Qdiv_mult_cancel rwa a ltac:(lra)) as Hqa.
  set (h := rwa / a) in *.
  assert (Qabs ((0 - y1 c) * a) == y1 c * a) as Hl by (rewrite Qabs_neg by nra; lra).
  assert (Qabs (by_ v - y1 c) == by_ v - y1 c) as Hu by (apply Qabs_pos; lra).
  assert (rha <= h) by (apply (Qmult_le_cancel _ _ a Ha); lra).
  set (wl := Qabs ((0 - y1 c) * a)) in *. set (wu := Qabs (by_ v - y1 c)) in *.
  destruct (rw <q 0) eqn:Erw, (rh <q 0) eqn:Erh; qreflect; repeat case_test; qreflect;
    try (exfalso; lra).
  all: try (assert (y1 c * a < h * a) by (apply Qmult_lt_r; lra)).
  all: try (assert ((by_ v - y1 c) * a < h * a) by (apply Qmult_lt_r; lra)).
  all: try (assert (0 <= y1 c * a) by nra).
  all: try (assert (0 <= (by_ v - y1 c) * a) by nra).
  all: try (assert (wu * a == (by_ v - y1 c) * a) by (rewrite Hu; lra)).
  all: first
    [ apply (ratio_ok_intro v a c _ _ (y1 c * a) (y1 c)); solve [unfold rw, rh in *; lra]
    | apply (ratio_ok_intro v a c _ _ (wu * a) (by_ v - y1 c)); solve [unfold rw, rh in *; lra]
    | apply (ratio_ok_intro v a c _ _ rwa h); solve [unfold rw, rh in *; lra] ].
Qed.

Lemma fixed_corner_ok v a c :
  InBounds v c -> 0 < a -> ratio_ok v a c (fixed_corner v a c).
Proof.
  intros Hc Ha. unfold fixed_corner.
  destruct (ratio_lt_spec (Qabs (x2 c - x1 c)) (Qabs (y2 c - y1 c)) a) as [Hlt Hge];
    [apply Qabs_nonneg|apply Qabs_nonneg|done|].
  destruct (ratio_lt _ _ a).
  - destruct (Hlt eq_refl). by apply fixed_wide_ok.
  - by apply fixed_tall_ok; [..|apply Hge].
Qed.

Lemma fixed_size_default v a c xx yy :
  EnvOk v -> InBounds v c -> 0 < a ->
  minSize v = (0, 0) -> maxSize v = (0, 0) -> ratio_ok v a c (xx, yy) ->
  exists yy', yy' == yy /\ fixed_size v a c (xx, yy) = (xx, yy').
Proof.
  intros Hv [H1 H2 H3 H4] Ha Hmin Hmax (Hx & Hy & Hr). cbn [fst snd] in *.
  unfold fixed_size. rewrite Hmin, Hmax. cbn [fst snd].
  assert (0 / xscale v == 0) as H0 by (unfold Qdiv; lra).
  assert ((0 / xscale v =q 0) = true) as -> by by apply Qeq_bool_iff.
  generalize dependent (0 / xscale v). intros z Hz.
  pose proof (Qdiv_mult_cancel (xx - x1 c) a ltac:(lra)) as E1.
  pose proof (Qdiv_mult_cancel (x1 c - xx) a ltac:(lra)) as E2.
  destruct (Qabs_cases (xx - x1 c)) as [[? Ax]|[? Ax]], (Qabs_cases (yy - y1 c)) as [[? Ay]|[? Ay]];
    rewrite Ax, Ay in Hr;
    repeat case_test; qreflect; try (exfalso; nra); eexists; (split; [|reflexivity]); try lra;
    match goal with
    | |- y1 c + ?d / a == yy =>
        assert (d / a == yy - y1 c) as -> by (apply (Qmult_inj_r _ _ a); lra); lra
    | |- y1 c - ?d / a == yy =>
        assert (d / a == y1 c - yy) as -> by (apply (Qmult_inj_r _ _ a); lra); lra
    end.
Qed.

Lemma fixed_push_id bnd a p : 0 <= p <= bnd -> fixed_push bnd a p = (a, p).
Proof.
  intros Hp. unfold fixed_push.
  rewrite (proj2 (Qltb_ge _ _)) by lra. by rewrite (proj2 (Qltb_ge _ _)) by lra.
Qed.

(** ** [presize] *)

Lemma Qdiv_lt_1 (p q : Q) : 0 < q -> p < q -> p / q < 1.
Proof. intros Hq H. apply Qlt_shift_div_r; lra. Qed.

Lemma presize_cases w0 h0 w h :
  0 < w0 -> 0 < h0 ->
  exists k, 0 < k <= 1
    /\ fst (fst (presize w0 h0 w h)) == k * w0 /\ snd (fst (presize w0 h0 w h)) == k * h0
    /\ (0 < w -> k * w0 <= w) /\ (0 < h -> k * h0 <= h).
Proof.
  intros Hw0 Hh0. unfold presize.
  pose proof (Qdiv_mult_cancel w w0 ltac:(lra)) as Ew.
  pose proof (Qdiv_mult_cancel h h0 ltac:(lra)) as Eh.
  destruct ((w <q w0) && (0 <q w)) eqn:E1.
  - qreflect. assert (0 < w / w0) by (apply Qlt_shift_div_l; lra).
    pose proof (Qdiv_lt_1 w w0 Hw0 ltac:(done)).
    set (kw := w / w0) in *. set (kh := h / h0) in *.
    destruct ((h <q kw * h0) && (0 <q h)) eqn:E2.
    + qreflect. assert (0 < kh) by (apply Qlt_shift_div_l; lra).
      assert (kh < kw) by (apply (Qmult_lt_cancel _ _ h0); lra).
      assert (kh * w0 <= kw * w0) by (apply Qmult_le_r; lra).
      exists kh. cbn. split_and!; try done; lra.
    + exists kw. cbn. split_and!; try done; try lra.
      intros Hh. apply andb_false_iff in E2 as [E2|E2]; qreflect; lra.
  - set (kh := h / h0) in *.
    destruct ((h <q h0) && (0 <q h)) eqn:E2.
    + qreflect. assert (0 < kh) by (apply Qlt_shift_div_l; lra).
      pose proof (Qdiv_lt_1 h h0 Hh0 ltac:(done)). fold kh in H2.
      exists kh. cbn. split_and!; try done; try lra.
      intros Hw. apply andb_false_iff in E1 as [E1|E1]; qreflect; nra.
    + exists 1. cbn. split_and!; try done; try lra.
      * intros Hw. apply andb_false_iff in E1 as [E1|E1]; qreflect; lra.
      * intros Hh. apply andb_false_iff in E2 as [E2|E2]; qreflect; lra.
Qed.

(** ** [unscale] *)

Lemma parse_int_mono p q : 0 <= p -> p <= q -> (parse_int p <= parse_int q)%Z.
Proof.
  intros Hp Hpq. unfold parse_int.
  rewrite (proj2 (Qle_bool_iff 0 p)) by lra.
  rewrite (proj2 (Qle_bool_iff 0 q)) by lra. by apply Qfloor_resp_le.
Qed.

Lemma parse_int_nonneg p : 0 <= p -> (0 <= parse_int p)%Z.
Proof.
  intros Hp. change 0%Z with (parse_int 0). by apply parse_int_mono.
Qed.

Lemma inject_Z_mono a b : (a <= b)%Z -> inject_Z a <= inject_Z b.
Proof. intros H. by rewrite <- Zle_Qle. Qed.

(** The selection in pixels of the original image lies in that image. *)
Lemma unscale_ok v r :
  EnvOk v -> RectOk (boundx v) (boundy v) r ->
  let u := unscale v r in
  (0 <= r_x u <= r_x2 u)%Z /\ inject_Z (r_x2 u) <= bx v * xscale v
  /\ (0 <= r_y u <= r_y2 u)%Z /\ inject_Z (r_y2 u) <= by_ v * yscale v.
Proof.
  intros Hv [Hx Hx2 Hy Hy2 _ _].
  pose proof (eo_xscale v Hv) as Hsx. pose proof (eo_yscale v Hv) as Hsy.
  assert (forall p s, (0 <= p)%Z -> 0 < s -> 0 <= inject_Z p * s) as Hnn.
  { intros p s Hp Hs. apply inject_Z_mono in Hp. change (inject_Z 0) with 0 in Hp. nra. }
  assert (forall p q s, (p <= q)%Z -> 0 < s -> inject_Z p * s <= inject_Z q * s) as Hmono.
  { intros p q s Hpq Hs. apply inject_Z_mono in Hpq. nra. }
  assert (forall p, 0 <= p -> inject_Z (parse_int p) <= p) as Hfl.
  { intros p Hp. unfold parse_int. rewrite (proj2 (Qle_bool_iff 0 p)) by lra.
    apply Qfloor_le. }
  cbn. split_and!.
  - apply parse_int_nonneg, Hnn; [lia|done].
  - apply parse_int_mono; [apply Hnn|apply Hmono]; done || lia.
  - eapply Qle_trans; [apply Hfl, Hnn; [lia|done]|]. by apply Hmono.
  - apply parse_int_nonneg, Hnn; [lia|done].
  - apply parse_int_mono; [apply Hnn|apply Hmono]; done || lia.
  - eapply Qle_trans; [apply Hfl, Hnn; [lia|done]|]. by apply Hmono.
Qed.

(** ** Properties *)

(** Without an aspect ratio, reading the selection keeps both corners in
    the image and gives a rectangle inside it with non-negative sides, for
    every position of the corners in the image and all size limits whose
    minimum fits. *)
Theorem getFixed_in_image v c :
  EnvOk v -> aspectRatio v == 0 -> InBounds v c ->
  InBounds v (fst (getFixed v c)) /\ RectOk (boundx v) (boundy v) (snd (getFixed v c)).
Proof.
  intros Hv Ha Hc. unfold getFixed.
  rewrite (proj2 (Qeq_bool_iff _ _) Ha). by apply getRect_ok.
Qed.

(** Without an aspect ratio, the selection that is read obeys the limits:
    with a maximal size not below the minimal one, the distance of the corners
    on each axis ends between the two. *)
Theorem getRect_limits v c :
  EnvOk v -> InBounds v c -> 0 < xlimit v -> 0 < ylimit v ->
  xmin v <= xlimit v -> ymin v <= ylimit v ->
  let c' := fst (getRect v c) in
  xmin v <= Qabs (x2 c' - x1 c') <= xlimit v
  /\ ymin v <= Qabs (y2 c' - y1 c') <= ylimit v.
Proof.
  intros Hv Hc Hlx Hly Hmx Hmy. pose proof (getRect_axes v c Hv Hc) as Hg.
  pose proof (rect_axis_size (bx v) (xlimit v) (xmin v) (x1 c) (x2 c)) as Sx.
  pose proof (rect_axis_size (by_ v) (ylimit v) (ymin v) (y1 c) (y2 c)) as Sy.
  destruct (rect_axis (bx v) _ _ _ _) as [a b], (rect_axis (by_ v) _ _ _ _) as [a' b'].
  rewrite Hg. cbn. rewrite Sx, Sy.
  pose proof (eo_xmin v Hv). pose proof (eo_ymin v Hv).
  split; apply limit_axis_size; lra.
Qed.

(** With an aspect ratio and the default size limits, the corner the code
    computes lies in the image, its distances from the fixed corner have
    exactly the wanted ratio, and the rectangle is its rounding. *)
Theorem getFixed_ratio v c :
  EnvOk v -> InBounds v c -> 0 < aspectRatio v ->
  minSize v = (0, 0) -> maxSize v = (0, 0) ->
  exists xx yy, ratio_ok v (aspectRatio v) c (xx, yy)
    /\ getFixed v c = (c, makeObj (flipCoords (x1 c) (y1 c) xx yy))
    /\ RectOk (boundx v) (boundy v) (snd (getFixed v c)).
Proof.
  intros Hv Hc Ha Hmin Hmax. unfold getFixed.
  rewrite (proj2 (Qeqb_neq _ _)) by lra.
  pose proof (fixed_corner_ok v (aspectRatio v) c Hc Ha) as Hr.
  destruct (fixed_corner v (aspectRatio v) c) as [xx yy].
  destruct (fixed_size_default v (aspectRatio v) c xx yy) as (yy' & Hyy & ->); try done.
  destruct Hr as (Hx & Hy & Hr). cbn [fst snd] in *.
  assert (0 <= yy' <= by_ v) as Hy' by (rewrite Hyy; done).
  rewrite !fixed_push_id by done. exists xx, yy'. split_and!.
  - unfold ratio_ok. cbn. by rewrite Hyy.
  - by destruct c.
  - destruct Hc. by apply flip_makeObj_ok.
Qed.

(** Moving a sorted selection that lies in the image, by any offset, moves
    it rigidly and leaves it in the image. *)
Theorem moveOffset_rigid v o c :
  InBounds v c -> Sorted c ->
  let c' := moveOffset v o c in
  InBounds v c' /\ Sorted c'
  /\ x2 c' - x1 c' == x2 c - x1 c /\ y2 c' - y1 c' == y2 c - y1 c.
Proof.
  intros [H1 H2 H3 H4] [Hx Hy]. unfold moveOffset, Sorted. cbn.
  split_and!; try split; cbn; qcases.
Qed.

(** The displayed image fits its box and both scales are equal, so the
    ratio of the sides is kept. *)
Theorem presize_fits w0 h0 w h :
  0 < w0 -> 0 < h0 ->
  let '((nw, nh), (sx, sy)) := presize w0 h0 w h in
  0 < nw <= w0 /\ 0 < nh <= h0 /\ (0 < w -> nw <= w) /\ (0 < h -> nh <= h)
  /\ sx == sy /\ 1 <= sx.
Proof.
  intros Hw Hh. destruct (presize_cases w0 h0 w h Hw Hh) as (k & Hk & E1 & E2 & B1 & B2).
  assert (snd (presize w0 h0 w h)
    = (w0 / fst (fst (presize w0 h0 w h)), h0 / snd (fst (presize w0 h0 w h)))) as E3.
  { unfold presize. by repeat case_test. }
  destruct (presize w0 h0 w h) as [[nw nh] [sx sy]]. cbn in *. simplify_eq.
  assert (0 < k * w0 <= w0 /\ 0 < k * h0 <= h0) as [? ?] by nra.
  assert (w0 / nw == 1 / k) as -> by (rewrite E1; field; lra).
  assert (h0 / nh == 1 / k) as -> by (rewrite E2; field; lra).
  split_and!; try lra. apply Qle_shift_div_l; lra.
Qed.

(** A minimal width above that of the image sends the reading of a
    selection through the correction that mixes up the axes: a selection
    inside a 100 x 1000 image with vertical extent 10..20 is read with
    vertical extent 890..900. *)
Theorem getRect_axis_mixup :
  exists v c, InBounds v c /\ (boundx v, boundy v) = (100, 1000)%Z
    /\ xmin v == 120 /\ (y1 c, y2 c) = (10, 20)
    /\ (r_y (snd (getRect v c)), r_y2 (snd (getRect v c))) = (890, 900)%Z.
Proof.
  exists (mkEnv 0 (120, 0) (0, 0) 100 1000 0 0 120 0 1 1), (mkCoords 50 10 40 20 None None).
  split_and!; try split; try (cbn; lra); vm_compute; split; discriminate || reflexivity.
Qed.
