(* ===== verification/Jcrop.v ===== *)
(** * The crop plug-in Jcrop (zyupload-1.0.0.js, $.Jcrop)

    The closure of [$.Jcrop] as a record: the selection ([Coords]), the state
    of the modules Selection, Tracker and KeyManager, the option object and
    what the plug-in shows on the page.  The handlers that Tracker keeps in
    [onMove] and [onDone] are closures; the type of each lists the functions
    that are ever stored there, with the variables they capture. *)

From stdpp Require Import base gmap list.
From Stdlib Require Import QArith Qabs Qround Lqa.
From S2P Require Import Prelude JcropCoords.

#[local] Open Scope Q_scope.

(** ** Data *)

#[export] Instance ord_countable : Countable ord.
Proof.
  apply (inj_countable'
    (fun o => match o with
     | N_ => 0 | S_ => 1 | E_ => 2 | W_ => 3 | NE => 4 | NW => 5 | SE => 6 | SW => 7
     end%nat)
    (fun n => match n with
     | 0 => N_ | 1 => S_ | 2 => E_ | 3 => W_ | 4 => NE | 5 => NW | 6 => SE | _ => SW
     end%nat)).
  by intros [].
Defined.

(** A handle ([Knob]) or a drag bar on an edge ([Bar]). *)
Definition hname : Type := bool * ord.
Definition Knob (o : ord) : hname := (false, o).
Definition Bar (o : ord) : hname := (true, o).

Inductive cursor := CurMove | CurResize (o : ord) | CurCrosshair | CurDefault.

#[export] Instance cursor_eq_dec : EqDecision cursor.
Proof. solve_decision. Defined.

(** The options the code reads; [o_setSelect] and [o_trueSize] are present
    only when given. *)
Record opts := mkOpts {
  o_disabled : bool;
  o_allowSelect : bool;
  o_allowMove : bool;
  o_allowResize : bool;
  o_drawBorders : bool;
  o_dragEdges : bool;
  o_sideHandles : bool;
  o_cornerHandles : bool;
  o_keySupport : bool;
  o_trackDocument : bool;
  o_handleOffset : Z;
  o_bgOpacity : Q;
  o_aspectRatio : Q;
  o_minSelect : Z * Z;
  o_maxSize : Q * Q;
  o_minSize : Q * Q;
  o_swingSpeed : Q;
  o_setSelect : option (Q * Q * Q * Q);
  o_trueSize : option (Q * Q);
}.

#[export] Instance opts_eta : Eta opts :=
  fun r => mkOpts (o_disabled r) (o_allowSelect r) (o_allowMove r) (o_allowResize r)
    (o_drawBorders r) (o_dragEdges r) (o_sideHandles r) (o_cornerHandles r)
    (o_keySupport r) (o_trackDocument r) (o_handleOffset r) (o_bgOpacity r)
    (o_aspectRatio r) (o_minSelect r) (o_maxSize r) (o_minSize r) (o_swingSpeed r)
    (o_setSelect r) (o_trueSize r).

Definition defaults : opts :=
  mkOpts false true true true true true true true true true 5 (6 # 10) 0 (0, 0)%Z
    (0, 0) (0, 0) 3 None None.

(** What the plug-in shows: positions are (left, top). *)
Record view := mkView {
  sel_shown : bool;
  hdl_shown : bool;
  img_opacity : Q;
  sel_pos : Z * Z;
  sel_size : Z * Z;
  img2_pos : Z * Z;
  border_right : Z;
  border_bottom : Z;
  handles : gmap hname (Z * Z);
  trk_cursor : cursor;
  track_cursor : cursor;
  trk_front : bool;
  doc_bound : bool;
  keymgr_shown : bool;
}.

#[export] Instance view_eta : Eta view :=
  fun r => mkView (sel_shown r) (hdl_shown r) (img_opacity r) (sel_pos r) (sel_size r)
    (img2_pos r) (border_right r) (border_bottom r) (handles r) (trk_cursor r)
    (track_cursor r) (trk_front r) (doc_bound r) (keymgr_shown r).

(** The functions stored in [onMove] and [onDone]. *)
Inductive mover :=
| MNothing                           (** [function() { }] *)
| MNull                              (** [null] *)
| MSelectDrag                        (** [selectDrag] *)
| MDragMode (mode : ord) (f : rect)  (** [dragmodeHandler(mode, f)] *)
| MMover (lloc : Q * Q).             (** [createMover(pos)] *)

Inductive doner := DNothing | DNull | DDoneSelect.

(** A drag starts from a handle or moves the selection. *)
Inductive drag := DragMove | DragOrd (o : ord).

(** What the page is told: [onChange] and [onSelect]. *)
Inductive report := RChange (r : rect) | RSelect (r : rect).

(** The variables of a running animation. *)
Record anim := mkAnim {
  an_from : Q * Q * Q * Q;
  an_delta : Q * Q * Q * Q;
  an_pcent : Q;
}.

#[export] Instance anim_eta : Eta anim :=
  fun r => mkAnim (an_from r) (an_delta r) (an_pcent r).

Record jcrop := mkJ {
  j_env : env;
  j_opt : opts;
  j_opt0 : option (Q * Q * Q * Q);  (** [opt.setSelect] of the constructor *)
  j_c : coords;
  btndown : bool;
  lastcurs : option cursor;
  animating : bool;
  shift_down : bool;
  onMove : mover;
  onDone : doner;
  awake : bool;
  seehandles : bool;
  trackDoc : bool;                  (** [options.trackDocument] when Tracker was made *)
  hhs : Z;                          (** [options.handleOffset] when Selection was made *)
  imgOffset : Q * Q;                (** where the image is on the page *)
  docOffset : Q * Q;
  j_view : view;
  j_anim : option anim;             (** the animation whose timer is set *)
  reports : list report;
}.

#[export] Instance jcrop_eta : Eta jcrop :=
  fun r => mkJ (j_env r) (j_opt r) (j_opt0 r) (j_c r) (btndown r) (lastcurs r)
    (animating r) (shift_down r) (onMove r) (onDone r) (awake r) (seehandles r)
    (trackDoc r) (hhs r) (imgOffset r) (docOffset r) (j_view r) (j_anim r) (reports r).

(** ** Selection *)

(** [Coords.getFixed()]: it also corrects the corners. *)
Definition readFixed (j : jcrop) : jcrop * rect :=
  let '(c, r) := getFixed (j_env j) (j_c j) in (j <| j_c := c |>, r).

Definition setPos (n : hname) (f : Z * Z -> Z * Z) (m : gmap hname (Z * Z)) :=
  alter f n m.

Definition moveHandles (r : rect) (j : jcrop) : jcrop :=
  let hhs := hhs j in
  let midvert := math_round (inject_Z (r_h r) / 2 - inject_Z hhs) in
  let midhoriz := math_round (inject_Z (r_w r) / 2 - inject_Z hhs) in
  let east := (r_w r - hhs)%Z in
  let south := (r_h r - hhs)%Z in
  let left_ (x : Z) (p : Z * Z) := (x, snd p) in
  let top_ (y : Z) (p : Z * Z) := (fst p, y) in
  let sides m := if decide (is_Some (m !! Knob E_)) then
      setPos (Knob N_) (left_ midhoriz)
     (setPos (Knob S_) (fun _ => (midhoriz, south))
     (setPos (Knob W_) (top_ midvert)
     (setPos (Knob E_) (fun _ => (east, midvert)) m))) else m in
  let corners m := if decide (is_Some (m !! Knob NE)) then
      setPos (Knob SW) (top_ south)
     (setPos (Knob SE) (fun _ => (east, south))
     (setPos (Knob NE) (left_ east) m)) else m in
  let bars m := if decide (is_Some (m !! Bar S_)) then
      setPos (Bar E_) (left_ east) (setPos (Bar S_) (top_ south) m) else m in
  j <| j_view ::= fun w => w <| handles ::= fun m => bars (corners (sides m)) |> |>.

Definition moveto (x y : Z) (w : view) : view :=
  w <| img2_pos := (- x, - y)%Z |> <| sel_pos := (x, y) |>.

Definition resize (w h : Z) (u : view) : view := u <| sel_size := (w, h) |>.

Definition show (j : jcrop) : jcrop :=
  j <| j_view ::= fun w => w <| sel_shown := true |>
                             <| img_opacity := o_bgOpacity (j_opt j) |> |>
    <| awake := true |>.

Definition update (j0 : jcrop) : jcrop :=
  let '(j, r) := readFixed j0 in
  let j := j <| j_view ::= fun w => moveto (r_x r) (r_y r) (resize (r_w r) (r_h r) w) |> in
  let j := if o_drawBorders (j_opt j)
           then j <| j_view ::= fun w => w <| border_right := (r_w r - 1)%Z |>
                                           <| border_bottom := (r_h r - 1)%Z |> |>
           else j in
  let j := if seehandles j then moveHandles r j else j in
  let j := if awake j then j else show j in
  j <| reports ::= fun l => l ++ [RChange (unscale (j_env j) r)] |>.

Definition updateVisible (j : jcrop) : jcrop := if awake j then update j else j.

Definition disableHandles (j : jcrop) : jcrop :=
  j <| seehandles := false |> <| j_view ::= fun w => w <| hdl_shown := false |> |>.

Definition enableHandles (j : jcrop) : jcrop :=
  let j := j <| seehandles := true |> in
  if o_allowResize (j_opt j) then
    let '(j, r) := readFixed j in
    let j := moveHandles r j in
    j <| j_view ::= fun w => w <| hdl_shown := true |> |>
  else j.

Definition enableOnly (j : jcrop) : jcrop := j <| seehandles := true |>.

Definition showHandles (j : jcrop) : jcrop :=
  if seehandles j then
    let '(j, r) := readFixed j in
    (moveHandles r j) <| j_view ::= fun w => w <| hdl_shown := true |> |>
  else j.

Definition release (j : jcrop) : jcrop :=
  (disableHandles j)
    <| j_view ::= fun w => w <| sel_shown := false |> <| img_opacity := 1 |> |>
    <| awake := false |>.

Definition animMode (b : bool) (j : jcrop) : jcrop :=
  let j := j <| animating := b |> in
  if b then disableHandles j else enableHandles j.

Definition rect_nw (r : rect) : Q * Q := (inject_Z (r_x r), inject_Z (r_y r)).
Definition rect_se (r : rect) : Q * Q := (inject_Z (r_x2 r), inject_Z (r_y2 r)).

Definition refresh (j : jcrop) : jcrop :=
  let '(j, r) := readFixed j in
  updateVisible (j <| j_c ::= fun c => setCurrent (j_env j) (rect_se r)
                                         (setPressed (j_env j) (rect_nw r) c) |>).

Definition done (j : jcrop) : jcrop := refresh (animMode false j).

Definition selSetCursor (c : cursor) (j : jcrop) : jcrop :=
  j <| j_view ::= fun w => w <| track_cursor := c |> |>.

(** ** Tracker *)

Definition setCursor (c : cursor) (j : jcrop) : jcrop :=
  j <| j_view ::= fun w => w <| trk_cursor := c |> |>.

Definition toFront (j : jcrop) : jcrop :=
  j <| j_view ::= fun w => w <| trk_front := true |>
         <| doc_bound ::= fun b => if trackDoc j then true else b |> |>.

Definition toBack (j : jcrop) : jcrop :=
  j <| j_view ::= fun w => w <| trk_front := false |>
         <| doc_bound ::= fun b => if trackDoc j then false else b |> |>.

Definition activateHandlers (move : mover) (dn : doner) (j : jcrop) : jcrop :=
  toFront (j <| btndown := true |> <| onMove := move |> <| onDone := dn |>).

Definition mouseAbs (page : Q * Q) (j : jcrop) : Q * Q :=
  (fst page - fst (docOffset j), snd page - snd (docOffset j)).

Definition myCursor (c : cursor) (j : jcrop) : jcrop :=
  if decide (lastcurs j = Some c) then j
  else (setCursor c j) <| lastcurs := Some c |>.

(** [KeyManager.watchKeys] and the loss of its focus. *)
Definition watchKeys (j : jcrop) : jcrop :=
  if o_keySupport (j_opt j)
  then j <| j_view ::= fun w => w <| keymgr_shown := true |> |> else j.

Definition onBlur (j : jcrop) : jcrop :=
  j <| j_view ::= fun w => w <| keymgr_shown := false |> |>.

(** ** The handlers of a drag *)

Definition selectDrag (pos : Q * Q) (j : jcrop) : jcrop :=
  update (j <| j_c ::= setCurrent (j_env j) pos |>).

Definition dragmodePos (mode : ord) (f : rect) (ratio : bool) (pos : Q * Q) : Q * Q :=
  if negb ratio then
    match mode with
    | E_ | W_ => (fst pos, inject_Z (r_y2 f))
    | N_ | S_ => (inject_Z (r_x2 f), snd pos)
    | _ => pos
    end
  else
    match mode with
    | E_ | W_ => (fst pos, inject_Z (r_y f + 1))
    | N_ | S_ => (inject_Z (r_x f + 1), snd pos)
    | _ => pos
    end.

Definition dragmodeHandler (mode : ord) (f : rect) (pos : Q * Q) (j : jcrop) : jcrop :=
  let ratio := negb (o_aspectRatio (j_opt j) =q 0) in
  update (j <| j_c ::= setCurrent (j_env j) (dragmodePos mode f ratio pos) |>).

Definition moverHandler (lloc pos : Q * Q) (j : jcrop) : jcrop :=
  let j := j <| j_c ::= moveOffset (j_env j) (fst pos - fst lloc, snd pos - snd lloc) |> in
  update (j <| onMove := MMover pos |>).

Definition doneSelect (j : jcrop) : jcrop :=
  let '(j, r) := readFixed j in
  let j := if (fst (o_minSelect (j_opt j)) <? r_w r)%Z && (snd (o_minSelect (j_opt j)) <? r_h r)%Z
           then done (enableHandles j)
           else release j in
  setCursor (if o_allowSelect (j_opt j) then CurCrosshair else CurDefault) j.

(** [onMove(pos)]; calling [null] throws. *)
Definition trackMove (page : Q * Q) (j : jcrop) : jcrop * result unit :=
  let pos := mouseAbs page j in
  match onMove j with
  | MNothing => (j, Ret tt)
  | MNull => (j, Throw)
  | MSelectDrag => (selectDrag pos j, Ret tt)
  | MDragMode mode f => (dragmodeHandler mode f pos j, Ret tt)
  | MMover lloc => (moverHandler lloc pos j, Ret tt)
  end.

Definition trackUp (page : Q * Q) (j : jcrop) : jcrop * result unit :=
  if btndown j then
    let j := j <| btndown := false |> in
    match onDone j with
    | DNull => (j, Throw)
    | d =>
        let j := match d with DDoneSelect => doneSelect j | _ => j end in
        let '(j, r) := readFixed j in
        let j := j <| reports ::= fun l => l ++ [RSelect (unscale (j_env j) r)] |> in
        let j := toBack j in
        (j <| onMove := MNothing |> <| onDone := DNothing |>, Ret tt)
    end
  else (j, Ret tt).

(** The corner of the rectangle as a point; [getCorner] is only called with
    a corner. *)
Definition readCorner (o : ord) (j : jcrop) : jcrop * (Q * Q) :=
  let '(c, p) := getCorner (j_env j) o (j_c j) in
  (j <| j_c := c |>, match p with Some (x, y) => (inject_Z x, inject_Z y) | None => (0, 0) end).

Definition startDragMode (mode : drag) (pos : Q * Q) (j : jcrop) : jcrop :=
  let j := j <| docOffset := imgOffset j |> in
  match mode with
  | DragMove =>
      activateHandlers (MMover pos) DDoneSelect (watchKeys (setCursor CurMove j))
  | DragOrd o =>
      let j := setCursor (CurResize o) j in
      let '(j, fc) := readFixed j in
      let opp := oppLockCorner o in
      let '(j, opc) := readCorner (oppLockCorner opp) j in
      let '(j, p) := readCorner opp j in
      let j := j <| j_c ::= fun c => setCurrent (j_env j) opc (setPressed (j_env j) p c) |> in
      activateHandlers (MDragMode o fc) DDoneSelect j
  end.

(** Mouse down on a handle or on the selection. *)
Definition createDragger (o : drag) (page : Q * Q) (j : jcrop) : jcrop :=
  if o_disabled (j_opt j) then j
  else match o with
  | DragMove =>
      if negb (o_allowMove (j_opt j)) then j
      else startDragMode o (mouseAbs page j) (j <| btndown := true |>)
  | _ => startDragMode o (mouseAbs page j) (j <| btndown := true |>)
  end.

(** Mouse down outside the selection. *)
Definition newSelection (page : Q * Q) (j : jcrop) : jcrop :=
  if o_disabled (j_opt j) then j
  else if negb (o_allowSelect (j_opt j)) then j
  else
    let j := j <| btndown := true |> <| docOffset := imgOffset j |> in
    let j := myCursor CurCrosshair (disableHandles j) in
    let pos := mouseAbs page j in
    let j := j <| j_c ::= setPressed (j_env j) pos |> in
    update (watchKeys (activateHandlers MSelectDrag DDoneSelect j)).

(** ** KeyManager *)

Record key := mkKey { k_ctrl : bool; k_shift : bool; k_code : Z }.

Definition doNudge (o : Q * Q) (j : jcrop) : jcrop :=
  if o_allowMove (j_opt j)
  then updateVisible (j <| j_c ::= moveOffset (j_env j) o |>)
  else j.

(** The function [nothing] that [parseKey] ends with is defined nowhere, so
    the call throws. *)
Definition parseKey (e : key) (j : jcrop) : jcrop * result bool :=
  if k_ctrl e then (j, Ret true)
  else
    let j := j <| shift_down := k_shift e |> in
    let nudge : Q := if shift_down j then 10 else 1 in
    if (k_code e =? 37)%Z then (doNudge (- nudge, 0) j, Throw)
    else if (k_code e =? 39)%Z then (doNudge (nudge, 0) j, Throw)
    else if (k_code e =? 38)%Z then (doNudge (0, - nudge) j, Throw)
    else if (k_code e =? 40)%Z then (doNudge (0, nudge) j, Throw)
    else if (k_code e =? 27)%Z then (release j, Throw)
    else if (k_code e =? 9)%Z then (j, Ret true)
    else (j, Throw).

(** ** The interface of the plug-in *)

Definition setSelectRaw (l : Q * Q * Q * Q) (j : jcrop) : jcrop :=
  let '(a, b, c, d) := l in
  update (j <| j_c ::= fun k => setCurrent (j_env j) (c, d)
                                  (setPressed (j_env j) (a, b) k) |>).

Definition setSelect (r : Q * Q * Q * Q) (j : jcrop) : jcrop :=
  let '(a, b, c, d) := r in
  let sx := xscale (j_env j) in
  let sy := yscale (j_env j) in
  setSelectRaw (a / sx, b / sy, c / sx, d / sy) j.

Definition tellSelect (j : jcrop) : jcrop * rect :=
  let '(j, r) := readFixed j in (j, unscale (j_env j) r).

Definition tellScaled (j : jcrop) : jcrop * rect := readFixed j.

(** [animateTo]: the animation runs from the current selection to [a]. *)
Definition animateTo (a : Q * Q * Q * Q) (j : jcrop) : jcrop :=
  let '(p, q, r, s) := a in
  let sx := xscale (j_env j) in
  let sy := yscale (j_env j) in
  if animating j then j
  else
    let '(t1, t2, t3, t4) := flipCoords (p / sx) (q / sy) (r / sx) (s / sy) in
    let '(j, c) := readFixed j in
    let from := (inject_Z (r_x c), inject_Z (r_y c), inject_Z (r_x2 c), inject_Z (r_y2 c)) in
    let delta := (inject_Z (t1 - r_x c), inject_Z (t2 - r_y c),
                  inject_Z (t3 - r_x2 c), inject_Z (t4 - r_y2 c)) in
    (animMode true j) <| j_anim := Some (mkAnim from delta 0) |>.

Definition anim_at (an : anim) (pcent : Q) : Q * Q * Q * Q :=
  let '(a, b, c, d) := an_from an in
  let '(da, db, dc, dd) := an_delta an in
  let k := pcent / 100 in
  (a + k * da, b + k * db, c + k * dc, d + k * dd).

(** One tick of the timer. *)
Definition animator (j : jcrop) : jcrop :=
  match j_anim j with
  | None => j
  | Some an =>
      let pcent := an_pcent an + (100 - an_pcent an) / o_swingSpeed (j_opt j) in
      let animat := anim_at an pcent in
      let again := pcent <q 100 in
      let j := if again then j else done j in
      let pcent' := if (998 # 10) <=q pcent then 100 else pcent in
      let j := j <| j_anim := if again then Some (an <| an_pcent := pcent' |>) else None |> in
      setSelectRaw animat j
  end.

(** [interfaceUpdate(alt)].  The selection it applies is that of the
    constructor's argument, whatever the options say now. *)
Definition interfaceUpdate (alt : bool) (j : jcrop) : jcrop * result unit :=
  let j := if o_allowResize (j_opt j)
           then if alt then enableOnly j else enableHandles j
           else disableHandles j in
  let j := setCursor (if o_allowSelect (j_opt j) then CurCrosshair else CurDefault) j in
  let j := selSetCursor (if o_allowMove (j_opt j) then CurMove else CurDefault) j in
  let '(j, ok) :=
    match o_setSelect (j_opt j) with
    | None => (j, true)
    | Some _ =>
        match j_opt0 j with
        | None => (j, false)
        | Some r => ((done (setSelect r j)) <| j_opt ::= fun o => o <| o_setSelect := None |> |>, true)
        end
    end in
  if negb ok then (j, Throw)
  else
    let j := match o_trueSize (j_opt j) with
             | Some (w, h) =>
                 j <| j_env ::= fun v => v <| xscale := w / inject_Z (boundx v) |>
                                           <| yscale := h / inject_Z (boundy v) |> |>
             | None => j
             end in
    let o := j_opt j in
    let j := j <| j_env ::= fun v => v <| xlimit := fst (o_maxSize o) |>
                                       <| ylimit := snd (o_maxSize o) |>
                                       <| xmin := fst (o_minSize o) |>
                                       <| ymin := snd (o_minSize o) |> |> in
    (refresh j, Ret tt).

(** [$.extend(options, opt)] is a function on the options; the fields of the
    environment that come from the options follow it. *)
Definition setOptions (f : opts -> opts) (j : jcrop) : jcrop :=
  let j := j <| j_opt ::= f |> in
  j <| j_env ::= fun v => v <| aspectRatio := o_aspectRatio (j_opt j) |>
                            <| minSize := o_minSize (j_opt j) |>
                            <| maxSize := o_maxSize (j_opt j) |> |>.

Definition setOptionsNew (f : opts -> opts) (j : jcrop) : jcrop * result unit :=
  interfaceUpdate false (setOptions f j).

Definition disableCrop (j : jcrop) : jcrop :=
  let j := j <| j_opt ::= fun o => o <| o_disabled := true |> |> in
  setCursor CurDefault (selSetCursor CurDefault (disableHandles j)).

Definition enableCrop (j : jcrop) : jcrop * result unit :=
  interfaceUpdate false (j <| j_opt ::= fun o => o <| o_disabled := false |> |>).

Definition cancelCrop (j : jcrop) : jcrop := activateHandlers MNull DNull (done j).

(** ** The constructor *)

Definition initial_handles (o : opts) : gmap hname (Z * Z) :=
  let p := (1 - o_handleOffset o, 1 - o_handleOffset o)%Z in
  let add := foldr (fun n m => <[n := p]> m) in
  let m := if o_dragEdges o then add ∅ (Bar <$> [N_; S_; E_; W_]) else ∅ in
  let m := if o_sideHandles o then add m (Knob <$> [N_; S_; E_; W_]) else m in
  if o_cornerHandles o then add m (Knob <$> [SW; NW; NE; SE]) else m.

Definition initial_view (o : opts) : view :=
  mkView true false 1 (0, 0)%Z (0, 0)%Z (0, 0)%Z 0 0 (initial_handles o)
    CurDefault CurMove false false false.

(** [$.Jcrop(obj, opt)] on an image of size [w0] x [h0] shown at page offset
    [off] in a [boxw] x [boxh] box; [width] and [height] are the sizes the
    browser then gives the displayed image. *)
Definition Jcrop_new (w0 h0 boxw boxh : Q) (width height : Z) (off : Q * Q) (o : opts) : jcrop :=
  let '(_, (sx, sy)) := presize w0 h0 boxw boxh in
  let v := mkEnv (o_aspectRatio o) (o_minSize o) (o_maxSize o) width height 0 0 0 0 sx sy in
  let j := mkJ v o (o_setSelect o) coords_initial false None false false MNothing DNothing
             false false (o_trackDocument o) (o_handleOffset o) off off (initial_view o) None [] in
  fst (interfaceUpdate true (disableHandles j)).

(** ** Lemmas: what the operations leave alone *)

(** [j'] differs from [j] in what is shown, and its corners are those of [j],
    possibly after a reading. *)
Record Shown (j j' : jcrop) : Prop := {
  sh_env : j_env j' = j_env j;
  sh_opt : j_opt j' = j_opt j;
  sh_btn : btndown j' = btndown j;
  sh_move : onMove j' = onMove j;
  sh_done : onDone j' = onDone j;
  sh_awake : awake j' = awake j;
  sh_reports : reports j' = reports j;
  sh_c : j_c j' = j_c j \/ j_c j' = fst (getFixed (j_env j) (j_c j));
}.

Lemma Shown_refl j : Shown j j.
Proof. by split; auto. Qed.

Lemma readFixed_eq j :
  readFixed j = (j <| j_c := fst (getFixed (j_env j) (j_c j)) |>,
                 snd (getFixed (j_env j) (j_c j))).
Proof. unfold readFixed. by destruct (getFixed _ _). Qed.

Lemma enableHandles_shown j : Shown j (enableHandles j).
Proof.
  unfold enableHandles. case_match; [|by split; auto].
  rewrite readFixed_eq. by split; auto.
Qed.

(** The effect of [update] on the state behind the view. *)
Lemma update_spec j :
  let v := j_env j in
  let '(c, r) := getFixed v (j_c j) in
  let j' := update j in
  j_env j' = v /\ j_opt j' = j_opt j /\ j_c j' = c /\ btndown j' = btndown j
  /\ onMove j' = onMove j /\ onDone j' = onDone j /\ awake j' = true
  /\ reports j' = reports j ++ [RChange (unscale v r)].
Proof.
  unfold update. rewrite readFixed_eq.
  destruct (getFixed _ _) as [c r]. cbn [fst snd].
  destruct (o_drawBorders _), (seehandles _) eqn:E1, (awake _) eqn:E2; cbn in *;
    rewrite ?E1, ?E2; cbn; rewrite ?E1, ?E2; split_and!; done || congruence.
Qed.

(** ** The invariant of the user interface

    While a selection is shown or a drag is running, both corners are in the
    image; a selection at rest, or one being moved, has positive sides; what
    Tracker holds fits the state of the button; and everything reported so
    far was a rectangle inside the original image. *)

Definition reported (p : report) : rect :=
  match p with RChange r => r | RSelect r => r end.

Definition ReportOk (v : env) (p : report) : Prop :=
  let r := reported p in
  (0 <= r_x r <= r_x2 r)%Z /\ inject_Z (r_x2 r) <= bx v * xscale v
  /\ (0 <= r_y r <= r_y2 r)%Z /\ inject_Z (r_y2 r) <= by_ v * yscale v.

Definition is_mover (m : mover) : Prop := match m with MMover _ => True | _ => False end.

Record JInv (j : jcrop) : Prop := {
  ji_env : EnvOk (j_env j);
  ji_ratio : aspectRatio (j_env j) == 0;
  ji_minsel : (0 <= fst (o_minSelect (j_opt j)) /\ 0 <= snd (o_minSelect (j_opt j)))%Z;
  ji_in : awake j = true \/ btndown j = true -> InBounds (j_env j) (j_c j);
  ji_ord : awake j = true -> btndown j = false \/ is_mover (onMove j) -> Ordered (j_c j);
  ji_mover : is_mover (onMove j) -> awake j = true;
  ji_idle : btndown j = false -> onMove j = MNothing;
  ji_busy : btndown j = true -> onMove j <> MNull /\ onDone j = DDoneSelect;
  ji_reports : Forall (ReportOk (j_env j)) (reports j);
}.

(** The reading of a selection that is in the image. *)
Lemma getFixed_inv v c :
  EnvOk v -> aspectRatio v == 0 -> InBounds v c ->
  let '(c', r) := getFixed v c in
  InBounds v c' /\ RectOk (boundx v) (boundy v) r /\ (Ordered c -> Ordered c')
  /\ ReportOk v (RChange (unscale v r)) /\ ReportOk v (RSelect (unscale v r)).
Proof.
  intros Hv Ha Hc. unfold getFixed. rewrite (proj2 (Qeq_bool_iff _ _) Ha).
  pose proof (getRect_ok v c Hv Hc) as [H1 H2].
  pose proof (getRect_ordered v c Hv Hc) as H3.
  destruct (getRect v c) as [c' r]. cbn [fst snd] in *.
  pose proof (unscale_ok v r Hv H2). done.
Qed.

Lemma setPressed_in v p c : EnvOk v -> InBounds v (setPressed v p c).
Proof.
  intros Hv. pose proof (clamp_range (bx v) (fst p) (bx_nonneg v Hv)).
  pose proof (clamp_range (by_ v) (snd p) (by_nonneg v Hv)).
  unfold setPressed, rebound. split; cbn; lra.
Qed.

Lemma setCurrent_in v p c : EnvOk v -> InBounds v c -> InBounds v (setCurrent v p c).
Proof.
  intros Hv [H1 H2 H3 H4]. pose proof (clamp_range (bx v) (fst p) (bx_nonneg v Hv)).
  pose proof (clamp_range (by_ v) (snd p) (by_nonneg v Hv)).
  unfold setCurrent, rebound. split; cbn; lra.
Qed.

(** Setting both corners to those of a rectangle inside the image. *)
Lemma corners_of_rect v r c :
  RectOk (boundx v) (boundy v) r ->
  let c' := setCurrent v (rect_se r) (setPressed v (rect_nw r) c) in
  x1 c' = inject_Z (r_x r) /\ y1 c' = inject_Z (r_y r)
  /\ x2 c' = inject_Z (r_x2 r) /\ y2 c' = inject_Z (r_y2 r).
Proof.
  intros [Hx Hx2 Hy Hy2 _ _]. unfold setCurrent, setPressed, rebound, rect_se, rect_nw. cbn.
  assert (forall a b, (0 <= a <= b)%Z -> clamp (inject_Z b) (inject_Z a) = inject_Z a) as Hc.
  { intros a b Hab. apply clamp_id. change 0 with (inject_Z 0).
    split; apply inject_Z_mono; lia. }
  unfold bx, by_. rewrite !Hc by lia. done.
Qed.

(** The part of the invariant that does not mention Tracker. *)
Record Core (j : jcrop) : Prop := {
  co_env : EnvOk (j_env j);
  co_ratio : aspectRatio (j_env j) == 0;
  co_minsel : (0 <= fst (o_minSelect (j_opt j)) /\ 0 <= snd (o_minSelect (j_opt j)))%Z;
  co_in : InBounds (j_env j) (j_c j);
  co_reports : Forall (ReportOk (j_env j)) (reports j);
}.

(** [j'] has the environment, the options and the Tracker state of [j]. *)
Record SameTracker (j j' : jcrop) : Prop := {
  st_env : j_env j' = j_env j;
  st_opt : j_opt j' = j_opt j;
  st_btn : btndown j' = btndown j;
  st_move : onMove j' = onMove j;
  st_done : onDone j' = onDone j;
}.

#[local] Instance SameTracker_trans : Transitive SameTracker.
Proof. intros j1 j2 j3 [] []. split; congruence. Qed.

Lemma Core_JInv j :
  Core j -> (btndown j = false \/ is_mover (onMove j) -> awake j = true -> Ordered (j_c j)) ->
  (is_mover (onMove j) -> awake j = true) -> (btndown j = false -> onMove j = MNothing) ->
  (btndown j = true -> onMove j <> MNull /\ onDone j = DDoneSelect) -> JInv j.
Proof. intros [] Ho Hm Hi Hb. split; auto. Qed.

Lemma JInv_Core j : JInv j -> awake j = true \/ btndown j = true -> Core j.
Proof. intros [] Hor. split; auto. Qed.

Lemma Core_shown j j' : Core j -> Shown j j' -> Core j' /\ (Ordered (j_c j) -> Ordered (j_c j')).
Proof.
  intros [Hv Ha Hm Hi Hr] [E1 E2 E3 E4 E5 E6 E7 E8].
  pose proof (getFixed_inv _ _ Hv Ha Hi) as Hg. destruct (getFixed _ _) as [c r] eqn:Eg.
  destruct Hg as (Hc & _ & Ho & _).
  split; [split; rewrite ?E1, ?E2, ?E7; try done|];
    destruct E8 as [-> | ->]; rewrite ?Eg; done.
Qed.

Lemma Core_update j :
  Core j -> Core (update j) /\ SameTracker j (update j) /\ awake (update j) = true
    /\ (Ordered (j_c j) -> Ordered (j_c (update j))).
Proof.
  intros [Hv Ha Hm Hi Hr].
  pose proof (getFixed_inv _ _ Hv Ha Hi) as Hg. pose proof (update_spec j) as Hu.
  cbn zeta in Hu. destruct (getFixed _ _) as [c r]. destruct Hg as (Hc & _ & Ho & Hrep & _).
  destruct Hu as (E1 & E2 & E3 & E4 & E5 & E6 & E7 & E8).
  split_and!; [|by split|done|by rewrite E3].
  split; rewrite ?E1, ?E2, ?E3, ?E8; auto.
  apply Forall_app. split; [done|]. by constructor.
Qed.

Lemma SameTracker_refl j : SameTracker j j.
Proof. by split. Qed.

(** Reading twice is reading once. *)
Lemma getFixed_idem v c :
  EnvOk v -> aspectRatio v == 0 -> InBounds v c ->
  getFixed v (fst (getFixed v c)) = getFixed v c.
Proof.
  intros Hv Ha Hc. unfold getFixed. rewrite (proj2 (Qeq_bool_iff _ _) Ha).
  by apply getRect_idem.
Qed.

Lemma getFixed_shown j j' :
  Core j -> Shown j j' -> snd (getFixed (j_env j') (j_c j')) = snd (getFixed (j_env j) (j_c j)).
Proof.
  intros [Hv Ha _ Hi _] [E1 _ _ _ _ _ _ [E8|E8]]; rewrite E1, E8; [done|].
  by rewrite getFixed_idem.
Qed.

(** [refresh] on a rectangle with positive sides. *)
Lemma Core_refresh j :
  Core j ->
  let r := snd (getFixed (j_env j) (j_c j)) in
  (r_x r < r_x2 r)%Z -> (r_y r < r_y2 r)%Z ->
  Core (refresh j) /\ SameTracker j (refresh j) /\ awake (refresh j) = awake j
  /\ Ordered (j_c (refresh j)).
Proof.
  intros Hco r Hx Hy. unfold refresh. rewrite readFixed_eq. fold r.
  set (j1 := _ <| j_c ::= _ |>).
  destruct Hco as [Hv Ha Hm Hi Hr].
  pose proof (getFixed_inv _ _ Hv Ha Hi) as Hg.
  assert (RectOk (boundx (j_env j)) (boundy (j_env j)) r) as Hrok.
  { subst r. destruct (getFixed _ _). cbn. tauto. }
  destruct (corners_of_rect (j_env j) r (fst (getFixed (j_env j) (j_c j))) Hrok)
    as (E1 & E2 & E3 & E4).
  assert (Core j1) as Hco1.
  { split; try done. cbn. apply setCurrent_in; [done|]. by apply setPressed_in. }
  assert (Ordered (j_c j1)) as Ho1.
  { split; cbn in *; [rewrite E1, E3|rewrite E2, E4]; by rewrite <- Zlt_Qlt. }
  unfold updateVisible. destruct (awake j1) eqn:Eaw; cbn in Eaw; rewrite Eaw.
  - destruct (Core_update j1 Hco1) as (C & T & A & O).
    split_and!; [done|by destruct T; split|done|auto].
  - split_and!; [done|by split|exact Eaw|done].
Qed.

Lemma animMode_false_shown j : Shown j (animMode false j).
Proof.
  unfold animMode. destruct (enableHandles_shown (j <| animating := false |>)).
  by split.
Qed.

Lemma Core_done j :
  Core j ->
  let r := snd (getFixed (j_env j) (j_c j)) in
  (r_x r < r_x2 r)%Z -> (r_y r < r_y2 r)%Z ->
  Core (done j) /\ SameTracker j (done j) /\ awake (done j) = awake j
  /\ Ordered (j_c (done j)).
Proof.
  intros Hco r Hx Hy. pose proof (animMode_false_shown j) as Hsh.
  destruct (Core_shown _ _ Hco Hsh) as [Hco1 _].
  pose proof (getFixed_shown _ _ Hco Hsh) as Er. unfold done.
  destruct (Core_refresh (animMode false j) Hco1) as (C & T & A & O);
    [by rewrite Er..|]. destruct Hsh, T.
  split_and!; [done| |congruence|done]. split; congruence.
Qed.

(** The end of a drag: a selection that stays shown has positive sides. *)
Lemma Core_doneSelect j :
  Core j ->
  Core (doneSelect j) /\ SameTracker j (doneSelect j)
  /\ (awake (doneSelect j) = true -> Ordered (j_c (doneSelect j))).
Proof.
  intros Hco. unfold doneSelect. rewrite readFixed_eq.
  set (r := snd (getFixed (j_env j) (j_c j))).
  set (j1 := j <| j_c := _ |>).
  assert (Shown j j1) as Hsh by by split; auto.
  destruct (Core_shown _ _ Hco Hsh) as [Hco1 _].
  match goal with |- context [if ?b && ?b' then _ else _] =>
    destruct (b && b') eqn:Ec end.
  - apply andb_true_iff in Ec as [Hw Hh]. apply Z.ltb_lt in Hw, Hh.
    pose proof (enableHandles_shown j1) as Hsh2.
    destruct (Core_shown _ _ Hco1 Hsh2) as [Hco2 _].
    assert (RectOk (boundx (j_env j)) (boundy (j_env j)) r) as [? ? ? ? Ew Eh].
    { destruct Hco as [Hv Ha _ Hi _]. pose proof (getFixed_inv _ _ Hv Ha Hi) as Hg.
      subst r. destruct (getFixed _ _). cbn. tauto. }
    assert (snd (getFixed (j_env (enableHandles j1)) (j_c (enableHandles j1))) = r) as Er.
    { rewrite (getFixed_shown _ _ Hco1 Hsh2). by apply (getFixed_shown j j1). }
    destruct (co_minsel j Hco) as [Hm1 Hm2]. cbn in Hw, Hh.
    destruct (Core_done _ Hco2) as (C & T & A & O); [rewrite Er; lia..|].
    destruct C, T, Hsh2. split_and!; [by split|split; cbn in *; congruence|done].
  - destruct Hco1. by split_and!; split.
Qed.

(** ** The steps of the user interface keep the invariant

    A press on the image or on a handle is considered at any time, also while
    the button is already down, as when its release was missed.  The selection
    is only grabbed while no corner of it is being dragged, and keys only
    come between drags: otherwise the corners need not be in order when
    [moveOffset] reads them (see [nudge_during_drag_moves_vertically]). *)

Inductive ui_step (j : jcrop) : jcrop -> Prop :=
| UiNew (page : Q * Q) : ui_step j (newSelection page j)
| UiHandle (o : ord) (page : Q * Q) :
    awake j = true -> ui_step j (createDragger (DragOrd o) page j)
| UiGrab (page : Q * Q) :
    btndown j = false \/ is_mover (onMove j) -> awake j = true ->
    ui_step j (createDragger DragMove page j)
| UiMove (page : Q * Q) : ui_step j (fst (trackMove page j))
| UiUp (page : Q * Q) : ui_step j (fst (trackUp page j))
| UiKey (e : key) : btndown j = false -> ui_step j (fst (parseKey e j)).

Lemma JInv_newSelection page j : JInv j -> JInv (newSelection page j).
Proof.
  intros Hinv. unfold newSelection.
  destruct (o_disabled _); [done|]. destruct (negb _); [done|].
  set (j1 := watchKeys _).
  assert (Core j1 /\ btndown j1 = true /\ onMove j1 = MSelectDrag /\ onDone j1 = DDoneSelect)
    as (Hco & E1 & E2 & E3).
  { subst j1. unfold watchKeys, activateHandlers, toFront, myCursor, disableHandles, setCursor.
    destruct Hinv.
    destruct (decide _); cbn; destruct (o_keySupport _); cbn; split_and!; try done;
      split; try done; by apply setPressed_in. }
  destruct (Core_update j1 Hco) as (C & T & A & O). destruct T.
  apply Core_JInv; rewrite ?st_btn0, ?st_move0, ?st_done0, ?E1, ?E2, ?E3; try done.
  by intros [?|?].
Qed.

Lemma readCorner_shown o j : Shown j (fst (readCorner o j)).
Proof.
  unfold readCorner, getCorner. destruct (getFixed _ _) as [c r] eqn:E.
  split; try done. right. cbn. by rewrite E.
Qed.

Lemma JInv_createDragger d page j :
  (d = DragMove -> btndown j = false \/ is_mover (onMove j)) -> awake j = true ->
  JInv j -> JInv (createDragger d page j).
Proof.
  intros Hb Haw Hinv. unfold createDragger.
  destruct (o_disabled _); [done|]. destruct d as [|o].
  - specialize (Hb eq_refl). destruct (negb _); [done|]. unfold startDragMode, activateHandlers, toFront, watchKeys, setCursor.
    pose proof (ji_ord j Hinv Haw Hb). pose proof (ji_in j Hinv (or_introl Haw)).
    destruct Hinv. cbn. destruct (o_keySupport _); by split.
  - unfold startDragMode. rewrite readFixed_eq.
    destruct (readCorner _ _) as [j2 opc] eqn:E2.
    destruct (readCorner _ j2) as [j3 p] eqn:E3.
    pose proof (readCorner_shown (oppLockCorner o) j2) as S3. rewrite E3 in S3.
    match type of E2 with readCorner ?o' ?j' = _ =>
      pose proof (readCorner_shown o' j') as S2; rewrite E2 in S2 end.
    cbn [fst] in S2, S3. destruct S2, S3, Hinv. cbn in *.
    assert (j_env j3 = j_env j) as E by congruence.
    assert (j_opt j3 = j_opt j) as E' by congruence.
    assert (reports j3 = reports j) as E'' by congruence.
    apply Core_JInv; cbn; try done; [|by intros [?|?]].
    split; cbn; rewrite ?E, ?E', ?E''; try done.
    apply setCurrent_in; [done|]. by apply setPressed_in.
Qed.

Lemma JInv_trackMove page j : JInv j -> JInv (fst (trackMove page j)).
Proof.
  intros Hinv. unfold trackMove. pose proof (ji_idle j Hinv) as Hidle.
  destruct (onMove j) as [| | |mode f|lloc] eqn:Em; cbn [fst]; try done.
  all: destruct (btndown j) eqn:Hb; [|by discriminate Hidle].
  all: assert (Core j) as Hco by (apply JInv_Core; auto).
  all: destruct (ji_busy j Hinv Hb) as [_ Hd].
  - unfold selectDrag. set (j1 := j <| j_c ::= _ |>).
    assert (Core j1) as Hco1.
    { destruct Hco. split; try done. by apply setCurrent_in. }
    destruct (Core_update j1 Hco1) as (C & [] & A & O). cbn in *.
    apply Core_JInv; rewrite ?st_btn0, ?st_move0, ?st_done0, ?Em, ?Hb, ?Hd; try done.
    by intros [?|?].
  - unfold dragmodeHandler. set (j1 := j <| j_c ::= _ |>).
    assert (Core j1) as Hco1.
    { destruct Hco. split; try done. by apply setCurrent_in. }
    destruct (Core_update j1 Hco1) as (C & [] & A & O). cbn in *.
    apply Core_JInv; rewrite ?st_btn0, ?st_move0, ?st_done0, ?Em, ?Hb, ?Hd; try done.
    by intros [?|?].
  - unfold moverHandler. set (j1 := _ <| onMove := _ |>).
    pose proof (ji_mover j Hinv) as Haw. rewrite Em in Haw. specialize (Haw I).
    pose proof (ji_ord j Hinv Haw) as Ho. rewrite Em in Ho. specialize (Ho (or_intror I)).
    set (o := (_ - _, _)) in j1.
    destruct (moveOffset_ordered (j_env j) o (j_c j) (co_in j Hco) Ho) as [Hi1 Ho1].
    assert (Core j1) as Hco1 by (destruct Hco; by split).
    destruct (Core_update j1 Hco1) as (C & [] & A & O). cbn in *.
    apply Core_JInv; rewrite ?st_btn0, ?st_move0, ?st_done0, ?Hb, ?Hd; try done.
    intros _ _. by apply O.
Qed.

Lemma JInv_trackUp page j : JInv j -> JInv (fst (trackUp page j)).
Proof.
  intros Hinv. unfold trackUp. destruct (btndown j) eqn:Hb; [|done].
  destruct (ji_busy j Hinv Hb) as [_ Hd].
  assert (Core (j <| btndown := false |>)) as Hco.
  { destruct (JInv_Core j Hinv (or_intror Hb)). by split. }
  set (j1 := j <| btndown := false |>) in *.
  change (onDone j1) with (onDone j). rewrite Hd.
  destruct (Core_doneSelect j1 Hco) as (Hco2 & [] & Ho2).
  set (j2 := doneSelect j1) in *. rewrite readFixed_eq.
  destruct Hco2 as [Hv Ha Hm Hi Hr]. pose proof (getFixed_inv _ _ Hv Ha Hi) as Hg.
  destruct (getFixed (j_env j2) (j_c j2)) as [c r]. destruct Hg as (Hc & _ & Ho & _ & Hrep).
  cbn [fst snd]. apply Core_JInv; cbn; try done.
  - split; cbn; try done. apply Forall_app. split; [done|]. by constructor.
  - intros _ Haw. auto.
  - by rewrite st_btn0.
Qed.

Lemma JInv_parseKey e j : btndown j = false -> JInv j -> JInv (fst (parseKey e j)).
Proof.
  intros Hb Hinv.
  assert (forall o s, JInv (doNudge o (j <| shift_down := s |>))) as Hn.
  { intros o s. unfold doNudge. case_match; [|destruct Hinv; by split].
    unfold updateVisible. cbn. destruct (awake j) eqn:Haw.
    - assert (Core j) as Hco by (apply JInv_Core; auto).
      destruct (moveOffset_ordered (j_env j) o (j_c j) (co_in j Hco)
        (ji_ord j Hinv Haw (or_introl Hb))) as [Hi1 Ho1].
      set (j1 := _ <| j_c ::= _ |>).
      assert (Core j1) as Hco1 by (destruct Hco; by split).
      destruct (Core_update j1 Hco1) as (C & [] & A & O). cbn in *.
      apply Core_JInv; rewrite ?st_btn0, ?st_move0, ?st_done0, ?Hb; try done.
      + intros _ _. by apply O.
      + intros _. by apply ji_idle.
    - destruct Hinv. split; cbn; try done; rewrite Haw, ?Hb; try done.
      intros [?|?]; congruence. }
  assert (JInv (release (j <| shift_down := k_shift e |>))) as Hrel.
  { destruct Hinv. unfold release. split; cbn; try done; rewrite ?Hb.
    - intros [?|?]; done.
    - intros Hmv. rewrite ji_idle0 in Hmv by done. done. }
  unfold parseKey. repeat case_match; cbn [fst]; auto; destruct Hinv; by split.
Qed.

Lemma JInv_ui_step j j' : ui_step j j' -> JInv j -> JInv j'.
Proof.
  destruct 1; auto using JInv_newSelection, JInv_trackMove, JInv_trackUp, JInv_parseKey.
  all: intros ?; by apply JInv_createDragger.
Qed.

(** ** The animation *)

(** The percentage after one tick with the default speed, as [animator]
    computes it, and whether the timer is set again. *)
Definition next_pcent (p : Q) : Q := p + (100 - p) / 3.

Definition snap (p : Q) : Q := if (998 # 10) <=q p then 100 else p.

Fixpoint pcents (n : nat) (p : Q) : Q :=
  match n with
  | O => p
  | S n' => pcents n' (snap (next_pcent p))
  end.

Fixpoint ticks (n : nat) (j : jcrop) : jcrop :=
  match n with
  | O => j
  | S n' => ticks n' (animator j)
  end.

Lemma setSelectRaw_frame l j :
  j_env (setSelectRaw l j) = j_env j /\ j_opt (setSelectRaw l j) = j_opt j.
Proof.
  destruct l as [[[a b] c] d]. unfold setSelectRaw.
  match goal with |- context [update ?x] => pose proof (update_spec x) as Hu end.
  cbn zeta in Hu. destruct (getFixed _ _). by destruct Hu as (-> & -> & _).
Qed.

Lemma update_anim j : j_anim (update j) = j_anim j.
Proof.
  unfold update. rewrite readFixed_eq.
  destruct (getFixed _ _) as [c r]. cbn [fst snd].
  destruct (o_drawBorders _), (seehandles _) eqn:E1, (awake _) eqn:E2; cbn in *;
    rewrite ?E1, ?E2; cbn; rewrite ?E1, ?E2; done.
Qed.

Lemma setSelectRaw_anim l j : j_anim (setSelectRaw l j) = j_anim j.
Proof. destruct l as [[[a b] c] d]. unfold setSelectRaw. by rewrite update_anim. Qed.

(** A tick before the end. *)
Lemma animator_step an j :
  j_anim j = Some an -> o_swingSpeed (j_opt j) = 3 ->
  (next_pcent (an_pcent an) <q 100) = true ->
  let j' := animator j in
  j_anim j' = Some (an <| an_pcent := snap (next_pcent (an_pcent an)) |>)
  /\ j_env j' = j_env j /\ j_opt j' = j_opt j.
Proof.
  intros Ha Hs Hlt. unfold animator. rewrite Ha, Hs.
  fold (next_pcent (an_pcent an)). rewrite Hlt.
  fold (snap (next_pcent (an_pcent an))). cbn zeta.
  rewrite setSelectRaw_anim.
  match goal with |- context [setSelectRaw ?l ?x] =>
    destruct (setSelectRaw_frame l x) as [-> ->] end.
  done.
Qed.

Lemma ticks_run n an j :
  j_anim j = Some an -> o_swingSpeed (j_opt j) = 3 ->
  (forall k, (k < n)%nat -> (next_pcent (pcents k (an_pcent an)) <q 100) = true) ->
  j_anim (ticks n j) = Some (an <| an_pcent := pcents n (an_pcent an) |>)
  /\ j_env (ticks n j) = j_env j /\ j_opt (ticks n j) = j_opt j.
Proof.
  revert an j. induction n as [|n IH]; intros an j Ha Hs Hk.
  - cbn. split_and!; [|done..]. rewrite Ha. by destruct an.
  - pose proof (Hk O ltac:(lia)) as H0. cbn in H0.
    destruct (animator_step an j Ha Hs H0) as (E1 & E2 & E3).
    cbn [ticks pcents].
    destruct (IH _ (animator j) E1) as (-> & -> & ->); [congruence| |by rewrite E2, E3].
    intros k Hkn. apply (Hk (S k)). lia.
Qed.

(** The same sequence in lowest terms, which can be evaluated. *)
Fixpoint pcents_red (n : nat) : Q :=
  match n with
  | O => 0
  | S n' => Qred (snap (next_pcent (pcents_red n')))
  end.

Lemma pcents_S n p : pcents (S n) p = snap (next_pcent (pcents n p)).
Proof. revert p. induction n as [|n IH]; intros p; [done|]. cbn in *. by rewrite IH. Qed.

#[local] Instance next_pcent_proper : Proper (Qeq ==> Qeq) next_pcent.
Proof. intros p q Hpq. unfold next_pcent. by rewrite Hpq. Qed.

#[local] Instance snap_proper : Proper (Qeq ==> Qeq) snap.
Proof.
  intros p q Hpq. unfold snap.
  assert (((998 # 10) <=q p) = ((998 # 10) <=q q)) as -> by by rewrite Hpq.
  by destruct (_ <=q q).
Qed.

Lemma pcents_eq n : pcents n 0 == pcents_red n.
Proof.
  induction n as [|n IH]; [done|]. rewrite pcents_S. cbn [pcents_red].
  by rewrite Qred_correct, IH.
Qed.

(** Sixteen ticks take the percentage to 100. *)
Lemma pcents_16 :
  pcents 16 0 = 100
  /\ forall k, (k < 16)%nat -> (next_pcent (pcents k 0) <q 100) = true.
Proof.
  split.
  - rewrite pcents_S. unfold snap.
    assert (((998 # 10) <=q next_pcent (pcents 15 0)) = true) as ->; [|done].
    rewrite pcents_eq. vm_compute. reflexivity.
  - intros k Hk. rewrite pcents_eq.
    do 16 (destruct k as [|k]; [vm_compute; reflexivity|]). lia.
Qed.

Lemma update_env j : j_env (update j) = j_env j.
Proof.
  pose proof (update_spec j) as Hu. cbn zeta in Hu.
  destruct (getFixed _ _). by destruct Hu as (-> & _).
Qed.

Lemma done_env j : j_env (done j) = j_env j.
Proof.
  unfold done, refresh. rewrite readFixed_eq. unfold updateVisible.
  destruct (awake _); rewrite ?update_env; apply (animMode_false_shown j).
Qed.

(** The corners the last tick sets, up to equality of rationals. *)
Lemma corners_set v p q r s c p' q' r' s' :
  p == p' -> q == q' -> r == r' -> s == s' ->
  let c' := setCurrent v (r, s) (setPressed v (p, q) c) in
  x1 c' == clamp (bx v) p' /\ y1 c' == clamp (by_ v) q'
  /\ x2 c' == clamp (bx v) r' /\ y2 c' == clamp (by_ v) s'.
Proof.
  intros H1 H2 H3 H4. cbn.
  assert (forall b m n, m == n -> clamp b m == clamp b n) as Hc.
  { intros b m n Hmn. unfold clamp. qcases. }
  split_and!; by apply Hc.
Qed.

Lemma lerp_end (t a : Z) :
  inject_Z a + (100 + (100 - 100) / 3) / 100 * inject_Z (t - a) == inject_Z t.
Proof.
  assert ((100 + (100 - 100) / 3) / 100 == 1) as -> by (vm_compute; reflexivity).
  unfold Z.sub. rewrite inject_Z_plus, inject_Z_opp. lra.
Qed.

(** Without size limits, reading corners that are in the image changes
    nothing. *)
Definition NoLimits (v : env) : Prop :=
  xlimit v = 0 /\ ylimit v = 0 /\ xmin v = 0 /\ ymin v = 0.

Lemma getFixed_nolimits v c :
  EnvOk v -> aspectRatio v == 0 -> NoLimits v -> InBounds v c ->
  getFixed v c = (c, makeObj (flipCoords (x1 c) (y1 c) (x2 c) (y2 c))).
Proof.
  intros Hv Ha (L1 & L2 & L3 & L4) Hc. unfold getFixed.
  rewrite (proj2 (Qeq_bool_iff _ _) Ha). pose proof (getRect_axes v c Hv Hc) as Hg.
  assert (forall b p q, 0 <= p <= b -> 0 <= q <= b -> rect_axis b 0 0 p q = (p, q)) as Hx.
  { intros b p q Hp Hq. unfold rect_axis, limit_axis, push_low, push_high.
    change (0 =q 0) with true. cbn [negb andb].
    rewrite (proj2 (Qltb_ge p 0)) by lra. rewrite (proj2 (Qltb_ge q 0)) by lra.
    by rewrite (proj2 (Qltb_ge b q)) by lra. }
  rewrite L1, L2, L3, L4, !Hx in Hg by apply Hc. rewrite Hg. by destruct c.
Qed.

Definition corner_of (o : ord) (r : rect) : Q * Q :=
  match o with
  | NE => (inject_Z (r_x2 r), inject_Z (r_y r))
  | NW => (inject_Z (r_x r), inject_Z (r_y r))
  | SE => (inject_Z (r_x2 r), inject_Z (r_y2 r))
  | SW => (inject_Z (r_x r), inject_Z (r_y2 r))
  | _ => (0, 0)
  end.

Lemma readCorner_nolimits o j :
  EnvOk (j_env j) -> aspectRatio (j_env j) == 0 -> NoLimits (j_env j) ->
  InBounds (j_env j) (j_c j) ->
  readCorner o j = (j, corner_of o (makeObj (flipCoords (x1 (j_c j)) (y1 (j_c j)) (x2 (j_c j)) (y2 (j_c j))))).
Proof.
  intros Hv Ha Hl Hc. unfold readCorner, getCorner.
  rewrite (getFixed_nolimits _ _ Hv Ha Hl Hc). by destruct j, o.
Qed.

(** Two opposite corners of a rectangle give the rectangle back. *)
Lemma flip_corners b b' r o :
  RectOk b b' r ->
  let p := corner_of (oppLockCorner o) r in
  let q := corner_of (oppLockCorner (oppLockCorner o)) r in
  makeObj (flipCoords (fst p) (snd p) (fst q) (snd q)) = r.
Proof.
  intros [Hx _ Hy _ Ew Eh]. destruct r as [x y x' y' w h]. cbn in *. subst.
  assert (forall a b, (a <= b)%Z -> (inject_Z b <q inject_Z a) = false) as Hge.
  { intros a c Hac. apply Qltb_ge. by apply inject_Z_mono. }
  assert (forall a b, (a <= b)%Z ->
    (if inject_Z a <q inject_Z b then (inject_Z a, inject_Z b) else (inject_Z b, inject_Z a))
    = (inject_Z a, inject_Z b)) as Hsw.
  { intros a c Hac. destruct (inject_Z a <q inject_Z c) eqn:E; [done|].
    qreflect. rewrite <- Zle_Qle in E. assert (a = c) as -> by lia. done. }
  destruct o; cbn; unfold flipCoords;
    repeat (first [rewrite Hge by lia | rewrite Hsw by lia]; cbn);
    rewrite !math_round_Z; done.
Qed.

(** ** Properties *)


(** An animation started on a plug-in at rest with the default speed
    stops after exactly seventeen ticks of its timer, and its last frame
    shows the requested rectangle, rounded and clamped to the image. *)
Theorem animateTo_terminates a j :
  animating j = false -> o_swingSpeed (j_opt j) = 3 ->
  let v := j_env j in
  let '(p, q, r, s) := a in
  let '(t1, t2, t3, t4) := flipCoords (p / xscale v) (q / yscale v) (r / xscale v) (s / yscale v) in
  let j' := animateTo a j in
  (forall n, (n <= 16)%nat -> is_Some (j_anim (ticks n j')))
  /\ j_anim (ticks 17 j') = None
  /\ exists c, x1 c == clamp (bx v) (inject_Z t1) /\ y1 c == clamp (by_ v) (inject_Z t2)
       /\ x2 c == clamp (bx v) (inject_Z t3) /\ y2 c == clamp (by_ v) (inject_Z t4)
       /\ last (reports (ticks 17 j')) = Some (RChange (unscale v (snd (getFixed v c)))).
Proof.
  intros Hna Hsp v. destruct a as [[[p q] r] s].
  destruct (flipCoords _ _ _ _) as [[[t1 t2] t3] t4] eqn:Et.
  cbn zeta. unfold animateTo. rewrite Hna. fold v. rewrite Et, readFixed_eq.
  set (R := snd (getFixed (j_env j) (j_c j))). set (an := mkAnim _ _ _).
  set (j' := _ <| j_anim := _ |>).
  destruct pcents_16 as [P16 Pk].
  assert (forall n, (n <= 16)%nat ->
    j_anim (ticks n j') = Some (an <| an_pcent := pcents n 0 |>)
    /\ j_env (ticks n j') = v /\ j_opt (ticks n j') = j_opt j) as Hrun.
  { intros n Hn. apply (ticks_run n an j'); [done|done|].
    intros k Hk. apply Pk. lia. }
  split; [intros n Hn; destruct (Hrun n Hn) as (-> & _); eauto|].
  destruct (Hrun 16%nat ltac:(lia)) as (E1 & E2 & E3).
  assert (forall n x, ticks (S n) x = animator (ticks n x)) as HS.
  { induction n as [|n IH]; intros x; [done|]. cbn [ticks] in *. by rewrite <- IH. }
  rewrite (HS 16%nat). generalize dependent (ticks 16 j'). intros jl E1 E2 E3.
  unfold animator. rewrite E1, E3, Hsp, P16. cbn [an_pcent upd].
  assert ((100 + (100 - 100) / 3 <q 100) = false) as -> by (vm_compute; reflexivity).
  cbn zeta. rewrite setSelectRaw_anim. split; [done|].
  unfold anim_at, setSelectRaw. cbn [an_from an_delta upd an].
  match goal with |- context [update ?x] =>
    pose proof (update_spec x) as Hu; set (ju := x) in * end.
  cbn zeta in Hu. assert (j_env ju = v) as Ev.
  { change (j_env (done jl) = v). by rewrite done_env. }
  rewrite Ev in Hu. exists (j_c ju).
  destruct (corners_set (j_env (done jl)) _ _ _ _ (j_c (done jl)) _ _ _ _
    (lerp_end t1 (r_x R)) (lerp_end t2 (r_y R)) (lerp_end t3 (r_x2 R)) (lerp_end t4 (r_y2 R)))
    as (A & B & C & D).
  rewrite done_env, E2 in A, B, C, D.
  split_and!; [rewrite <- A|rewrite <- B|rewrite <- C|rewrite <- D|];
    [cbn; by rewrite done_env, E2..|].
  destruct (getFixed v (j_c ju)) as [c' r'] eqn:Eg.
  destruct Hu as (_ & _ & _ & _ & _ & _ & _ & ->). apply last_snoc.
Qed.

(** Every key but Tab, pressed without Ctrl, ends in an exception: the
    function the handler returns through does not exist. *)
Theorem parseKey_throws e j :
  k_ctrl e = false -> (k_code e <> 9)%Z -> snd (parseKey e j) = Throw.
Proof.
  intros Hc H9. unfold parseKey. rewrite Hc. apply Z.eqb_neq in H9.
  rewrite H9. by repeat case_match.
Qed.

(** After [cancel], the next mouse move and the next release of the button
    both throw, since Tracker holds null instead of functions. *)
Theorem cancel_then_mouse_throws page j :
  snd (trackMove page (cancelCrop j)) = Throw
  /\ snd (trackUp page (cancelCrop j)) = Throw.
Proof. done. Qed.

(** Pressing the mouse on any of the eight handles does not change the
    selection: the corner opposite to the handle becomes the fixed end of the
    drag and the rectangle that is read stays the same. *)
Theorem grab_handle_keeps_selection o page j :
  EnvOk (j_env j) -> aspectRatio (j_env j) == 0 -> NoLimits (j_env j) ->
  InBounds (j_env j) (j_c j) -> o_disabled (j_opt j) = false ->
  let r := snd (getFixed (j_env j) (j_c j)) in
  let j' := createDragger (DragOrd o) page j in
  (x1 (j_c j'), y1 (j_c j')) = corner_of (oppLockCorner o) r
  /\ snd (getFixed (j_env j') (j_c j')) = r
  /\ onMove j' = MDragMode o r.
Proof.
  intros Hv Ha Hl Hc Hd. pose proof (getFixed_inv _ _ Hv Ha Hc) as Hg.
  unfold createDragger. rewrite Hd. unfold startDragMode. rewrite readFixed_eq. cbn.
  rewrite (getFixed_nolimits _ _ Hv Ha Hl Hc) in *. cbn [fst snd] in *.
  set (r := makeObj _) in *. destruct Hg as (_ & Hr & _).
  set (v := j_env j) in *. set (c := j_c j) in *.
  rewrite readCorner_nolimits by done. cbn. rewrite readCorner_nolimits by done. cbn.
  fold v c r. pose proof (flip_corners _ _ r o Hr) as Hf.
  assert (forall p, 0 <= fst p <= bx v -> 0 <= snd p <= by_ v -> rebound v p = p) as Hrb.
  { intros [p q] Hp Hq. unfold rebound. cbn in *. by rewrite !clamp_id. }
  assert (forall o', 0 <= fst (corner_of o' r) <= bx v /\ 0 <= snd (corner_of o' r) <= by_ v) as Hin.
  { destruct Hr as [Hx Hx2 Hy Hy2 _ _]. unfold bx, by_. change 0 with (inject_Z 0).
    intros []; cbn; repeat split; apply inject_Z_mono; lia. }
  unfold setCurrent, setPressed. rewrite !Hrb by apply Hin.
  set (p := corner_of (oppLockCorner o) r) in *.
  set (q := corner_of (oppLockCorner (oppLockCorner o)) r) in *. cbn.
  split_and!; [apply (Hrb p); apply Hin| |done].
  rewrite getFixed_nolimits; [cbn; exact Hf|done..|].
  split; cbn; apply Hin.
Qed.

(** A key pressed during a drag can move the selection on the wrong axis:
    in a 100 x 300 image, while the selection from (100, 10) to (0, 20) is
    being drawn, the right-arrow key turns the reported vertical extent
    10..20 into 209..219. *)
Theorem nudge_during_drag_moves_vertically :
  let j0 := Jcrop_new 100 300 0 0 100 300 (0, 0) defaults in
  let j1 := fst (trackMove (0, 20) (newSelection (100, 10) j0)) in
  let j2 := fst (parseKey (mkKey false false 39) j1) in
  last (reports j1) = Some (RChange (mkRect 0 10 100 20 100 10))
  /\ last (reports j2) = Some (RChange (mkRect 1 209 101 219 100 10)).
Proof. vm_compute. done. Qed.

(** A selection given to [setOptions] is not the one that is applied: the
    selection of the constructor's argument is applied again. *)
Theorem setOptions_reapplies_old_selection :
  let j0 := Jcrop_new 100 300 0 0 100 300 (0, 0) (defaults <| o_setSelect := Some (10, 20, 30, 40) |>) in
  let j1 := fst (setOptionsNew (fun o => o <| o_setSelect := Some (50, 60, 70, 80) |>) j0) in
  snd (tellSelect j1) = mkRect 10 20 30 40 20 20.
Proof. vm_compute. done. Qed.

(** ** Witnesses *)

Module Sample.

Definition v : env := mkEnv 0 (0, 0) (0, 0) 200 100 0 0 0 0 2 2.
Definition c : coords := mkCoords 30 20 120 80 None None.

Lemma v_ok : EnvOk v.
Proof. split; try (vm_compute; intuition discriminate); left; reflexivity. Qed.

Lemma c_in : InBounds v c.
Proof. split; vm_compute; intuition discriminate. Qed.

Definition j : jcrop :=
  mkJ v defaults None c false None false false MNothing DNothing true true true 5 (0, 0) (0, 0)
    (initial_view defaults) None [].

Lemma j_inv : JInv j.
Proof.
  split; try done; try apply v_ok; intros; try apply c_in; repeat split; reflexivity.
Qed.

(** A drag that draws a new selection. *)
Definition j1 : jcrop := newSelection (150, 10) j.
Definition j2 : jcrop := fst (trackMove (250, -5) j1).
Definition j3 : jcrop := fst (trackUp (250, -5) j2).


Lemma animateTo_terminates_witness :
  j_anim (ticks 17 (animateTo (0, 0, 400, 200) j)) = None.
Proof.
  destruct (animateTo_terminates (0, 0, 400, 200) j) as (_ & H & _); [done|done|].
  exact H.
Defined.

Lemma parseKey_throws_witness : snd (parseKey (mkKey false true 37) j) = Throw.
Proof. apply (parseKey_throws (mkKey false true 37) j); [reflexivity|vm_compute; discriminate]. Defined.

Lemma grab_handle_keeps_selection_witness :
  snd (getFixed v (j_c (createDragger (DragOrd NE) (120, 20) j))) = mkRect 30 20 120 80 90 60.
Proof.
  destruct (grab_handle_keeps_selection NE (120, 20) j) as (_ & H & _).
  - apply v_ok.
  - reflexivity.
  - repeat split; reflexivity.
  - apply c_in.
  - reflexivity.
  - etransitivity; [exact H|]. vm_compute. reflexivity.
Defined.

Lemma getFixed_in_image_witness :
  RectOk 200 100 (snd (getFixed v c)).
Proof. exact (proj2 (getFixed_in_image v c v_ok ltac:(reflexivity) c_in)). Defined.

Definition vl : env := mkEnv 0 (10, 10) (50, 40) 200 100 50 40 10 10 2 2.

Lemma vl_ok : EnvOk vl.
Proof. split; try (vm_compute; intuition discriminate); right; vm_compute; discriminate. Qed.

Lemma getRect_limits_witness :
  let c' := fst (getRect vl c) in 10 <= Qabs (x2 c' - x1 c') <= 50.
Proof.
  refine (proj1 (getRect_limits vl c vl_ok _ _ _ _ _));
    [split; vm_compute; intuition discriminate|vm_compute; reflexivity..|
     vm_compute; discriminate|vm_compute; discriminate].
Defined.

Definition vr : env := mkEnv (3 # 2) (0, 0) (0, 0) 200 100 0 0 0 0 2 2.

Lemma vr_ok : EnvOk vr.
Proof. split; try (vm_compute; intuition discriminate); left; reflexivity. Qed.

Lemma getFixed_ratio_witness :
  exists xx yy, ratio_ok vr (3 # 2) c (xx, yy).
Proof.
  destruct (getFixed_ratio vr c vr_ok) as (xx & yy & H & _);
    [split; vm_compute; intuition discriminate|reflexivity..|].
  exists xx, yy. exact H.
Defined.

Lemma moveOffset_rigid_witness :
  x2 (moveOffset v (500, 0) c) - x1 (moveOffset v (500, 0) c) == 90.
Proof.
  destruct (moveOffset_rigid v (500, 0) c c_in) as (_ & _ & H & _);
    [split; vm_compute; discriminate|].
  rewrite H. reflexivity.
Defined.

Lemma presize_fits_witness : fst (fst (presize 400 300 200 0)) <= 200.
Proof.
  pose proof (presize_fits 400 300 200 0 ltac:(reflexivity) ltac:(reflexivity)) as H.
  destruct (presize 400 300 200 0) as [[nw nh] [sx sy]].
  apply H. reflexivity.
Defined.

End Sample.
