(* ===== verification/ZyPopup.v ===== *)
(** * The crop dialog (zyupload-1.0.0.js, $.fn.zyPopup)

    The dialog shows one image in a layer over the page, starts Jcrop on it
    once it is loaded, keeps the last selection Jcrop reported in [tailorVal]
    and hands it to the callback [onTailor] when the user presses the finish
    button.  The record [popup] holds the variables of the plug-in's closure
    and the part of the page it owns. *)

From stdpp Require Import base list strings relations.
From Stdlib Require Import QArith Qround Lqa.
From S2P Require Import Prelude JsString JcropCoords Jcrop.

#[local] Open Scope Q_scope.

(** ** Data *)

(** The image in the dialog: hidden until [show]. *)
Inductive content := CNone | CImage (src : jstr) (shown : bool).

Record popup := mkPopup {
  p_src : jstr;
  p_index : jstr;
  p_name : jstr;
  zoomedIn : bool;
  windowWidth : Z;
  windowHeight : Z;
  zoom_shown : bool;
  body_zoomed : bool;
  zoomContent : content;
  content_loading : bool;
  content_size : Z * Z;
  content_margin : Q * Q;             (** (top, left) *)
  content_anim : bool;                (** the size animation is running *)
  tailorVal : option rect;            (** [None] is the initial [{}] *)
  api : option jcrop;
  tailored : list (option rect * option (Z * Z));  (** calls of [onTailor] *)
}.

#[export] Instance popup_eta : Eta popup :=
  fun r => mkPopup (p_src r) (p_index r) (p_name r) (zoomedIn r) (windowWidth r)
    (windowHeight r) (zoom_shown r) (body_zoomed r) (zoomContent r) (content_loading r)
    (content_size r) (content_margin r) (content_anim r) (tailorVal r) (api r) (tailored r).

(** What the browser measures: the window, the empty content box, its border,
    the loaded image and where the image is on the page. *)
Record screen := mkScreen {
  sc_window : Z * Z;
  sc_content : Z * Z;
  sc_border : Z;
  sc_image : Z * Z;
  sc_offset : Q * Q;
}.

(** ** Operations *)

Section Operations.
Variable g : screen.

Definition createHtml (p : popup) : popup :=
  p <| zoom_shown := false |> <| zoomContent := CNone |> <| content_loading := true |>
    <| content_size := sc_content g |> <| zoomedIn := false |>
    <| windowWidth := fst (sc_window g) |> <| windowHeight := snd (sc_window g) |>.

Definition openPopup (p : popup) : popup :=
  let p := if negb (zoomedIn p)
           then p <| zoomedIn := true |> <| zoom_shown := true |> <| body_zoomed := true |>
           else p in
  p <| zoomContent := CImage (p_src p) false |> <| content_loading := true |>.

(** [setCoords], the listener of Jcrop's two callbacks. *)
Definition setCoords (p : popup) (e : report) : popup :=
  p <| tailorVal := Some (reported e) |>.

(** The reports Jcrop made since [old] reach the listener in order. *)
Definition deliver (old : list report) (j : jcrop) (p : popup) : popup :=
  foldl setCoords (p <| api := Some j |>) (drop (length old) (reports j)).

(** The selection the dialog starts with. *)
Definition defaultSelect (width height : Q) : Q * Q * Q * Q :=
  (width / 2 - width / 5, height / 2 - height / 5,
   width / 2 + width / 5, height / 2 + height / 5).

Definition createTailorPlug (p : popup) : popup :=
  let '(w, h) := sc_image g in
  let sel := defaultSelect (inject_Z w) (inject_Z h) in
  let j := Jcrop_new (inject_Z w) (inject_Z h) 0 0 w h (sc_offset g)
             (defaults <| o_setSelect := Some sel |>) in
  deliver [] j p.

(** The inner function [show] of [render]. *)
Definition showImage (p : popup) : popup :=
  match zoomContent p with
  | CImage src _ =>
      createTailorPlug (p <| zoomContent := CImage src true |> <| content_loading := false |>)
  | CNone => p
  end.

(** The [load] listener of the image. *)
Definition render (p : popup) : popup :=
  let borderWidth := sc_border g in
  let maxImageWidth := (windowWidth p - borderWidth * 2)%Z in
  let maxImageHeight := (windowHeight p - borderWidth * 2)%Z in
  let '(imageWidth, imageHeight) := sc_image g in
  if (imageWidth =? fst (content_size p))%Z && (imageWidth <=? maxImageWidth)%Z
     && (imageHeight =? snd (content_size p))%Z && (imageHeight <=? maxImageHeight)%Z
  then showImage p
  else p <| content_anim := true |>.

(** The end of the size animation of [render]. *)
Definition animate_end (p : popup) : popup :=
  let '(w, h) := sc_image g in
  let margin (n : Z) := - (inject_Z n / 2) - inject_Z (sc_border g) in
  showImage (p <| content_anim := false |> <| content_size := (w, h) |>
               <| content_margin := (margin h, margin w) |>).

Definition closePopup (p : popup) : popup :=
  p <| zoomedIn := false |> <| zoom_shown := false |> <| body_zoomed := false |>
    <| zoomContent := CNone |>.

(** The listeners of [bindPopupEvent]; [target] is the id of the element the
    click hit. *)
Definition click_zoom (target : jstr) (p : popup) : popup :=
  if decide (target = js "zoom") then closePopup p else p.

Definition click_finish (p : popup) : popup :=
  let quondamImgInfo := j ← api p; Some (boundx (j_env j), boundy (j_env j)) in
  closePopup (p <| tailored ::= fun l => l ++ [(tailorVal p, quondamImgInfo)] |>).

Definition click_close (p : popup) : popup := closePopup p.

(** [$("body").zyPopup(options)]: a new closure, on the page of [p]. *)
Definition init (p : popup) : popup := openPopup (createHtml p).

Definition zyPopup (src index name : jstr) (zoomed : bool) : popup :=
  init (mkPopup src index name false 0 0 false zoomed CNone false (0, 0)%Z (0, 0) false
          None None []).

(** ** The events of the dialog

    The image loads once and only while it is in the dialog; the layer can be
    clicked while it is shown. *)
Inductive popup_step (p : popup) : popup -> Prop :=
| PLoad src :
    zoomContent p = CImage src false -> content_anim p = false -> popup_step p (render p)
| PAnim src :
    zoomContent p = CImage src false -> content_anim p = true -> popup_step p (animate_end p)
| PSelect j j' :
    api p = Some j -> ui_step j j' -> popup_step p (deliver (reports j) j' p)
| PZoom target : zoom_shown p = true -> popup_step p (click_zoom target p)
| PFinish : zoom_shown p = true -> popup_step p (click_finish p)
| PClose : zoom_shown p = true -> popup_step p (click_close p).

(** ** The invariant *)

Definition ValOk (r : rect) : Prop :=
  (0 <= r_x r <= r_x2 r)%Z /\ (r_x2 r <= fst (sc_image g))%Z
  /\ (0 <= r_y r <= r_y2 r)%Z /\ (r_y2 r <= snd (sc_image g))%Z.

(** The Jcrop of the dialog works on the image at scale one. *)
Record OnImage (j : jcrop) : Prop := {
  oi_inv : JInv j;
  oi_bx : boundx (j_env j) = fst (sc_image g);
  oi_by : boundy (j_env j) = snd (sc_image g);
  oi_sx : xscale (j_env j) == 1;
  oi_sy : yscale (j_env j) == 1;
}.

Record PInv (p : popup) : Prop := {
  pi_api : forall j, api p = Some j -> OnImage j;
  pi_val : forall r, tailorVal p = Some r -> ValOk r;
  pi_shown : forall src, zoomContent p = CImage src true -> is_Some (api p) /\ is_Some (tailorVal p);
  pi_zoom : zoomedIn p = zoom_shown p /\ body_zoomed p = zoom_shown p;
  pi_tailored : Forall (fun '(v, q) => forall r, v = Some r -> ValOk r /\ q = Some (sc_image g))
                  (tailored p);
  pi_both : is_Some (tailorVal p) -> is_Some (api p);
}.

End Operations.

(** ** Lemmas: Jcrop on the image of the dialog *)

Lemma readCorner_env o j : j_env (fst (readCorner o j)) = j_env j.
Proof. apply (readCorner_shown o j). Qed.

Lemma doneSelect_env j : j_env (doneSelect j) = j_env j.
Proof.
  unfold doneSelect. rewrite readFixed_eq.
  destruct (_ && _); [|done]. change (j_env (setCursor ?c ?x)) with (j_env x).
  rewrite done_env. by rewrite (sh_env _ _ (enableHandles_shown _)).
Qed.

Lemma ui_step_env j j' : ui_step j j' -> j_env j' = j_env j.
Proof.
  destruct 1 as [page|o page|page|page|page|e].
  - unfold newSelection. repeat case_match; try done. rewrite update_env.
    unfold watchKeys, myCursor. cbn. by repeat case_match.
  - unfold createDragger, startDragMode. case_match; [done|]. rewrite readFixed_eq.
    destruct (readCorner _ _) as [j2 opc] eqn:E2.
    destruct (readCorner _ j2) as [j3 q] eqn:E3. cbn.
    change j3 with (fst (j3, q)). rewrite <- E3, readCorner_env.
    change j2 with (fst (j2, opc)). rewrite <- E2, readCorner_env. done.
  - unfold createDragger, startDragMode, watchKeys. by repeat case_match.
  - unfold trackMove, selectDrag, dragmodeHandler, moverHandler.
    case_match; cbn [fst]; rewrite ?update_env; done.
  - unfold trackUp. repeat case_match; cbn [fst]; try done;
      rewrite readFixed_eq in *; simplify_eq; cbn; by rewrite ?doneSelect_env.
  - unfold parseKey, doNudge, updateVisible. repeat case_match; cbn [fst]; try done;
      by rewrite update_env.
Qed.

(** A step only adds reports. *)
Lemma update_reports j : exists r, reports (update j) = reports j ++ [RChange r].
Proof.
  pose proof (update_spec j) as Hu. cbn zeta in Hu.
  destruct (getFixed _ _). destruct Hu as (_ & _ & _ & _ & _ & _ & _ & ->). eauto.
Qed.

Lemma refresh_reports j : exists l, reports (refresh j) = reports j ++ l.
Proof.
  unfold refresh. rewrite readFixed_eq. unfold updateVisible. destruct (awake _).
  - match goal with |- context [update ?x] => destruct (update_reports x) as [r ->] end. eauto.
  - exists []. by rewrite app_nil_r.
Qed.

Lemma done_reports j : exists l, reports (done j) = reports j ++ l.
Proof.
  unfold done. destruct (refresh_reports (animMode false j)) as [l ->].
  rewrite (sh_reports _ _ (animMode_false_shown j)). eauto.
Qed.

(** Rereading a selection of integer corners. *)
Lemma refresh_rect j :
  Core j -> NoLimits (j_env j) ->
  snd (getFixed (j_env (refresh j)) (j_c (refresh j))) = snd (getFixed (j_env j) (j_c j)).
Proof.
  intros [Hv Ha _ Hc _] Hl. pose proof (getFixed_inv _ _ Hv Ha Hc) as Hg.
  unfold refresh. rewrite readFixed_eq. destruct (getFixed _ _) as [c r] eqn:E. cbn [fst snd].
  destruct Hg as (Hc' & Hr & _). set (j1 := _ <| j_c ::= _ |>).
  pose proof (corners_of_rect (j_env j) r c Hr) as (E1 & E2 & E3 & E4).
  assert (InBounds (j_env j) (j_c j1)) as Hin
    by (apply setCurrent_in; [done|]; by apply setPressed_in).
  assert (snd (getFixed (j_env j) (j_c j1)) = r) as Hj1.
  { rewrite getFixed_nolimits by done. cbn [snd]. change (j_c j1) with
      (setCurrent (j_env j) (rect_se r) (setPressed (j_env j) (rect_nw r) c)).
    rewrite E1, E2, E3, E4. exact (flip_corners _ _ r SE Hr). }
  unfold updateVisible. destruct (awake j1); [|exact Hj1].
  pose proof (update_spec j1) as Hu. cbn zeta in Hu. change (j_env j1) with (j_env j) in Hu.
  destruct (getFixed (j_env j) (j_c j1)) as [c2 r2] eqn:E5.
  destruct Hu as (-> & _ & -> & _). cbn in Hj1. subst r2.
  change c2 with (fst (c2, r)). rewrite <- E5, getFixed_idem by done. by rewrite E5.
Qed.

Lemma done_rect j :
  Core j -> NoLimits (j_env j) ->
  snd (getFixed (j_env (done j)) (j_c (done j))) = snd (getFixed (j_env j) (j_c j)).
Proof.
  intros Hco Hl. pose proof (animMode_false_shown j) as Hsh.
  destruct (Core_shown _ _ Hco Hsh) as [Hco1 _]. unfold done.
  rewrite refresh_rect by (rewrite ?(sh_env _ _ Hsh); done).
  by apply getFixed_shown.
Qed.

(** The default selection, rounded, has positive sides and lies inside. *)
Lemma defaultSelect_axis (n : Z) (k : Q) :
  (3 <= n)%Z -> k == 1 ->
  let a := (inject_Z n / 2 - inject_Z n / 5) / k in
  let b := (inject_Z n / 2 + inject_Z n / 5) / k in
  0 <= a /\ a < b /\ b <= inject_Z n /\ (math_round a < math_round b)%Z.
Proof.
  intros Hn Hk a b. assert (3 <= inject_Z n) as Hn'.
  { change 3 with (inject_Z 3). by apply inject_Z_mono. }
  assert (a == (3 # 10) * inject_Z n) as Ha by (subst a; rewrite Hk; field).
  assert (b == (7 # 10) * inject_Z n) as Hb by (subst b; rewrite Hk; field).
  pose proof (math_round_close a) as [_ H1]. pose proof (math_round_close b) as [H2 _].
  split_and!; [lra|lra|lra|]. rewrite Zlt_Qlt. lra.
Qed.

Section NewJcrop.
Variables (w h : Z) (off : Q * Q).
Hypothesis Hw : (3 <= w)%Z.
Hypothesis Hh : (3 <= h)%Z.

Let sel := defaultSelect (inject_Z w) (inject_Z h).
Let opt := defaults <| o_setSelect := Some sel |>.
Let env0 := mkEnv 0 (0, 0) (0, 0) w h 0 0 0 0 (inject_Z w / inject_Z w) (inject_Z h / inject_Z h).

Lemma self_div (n : Z) : (3 <= n)%Z -> inject_Z n / inject_Z n == 1.
Proof.
  intros Hn. field. change 0 with (inject_Z 0). rewrite inject_Z_injective. lia.
Qed.

Lemma env0_ok : EnvOk env0.
Proof.
  split; cbn; try lia; try lra; unfold bx, by_; cbn;
    try (rewrite self_div by done; lra); try (left; reflexivity);
    change 0 with (inject_Z 0); (split; [lra|apply inject_Z_mono; lia]).
Qed.

(** The state in which the constructor applies the selection: nothing is
    shown yet. *)
Definition fresh (j : jcrop) : Prop :=
  j_env j = env0 /\ j_opt j = opt /\ j_opt0 j = Some sel /\ btndown j = false
  /\ onMove j = MNothing /\ reports j = [].

(** The rectangle read after setting two corners in order. *)
Lemma select_rect a b a' b' c :
  0 <= a -> a < b -> b <= inject_Z w -> 0 <= a' -> a' < b' -> b' <= inject_Z h ->
  snd (getFixed env0 (setCurrent env0 (b, b') (setPressed env0 (a, a') c)))
  = makeObj (math_round a, math_round a', math_round b, math_round b').
Proof.
  intros. rewrite getFixed_nolimits.
  - cbn. rewrite !clamp_id by (unfold bx, by_; cbn; lra). unfold flipCoords.
    rewrite (proj2 (Qltb_ge b a)) by lra. by rewrite (proj2 (Qltb_ge b' a')) by lra.
  - apply env0_ok.
  - reflexivity.
  - by repeat split.
  - apply setCurrent_in; [apply env0_ok|]. apply setPressed_in, env0_ok.
Qed.

Definition positive (r : rect) : Prop := (r_x r < r_x2 r)%Z /\ (r_y r < r_y2 r)%Z.

Lemma fresh_setSelect j :
  fresh j ->
  let j' := setSelect sel j in
  Core j' /\ SameTracker j j' /\ awake j' = true /\ reports j' <> []
  /\ positive (snd (getFixed (j_env j') (j_c j'))).
Proof.
  intros (E1 & E2 & E3 & E4 & E5 & E6). unfold setSelect, sel, defaultSelect, setSelectRaw.
  rewrite E1. cbn [xscale yscale env0].
  destruct (defaultSelect_axis w _ Hw (self_div w Hw)) as (A1 & A2 & A3 & A4).
  destruct (defaultSelect_axis h _ Hh (self_div h Hh)) as (B1 & B2 & B3 & B4).
  set (a := (_ - _) / _) in *. set (b := (inject_Z w / 2 + _) / _) in *.
  set (a' := (inject_Z h / 2 - _) / _) in *. set (b' := (inject_Z h / 2 + _) / _) in *.
  set (j1 := j <| j_c ::= _ |>).
  assert (Core j1) as Hco.
  { split; cbn; rewrite ?E1, ?E2, ?E6; try done; [apply env0_ok|].
    apply setCurrent_in; [apply env0_ok|]. apply setPressed_in, env0_ok. }
  destruct (Core_update j1 Hco) as (C & T & A & _).
  split_and!; try done; [destruct T; by split| |].
  - destruct (update_reports j1) as [r ->]. by destruct (reports j1).
  - pose proof (update_spec j1) as Hu. cbn zeta in Hu.
    destruct (getFixed _ _) as [c r] eqn:Eg. destruct Hu as (-> & _ & -> & _).
    change c with (fst (c, r)). rewrite <- Eg, getFixed_idem by apply Hco.
    change (j_c j1) with (setCurrent env0 (b, b') (setPressed env0 (a, a') (j_c j))).
    change (j_env j1) with (j_env j). rewrite E1, select_rect by done. done.
Qed.

(** The constructor up to the selection, and after it. *)
Definition before_select (j : jcrop) : jcrop :=
  selSetCursor CurMove (setCursor CurCrosshair (enableOnly j)).

Definition after_select (j : jcrop) : jcrop :=
  let j := j <| j_opt ::= fun o => o <| o_setSelect := None |> |> in
  let o := j_opt j in
  refresh (j <| j_env ::= fun v => v <| xlimit := fst (o_maxSize o) |>
                                     <| ylimit := snd (o_maxSize o) |>
                                     <| xmin := fst (o_minSize o) |>
                                     <| ymin := snd (o_minSize o) |> |>).

Lemma done_opt j : j_opt (done j) = j_opt j.
Proof.
  unfold done, refresh. rewrite readFixed_eq. unfold updateVisible.
  assert (forall x, j_opt (update x) = j_opt x) as Hu.
  { intros x. pose proof (update_spec x) as H. cbn zeta in H.
    destruct (getFixed _ _). by destruct H as (_ & -> & _). }
  destruct (awake _); rewrite ?Hu; apply (animMode_false_shown j).
Qed.

Lemma interfaceUpdate_select j :
  j_opt j = opt -> j_opt0 j = Some sel ->
  fst (interfaceUpdate true j) = after_select (done (setSelect sel (before_select j))).
Proof.
  intros Eo E0. unfold interfaceUpdate. rewrite Eo. cbn [o_allowResize opt upd opts_eta defaults].
  repeat (change (j_opt (selSetCursor ?a ?b)) with (j_opt b)
          || change (j_opt (setCursor ?a ?b)) with (j_opt b)).
  change (j_opt (enableOnly j)) with (j_opt j). rewrite Eo.
  cbn [o_allowSelect o_allowMove o_setSelect opt upd opts_eta defaults].
  change (selSetCursor CurMove (setCursor CurCrosshair (enableOnly j))) with (before_select j).
  change (j_opt0 (before_select j)) with (j_opt0 j). rewrite E0.
  assert (j_opt (done (setSelect sel (before_select j))) = opt) as Ed.
  { rewrite done_opt. unfold setSelect, sel, defaultSelect.
    by rewrite (proj2 (setSelectRaw_frame _ _)). }
  generalize dependent (done (setSelect sel (before_select j))). intros x Ex.
  unfold after_select. destruct x. cbn in Ex. subst. reflexivity.
Qed.

(** The plug-in as the dialog creates it. *)
Lemma Jcrop_new_ok :
  let j := Jcrop_new (inject_Z w) (inject_Z h) 0 0 w h off opt in
  JInv j /\ awake j = true /\ reports j <> []
  /\ boundx (j_env j) = w /\ boundy (j_env j) = h
  /\ xscale (j_env j) == 1 /\ yscale (j_env j) == 1.
Proof.
  cbn zeta. unfold Jcrop_new, presize.
  replace ((0 <q inject_Z w) && (0 <q 0)) with false by (by rewrite andb_comm).
  replace ((0 <q inject_Z h) && (0 <q 0)) with false by (by rewrite andb_comm).
  rewrite interfaceUpdate_select by done.
  match goal with |- context [before_select ?x] => set (j0 := before_select x) end.
  destruct (fresh_setSelect j0) as (C1 & T1 & A1 & R1 & P1); [by repeat split|].
  assert (j_env j0 = env0 /\ j_opt j0 = opt /\ btndown j0 = false /\ onMove j0 = MNothing)
    as (Hj1 & Hj2 & Hj3 & Hj4) by done. clearbody j0.
  generalize dependent (setSelect sel j0). intros j1 C1 T1 A1 R1 P1.
  assert (j_env j1 = env0) as Ev1 by by rewrite (st_env _ _ T1).
  assert (NoLimits (j_env j1)) as L1 by (rewrite Ev1; by repeat split).
  destruct P1 as [P1 P1'].
  destruct (Core_done j1 C1 P1 P1') as (C2 & T2 & A2 & O2).
  pose proof (done_rect j1 C1 L1) as Er. pose proof (done_reports j1) as [l2 R2].
  assert (j_env (done j1) = env0) as Ev2 by by rewrite done_env.
  assert (j_opt (done j1) = opt) as Eo2 by (by rewrite done_opt, (st_opt _ _ T1)).
  generalize dependent (done j1). intros j2 C2 T2 A2 O2 Er R2 Ev2 Eo2.
  unfold after_select. set (j3 := _ <| j_env ::= _ |>).
  assert (j_env j3 = j_env j2) as Ev3.
  { subst j3. unfold upd, jcrop_eta. cbn. rewrite Eo2, Ev2. reflexivity. }
  assert (j_c j3 = j_c j2 /\ awake j3 = awake j2 /\ reports j3 = reports j2
    /\ btndown j3 = btndown j2 /\ onMove j3 = onMove j2
    /\ o_minSelect (j_opt j3) = o_minSelect (j_opt j2))
    as (Ec3 & Ea3 & Er3 & Eb3 & Em3 & Es3) by done.
  clearbody j3.
  assert (Core j3) as C3 by (destruct C2; split; rewrite ?Ev3, ?Ec3, ?Er3, ?Es3; done).
  assert (btndown j2 = false) as Hb2 by by rewrite (st_btn _ _ T2), (st_btn _ _ T1).
  assert (onMove j2 = MNothing) as Hm2 by by rewrite (st_move _ _ T2), (st_move _ _ T1).
  destruct (Core_refresh j3 C3) as (C4 & T4 & A4 & O4).
  { by rewrite Ev3, Ec3, Er. }
  { by rewrite Ev3, Ec3, Er. }
  destruct (refresh_reports j3) as [l4 R4]. destruct T4 as [Ve _ Be Me _].
  split_and!; rewrite ?R4, ?A4, ?Ve, ?Ev3, ?Ev2; try done; try (by apply self_div).
  - apply Core_JInv; [done|done|..]; rewrite ?Be, ?Me, ?Em3, ?Eb3, ?Hm2, ?Hb2; done.
  - by rewrite Ea3, A2.
  - rewrite Er3, R2. by destruct (reports j1).
Qed.

End NewJcrop.

(** ** The invariant is kept *)

Section Invariant.
Variable g : screen.
Hypothesis Hw : (3 <= fst (sc_image g))%Z.
Hypothesis Hh : (3 <= snd (sc_image g))%Z.

Lemma report_ok j e : OnImage g j -> e ∈ reports j -> ValOk g (reported e).
Proof.
  intros [Hinv Ex Ey Sx Sy] He. pose proof (ji_reports j Hinv) as HF.
  rewrite Forall_forall in HF. destruct (HF e He) as (H1 & H2 & H3 & H4).
  unfold bx, by_ in *. rewrite Ex, Sx in H2. rewrite Ey, Sy in H4.
  rewrite Qmult_1_r, <- Zle_Qle in H2, H4. done.
Qed.

Lemma foldl_setCoords l p :
  foldl setCoords p l
  = match last l with Some e => p <| tailorVal := Some (reported e) |> | None => p end.
Proof.
  revert p. induction l as [|e l IH]; intros p; [done|]. cbn [foldl]. rewrite IH.
  destruct l as [|e' l]; [done|]. rewrite last_cons_cons.
  destruct (last (e' :: l)) eqn:E; [done|]. by apply last_None in E.
Qed.

(** Delivering reports replaces the plug-in and, if there are any, the value. *)
Lemma PInv_deliver old j p :
  OnImage g j -> PInv g (p <| zoomContent := CNone |>) ->
  drop (length old) (reports j) <> []
    \/ (forall src, zoomContent p = CImage src true -> is_Some (tailorVal p)) ->
  PInv g (deliver old j p).
Proof.
  intros Hj [] Hv. cbn in *. unfold deliver. rewrite foldl_setCoords.
  destruct (last _) as [e|] eqn:E.
  - assert (e ∈ reports j) as He.
    { apply last_Some_elem_of in E. rewrite <- (take_drop (length old) (reports j)).
      apply elem_of_app. by right. }
    split; cbn; eauto; [congruence|]. intros r [= <-]. by eapply report_ok.
  - apply last_None in E. destruct Hv as [?|Hv]; [done|].
    split; cbn; eauto. congruence.
Qed.

Lemma PInv_hide p : PInv g p -> PInv g (p <| zoomContent := CNone |>).
Proof. intros []. by split. Qed.

Lemma PInv_showImage p : PInv g p -> PInv g (showImage g p).
Proof.
  intros Hp. unfold showImage. destruct (zoomContent p) as [|src b]; [done|].
  unfold createTailorPlug. destruct (sc_image g) as [w h] eqn:Eg. cbn in Hw, Hh.
  destruct (Jcrop_new_ok w h (sc_offset g) Hw Hh) as (J1 & _ & J3 & J4 & J5 & J6 & J7).
  apply PInv_deliver; [split; rewrite ?Eg; done| |left; exact J3].
  destruct Hp. split; done.
Qed.

Lemma OnImage_step j j' : ui_step j j' -> OnImage g j -> OnImage g j'.
Proof.
  intros Hs []. split; rewrite ?(ui_step_env _ _ Hs); try done. by eapply JInv_ui_step.
Qed.

Lemma PInv_closePopup p : PInv g p -> PInv g (closePopup p).
Proof. intros []. by split. Qed.

Lemma PInv_step p p' : popup_step g p p' -> PInv g p -> PInv g p'.
Proof.
  intros Hs Hp. destruct Hs as [src H1 H2|src H1 H2|j j' H1 H2|target H1|H1|H1].
  - unfold render. rewrite (surjective_pairing (sc_image g)).
    case_match; [by apply PInv_showImage|]. destruct Hp. by split.
  - unfold animate_end. rewrite (surjective_pairing (sc_image g)).
    apply PInv_showImage. destruct Hp. by split.
  - apply PInv_deliver; [|by apply PInv_hide|].
    + eapply OnImage_step; [done|]. by apply Hp.
    + right. intros src Hsrc. by apply (pi_shown g p Hp src).
  - unfold click_zoom. case_decide; [by apply PInv_closePopup|done].
  - unfold click_finish. apply PInv_closePopup. destruct Hp as [Ha Hv Hsh Hz Ht Hb].
    split; cbn; try done.
    apply Forall_app. split; [done|]. constructor; [|done]. intros r Hr. split; [auto|].
    destruct Hb as [j Ej]; [by rewrite Hr|]. rewrite Ej. cbn.
    destruct (Ha j Ej) as [_ -> -> _ _]. by destruct (sc_image g).
  - by apply PInv_closePopup.
Qed.

Lemma PInv_init src index name z : PInv g (zyPopup g src index name z).
Proof. by split; cbn; try done; intros [? ?]. Qed.

Lemma PInv_reach src index name z p :
  rtc (popup_step g) (zyPopup g src index name z) p -> PInv g p.
Proof.
  assert (forall x y, rtc (popup_step g) x y -> PInv g x -> PInv g y) as Hgen.
  { induction 1; eauto using PInv_step. }
  eauto using PInv_init.
Qed.

(** C38: whatever the user does in the crop dialog on an image of at least
    3 x 3 pixels, as long as keys are only pressed between drags and the
    selection is not grabbed while one of its corners is being dragged, the layer,
    its flag and the class of the page agree, and every selection the finish
    button hands over lies inside the image and comes with the size of the
    image.  ([key_during_drag_leaves_image]: a key during a drag breaks it.) *)
Theorem popup_values_in_image src index name z p :
  rtc (popup_step g) (zyPopup g src index name z) p ->
  zoomedIn p = zoom_shown p /\ body_zoomed p = zoom_shown p
  /\ Forall (fun '(v, q) => forall r, v = Some r -> ValOk g r /\ q = Some (sc_image g)) (tailored p).
Proof.
  intros Hs. by destruct (PInv_reach _ _ _ _ _ Hs) as [_ _ _ [? ?] ? _].
Qed.

(** When the image is shown, one press of the finish button hands over
    exactly one selection and closes the dialog. *)
Theorem finish_after_show src index name z p src' :
  rtc (popup_step g) (zyPopup g src index name z) p -> zoomContent p = CImage src' true ->
  exists r, ValOk g r /\ tailored (click_finish p) = tailored p ++ [(Some r, Some (sc_image g))]
    /\ zoom_shown (click_finish p) = false /\ zoomContent (click_finish p) = CNone.
Proof.
  intros Hs Hc. destruct (PInv_reach _ _ _ _ _ Hs) as [Ha Hv Hsh _ _ _].
  destruct (Hsh src' Hc) as [[j Ej] [r Er]]. exists r.
  split_and!; [by apply Hv| |done|done]. cbn. rewrite Er, Ej. cbn.
  destruct (Ha j Ej) as [_ -> -> _ _]. by destruct (sc_image g).
Qed.

End Invariant.

(** Pressing the finish button before the image has loaded hands over an
    empty value and no size. *)
Theorem finish_before_load g src index name z :
  tailored (click_finish (zyPopup g src index name z)) = [(None, None)].
Proof. done. Qed.

(** ** Examples *)

Module Sample.

Definition g : screen := mkScreen (1024, 768)%Z (100, 50)%Z 4 (200, 100)%Z (0, 0).
Definition p0 : popup := zyPopup g (js "a.png") (js "0") (js "a") false.
Definition p1 : popup := render g p0.
Definition p2 : popup := animate_end g p1.

Lemma p2_reachable : rtc (popup_step g) p0 p2.
Proof.
  apply (rtc_l _ _ p1); [by apply (PLoad g p0 (js "a.png"))|].
  apply rtc_once. by apply (PAnim g p1 (js "a.png")).
Qed.

(** One click beside the selection, at (5, 5). *)
Definition j0 : jcrop := default (Jcrop_new 1 1 0 0 1 1 (0, 0) defaults) (api p2).
Definition j1 : jcrop := newSelection (5, 5) j0.
Definition p3 : popup := deliver (reports j0) j1 p2.
Definition j2 : jcrop := fst (trackUp (5, 5) j1).
Definition p4 : popup := deliver (reports j1) j2 p3.

Lemma popup_values_in_image_witness :
  body_zoomed (click_finish p2) = zoom_shown (click_finish p2).
Proof.
  refine (proj1 (proj2 (popup_values_in_image g _ _ (js "a.png") (js "0") (js "a") false
    (click_finish p2) _))); [vm_compute; discriminate|vm_compute; discriminate|].
  eapply rtc_r; [exact p2_reachable|]. apply PFinish. reflexivity.
Defined.

Lemma finish_after_show_witness :
  exists r, tailored (click_finish p2) = [(Some r, Some (200, 100)%Z)].
Proof.
  destruct (finish_after_show g ltac:(vm_compute; discriminate) ltac:(vm_compute; discriminate)
    (js "a.png") (js "0") (js "a") false p2 (js "a.png") p2_reachable) as (r & _ & H & _).
  - vm_compute. reflexivity.
  - exists r. exact H.
Defined.

End Sample.

(** One click on the image outside the selection makes the value that the
    finish button hands over an empty rectangle. *)
Theorem click_empties_value :
  tailorVal Sample.p2 = Some (mkRect 60 30 140 70 80 40)
  /\ tailored (click_finish Sample.p4) = [(Some (mkRect 5 5 5 5 0 0), Some (200, 100)%Z)].
Proof. vm_compute. done. Qed.

(** An arrow key during a drag takes the value out of the image: on the
    200 x 100 image of the sample, a drag from (200, 50) to (0, 50) with one
    press of the right-arrow key before the button is released hands over a
    selection above and to the right of the image. *)
Theorem key_during_drag_leaves_image :
  let j1 := newSelection (200, 50) Sample.j0 in
  let j2 := fst (trackMove (0, 50) j1) in
  let j3 := fst (parseKey (mkKey false false 39) j2) in
  let j4 := fst (trackUp (0, 50) j3) in
  let p := deliver (reports j3) j4 (deliver (reports j2) j3
             (deliver (reports j1) j2 (deliver (reports Sample.j0) j1 Sample.p2))) in
  tailored (click_finish p) = [(Some (mkRect 1 (-101) 201 (-101) 200 0), Some (200, 100)%Z)].
Proof. vm_compute. done. Qed.
