(* ===== verification/ZyUpload.v ===== *)
(** * The upload page (zyupload-1.0.0.js, $.fn.zyUpload)

    The plug-in builds the upload form, supplies the callbacks of [ZYFILE] and
    binds the buttons.  It is the program's instance of the interface
    [ZyCallbacks]; its law [filterFile_sublist] is discharged here, so the
    theorems of the queue hold for the page.

    The page [W] of the queue is the record [page]: the elements the code
    addresses by id, the buttons with the number of handlers bound to each,
    the file readers that have not fired, the implicit global variable [file]
    and the alerts shown.  How the browser parses an inserted fragment is the
    interface [Browser].  The functions the user passes in the options
    ([para.onSelect] and so on) receive the arguments that the queue's log of
    calls records; what they do is not modelled. *)

From stdpp Require Import base gmap list strings relations.
From Stdlib Require Import QArith Qabs Qround Lqa.
From S2P Require Import Prelude JsString ZyFile JcropCoords ZyPopup.

#[local] Open Scope Z_scope.

(** ** Data *)

(** The option object [para], its callbacks apart. *)
Record para := mkPara {
  pa_width : jstr;
  pa_height : jstr;
  pa_itemWidth : jstr;
  pa_itemHeight : jstr;
  pa_url : jstr;
  pa_fileType : list jstr;
  pa_fileSize : Z;
  pa_multiple : bool;
  pa_dragDrop : bool;
  pa_tailor : bool;
  pa_del : bool;
  pa_finishDel : bool;
}.

#[export] Instance para_eta : Eta para :=
  fun r => mkPara (pa_width r) (pa_height r) (pa_itemWidth r) (pa_itemHeight r) (pa_url r)
    (pa_fileType r) (pa_fileSize r) (pa_multiple r) (pa_dragDrop r) (pa_tailor r) (pa_del r)
    (pa_finishDel r).

Definition para_defaults : para :=
  mkPara (js "700px") (js "400px") (js "140px") (js "120px") (js "/upload/UploadAction")
    [] 51200000 true true false true false.

(** The options of the page at hand, found by the type class mechanism. *)
Class Options := options : para.

(** A style value: a string, or a number of pixels. *)
Inductive css := CssStr (s : jstr) | CssPx (q : Q).

Record elem := mkElem {
  el_shown : bool;
  el_attr : gmap jstr jstr;
  el_css : gmap jstr css;
  el_class : gset jstr;
  el_html : jstr;
}.

#[export] Instance elem_eta : Eta elem :=
  fun r => mkElem (el_shown r) (el_attr r) (el_css r) (el_class r) (el_html r).

(** The closure of one call of [onSelect] while its reader is reading. *)
Record loader := mkLoader {
  ld_files : list nat;
  ld_i : nat;
  ld_html : jstr;
}.

#[export] Instance loader_eta : Eta loader :=
  fun r => mkLoader (ld_files r) (ld_i r) (ld_html r).

Record page := mkPage {
  elems : gmap jstr elem;          (** the elements with an id *)
  del_btns : list (jstr * nat);    (** data-index and handlers of each delete button *)
  edit_btns : list (jstr * nat);   (** the same of each edit button *)
  previews : list jstr;            (** the fragments inserted in the preview area *)
  alerts : list jstr;
  file : option nat;               (** the global variable [file] *)
  loaders : list loader;
  choosers : nat;                  (** times the file chooser was opened *)
  dialog : option popup;
}.

#[export] Instance page_eta : Eta page :=
  fun r => mkPage (elems r) (del_btns r) (edit_btns r) (previews r) (alerts r) (file r)
    (loaders r) (choosers r) (dialog r).

(** What the browser makes of a fragment of HTML: its elements with an id,
    the data-index of its elements of a class, and whether a selector matches
    in it. *)
Class Browser := {
  html_elems : jstr -> gmap jstr elem;
  html_index : jstr -> jstr -> list jstr;
  html_has : jstr -> jstr -> bool;
}.

Definition on_id (id : jstr) (f : elem -> elem) (w : page) : page :=
  w <| elems ::= alter f id |>.

Definition show_el (e : elem) : elem := e <| el_shown := true |>.
Definition hide_el (e : elem) : elem := e <| el_shown := false |>.

Definition set_css (k : jstr) (v : css) (e : elem) : elem := e <| el_css ::= <[k := v]> |>.

(** ["#name_" + index]: the id of an element of a preview. *)
Definition id_of (name : string) (index : option Z) : jstr := js name ++ show_undef index.

Definition file_index (h : gmap nat File) (f : nat) : option Z := F ← h !! f; f_index F.

(** ** The HTML of the form and of a preview *)

(** [parseInt(s.replace("px", "")) - d]. *)
Definition px_minus (s : jstr) (d : Z) : option Z :=
  (fun n => n - d) <$> parse_int_str (replace_first (js "px") [] s).

Definition createHtml (p : para) : jstr :=
  let multiple := if pa_multiple p then js "multiple" else [] in
  if pa_dragDrop p then
     jq "<form id=`uploadForm` action=`" ++ pa_url p ++ jq "` method=`post` enctype=`multipart/form-data`>"
     ++ jq "	<div class=`upload_box`>"
     ++ jq "		<div class=`upload_main`>"
     ++ jq "			<div class=`upload_choose`>"
     ++ jq "				<div class=`convent_choice`>"
     ++ jq "					<div class=`andArea`>"
     ++ jq "						<div class=`filePicker`>点击选择文件</div>"
     ++ jq "						<input id=`fileImage` type=`file` size=`30` name=`fileselect[]` " ++ multiple ++ js ">"
     ++ js "					</div>"
     ++ js "				</div>"
     ++ jq "				<span id=`fileDragArea` class=`upload_drag_area`>或者将文件拖到此处</span>"
     ++ js "			</div>"
     ++ jq "			<div class=`status_bar`>"
     ++ jq "				<div id=`status_info` class=`info`>选中0张文件，共0B。</div>"
     ++ jq "				<div class=`btns`>"
     ++ jq "					<div class=`webuploader_pick`>继续选择</div>"
     ++ jq "					<div class=`upload_btn`>开始上传</div>"
     ++ js "				</div>"
     ++ js "			</div>"
     ++ jq "			<div id=`preview` class=`upload_preview`></div>"
     ++ js "		</div>"
     ++ jq "		<div class=`upload_submit`>"
     ++ jq "			<button type=`button` id=`fileSubmit` class=`upload_submit_btn`>确认上传文件</button>"
     ++ js "		</div>"
     ++ jq "		<div id=`uploadInf` class=`upload_inf`></div>"
     ++ js "	</div>"
     ++ js "</form>"
  else
     let imgWidth := px_minus (pa_itemWidth p) 15 in
     jq "<form id=`uploadForm` action=`" ++ pa_url p ++ jq "` method=`post` enctype=`multipart/form-data`>"
     ++ jq "	<div class=`upload_box`>"
     ++ jq "		<div class=`upload_main single_main`>"
     ++ jq "			<div class=`status_bar`>"
     ++ jq "				<div id=`status_info` class=`info`>选中0张文件，共0B。</div>"
     ++ jq "				<div class=`btns`>"
     ++ jq "					<input id=`fileImage` type=`file` size=`30` name=`fileselect[]` " ++ multiple ++ js ">"
     ++ jq "					<div class=`webuploader_pick`>选择文件</div>"
     ++ jq "					<div class=`upload_btn`>开始上传</div>"
     ++ js "				</div>"
     ++ js "			</div>"
     ++ jq "			<div id=`preview` class=`upload_preview`>"
     ++ jq "				<div class=`add_upload`>"
     ++ jq "					<a style=`height:" ++ pa_itemHeight p ++ js ";width:" ++ pa_itemWidth p ++ jq ";` title=`点击添加文件` id=`rapidAddImg` class=`add_imgBox` href=`javascript:void(0)`>"
     ++ jq "						<div class=`uploadImg` style=`width:" ++ show_num imgWidth ++ jq "px`>"
     ++ jq "							<img class=`upload_image` src=`zyupload/skins/images/add_img.png` style=`width:expression(this.width > " ++ show_num imgWidth ++ js " ? " ++ show_num imgWidth ++ jq "px : this.width)` />"
     ++ js "						</div>"
     ++ js "					</a>"
     ++ js "				</div>"
     ++ js "			</div>"
     ++ js "		</div>"
     ++ jq "		<div class=`upload_submit`>"
     ++ jq "			<button type=`button` id=`fileSubmit` class=`upload_submit_btn`>确认上传文件</button>"
     ++ js "		</div>"
     ++ jq "		<div id=`uploadInf` class=`upload_inf`></div>"
     ++ js "	</div>"
     ++ js "</form>".

(** The extension: [name] reversed, split at the dots, its first piece
    reversed back. *)
Definition file_ext (name : jstr) : jstr :=
  reverse_str (hd [] (split_char 46 (reverse_str name))).

(** The types that have an icon of their own. *)
Definition icon_types : list jstr :=
  js <$> ["rar"; "zip"; "txt"; "ppt"; "xls"; "pdf"; "psd"; "ttf"; "swf"]%string.

Definition file_icon (type : jstr) : jstr :=
  js "zyupload/skins/images/fileType/"
  ++ if bool_decide (type ∈ icon_types) then type ++ js ".png" else js "file.png".

Definition funDisposePreviewHtml (p : para) (file : File) (result : jstr) : jstr :=
  let imgWidth := px_minus (pa_itemWidth p) 15 in
  let imgHeight := px_minus (pa_itemHeight p) 10 in
  let index := show_undef (f_index file) in
  let editHtml := if pa_tailor p
    then jq "<span class=`file_edit` data-index=`" ++ index ++ jq "` title=`编辑`></span>" else [] in
  let delHtml := if pa_del p
    then jq "<span class=`file_del` data-index=`" ++ index ++ jq "` title=`删除`></span>" else [] in
  let fileImgSrc := file_icon (file_ext (f_name file)) in
  if str_index (js "image") (f_type file) =? 0 then
     jq "<div id=`uploadList_" ++ index ++ jq "` class=`upload_append_list`>"
     ++ jq "	<div class=`file_bar`>"
     ++ jq "		<div style=`padding:5px;`>"
     ++ jq "			<p class=`file_name` title=`" ++ f_name file ++ jq "`>" ++ f_name file ++ js "</p>"
     ++ editHtml
     ++ delHtml
     ++ js "		</div>"
     ++ js "	</div>"
     ++ jq "	<a style=`height:" ++ pa_itemHeight p ++ js ";width:" ++ pa_itemWidth p ++ jq ";` href=`#` class=`imgBox`>"
     ++ jq "		<div class=`uploadImg` style=`width:" ++ show_num imgWidth ++ js "px;max-width:" ++ show_num imgWidth ++ js "px;max-height:" ++ show_num imgHeight ++ jq "px;`>"
     ++ jq "			<img id=`uploadImage_" ++ index ++ jq "` class=`upload_image` src=`" ++ result ++ jq "` style=`width:expression(this.width > " ++ show_num imgWidth ++ js " ? " ++ show_num imgWidth ++ jq "px : this.width);` />"
     ++ js "		</div>"
     ++ js "	</a>"
     ++ jq "	<p id=`uploadProgress_" ++ index ++ jq "` class=`file_progress`></p>"
     ++ jq "	<p id=`uploadFailure_" ++ index ++ jq "` class=`file_failure`>上传失败，请重试</p>"
     ++ jq "	<p id=`uploadTailor_" ++ index ++ jq "` class=`file_tailor` tailor=`false`>裁剪完成</p>"
     ++ jq "	<p id=`uploadSuccess_" ++ index ++ jq "` class=`file_success`></p>"
     ++ js "</div>"
  else
     jq "<div id=`uploadList_" ++ index ++ jq "` class=`upload_append_list`>"
     ++ jq "	<div class=`file_bar`>"
     ++ jq "		<div style=`padding:5px;`>"
     ++ jq "			<p class=`file_name`>" ++ f_name file ++ js "</p>"
     ++ delHtml
     ++ js "		</div>"
     ++ js "	</div>"
     ++ jq "	<a style=`height:" ++ pa_itemHeight p ++ js ";width:" ++ pa_itemWidth p ++ jq ";` href=`#` class=`imgBox`>"
     ++ jq "		<div class=`uploadImg` style=`width:" ++ show_num imgWidth ++ jq "px`>"
     ++ jq "			<img id=`uploadImage_" ++ index ++ jq "` class=`upload_file` src=`" ++ fileImgSrc ++ jq "` style=`width:expression(this.width > " ++ show_num imgWidth ++ js " ? " ++ show_num imgWidth ++ jq "px : this.width)` />"
     ++ js "		</div>"
     ++ js "	</a>"
     ++ jq "	<p id=`uploadProgress_" ++ index ++ jq "` class=`file_progress`></p>"
     ++ jq "	<p id=`uploadFailure_" ++ index ++ jq "` class=`file_failure`>上传失败，请重试</p>"
     ++ jq "	<p id=`uploadSuccess_" ++ index ++ jq "` class=`file_success`></p>"
     ++ js "</div>".

(** ** The functions of the plug-in *)

(** What becomes of one file: accepted, or refused with a message. *)
Inductive verdict := Accept | TooLarge | WrongType.

Definition judge (p : para) (F : File) : verdict :=
  if -1 <? index_of (file_ext (f_name F)) (pa_fileType p)
  then if pa_fileSize p <=? f_size F then TooLarge else Accept
  else WrongType.

Definition refusal (name : jstr) (v : verdict) : jstr :=
  jq "您这个`" ++ name ++ match v with
  | TooLarge => jq "`文件大小过大"
  | _ => jq "`上传类型不符合"
  end.

(** The loop of [funFilterEligibleFile]; a reference that is not in the store
    does not occur.  [split] always yields a first piece, so the branch for a
    name without a type is never taken. *)
Fixpoint funFilterEligibleFile (p : para) (h : gmap nat File) (fs : list nat) (w : page)
    : list nat * page :=
  match fs with
  | [] => ([], w)
  | f :: fs' =>
      match h !! f with
      | None => ([], w)
      | Some F =>
          match judge p F with
          | Accept =>
              let '(arr, w) := funFilterEligibleFile p h fs' w in (f :: arr, w)
          | v =>
              funFilterEligibleFile p h fs'
                (w <| alerts ::= fun l => l ++ [refusal (f_name F) v] |>)
          end
      end
  end.

Definition total_size (h : gmap nat File) (fs : list nat) : Z :=
  foldr (fun f n => from_option f_size 0 (h !! f) + n) 0 fs.

(** The number of hundredths of a unit of [unit] bytes. *)
Definition hundredths (size unit : Z) : Z := math_round (inject_Z (size * 100) / inject_Z unit).

Definition status_text (num size : Z) : jstr :=
  let shown :=
    if 1024 * 1024 <? size
    then show_hundredths (hundredths size (1024 * 1024)) ++ js "MB"
    else show_hundredths (hundredths size 1024) ++ js "KB" in
  js "选中" ++ show_Z num ++ js "张文件，共" ++ shown ++ js "。".

Definition funSetStatusInfo (h : gmap nat File) (fs : list nat) (w : page) : page :=
  on_id (js "status_info")
    (fun e => e <| el_html := status_text (Z.of_nat (length fs)) (total_size h fs) |>) w.

(** *** The preview of a selection *)

Section Operations.
Context `{Browser} {p : Options}.

(** Bind one more handler to every button that is on the page. *)
Definition bind_all (l : list (jstr * nat)) : list (jstr * nat) :=
  (fun '(i, n) => (i, S n)) <$> l.

Definition funBindDelEvent (w : page) : page :=
  w <| del_btns ::= bind_all |> <| edit_btns ::= bind_all |>.

Definition funAppendPreviewHtml (html : jstr) (w : page) : page :=
  let new (c : string) := (fun i => (i, 0%nat)) <$> html_index (js c) html in
  funBindDelEvent
    (w <| previews ::= fun l => l ++ [html] |>
       <| elems ::= fun m => m ∪ html_elems html |>
       <| del_btns ::= fun l => l ++ new "file_del" |>
       <| edit_btns ::= fun l => l ++ new "file_edit" |>).

Definition funDealtPreviewHtml (l : loader) (w : page) : page :=
  let w := w <| file := ld_files l !! ld_i l |> in
  match file w with
  | Some _ => w <| loaders ::= fun ls => ls ++ [l] |>
  | None => funAppendPreviewHtml (ld_html l) w
  end.

(** The [load] event of the reader of [l]: the preview is made for the file
    the global variable holds now. *)
Definition reader_onload (h : gmap nat File) (l : loader) (data : jstr) (w : page)
    : page * result unit :=
  match f ← file w; h !! f with
  | None => (w, Throw)
  | Some F =>
      (funDealtPreviewHtml
         (l <| ld_html ::= fun t => t ++ funDisposePreviewHtml p F data |>
            <| ld_i ::= S |>) w, Ret tt)
  end.

(** The [n]-th reader that is reading fires. *)
Definition load_event (h : gmap nat File) (n : nat) (data : jstr) (w : page)
    : page * result unit :=
  match loaders w !! n with
  | None => (w, Ret tt)
  | Some l => reader_onload h l data (w <| loaders ::= delete n |>)
  end.

(** *** The callbacks of the queue *)

Definition up_onSelect (z : zyfile) (selectFiles allFiles : list nat) (w : page) : page :=
  funDealtPreviewHtml (mkLoader selectFiles 0 []) (funSetStatusInfo (files z) (uploadFile z) w).

(** [file.index] of an undefined file throws. *)
Definition up_onDelete (z : zyfile) (f : option nat) (fs : list nat) (w : page)
    : page * result unit :=
  match f with
  | None => (w, Throw)
  | Some f =>
      (funSetStatusInfo (files z) fs
         (on_id (id_of "uploadList_" (file_index (files z) f)) hide_el w), Ret tt)
  end.

Definition percent (loaded total : Z) : jstr :=
  (if total =? 0 then js "NaN"
   else show_fixed2 (math_round (inject_Z (loaded * 10000) / inject_Z total))) ++ js "%".

Definition up_onProgress (z : zyfile) (f : nat) (loaded total : Z) (w : page) : page :=
  on_id (id_of "uploadProgress_" (file_index (files z) f))
    (fun e => set_css (js "width") (CssStr (percent loaded total)) (show_el e)) w.

Definition up_onSuccess (z : zyfile) (f : nat) (response : jstr) (w : page) : page :=
  let i := file_index (files z) f in
  let w := on_id (id_of "uploadProgress_" i) hide_el w in
  let w := on_id (id_of "uploadSuccess_" i) show_el w in
  let w := if pa_finishDel p
           then funSetStatusInfo (files z) (uploadFile z) (on_id (id_of "uploadList_" i) hide_el w)
           else w in
  on_id (id_of "uploadTailor_" i) hide_el w.

Definition up_onFailure (z : zyfile) (f : nat) (response : jstr) (w : page) : page :=
  let i := file_index (files z) f in
  let w := on_id (id_of "uploadProgress_" i) hide_el w in
  let w := on_id (id_of "uploadSuccess_" i) show_el w in
  let w := on_id (id_of "uploadTailor_" i) hide_el w in
  on_id (js "uploadInf")
    (fun e => e <| el_html ::= fun t =>
       t ++ js "<p>文件" ++ file_name (files z) f ++ js "上传失败！</p>" |>) w.

Definition up_onDragOver (target : jstr) (w : page) : page :=
  on_id target (fun e => e <| el_class ::= fun c => {[js "upload_drag_hover"]} ∪ c |>) w.

Definition up_onDragLeave (target : jstr) (w : page) : page :=
  on_id target (fun e => e <| el_class ::= fun c => c ∖ {[js "upload_drag_hover"]} |>) w.

(** The attribute [funUploadFile] sends along. *)
Definition up_tailorAttr (i : option Z) (w : page) : option jstr :=
  e ← elems w !! id_of "uploadTailor_" i; el_attr e !! js "tailor".

#[export] Instance page_callbacks : ZyCallbacks page := {|
  filterFile := funFilterEligibleFile p;
  onSelect := up_onSelect;
  onDelete := up_onDelete;
  onProgress := up_onProgress;
  onSuccess := up_onSuccess;
  onFailure := up_onFailure;
  onComplete := fun _ _ w => w;
  onDragOver := up_onDragOver;
  onDragLeave := up_onDragLeave;
  tailorAttr := up_tailorAttr;
|}.

(** [createCorePlug]: the parameters it adds to [ZYFILE]. *)
Definition createCorePlug (w : page) (z : zyfile) : zyfile :=
  let get (id : string) := (fun _ => js id) <$> elems w !! js id in
  z <| fileInput := get "fileImage" |> <| uploadInput := get "fileSubmit" |>
    <| dragDrop := get "fileDragArea" |>
    <| url := default [] (e ← elems w !! js "uploadForm"; el_attr e !! js "action") |>.

(** *** The buttons *)

Inductive action := OpenChooser | StartUpload.

(** [addEvent]: what is bound to the clicks on the elements of the form. *)
Definition addEvent (html : jstr) : list (jstr * action) :=
  (if html_has html (js ".filePicker") then [(js ".filePicker", OpenChooser)] else [])
  ++ [(js ".webuploader_pick", OpenChooser); (js ".upload_btn", StartUpload)]
  ++ (if html_has html (js "#rapidAddImg") then [(js "#rapidAddImg", OpenChooser)] else []).

Abbreviation sys := (ZyFile.sys page).

(** A click on an element bound to [a]; [$("#fileSubmit").click()] runs the
    listener of the queue's upload button. *)
Definition run_action (a : action) (s : sys) : sys :=
  match a with
  | OpenChooser => s <| world ::= fun w => w <| choosers ::= S |> |>
  | StartUpload =>
      if 0 <? Z.of_nat (length (funReturnNeedFiles s))
      then match uploadInput (zy s) with Some _ => funUploadFiles s | None => s end
      else s <| world ::= fun w => w <| alerts ::= fun l => l ++ [js "请先选中文件再点击上传"] |> |>
  end.

(** The handlers bound to a delete button run one after the other, until one
    throws. *)
Fixpoint run_deletes (n : nat) (i : option Z) (s : sys) : sys :=
  match n with
  | O => s
  | S n' =>
      match funDeleteFile i true s with
      | (s', Ret _) => run_deletes n' i s'
      | (s', Throw) => s'
      end
  end.

Definition click_delete (k : nat) (s : sys) : sys :=
  match del_btns (world s) !! k with
  | None => s
  | Some (i, n) => run_deletes n (parse_int_str i) s
  end.

(** *** Cropping *)

(** [createPopupPlug]: the dialog for the image of a preview.  The name is
    the title of the preview's [.file_name]. *)
Definition createPopupPlug (g : screen) (imgSrc index name : jstr) (w : page) : page :=
  w <| dialog := Some (zyPopup g imgSrc index name
         (match dialog w with Some d => body_zoomed d | None => false end)) |>.

Definition click_edit (g : screen) (title : jstr) (k : nat) (w : page) : page :=
  match edit_btns w !! k with
  | None => w
  | Some (i, n) =>
      let src := default [] (e ← elems w !! (js "uploadImage_" ++ i); el_attr e !! js "src") in
      Nat.iter n (createPopupPlug g src i title) w
  end.

(** A number, [None] if it is not finite. *)
Definition fin_mul (a b : option Q) : option Q := x ← a; y ← b; Some (x * y)%Q.
Definition fin_sub (a b : option Q) : option Q := x ← a; y ← b; Some (x - y)%Q.
Definition fin_div (a b : option Q) : option Q :=
  x ← a; y ← b; if Qeq_bool y 0 then None else Some (x / y)%Q.

Definition set_px (k : string) (v : option Q) (e : elem) : elem :=
  match v with Some q => set_css (js k) (CssPx q) e | None => e end.

(** [val.width] and the like. *)
Definition field (g : rect -> Z) (val : option rect) : option Q := (fun r => inject_Z (g r)) <$> val.

Definition tailor_text (val : option rect) : jstr :=
  let n (g : rect -> Z) := show_undef (g <$> val) in
  js "{'leftX':" ++ n r_x ++ js ",'leftY':" ++ n r_y ++ js ",'rightX':" ++ n r_x2
  ++ js ",'rightY':" ++ n r_y2 ++ js ",'width':" ++ n r_w ++ js ",'height':" ++ n r_h ++ js "}".

(** The callback of [createPopupPlug]; a missing size counts as 0. *)
Definition onTailor (index : jstr) (val : option rect) (q : option (Z * Z)) (w : page) : page :=
  let num (s : jstr) := inject_Z <$> px_minus s 0 in
  let ratio := fin_div (num (pa_itemWidth p)) (field r_w val) in
  let qw := Some (inject_Z (from_option fst 0 q)) in
  let qh := Some (inject_Z (from_option snd 0 q)) in
  let width := fin_mul ratio qw in
  let height := fin_mul ratio qh in
  let left_ := fin_mul (field r_x val) ratio in
  let top_ := fin_sub (fin_mul (field r_y2 val) ratio) (fin_mul (field r_h val) ratio) in
  let w := on_id (js "uploadImage_" ++ index)
    (fun e => set_px "margin-top" (Qopp <$> top_) (set_px "margin-left" (Qopp <$> left_)
                (set_px "height" height (set_px "width" width e)))) w in
  on_id (js "uploadTailor_" ++ index)
    (fun e => (show_el e) <| el_attr ::= <[js "tailor" := tailor_text val]> |>) w.

(** *** The page as a whole *)

Definition page_initial : page :=
  mkPage (html_elems (createHtml p)) [] [] [] [] None [] 0 None.

(** [init]: the form is inserted and its events bound, then the queue gets
    its parameters. *)
Definition zyUpload : sys :=
  initial (createCorePlug page_initial ZYFILE_initial) page_initial.

Inductive page_step (g : screen) (s : sys) : sys -> Prop :=
| PgQueue s' : ZyFile.step s s' -> page_step g s s'
| PgReader n data :
    page_step g s (s <| world := fst (load_event (files (zy s)) n data (world s)) |>)
| PgDelete k : page_step g s (click_delete k s)
| PgEdit k title : page_step g s (s <| world ::= click_edit g title k |>)
| PgButton sel a : (sel, a) ∈ addEvent (createHtml p) -> page_step g s (run_action a s)
| PgTailor index val q : page_step g s (s <| world ::= onTailor index val q |>).

End Operations.

(** ** Lemmas *)

(** *** The filter *)

Definition eligible (p : para) (h : gmap nat File) (f : nat) : bool :=
  match h !! f with
  | Some F => match judge p F with Accept => true | _ => false end
  | None => false
  end.

Lemma filterEligible_sublist p h fs w : sublist (fst (funFilterEligibleFile p h fs w)) fs.
Proof.
  revert w. induction fs as [|f fs IH]; intros w; cbn; [constructor|].
  destruct (h !! f) as [F|]; [|apply sublist_nil_l].
  destruct (judge p F); [|by constructor|by constructor].
  specialize (IH w). destruct (funFilterEligibleFile p h fs w). by constructor.
Qed.

#[export] Instance page_laws `{Browser} {p : Options} : ZyCallbacksLaws page.
Proof. intros h fs w. apply filterEligible_sublist. Qed.

(** *** Strings *)

Lemma file_ext_dot u t : (46%N ∉ t) -> file_ext (u ++ 46%N :: t) = t.
Proof.
  intros Ht. unfold file_ext, reverse_str. rewrite reverse_app, reverse_cons, <- app_assoc. cbn.
  rewrite split_char_head by (rewrite elem_of_reverse; done). cbn. apply reverse_involutive.
Qed.

Lemma file_ext_plain t : (46%N ∉ t) -> file_ext t = t.
Proof.
  intros Ht. unfold file_ext, reverse_str.
  rewrite split_char_none by (rewrite elem_of_reverse; done). cbn. apply reverse_involutive.
Qed.

(** *** The elements of a preview are told apart by their ids *)

Lemma on_id_same id f w e :
  elems w !! id = Some e -> elems (on_id id f w) !! id = Some (f e).
Proof. intros He. cbn. by rewrite lookup_alter_eq, He. Qed.

Lemma on_id_other id id' f w : id <> id' -> elems (on_id id f w) !! id' = elems w !! id'.
Proof. intros Hne. cbn. by apply lookup_alter_ne. Qed.

(** Two ids that differ in their first eight characters. *)
Lemma id_differs (a b : jstr) : take 8 a <> take 8 b -> a <> b.
Proof. congruence. Qed.

(** Read an element through updates of other elements. *)
Ltac ids :=
  repeat rewrite on_id_other by (apply id_differs; vm_compute; discriminate).

(** *** The preview *)

Section Preview.
Context `{Browser} {p : Options}.
Implicit Types (h : gmap nat File) (w : page) (fs : list nat) (ds : list jstr).

(** The readers of a single selection fire one after the other. *)
Definition feed h ds w : page := foldl (fun w d => fst (load_event h 0 d w)) w ds.

(** The previews of the files, each with the data its reader read. *)
Fixpoint previews_of h fs ds : jstr :=
  match fs, ds with
  | f :: fs', d :: ds' =>
      from_option (fun F => funDisposePreviewHtml p F d) [] (h !! f) ++ previews_of h fs' ds'
  | _, _ => []
  end.

(** One reader fires while no other is reading. *)
Lemma load_single h l w f F d :
  loaders w = [] -> ld_files l !! ld_i l = Some f -> h !! f = Some F ->
  fst (load_event h 0 d (funDealtPreviewHtml l w))
  = funDealtPreviewHtml
      (mkLoader (ld_files l) (S (ld_i l)) (ld_html l ++ funDisposePreviewHtml p F d))
      (w <| file := Some f |>).
Proof.
  intros Hl Hf HF. destruct w; cbn in Hl; subst. unfold funDealtPreviewHtml at 1. cbn.
  rewrite Hf. unfold load_event, reader_onload. cbn. rewrite HF. done.
Qed.

(** The readers of one selection, [fs] being the files still to be read. *)
Lemma feed_spec h pre fs ds html w :
  (forall f, f ∈ fs -> is_Some (h !! f)) -> length ds = length fs ->
  loaders w = [] ->
  let w' := feed h ds (funDealtPreviewHtml (mkLoader (pre ++ fs) (length pre) html) w) in
  loaders w' = [] /\ previews w' = previews w ++ [html ++ previews_of h fs ds]
  /\ alerts w' = alerts w.
Proof.
  revert pre ds html w. induction fs as [|f fs IH]; intros pre ds html w Hin Hlen Hl; cbn zeta.
  - destruct ds; [|done]. unfold funDealtPreviewHtml. cbn.
    rewrite app_nil_r, lookup_ge_None_2 by done. cbn. by rewrite app_nil_r.
  - destruct ds as [|d ds]; [done|]. cbn in Hlen.
    destruct (Hin f) as [F HF]; [by left|].
    unfold feed. cbn [foldl]. rewrite (load_single _ _ _ f F);
      [|done|by apply list_lookup_middle|done].
    cbn [ld_files ld_i ld_html].
    destruct (IH (pre ++ [f]) ds (html ++ funDisposePreviewHtml p F d) (w <| file := Some f |>))
      as (H1 & H2 & H3); [by intros ? ?; apply Hin; right|lia|done|].
    rewrite length_app, <- (app_assoc pre) in H1, H2, H3. cbn [length app] in H1, H2, H3.
    rewrite Nat.add_1_r in H1, H2, H3. unfold feed in H1, H2, H3.
    rewrite H1, H2, H3. cbn. rewrite HF. cbn. by rewrite <- app_assoc.
Qed.

Lemma bind_all_lookup (l : list (jstr * nat)) k i n :
  l !! k = Some (i, n) -> bind_all l !! k = Some (i, S n).
Proof. intros Hk. unfold bind_all. by rewrite list_lookup_fmap, Hk. Qed.

(** Every fragment inserted later binds one more handler to a button. *)
Lemma append_binds html w k i n :
  del_btns w !! k = Some (i, n) ->
  del_btns (funAppendPreviewHtml html w) !! k = Some (i, S n).
Proof.
  intros Hk. unfold funAppendPreviewHtml, funBindDelEvent. cbn.
  apply bind_all_lookup. by apply lookup_app_l_Some.
Qed.

Lemma append_new html w k i :
  html_index (js "file_del") html !! k = Some i ->
  del_btns (funAppendPreviewHtml html w) !! (length (del_btns w) + k)%nat = Some (i, 1%nat).
Proof.
  intros Hk. unfold funAppendPreviewHtml, funBindDelEvent. cbn.
  apply bind_all_lookup. rewrite lookup_app_r by lia. rewrite Nat.add_comm, Nat.add_sub.
  by rewrite list_lookup_fmap, Hk.
Qed.

(** *** Deleting *)

Abbreviation sys := (ZyFile.sys page).
Implicit Types s : sys.

Lemma delete_once s i f :
  array_get (perUploadFile (zy s)) i = Some f ->
  exists s', funDeleteFile i true s = (s', Ret tt)
    /\ perUploadFile (zy s') = perUploadFile (zy s)
    /\ uploadFile (zy s') = filter (fun g => g <> f) (uploadFile (zy s))
    /\ calls s' = calls s ++ [CDelete (Some f) (filter (fun g => g <> f) (uploadFile (zy s)))]
    /\ inflight s' = inflight s /\ files (zy s') = files (zy s).
Proof.
  intros Hg. unfold funDeleteFile. rewrite Hg. cbn. eexists. split; [done|].
  assert (filter (fun v => Some f <> Some v) (uploadFile (zy s))
          = filter (fun g => g <> f) (uploadFile (zy s))) as E.
  { apply list_filter_iff. naive_solver. }
  cbn. by rewrite !E.
Qed.

Lemma run_deletes_spec n s i f :
  array_get (perUploadFile (zy s)) i = Some f ->
  let rest := filter (fun g => g <> f) (uploadFile (zy s)) in
  let s' := run_deletes (S n) i s in
  uploadFile (zy s') = rest /\ calls s' = calls s ++ replicate (S n) (CDelete (Some f) rest).
Proof.
  revert s. induction n as [|n IH]; intros s Hg; cbn zeta;
    destruct (delete_once s i f Hg) as (s1 & E & Hp & Hu & Hc & _).
  - cbn [run_deletes]. by rewrite E.
  - cbn [run_deletes]. rewrite E. destruct (IH s1) as [H1 H2]; [by rewrite Hp|].
    cbn [run_deletes] in *. rewrite Hu in *.
    assert (filter (fun g => g <> f) (filter (fun g => g <> f) (uploadFile (zy s)))
            = filter (fun g => g <> f) (uploadFile (zy s))) as Ef.
    { apply filter_all, Forall_forall. by intros g [? _]%list_elem_of_filter. }
    rewrite Ef in *. rewrite H1, H2, Hc, <- app_assoc. done.
Qed.

Lemma Wf_run_deletes n i s : Wf s -> Wf (run_deletes n i s).
Proof.
  revert s. induction n as [|n IH]; intros s Hwf; [done|]. cbn [run_deletes].
  pose proof (Wf_deleteFile i true s Hwf) as Hwf'.
  destruct (funDeleteFile i true s) as [s' []]; [by apply IH|done].
Qed.

Lemma Wf_world s w : Wf s -> Wf (s <| world := w |>).
Proof. intros []. by split. Qed.

Lemma Wf_page_step g s s' : page_step g s s' -> Wf s -> Wf s'.
Proof.
  intros Hs Hwf. destruct Hs as [s' Hs|n data|k|k title|sel a Ha|index val q].
  - by eapply Wf_step.
  - by apply Wf_world.
  - unfold click_delete. destruct (del_btns _ !! k) as [[i n]|]; [by apply Wf_run_deletes|done].
  - destruct Hwf. by split.
  - destruct a; cbn [run_action]; [destruct Hwf; by split|].
    repeat case_match; [by apply Wf_uploadFiles|done|]. destruct Hwf. by split.
  - destruct Hwf. by split.
Qed.

End Preview.

(** ** Properties *)

Section Properties.
Context `{Browser} {p : Options}.
Implicit Types (h : gmap nat File) (w : page) (s : ZyFile.sys page).

(** In every state the upload page can reach, by selecting files, by its
    buttons, by the events of its readers and requests and by cropping, the
    arrays of the queue agree with the indices of the files. *)
Theorem page_queue_wf g s : rtc (page_step g) zyUpload s -> Wf s.
Proof.
  intros Hs. assert (Wf zyUpload) as Hwf by by apply Wf_initial.
  induction Hs; eauto using Wf_page_step.
Qed.

(** The filter lets through exactly the files of an allowed type below the
    size limit, in their order; every other file is refused with one alert,
    in the same order; nothing else of the page changes. *)
Theorem funFilterEligibleFile_spec h fs w :
  (forall f, f ∈ fs -> is_Some (h !! f)) ->
  funFilterEligibleFile p h fs w
  = (filter (fun f => eligible p h f = true) fs,
     w <| alerts ::= fun l => l ++
       omap (fun f => F ← h !! f;
               match judge p F with Accept => None | v => Some (refusal (f_name F) v) end) fs |>).
Proof.
  revert w. induction fs as [|f fs IH]; intros w Hin.
  - destruct w. unfold upd, page_eta. cbn. by rewrite app_nil_r.
  - destruct (Hin f) as [F HF]; [by left|].
    assert (forall g, g ∈ fs -> is_Some (h !! g)) as Hin' by (intros; apply Hin; by right).
    cbn [funFilterEligibleFile omap list_omap]. rewrite HF. cbn [mbind option_bind].
    destruct (judge p F) eqn:Ej; rewrite IH by done.
    + rewrite filter_cons_True; [done|]. unfold eligible. by rewrite HF, Ej.
    + rewrite filter_cons_False; [|unfold eligible; by rewrite HF, Ej].
      f_equal. unfold upd, page_eta. cbn. by rewrite <- app_assoc.
    + rewrite filter_cons_False; [|unfold eligible; by rewrite HF, Ej].
      f_equal. unfold upd, page_eta. cbn. by rewrite <- app_assoc.
Qed.

(** The type the filter looks at is what follows the last dot of the name;
    a name without a dot counts as its own type, so the alert for files
    without a type is never shown. *)
Theorem file_ext_spec u t :
  (46%N ∉ t) -> file_ext (u ++ 46%N :: t) = t /\ file_ext t = t.
Proof. intros Ht. split; [by apply file_ext_dot|by apply file_ext_plain]. Qed.

(** C37: a selection whose readers are not disturbed by another selection ends,
    after one load event per file, with exactly one fragment in the preview
    area: the previews of all the files in order, each with its own data. *)
Theorem preview_complete z fs w ds :
  (forall f, f ∈ fs -> is_Some (files z !! f)) -> length ds = length fs -> loaders w = [] ->
  let w' := feed (files z) ds (up_onSelect z fs (uploadFile z) w) in
  loaders w' = [] /\ previews w' = previews w ++ [previews_of (files z) fs ds].
Proof.
  intros Hin Hlen Hl. destruct (feed_spec (files z) [] fs ds [] (funSetStatusInfo (files z) (uploadFile z) w))
    as (H1 & H2 & _); [done|done|done|]. done.
Qed.

(** A successful upload hides the progress bar and the crop mark of the
    file and shows its success mark. *)
Theorem onSuccess_marks z f resp w e1 e2 e3 :
  let i := file_index (files z) f in
  elems w !! id_of "uploadProgress_" i = Some e1 ->
  elems w !! id_of "uploadSuccess_" i = Some e2 ->
  elems w !! id_of "uploadTailor_" i = Some e3 ->
  let w' := up_onSuccess z f resp w in
  elems w' !! id_of "uploadProgress_" i = Some (hide_el e1)
  /\ elems w' !! id_of "uploadSuccess_" i = Some (show_el e2)
  /\ elems w' !! id_of "uploadTailor_" i = Some (hide_el e3).
Proof.
  intros i H1 H2 H3. unfold up_onSuccess, funSetStatusInfo. fold i.
  split_and!; destruct (pa_finishDel p); ids; apply on_id_same; by ids.
Qed.

(** A failed upload shows the success mark of the file and leaves its
    failure mark as it was. *)
Theorem onFailure_shows_success z f resp w e1 e2 :
  let i := file_index (files z) f in
  elems w !! id_of "uploadSuccess_" i = Some e1 ->
  elems w !! id_of "uploadFailure_" i = Some e2 ->
  let w' := up_onFailure z f resp w in
  elems w' !! id_of "uploadSuccess_" i = Some (show_el e1)
  /\ elems w' !! id_of "uploadFailure_" i = Some e2.
Proof.
  intros i H1 H2. unfold up_onFailure. fold i.
  split; ids; [apply on_id_same; by ids|done].
Qed.

(** Every selection binds one more handler to the delete buttons that are
    already there, so a click on the button of a file, [m] selections after
    its own, takes the file out of the queue but reports the deletion [m + 1]
    times. *)
Theorem old_button_deletes_again html later k i f s0 :
  html_index (js "file_del") html !! k = Some i ->
  array_get (perUploadFile (zy s0)) (parse_int_str i) = Some f ->
  let w := foldl (fun w t => funAppendPreviewHtml t w)
             (funAppendPreviewHtml html (world s0)) later in
  let b := (length (del_btns (world s0)) + k)%nat in
  let rest := filter (fun g => g <> f) (uploadFile (zy s0)) in
  let s' := click_delete b (s0 <| world := w |>) in
  uploadFile (zy s') = rest
  /\ calls s' = calls s0 ++ replicate (S (length later)) (CDelete (Some f) rest).
Proof.
  intros Hk Hg w b rest.
  assert (del_btns w !! b = Some (i, S (length later))) as Hb.
  { subst w b. pose proof (append_new html (world s0) k i Hk) as Hn.
    generalize dependent (funAppendPreviewHtml html (world s0)). intros w0 Hn.
    change (S (length later)) with (1 + length later)%nat. revert w0 Hn.
    generalize 1%nat. induction later as [|t later IH]; intros n w0 Hn; cbn [foldl length].
    - by rewrite Nat.add_0_r.
    - rewrite (Nat.add_succ_r n). apply (IH (S n)). by apply append_binds. }
  unfold click_delete. cbn [world upd sys_eta]. rewrite Hb.
  set (s1 := s0 <| world := w |>). exact (run_deletes_spec (length later) s1 (parse_int_str i) f Hg).
Qed.

(** After a crop of positive width the preview shows the cropped region:
    the image is scaled so that the region is as wide as the preview item,
    and is shifted so that the region's corner is at the item's corner. *)
Theorem onTailor_fits index r iw ih nw w e :
  px_minus (pa_itemWidth p) 0 = Some nw -> (0 < r_w r) ->
  r_h r = r_y2 r - r_y r ->
  elems w !! (js "uploadImage_" ++ index) = Some e ->
  exists k cw ch cl ct e',
    (k * inject_Z (r_w r) == inject_Z nw)%Q
    /\ (cw == k * inject_Z iw)%Q /\ (ch == k * inject_Z ih)%Q
    /\ (cl == - (k * inject_Z (r_x r)))%Q /\ (ct == - (k * inject_Z (r_y r)))%Q
    /\ elems (onTailor index (Some r) (Some (iw, ih)) w) !! (js "uploadImage_" ++ index) = Some e'
    /\ el_css e' !! js "width" = Some (CssPx cw) /\ el_css e' !! js "height" = Some (CssPx ch)
    /\ el_css e' !! js "margin-left" = Some (CssPx cl)
    /\ el_css e' !! js "margin-top" = Some (CssPx ct).
Proof.
  intros Hn Hw Hh He. set (k := (inject_Z nw / inject_Z (r_w r))%Q).
  assert (~ inject_Z (r_w r) == 0)%Q as Hnz.
  { change 0%Q with (inject_Z 0). rewrite inject_Z_injective. lia. }
  exists k, (k * inject_Z iw)%Q, (k * inject_Z ih)%Q, (- (inject_Z (r_x r) * k))%Q,
    (- (inject_Z (r_y2 r) * k - inject_Z (r_h r) * k))%Q. eexists.
  split; [by apply Qdiv_mult_cancel|]. split; [done|]. split; [done|].
  split; [lra|]. split; [rewrite Hh; unfold Z.sub; rewrite inject_Z_plus, inject_Z_opp; lra|].
  unfold onTailor. rewrite Hn. cbn -[on_id]. rewrite (proj2 (Qeqb_neq _ _) Hnz). cbn -[on_id]. fold k.
  split_and!; [ids; by apply on_id_same|..]; vm_compute (js _); cbn; by simplify_map_eq.
Qed.

(** The size in the status line is off by at most half a hundredth of the
    unit it is given in. *)
Theorem hundredths_close size unit :
  0 < unit ->
  (Qabs (inject_Z (hundredths size unit) * inject_Z unit - inject_Z (size * 100)) <= inject_Z unit / 2)%Q.
Proof.
  intros Hu. unfold hundredths. set (n := inject_Z (size * 100)).
  assert (0 < inject_Z unit)%Q as Hp by (change 0%Q with (inject_Z 0); by rewrite <- Zlt_Qlt).
  pose proof (math_round_close (n / inject_Z unit)) as [H1 H2].
  set (m := inject_Z (math_round _)) in *.
  assert (n / inject_Z unit * inject_Z unit == n)%Q as E by (apply Qdiv_mult_cancel; lra).
  set (q := (n / inject_Z unit)%Q) in *. clearbody q.
  assert (inject_Z unit / 2 == (1 # 2) * inject_Z unit)%Q as -> by field.
  assert (q - (1 # 2) <= m)%Q as H3 by lra.
  apply (Qmult_le_compat_r _ _ (inject_Z unit)) in H2, H3; [|lra|lra].
  apply Qabs_Qle_condition. lra.
Qed.

End Properties.

(** ** A small browser and examples

    It finds attributes by their text, which is enough for the fragments the
    plug-in inserts. *)

Module Sample.

Fixpoint scan (pat s : jstr) : list jstr :=
  match s with
  | [] => []
  | _ :: s' =>
      if starts_with pat s
      then hd [] (split_char 34 (drop (length pat) s)) :: scan pat s' else scan pat s'
  end.

Definition plain : elem := mkElem true ∅ ∅ ∅ [].

#[local] Instance browser : Browser := {|
  html_elems := fun t => list_to_map ((fun i => (i, plain)) <$> scan (jq " id=`") t);
  html_index := fun c t => scan (jq "<span class=`" ++ c ++ jq "` data-index=`") t;
  html_has := fun t c => contains (drop 1 c) t;
|}.

#[local] Instance opts : Options :=
  para_defaults <| pa_fileType := [js "png"; js "txt"] |> <| pa_tailor := true |>.

Definition fa : File := mkFile (js "a.png") 10 (js "image/png") None.
Definition fb : File := mkFile (js "b.txt") 2000 (js "text/plain") None.
Definition fc : File := mkFile (js "c.exe") 5 (js "x") None.

Definition store : gmap nat File := {[1%nat := fa; 2%nat := fb; 3%nat := fc]}.

Definition select (l : list nat) : event := mkEvent (js "change") (js "fileImage") (Some l) [].

Definition s0 : ZyFile.sys page := zyUpload.

Definition s1 : ZyFile.sys page :=
  funGetFiles (select [1; 2; 3]%nat) (s0 <| zy ::= fun z => z <| files ::= fun h => store ∪ h |> |>).

Lemma all_known (h : gmap nat File) (l : list nat) :
  forallb (fun f => bool_decide (is_Some (h !! f))) l = true ->
  forall f, f ∈ l -> is_Some (h !! f).
Proof.
  intros Hl f Hf. apply list_elem_of_In, (proj1 (forallb_forall _ _) Hl f) in Hf.
  by apply bool_decide_eq_true in Hf.
Qed.

Lemma page_queue_wf_witness : Wf s1 /\ uploadFile (zy s1) = [1; 2]%nat.
Proof.
  split; [|vm_compute; reflexivity].
  apply (page_queue_wf (mkScreen (0, 0) (0, 0) 0 (0, 0) (0, 0)%Q) s1).
  apply rtc_once. apply PgQueue. apply StepSelect.
  - apply (bool_decide_unpack _). vm_compute. exact I.
  - apply all_known. vm_compute. reflexivity.
  - apply map_disjoint_empty_r.
Defined.

Lemma funFilterEligibleFile_spec_witness :
  fst (funFilterEligibleFile opts store [1; 2; 3]%nat page_initial) = [1; 2]%nat.
Proof.
  rewrite (funFilterEligibleFile_spec store [1; 2; 3]%nat page_initial).
  - vm_compute. reflexivity.
  - apply all_known. vm_compute. reflexivity.
Defined.

Lemma file_ext_spec_witness : file_ext (js "a.tar.gz") = js "gz".
Proof.
  refine (proj1 (file_ext_spec (js "a.tar") (js "gz") _)).
  apply (bool_decide_unpack _). vm_compute. exact I.
Defined.

Lemma preview_complete_witness :
  length (previews (feed (files (zy s1)) [js "A"; js "B"]
            (up_onSelect (zy s1) [1; 2]%nat (uploadFile (zy s1)) page_initial))) = 1%nat.
Proof.
  destruct (preview_complete (zy s1) [1; 2]%nat page_initial [js "A"; js "B"]) as [_ H].
  - apply all_known. vm_compute. reflexivity.
  - reflexivity.
  - reflexivity.
  - rewrite H. reflexivity.
Defined.

(** The page after the readers of the selection have fired. *)
Definition w1 : page := feed (files (zy s1)) [js "A"; js "B"] (world s1).

Lemma onSuccess_marks_witness :
  elems (up_onSuccess (zy s1) 1 [] w1) !! js "uploadSuccess_0" = Some plain.
Proof.
  refine (proj1 (proj2 (onSuccess_marks (zy s1) 1 [] w1 plain plain plain _ _ _)));
    vm_compute; reflexivity.
Defined.

Lemma onFailure_shows_success_witness :
  elems (up_onFailure (zy s1) 1 [] w1) !! js "uploadSuccess_0" = Some plain.
Proof.
  refine (proj1 (onFailure_shows_success (zy s1) 1 [] w1 plain plain _ _));
    vm_compute; reflexivity.
Defined.

Definition fragment : jstr := previews_of (files (zy s1)) [1; 2]%nat [js "A"; js "B"].

Lemma old_button_deletes_again_witness :
  let w := funAppendPreviewHtml (js "later") (funAppendPreviewHtml fragment (world s1)) in
  calls (click_delete 0 (s1 <| world := w |>))
  = [CSelect [1; 2] [1; 2]; CDelete (Some 1) [2]; CDelete (Some 1) [2]]%nat.
Proof.
  destruct (old_button_deletes_again fragment [js "later"] 0 (js "0") 1 s1) as [_ H].
  - vm_compute. reflexivity.
  - vm_compute. reflexivity.
  - etransitivity; [exact H|]. vm_compute. reflexivity.
Defined.

Lemma onTailor_fits_witness :
  exists k, (k * 70 == 140)%Q.
Proof.
  destruct (onTailor_fits (js "0") (mkRect 10 20 80 50 70 30) 200 100 140 w1 plain)
    as (k & _ & _ & _ & _ & _ & H & _); [vm_compute; reflexivity..|].
  exists k. exact H.
Defined.

Lemma hundredths_close_witness : hundredths 2010 1024 = 196
  /\ (Qabs (inject_Z (hundredths 2010 1024) * 1024 - 201000) <= 1024 / 2)%Q.
Proof. split; [vm_compute; reflexivity|]. exact (hundredths_close 2010 1024 ltac:(lia)). Defined.

(** Two selections, the second made before the first reader fires. *)
Definition z2 : zyfile := zy s1.
Definition wa : page := up_onSelect z2 [1%nat] [1%nat] page_initial.
Definition wb : page := up_onSelect z2 [2%nat] [1; 2]%nat wa.
Definition wc : page := fst (load_event (files z2) 0 (js "A") wb).
Definition wd : page * result unit := load_event (files z2) 0 (js "B") wc.

(** Two selections whose readers overlap share the global variable [file]:
    the first reader makes a preview of the second file with the data of the
    first, and the second reader throws, so the first file has no preview. *)
Theorem overlapping_selections_lose_preview :
  loaders wb = [mkLoader [1%nat] 0 []; mkLoader [2%nat] 0 []]
  /\ previews wc = [previews_of (files z2) [2%nat] [js "A"]]
  /\ snd wd = Throw /\ previews (fst wd) = previews wc /\ loaders (fst wd) = [].
Proof. vm_compute. done. Qed.

End Sample.
