(* ===== verification/Login.v ===== *)
(** * Cookies and the login page (login.js)

    The browser keeps cookies with a name, a value and a path.  Assigning to
    [document.cookie] adds, replaces or, with a date in the past, removes one;
    reading it renders those whose path matches the path of the page, longer
    paths first (RFC 6265, sections 5.1.1 to 5.4; [here] is the path of the
    page, which begins with a slash).  Names and values pass through [escape],
    so the pieces of the rendered text can be told apart.  Not modelled: the
    limits of browsers on the size and number of cookies, cookies without a
    name, a semicolon or white space in the argument [path], and cookies that
    expire while the page is open. *)

From stdpp Require Import base gmap list strings.
From S2P Require Import Prelude JsString.

(** ** Data *)

Record cookie := mkCookie {
  ck_name : jstr;
  ck_value : jstr;
  ck_path : jstr;
}.

#[export] Instance cookie_eq_dec : EqDecision cookie.
Proof. solve_decision. Defined.

(** The argument [days]: a number, or a string for a session cookie. *)
Inductive lifetime := Days (d : Z) | Session.

(** The directory of a page: its path up to the last slash. *)
Definition default_path (here : jstr) : jstr :=
  match removelast (split_char 47 here) with
  | [] | [_] => js "/"
  | dirs => join (js "/") dirs
  end.

(** The path of a cookie, for the attribute [path]. *)
Definition cookie_path (here path : jstr) : jstr :=
  if starts_with (js "/") path then path else default_path here.

Definition path_match (here path : jstr) : bool :=
  bool_decide (here = path)
  || starts_with path here
     && (bool_decide (last path = Some 47%N) || bool_decide (here !! length path = Some 47%N)).

(** A date written and read back: the seconds of a time in milliseconds, for
    the years that a cookie date can have, 1601 to 9999; another date (or the
    text [Invalid Date]) is ignored. *)
Definition cookie_date (t : Z) : option Z :=
  if (-11644473600000 <=? t) && (t <? 253402300800000) then Some (t / 1000 * 1000) else None.

Definition same_cookie (c d : cookie) : bool :=
  bool_decide (ck_name d = ck_name c /\ ck_path d = ck_path c).

(** A new cookie takes the place of the one with its name and path. *)
Definition store_cookie (c : cookie) (jar : list cookie) : list cookie :=
  if existsb (same_cookie c) jar then (fun d => if same_cookie c d then c else d) <$> jar
  else jar ++ [c].

(** [document.cookie = name + "=" + value + ...]: [expires] is the date in
    milliseconds. *)
Definition cookie_assign (here : jstr) (now : Z) (c : cookie) (expires : option Z) (jar : list cookie)
    : list cookie :=
  let c := mkCookie (ck_name c) (ck_value c) (cookie_path here (ck_path c)) in
  match expires ≫= cookie_date with
  | Some t =>
      if t <=? now then base.filter (fun d => same_cookie c d = false) jar else store_cookie c jar
  | None => store_cookie c jar
  end.

(** Longer paths first, older cookies first. *)
Fixpoint put_by_path (c : cookie) (l : list cookie) : list cookie :=
  match l with
  | [] => [c]
  | d :: l' => if (length (ck_path d) <=? length (ck_path c))%nat then c :: l else d :: put_by_path c l'
  end.

(** The cookies a page sees. *)
Definition visible (here : jstr) (jar : list cookie) : list cookie :=
  foldr put_by_path [] (List.filter (fun c => path_match here (ck_path c)) jar).

(** [document.cookie], for the cookies the page sees. *)
Definition cookie_text (jar : list cookie) : jstr :=
  join (js "; ") ((fun c => ck_name c ++ js "=" ++ ck_value c) <$> jar).

(** ** Operations *)

Definition addCookie (here : jstr) (now : Z) (name value : jstr) (days : lifetime) (path : jstr)
    (jar : list cookie) : list cookie :=
  let expires := match days with
                 | Days d => Some (now + d * 3600000 * 24)
                 | Session => None
                 end in
  cookie_assign here now (mkCookie (escape name) (escape value) path) expires jar.

(** [getCookieValue], for the cookies the page sees. *)
Definition getCookieValue (name : jstr) (jar : list cookie) : jstr :=
  let name := escape name in
  let allcookies := cookie_text jar in
  let name := name ++ js "=" in
  let pos := str_index name allcookies in
  if negb (pos =? -1) then
    let start := pos + Z.of_nat (length name) in
    let end_ := str_index_from (js ";") allcookies start in
    let end_ := if end_ =? -1 then Z.of_nat (length allcookies) else end_ in
    substring allcookies start end_
  else [].

Definition deleteCookie (here : jstr) (now : Z) (name path : jstr) (jar : list cookie) : list cookie :=
  cookie_assign here now (mkCookie (escape name) [] path) (Some 0) jar.

(** ** The texts inside the inputs *)

Record input := mkInput { in_value : jstr; in_type : jstr }.

#[export] Instance input_eta : Eta input := fun r => mkInput (in_value r) (in_type r).

Definition showDefaultText (str : jstr) (n : input) : input :=
  if decide (in_value n = []) then n <| in_value := str |> else n.

Definition hideDefaultText (str : jstr) (n : input) : input :=
  if decide (in_value n = str) then n <| in_value := [] |> else n.

Definition showDefaultPwd (str : jstr) (n : input) : input :=
  if decide (in_value n = []) then n <| in_type := js "text" |> <| in_value := str |> else n.

Definition hideDefaultPwd (str : jstr) (n : input) : input :=
  if decide (in_value n = str) then n <| in_value := [] |> <| in_type := js "password" |> else n.

(** ** The kind of browser *)

(** [s.match(/rv:1.2.3.4/i) == "rv:1.2.3.4"]: the first place where the
    pattern matches, its dots standing for any character of the line, must
    read literally so. *)
Definition uc7_here (s : jstr) : bool :=
  match s with
  | a :: b :: c :: d :: e :: f :: g :: h :: i :: j :: _ =>
      bool_decide ([a; b; c; d; f; h; j] = js "rv:1234")
      && forallb (fun x => negb ((x =? 10)%N || (x =? 13)%N || (x =? 8232)%N || (x =? 8233)%N)) [e; g; i]
  | _ => false
  end.

Fixpoint is_uc7 (s : jstr) : bool :=
  if uc7_here s then bool_decide (take 10 s = js "rv:1.2.3.4")
  else match s with [] => false | _ :: s' => is_uc7 s' end.

(** [checkPC]: the value it gives [ISMOBILE]. *)
Definition checkPC (userAgent : jstr) : Z :=
  let sUserAgent := to_lower userAgent in
  let has (w : string) := contains (js w) sUserAgent in
  if has "ipad" || has "iphone os" || has "midp" || is_uc7 sUserAgent || has "ucweb"
     || has "android" || has "windows ce" || has "windows mobile"
  then 1 else 0.

(** [window.onload]: the styles it sets, in order. *)
Definition login_onload (userAgent : jstr) : list (jstr * jstr * jstr) :=
  if checkPC userAgent =? 0 then
    (fun '(s, k) => (js s, js k, js "33%")) <$>
      [(".top_menu", "width"); (".top_menu", "margin-left"); (".info_div", "width");
       (".info_div", "margin-left"); (".login_info_div", "width");
       (".login_info_div", "margin-left")]%string
  else [].

(** ** Lemmas: finding a name in the text *)

(** A cookie written by [addCookie]: neither part contains a delimiter. *)
Definition no_delim (s : jstr) : Prop := Forall (fun c => cookie_delim c = false) s.

Definition clean (c : cookie) : Prop := no_delim (ck_name c) /\ no_delim (ck_value c).

Lemma no_delim_notin c s : no_delim s -> cookie_delim c = true -> c ∉ s.
Proof. intros Hs Hc Hin. unfold no_delim in Hs. rewrite Forall_forall in Hs. apply Hs in Hin. congruence. Qed.

(** Two texts with the same first delimiter. *)
Lemma first_delim u c r u' c' r' :
  no_delim u -> no_delim u' -> cookie_delim c = true -> cookie_delim c' = true ->
  u ++ c :: r = u' ++ c' :: r' -> u = u' /\ c = c' /\ r = r'.
Proof.
  intros Hu. revert u'. induction Hu as [|x u Hx Hu IH]; intros u' Hu' Hc Hc' E.
  - destruct Hu' as [|y u' Hy]; cbn in E; simplify_eq; [done|congruence].
  - destruct Hu' as [|y u' Hy Hu']; cbn in E; simplify_eq; [congruence|].
    destruct (IH u') as (-> & -> & ->); done.
Qed.

(** Skipping a prefix in which no occurrence starts. *)
Lemma str_index_skip pat u r :
  (forall u1 u2, u = u1 ++ u2 -> u2 <> [] -> starts_with pat (u2 ++ r) = false) ->
  str_index pat (u ++ r)
  = if str_index pat r <? 0 then -1 else str_index pat r + Z.of_nat (length u).
Proof.
  induction u as [|c u IH]; intros Hno.
  - cbn. pose proof (str_index_range pat r). destruct (Z.ltb_spec (str_index pat r) 0); lia.
  - rewrite str_index_unfold, (Hno [] (c :: u)) by done. cbn [app].
    rewrite IH by (intros u1 u2 -> Hne; by apply (Hno (c :: u1) u2)).
    pose proof (str_index_range pat r). cbn [length].
    destruct (Z.ltb_spec (str_index pat r) 0);
      [rewrite (proj2 (Z.ltb_lt _ _)) by lia|rewrite (proj2 (Z.ltb_ge _ _)) by lia]; lia.
Qed.

Definition entry (c : cookie) : jstr := ck_name c ++ js "=" ++ ck_value c.

(** No occurrence of [nm=] starts inside a cookie whose name does not end in
    [nm]. *)
Lemma entry_skip nm c r u1 u2 :
  no_delim nm -> clean c -> (forall k, ck_name c <> k ++ nm) ->
  entry c ++ js "; " = u1 ++ u2 -> u2 <> [] ->
  starts_with (nm ++ js "=") (u2 ++ r) = false.
Proof.
  intros Hnm [Hn Hv] Hsuf E Hne. apply not_true_is_false. intros H.
  apply starts_with_spec in H as [t Ht]. unfold entry in E.
  change (js "=") with [61%N] in *. change (js "; ") with [59%N; 32%N] in *.
  rewrite <- !app_assoc in E. rewrite <- app_assoc in Ht. cbn [app] in E, Ht.
  assert (forall y r', cookie_delim y = true -> y :: r' = nm ++ 61%N :: t -> y = 61%N) as Hhead.
  { intros y r' Hy Hr. by apply (first_delim []) in Hr as (_ & ? & _); [|constructor|..]. }
  apply app_eq_inv in E as [(k & En & Eu)|(k & En & Eu)].
  - subst u2. rewrite <- app_assoc in Ht. cbn [app] in Ht.
    rewrite En in Hn. apply Forall_app in Hn as [_ Hk].
    apply first_delim in Ht as (-> & _); [|done..]. by apply (Hsuf u1).
  - destruct k as [|x k]; cbn in Eu.
    { subst u2. cbn in Ht. apply (first_delim []) in Ht as (<- & _); [|constructor|done..].
      by apply (Hsuf (ck_name c)); rewrite app_nil_r. }
    injection Eu as <- Eu. apply app_eq_inv in Eu as [(k' & Ek & Eu)|(k' & Ek & Eu)].
    + subst u2. rewrite Ek in Hv. apply Forall_app in Hv as [_ Hk].
      rewrite <- app_assoc in Ht. cbn in Ht. by apply first_delim in Ht as (_ & ? & _).
    + destruct k' as [|y [|z k']]; cbn in Eu; simplify_eq.
      * by apply Hhead in Ht.
      * by apply Hhead in Ht.
      * by destruct k', u2.
Qed.

Definition entries (l : list cookie) : jstr := l ≫= fun c => entry c ++ js "; ".

Lemma entries_skip nm l r :
  no_delim nm -> Forall clean l -> Forall (fun c => forall k, ck_name c <> k ++ nm) l ->
  str_index (nm ++ js "=") (entries l ++ r)
  = if str_index (nm ++ js "=") r <? 0 then -1
    else str_index (nm ++ js "=") r + Z.of_nat (length (entries l)).
Proof.
  intros Hnm Hl. induction Hl as [|c l Hc Hl IH]; intros Hs.
  - cbn. pose proof (str_index_range (nm ++ js "=") r).
    destruct (Z.ltb_spec (str_index (nm ++ js "=") r) 0); lia.
  - apply Forall_cons in Hs as [Hs1 Hs2]. unfold entries. cbn [mbind list_bind].
    fold (entries l). rewrite <- (app_assoc (entry c ++ js "; ")).
    rewrite str_index_skip by (intros u1 u2 E Hne; by eapply entry_skip).
    change (list_bind _ _ _ l) with (entries l). rewrite IH by done. rewrite !length_app.
    pose proof (str_index_range (nm ++ js "=") r).
    destruct (Z.ltb_spec (str_index (nm ++ js "=") r) 0); [done|].
    rewrite (proj2 (Z.ltb_ge _ _)) by lia. lia.
Qed.

Lemma cookie_text_split l c l' :
  cookie_text (l ++ c :: l')
  = entries l ++ entry c ++ match l' with [] => [] | _ => js "; " ++ cookie_text l' end.
Proof.
  unfold cookie_text. induction l as [|d l IH].
  - destruct l' as [|d l']; cbn; by rewrite ?app_nil_r.
  - rewrite <- app_comm_cons, fmap_cons.
    destruct (l ++ c :: l') as [|e m] eqn:E; [by destruct l|]. rewrite fmap_cons.
    change (join (js "; ") (?a :: ?b :: ?m)) with (a ++ js "; " ++ join (js "; ") (b :: m)).
    rewrite fmap_cons in IH. rewrite IH. unfold entries. cbn [mbind list_bind].
    unfold entry at 3. by rewrite <- !app_assoc.
Qed.

Lemma drop_exact {A} (n : nat) (u v : list A) : n = length u -> drop n (u ++ v) = v.
Proof. intros ->. apply drop_app_length. Qed.

(** The cookies whose name ends in [nm]. *)
Definition ends_in (nm : jstr) (c : cookie) : Prop := exists k, ck_name c = k ++ nm.

Lemma not_ends_in nm l :
  Forall (fun d => ~ ends_in nm d) l -> Forall (fun d => forall k, ck_name d <> k ++ nm) l.
Proof. intros H. eapply Forall_impl; [exact H|]. intros d Hd k Hk. apply Hd. by exists k. Qed.

(** In the text of a cookie whose name is [k ++ nm], [nm] followed by an
    equals sign is first found after [k]. *)
Lemma entry_index nm k c tl :
  no_delim nm -> no_delim k -> ck_name c = k ++ nm ->
  str_index (nm ++ js "=") (entry c ++ tl) = Z.of_nat (length k).
Proof.
  intros Hnm Hk Ec. unfold entry. rewrite Ec, <- !app_assoc, (app_assoc _ (js "=")).
  apply str_index_first. intros u1 u2 -> Hne. apply not_true_is_false. intros H.
  apply starts_with_spec in H as [t Ht]. rewrite <- !app_assoc in Ht.
  change (js "=") with [61%N] in Ht. cbn [app] in Ht. rewrite app_assoc in Ht.
  apply Forall_app in Hk as [_ Hk].
  apply first_delim in Ht as (E & _); [|by apply Forall_app|done..].
  apply (f_equal length) in E. rewrite length_app in E. destruct u2; [done|cbn in E; lia].
Qed.

(** [getCookieValue] returns the value of the first cookie whose name ends in
    the name asked for. *)
Lemma getCookieValue_first name l c l' :
  Forall clean l -> clean c -> ends_in (escape name) c ->
  Forall (fun d => ~ ends_in (escape name) d) l ->
  getCookieValue name (l ++ c :: l') = ck_value c.
Proof.
  intros Hl [Hn Hv] [k Ec] Hs%not_ends_in. unfold getCookieValue. rewrite cookie_text_split.
  set (tl := match l' with [] => _ | _ => _ end).
  assert (no_delim (escape name)) as Hnm by apply escape_no_delim.
  rewrite Ec in Hn. apply Forall_app in Hn as [Hk _].
  pose proof (entry_index (escape name) k c tl Hnm Hk Ec) as E0.
  rewrite entries_skip by done. rewrite E0, (proj2 (Z.ltb_ge _ _)) by lia.
  set (n := length (entries l)).
  rewrite (proj2 (Z.eqb_neq _ _)) by lia. cbn -[Z.add Z.of_nat].
  set (st := Z.of_nat (length k) + Z.of_nat n + Z.of_nat (length (escape name ++ js "="))).
  assert (Z.to_nat st = length (entries l ++ k ++ escape name ++ js "=")) as Est.
  { rewrite !length_app. unfold st, n. rewrite length_app. lia. }
  assert (entries l ++ entry c ++ tl
          = (entries l ++ k ++ escape name ++ js "=") ++ ck_value c ++ tl) as Et.
  { unfold entry. rewrite Ec. by rewrite <- !app_assoc. }
  assert (drop (Z.to_nat st) (entries l ++ entry c ++ tl) = ck_value c ++ tl) as Ed.
  { rewrite Et. by apply drop_exact. }
  assert (0 <= st) as Hst by lia.
  assert (Z.of_nat (length (entries l ++ entry c ++ tl))
          = st + Z.of_nat (length (ck_value c ++ tl))) as Hlen.
  { rewrite Et, (length_app _ (ck_value c ++ tl)). lia. }
  unfold substring, str_index_from. rewrite Ed.
  set (len := Z.of_nat (length (entries l ++ entry c ++ tl))) in *. clearbody len.
  change (js ";") with [59%N].
  assert (forall e, st <= e -> Z.to_nat (e - st) = length (ck_value c) ->
    take (Z.to_nat (e - st)) (ck_value c ++ tl) = ck_value c) as Htake.
  { intros e _ ->. by rewrite take_app_length. }
  destruct l' as [|d l'].
  - rewrite str_index_char_none.
    + cbn -[Z.of_nat]. rewrite Hlen. unfold tl. rewrite length_app.
      apply Htake; cbn; lia.
    + rewrite app_nil_r. by apply no_delim_notin.
  - subst tl. change (js "; ") with ([59%N] ++ [32%N]). rewrite <- (app_assoc [59%N]).
    cbn [app]. rewrite str_index_char.
    + rewrite (proj2 (Z.ltb_ge _ _)) by lia. rewrite (proj2 (Z.eqb_neq _ _)) by lia.
      rewrite Z.min_l by lia. apply Htake; lia.
    + by apply no_delim_notin.
Qed.

Lemma str_index_nil nm : str_index (nm ++ js "=") [] = -1.
Proof. change (js "=") with [61%N]. by destruct nm. Qed.

(** Where no name ends in the one asked for, it returns the empty string. *)
Lemma getCookieValue_none name l :
  Forall clean l -> Forall (fun d => ~ ends_in (escape name) d) l ->
  getCookieValue name l = [].
Proof.
  intros Hl Hs0. assert (no_delim (escape name)) as Hnm by apply escape_no_delim.
  assert (forall d, ~ ends_in (escape name) d -> forall k, ck_name d <> k ++ escape name) as Hs1.
  { intros d Hd k Hk. apply Hd. by exists k. }
  unfold getCookieValue.
  assert (str_index (escape name ++ js "=") (cookie_text l) = -1) as ->; [|done].
  destruct l as [|c l _] using rev_ind; [apply str_index_nil|].
  apply Forall_app in Hl as [Hl Hc], Hs0 as [Hs Hsc].
  rewrite Forall_singleton in Hc, Hsc. rewrite cookie_text_split, app_nil_r.
  rewrite entries_skip; [|done|done|by eapply Forall_impl].
  assert (str_index (escape name ++ js "=") (entry c) = -1) as ->; [|done].
  rewrite <- (app_nil_r (entry c)), str_index_skip; [by rewrite str_index_nil|].
  intros u1 u2 E Hne. apply not_true_is_false. rewrite app_nil_r. intros H.
  assert (starts_with (escape name ++ js "=") ((u2 ++ js "; ") ++ []) = false) as Hf.
  { apply (entry_skip _ c [] u1); [done|done|by apply Hs1| |by destruct u2].
    by rewrite E, <- app_assoc. }
  apply starts_with_spec in H as [t ->]. rewrite app_nil_r, <- app_assoc in Hf.
  rewrite starts_with_app in Hf. done.
Qed.

(** The jar after a cookie is stored. *)
Lemma store_cookie_elem c jar e :
  e ∈ store_cookie c jar <-> e = c \/ (e ∈ jar /\ same_cookie c e = false).
Proof.
  assert (same_cookie c c = true) as Hc by by apply bool_decide_eq_true.
  unfold store_cookie. destruct (existsb (same_cookie c) jar) eqn:E.
  - rewrite list_elem_of_fmap. split.
    + intros (d & -> & Hd). destruct (same_cookie c d) eqn:Ed; auto.
    + apply existsb_exists in E as (d & Hd%list_elem_of_In & Ed). intros [-> | [He Ee]].
      * exists d. by rewrite Ed.
      * exists e. by rewrite Ee.
  - rewrite elem_of_app, list_elem_of_singleton. split; [|naive_solver].
    intros [He | ->]; [|auto]. right. split; [done|]. apply not_true_is_false. intros Ee.
    assert (existsb (same_cookie c) jar = true); [|congruence].
    apply existsb_exists. exists e. by rewrite <- list_elem_of_In.
Qed.

(** ... and after an assignment with a date at least a day ahead. *)
Lemma cookie_assign_ahead here now c d jar :
  1 <= d -> cookie_assign here now c (Some (now + d * 3600000 * 24)) jar
            = store_cookie (mkCookie (ck_name c) (ck_value c) (cookie_path here (ck_path c))) jar.
Proof.
  intros Hd. unfold cookie_assign, cookie_date. cbn [mbind option_bind].
  destruct (_ && _); [|done]. rewrite (proj2 (Z.leb_gt _ _)); [done|]. Z.div_mod_to_equations. lia.
Qed.

Lemma put_by_path_perm c l : put_by_path c l ≡ₚ c :: l.
Proof.
  induction l as [|d l IH]; [done|]. cbn. destruct (_ <=? _)%nat; [done|]. rewrite IH. apply Permutation_swap.
Qed.

Lemma visible_elem here jar c : c ∈ visible here jar <-> c ∈ jar /\ path_match here (ck_path c) = true.
Proof.
  assert (forall l, foldr put_by_path [] l ≡ₚ l) as Hp.
  { induction l as [|d l IH]; [done|]. cbn. by rewrite put_by_path_perm, IH. }
  unfold visible. rewrite Hp, list_elem_of_In, filter_In, <- list_elem_of_In. done.
Qed.

(** [escape] leaves exactly the texts of safe characters as they are. *)
Lemma escape_longer s : (length s <= length (escape s))%nat.
Proof.
  induction s as [|c s IH]; [done|]. unfold escape in *. cbn. rewrite length_app. unfold escape_unit at 1.
  destruct (escape_safe c); cbn; [lia|]. destruct (_ <? _)%N; cbn; lia.
Qed.

Lemma escape_fixed s : escape s = s <-> Forall (fun c => escape_safe c = true) s.
Proof.
  split.
  - induction s as [|c s IH]; [constructor|]. unfold escape in *. cbn. unfold escape_unit at 1.
    destruct (escape_safe c) eqn:Ec; [intros [= E]; constructor; auto|].
    intros E%(f_equal length). pose proof (escape_longer s) as Hl. unfold escape in Hl.
    rewrite length_app in E. destruct (_ <? _)%N; cbn in E; lia.
  - induction 1 as [|c s Hc _ IH]; [done|]. unfold escape in *. cbn. unfold escape_unit at 1. by rewrite Hc, IH.
Qed.

(** ** Properties *)

(** The text of the cookies is searched for the name followed by an equals
    sign, so the value returned is that of the first cookie whose name ends
    in the name asked for, and the empty string if there is none. *)
Theorem getCookieValue_spec name l c l' :
  Forall clean l -> clean c -> Forall (fun d => ~ ends_in (escape name) d) l ->
  getCookieValue name l = []
  /\ (ends_in (escape name) c -> getCookieValue name (l ++ c :: l') = ck_value c).
Proof.
  intros Hl Hc Hs. split; [by apply getCookieValue_none|].
  intros He. by apply getCookieValue_first.
Qed.

(** C39: after [addCookie] with a name that is not empty, for at least one day,
    and with a path that makes the cookie visible to the page, when the other
    visible cookies have no delimiter in their names and values and no name
    that ends in the name of the cookie, [getCookieValue] returns the escaped
    text of the value: the value itself if all its characters are among those
    [escape] leaves alone, and otherwise not, although the comment in the source
    says that the text is decoded here. *)
Theorem addCookie_getCookieValue here now name value d path jar :
  1 <= d -> name <> [] -> path_match here (cookie_path here path) = true ->
  Forall (fun c => (ck_name c = escape name /\ ck_path c = cookie_path here path)
                   \/ (clean c /\ ~ ends_in (escape name) c)) (visible here jar) ->
  let read := getCookieValue name (visible here (addCookie here now name value (Days d) path jar)) in
  read = escape value /\ (read = value <-> Forall (fun c => escape_safe c = true) value).
Proof.
  intros Hd _ Hp Hjar read. assert (read = escape value) as E; [|rewrite E; split; [done|apply escape_fixed]].
  unfold read, addCookie. rewrite cookie_assign_ahead by done. cbn [ck_name ck_value ck_path].
  set (c := mkCookie _ _ _). rewrite Forall_forall in Hjar.
  assert (forall e, e ∈ visible here (store_cookie c jar) -> e = c \/ (clean e /\ ~ ends_in (escape name) e)) as Hv.
  { intros e [He Hm]%visible_elem. apply store_cookie_elem in He as [->|[He Hs]]; [by left|right].
    destruct (Hjar e) as [Hn|?]; [by apply visible_elem| |done].
    unfold same_cookie in Hs. by apply bool_decide_eq_false in Hs. }
  assert (c ∈ visible here (store_cookie c jar)) as Hin.
  { apply visible_elem. split; [|done]. apply store_cookie_elem. by left. }
  apply list_elem_of_split_l in Hin as (l & l' & El & Hnew). rewrite El in Hv |- *.
  assert (Forall (fun e => clean e /\ ~ ends_in (escape name) e) l) as [Hc Hn]%Forall_and.
  { apply Forall_forall. intros e He. destruct (Hv e) as [->|?]; [set_solver|done|done]. }
  change (escape value) with (ck_value c). apply getCookieValue_first; [done| |by exists []|done].
  split; apply escape_no_delim.
Qed.

(** After [deleteCookie] no cookie of that name and path is left, and the
    others are untouched. *)
Theorem deleteCookie_removes here now name path jar c :
  0 <= now ->
  c ∈ deleteCookie here now name path jar
  <-> c ∈ jar /\ ~ (ck_name c = escape name /\ ck_path c = cookie_path here path).
Proof.
  intros Hn. unfold deleteCookie, cookie_assign. cbn [mbind option_bind]. change (cookie_date 0) with (Some 0).
  cbn iota. rewrite (proj2 (Z.leb_le _ _)) by done.
  rewrite list_elem_of_filter. unfold same_cookie. rewrite bool_decide_eq_false. cbn. tauto.
Qed.

(** The placeholder text comes back when an untouched input is left. *)
Lemma hide_show_text str n :
  str <> [] -> in_value n = str -> showDefaultText str (hideDefaultText str n) = n.
Proof.
  intros Hne Hv. unfold hideDefaultText. rewrite decide_True by done.
  destruct n. cbn in *. by subst.
Qed.

(** Clicking into the password field and leaving it empty gives the
    placeholder back in a plain text field; text typed in between is kept as
    a password. *)
Theorem password_field str n typed :
  str <> [] -> in_value n = str ->
  showDefaultPwd str (hideDefaultPwd str n) = mkInput str (js "text")
  /\ (typed <> [] -> showDefaultPwd str ((hideDefaultPwd str n) <| in_value := typed |>)
                     = mkInput typed (js "password")).
Proof.
  intros Hne Hv. unfold hideDefaultPwd. rewrite decide_True by done. unfold showDefaultPwd. cbn.
  split; [done|]. intros Ht. destruct (decide (typed = [])); done.
Qed.

Module Sample.

Definition jar : list cookie :=
  [mkCookie (js "nickusername") (js "bob") (js "/"); mkCookie (js "username") (js "alice") (js "/")].

Lemma jar_clean : Forall clean jar.
Proof. repeat constructor. Qed.

(** A cookie whose name merely ends in the name asked for is taken for it:
    with the cookies [nickusername=bob; username=alice], the user name read
    is bob. *)
Theorem wrong_cookie_read : getCookieValue (js "username") jar = js "bob".
Proof. vm_compute. reflexivity. Qed.

Lemma no_suffix (nm : jstr) (c : cookie) :
  drop (length (ck_name c) - length nm) (ck_name c) <> nm -> ~ ends_in nm c.
Proof.
  intros Hd [k Hk]. apply Hd. rewrite Hk, length_app, Nat.add_sub. apply drop_app_length.
Qed.

Lemma getCookieValue_spec_witness :
  getCookieValue (js "passwd") [mkCookie (js "username") (js "alice") []; mkCookie (js "passwd") (js "1") []]
  = js "1".
Proof.
  destruct (getCookieValue_spec (js "passwd") [mkCookie (js "username") (js "alice") []]
    (mkCookie (js "passwd") (js "1") []) []) as [_ H].
  - repeat constructor.
  - repeat constructor.
  - constructor; [|constructor]. apply no_suffix. vm_compute. discriminate.
  - apply H. exists []. reflexivity.
Defined.

(** The path of the page. *)
Definition here : jstr := js "/yundisk/bar.html".

Lemma addCookie_getCookieValue_witness :
  getCookieValue (js "user") (visible here (addCookie here 5 (js "user") (js "a b") (Days 7) (js "/") [])) = js "a%20b".
Proof.
  refine (proj1 (addCookie_getCookieValue here 5 (js "user") (js "a b") 7 (js "/") [] _ _ _ _));
    [vm_compute; discriminate|discriminate|vm_compute; reflexivity|constructor].
Defined.

(** A user name with a character that [escape] changes is not read back. *)
Theorem value_not_decoded :
  getCookieValue (js "username") (visible here (addCookie here 5 (js "username") (js "a b") (Days 7) (js "/") []))
  = js "a%20b".
Proof. vm_compute. reflexivity. Qed.

(** A cookie for another directory is not seen, and one without a path is for
    the directory of the page. *)
Example paths_of_cookies :
  getCookieValue (js "user") (visible here (addCookie here 5 (js "user") (js "bob") (Days 7) (js "/temp") [])) = []
  /\ addCookie here 5 (js "user") (js "bob") (Days 7) [] [] = [mkCookie (js "user") (js "bob") (js "/yundisk")].
Proof. vm_compute. split; reflexivity. Qed.

(** A date of the year 10000 is ignored: the cookie is stored all the same. *)
Example far_date :
  addCookie here 253370764800000 (js "user") (js "bob") (Days 366) (js "/") [] = [mkCookie (js "user") (js "bob") (js "/")].
Proof. vm_compute. reflexivity. Qed.

Lemma deleteCookie_removes_witness :
  mkCookie (js "nickusername") (js "bob") (js "/") ∈ deleteCookie here 9 (js "username") (js "/") jar.
Proof.
  apply (deleteCookie_removes here 9 (js "username") (js "/") jar _ ltac:(lia)).
  split; [left|]. intros [H _]. vm_compute in H. discriminate.
Defined.

Lemma password_field_witness :
  showDefaultPwd (js "密码") (hideDefaultPwd (js "密码") (mkInput (js "密码") (js "text")))
  = mkInput (js "密码") (js "text").
Proof.
  refine (proj1 (password_field (js "密码") (mkInput (js "密码") (js "text")) [] _ _));
    [vm_compute; discriminate|reflexivity].
Defined.

End Sample.
