(* ===== verification/IScroll.v ===== *)
(** * The scroller (iscroll.js)

    An [iScroll] object moves its content inside a wrapper: by dragging, with
    a momentum after the drag, by the wheel, by animations and by zooming.
    The record [iscroll] holds the object's properties; positions are
    rationals, sizes and limits integers.  What the browser measures is the
    record [geometry] and the clock is the field [now].  [Math.sqrt] and
    [Math.pow], which do not stay in the rationals, are the interface [Maths].

    [_resetPos], [_startAni] and the animation function call each other
    without any bound the code could name, so they run on fuel; the theorems
    say when the fuel is enough and when no fuel is. *)

From stdpp Require Import base list strings.
From Stdlib Require Import QArith Qabs Qround Qminmax Lqa.
From S2P Require Import Prelude JsString.

#[local] Open Scope Q_scope.

Class Maths := {
  m_sqrt : Q -> Q;
  m_pow : Q -> Q -> Q;
}.

(** The square root is between 0 and 1 for an argument in that range. *)
Class MathsLaws `{Maths} := sqrt_unit : forall q, 0 <= q <= 1 -> 0 <= m_sqrt q <= 1.

(** ** Data *)

(** [options.snap]: off, by pages of the size of the wrapper, or to the
    elements a selector finds. *)
Inductive snapping := SnapOff | SnapPages | SnapElements.

Inductive wheeling := WheelScroll | WheelZoom | WheelNone.

(** The options, after the constructor has normalised them. *)
Record isopts := mkIsopts {
  io_hScroll : bool;
  io_vScroll : bool;
  io_bounce : bool;
  io_bounceLock : bool;
  io_momentum : bool;
  io_lockDirection : bool;
  io_useTransform : bool;
  io_useTransition : bool;
  io_topOffset : Z;
  io_handleClick : bool;
  io_hScrollbar : bool;
  io_vScrollbar : bool;
  io_fixedScrollbar : bool;
  io_hideScrollbar : bool;
  io_zoom : bool;
  io_zoomMin : Q;
  io_zoomMax : Q;
  io_doubleTapZoom : Q;
  io_wheelAction : wheeling;
  io_snap : snapping;
  io_snapThreshold : Q;
}.

#[export] Instance isopts_eta : Eta isopts :=
  fun r => mkIsopts (io_hScroll r) (io_vScroll r) (io_bounce r) (io_bounceLock r)
    (io_momentum r) (io_lockDirection r) (io_useTransform r) (io_useTransition r)
    (io_topOffset r) (io_handleClick r) (io_hScrollbar r) (io_vScrollbar r)
    (io_fixedScrollbar r) (io_hideScrollbar r) (io_zoom r) (io_zoomMin r) (io_zoomMax r)
    (io_doubleTapZoom r) (io_wheelAction r) (io_snap r) (io_snapThreshold r).

(** What the browser is capable of. *)
Record caps := mkCaps {
  isAndroid : bool;
  isIDevice : bool;
  hasTouch : bool;
  hasTransform : bool;
  hasTransitionEnd : bool;
}.

Definition default_options (c : caps) : isopts :=
  mkIsopts true true true false true true true false 0 true true true (isAndroid c)
    (isIDevice c) false 1 4 2 WheelScroll SnapOff 1.

(** The normalisation of the options in the constructor. *)
Definition normalize (c : caps) (o : isopts) : isopts :=
  let o := o <| io_useTransform := hasTransform c && io_useTransform o |> in
  let o := o <| io_hScrollbar := io_hScroll o && io_hScrollbar o |>
             <| io_vScrollbar := io_vScroll o && io_vScrollbar o |> in
  let o := o <| io_zoom := io_useTransform o && io_zoom o |>
             <| io_useTransition := hasTransitionEnd c && io_useTransition o |> in
  if io_useTransition o then o <| io_fixedScrollbar := true |> else o.

(** The measures of the elements: the inner size of the wrapper, the size of
    the scroller, the sizes of the two scrollbars, and for the wrapper and
    each snap element the offsets of the element and its offset parents. *)
Record geometry := mkGeometry {
  ge_client : Z * Z;
  ge_scroller : Z * Z;
  ge_bars : Z * Z;
  ge_wrapper : list (Z * Z);
  ge_snap : list (list (Z * Z));
}.

(** A step of an animation, and a running one with the variables of its
    closure. *)
Record step := mkStep { st_x : Q; st_y : Q; st_time : Z }.

Record ani := mkAni { an_step : step; an_x : Q; an_y : Q; an_start : Z }.

(** A scrollbar that is on the page. *)
Record bar := mkBar {
  ba_size : Z;          (** the length of the bar *)
  ba_indicator : Z;     (** [ScrollbarIndicatorSize] *)
  ba_max : Z;           (** [ScrollbarMaxScroll] *)
  ba_prop : Q;          (** [ScrollbarProp] *)
  ba_shown : Z;         (** the length of the indicator in its style *)
  ba_pos : Q;           (** where the indicator is moved to *)
  ba_opaque : bool;
}.

#[export] Instance bar_eta : Eta bar :=
  fun r => mkBar (ba_size r) (ba_indicator r) (ba_max r) (ba_prop r) (ba_shown r) (ba_pos r)
    (ba_opaque r).

Record iscroll (W : Type) := mkIscroll {
  opts : isopts;
  geo : geometry;
  now : Z;
  enabled : bool;
  x : Q;
  y : Q;
  steps : list step;
  scale : Q;
  currPageX : Z;
  currPageY : Z;
  pagesX : list (option Q);   (** a page is [NaN] where it is [None] *)
  pagesY : list (option Q);
  moved : bool;
  animating : bool;
  zoomed : bool;
  distX : Q;
  distY : Q;
  absDistX : Q;
  absDistY : Q;
  dirX : Z;
  dirY : Z;
  originX : Q;
  originY : Q;
  touchesDistStart : Q;
  lastScale : Q;
  absStartX : Q;
  absStartY : Q;
  startX : Q;
  startY : Q;
  pointX : Q;
  pointY : Q;
  startTime : Z;
  wrapperW : Z;
  wrapperH : Z;
  scrollerW : Z;
  scrollerH : Z;
  minScrollY : Z;
  maxScrollX : Z;
  maxScrollY : Z;
  hScroll : bool;
  vScroll : bool;
  hScrollbar : bool;
  vScrollbar : bool;
  hBar : option bar;
  vBar : option bar;
  wrapperOffsetLeft : Q;
  wrapperOffsetTop : Q;
  duration : Z;               (** the transition time of the scroller *)
  trnend : bool;              (** waiting for the end of a transition *)
  listening : bool;           (** the move and end events are bound *)
  aniTime : option ani;       (** the frame that is scheduled *)
  doubleTapTimer : bool;
  clicks : nat;               (** simulated clicks sent *)
  world : W;
}.

Arguments mkIscroll {W}. Arguments opts {W}. Arguments geo {W}. Arguments now {W}.
Arguments enabled {W}. Arguments x {W}. Arguments y {W}. Arguments steps {W}.
Arguments scale {W}. Arguments currPageX {W}. Arguments currPageY {W}.
Arguments pagesX {W}. Arguments pagesY {W}. Arguments moved {W}. Arguments animating {W}.
Arguments zoomed {W}. Arguments distX {W}. Arguments distY {W}. Arguments absDistX {W}.
Arguments absDistY {W}. Arguments dirX {W}. Arguments dirY {W}. Arguments originX {W}.
Arguments originY {W}. Arguments touchesDistStart {W}. Arguments lastScale {W}.
Arguments absStartX {W}. Arguments absStartY {W}. Arguments startX {W}. Arguments startY {W}.
Arguments pointX {W}. Arguments pointY {W}. Arguments startTime {W}. Arguments wrapperW {W}.
Arguments wrapperH {W}. Arguments scrollerW {W}. Arguments scrollerH {W}.
Arguments minScrollY {W}. Arguments maxScrollX {W}. Arguments maxScrollY {W}.
Arguments hScroll {W}. Arguments vScroll {W}. Arguments hScrollbar {W}. Arguments vScrollbar {W}.
Arguments hBar {W}. Arguments vBar {W}. Arguments wrapperOffsetLeft {W}.
Arguments wrapperOffsetTop {W}. Arguments duration {W}. Arguments trnend {W}.
Arguments listening {W}. Arguments aniTime {W}. Arguments doubleTapTimer {W}.
Arguments clicks {W}. Arguments world {W}.

#[export] Instance iscroll_eta {W} : Eta (iscroll W) :=
  fun r => mkIscroll (opts r) (geo r) (now r) (enabled r) (x r) (y r) (steps r) (scale r)
    (currPageX r) (currPageY r) (pagesX r) (pagesY r) (moved r) (animating r) (zoomed r)
    (distX r) (distY r) (absDistX r) (absDistY r) (dirX r) (dirY r) (originX r) (originY r)
    (touchesDistStart r) (lastScale r) (absStartX r) (absStartY r) (startX r) (startY r)
    (pointX r) (pointY r) (startTime r) (wrapperW r) (wrapperH r) (scrollerW r) (scrollerH r)
    (minScrollY r) (maxScrollX r) (maxScrollY r) (hScroll r) (vScroll r) (hScrollbar r)
    (vScrollbar r) (hBar r) (vBar r) (wrapperOffsetLeft r) (wrapperOffsetTop r) (duration r)
    (trnend r) (listening r) (aniTime r) (doubleTapTimer r) (clicks r) (world r).

(** The callbacks of the options the program passes or that take part in
    scrolling; one that is not given is the identity. *)
Class IsCallbacks (W : Type) := {
  onRefresh : iscroll W -> iscroll W;
  onScrollStart : iscroll W -> iscroll W;
  onScrollMove : iscroll W -> iscroll W;
  onScrollEnd : iscroll W -> iscroll W;
  onTouchEnd : iscroll W -> iscroll W;
}.

(** A touch or mouse event: the touches on the screen, the point of the mouse
    or of the lifted touch, the time, and the position of the scroller that
    [getComputedStyle] reports. *)
Record uievent := mkUievent {
  ev_touches : list (Q * Q);
  ev_point : Q * Q;
  ev_time : Z;
  ev_button : Z;
  ev_computed : Q * Q;
}.

(** The outcome of a handler: the new state, a position that is not a number,
    or no end within the fuel. *)
Inductive outcome (A : Type) := Done (a : A) | NotANumber | OutOfFuel.
Arguments Done {A} a.
Arguments NotANumber {A}.
Arguments OutOfFuel {A}.

#[export] Instance outcome_bind : MBind outcome := fun A B f m =>
  match m with Done a => f a | NotANumber => NotANumber | OutOfFuel => OutOfFuel end.

Section Operations.
Context {W : Type} `{IsCallbacks W, Maths}.
Variable cp : caps.
Abbreviation iscroll := (iscroll W).

(** ** Scrollbars and position *)

(** [_scrollbarPos] for a bar that is shown. *)
Definition bar_move (o : isopts) (hidden : bool) (p : Q) (b : bar) : bar :=
  let pos := ba_prop b * p in
  let b :=
    if pos <q 0 then
      (if io_fixedScrollbar o then b
       else b <| ba_shown := Z.max 8 (ba_indicator b + math_round (pos * 3)) |>) <| ba_pos := 0 |>
    else if inject_Z (ba_max b) <q pos then
      if io_fixedScrollbar o then b <| ba_pos := inject_Z (ba_max b) |>
      else
        let size := Z.max 8 (ba_indicator b - math_round ((pos - inject_Z (ba_max b)) * 3)) in
        b <| ba_shown := size |> <| ba_pos := inject_Z (ba_max b + (ba_indicator b - size)) |>
    else b <| ba_pos := pos |> in
  b <| ba_opaque := negb (hidden && io_hideScrollbar o) |>.

Definition _scrollbarPos (h hidden : bool) (s : iscroll) : iscroll :=
  if h then
    if hScrollbar s then s <| hBar ::= fmap (bar_move (opts s) hidden (x s)) |> else s
  else
    if vScrollbar s then s <| vBar ::= fmap (bar_move (opts s) hidden (y s)) |> else s.

(** The measures [_scrollbar] computes for a bar of length [size]. *)
Definition bar_new (size scroller maxScroll : Z) (old : option bar) : bar :=
  let ind := Z.max (math_round (inject_Z (size * size) / inject_Z scroller)) 8 in
  let mx := (size - ind)%Z in
  let prop := inject_Z mx / inject_Z maxScroll in
  match old with
  | Some b => b <| ba_size := size |> <| ba_indicator := ind |> <| ba_shown := ind |>
                <| ba_max := mx |> <| ba_prop := prop |>
  | None => mkBar size ind mx prop ind 0 true
  end.

Definition _scrollbar (h : bool) (s : iscroll) : iscroll :=
  if h then
    if negb (hScrollbar s) then s <| hBar := None |>
    else _scrollbarPos true true
           (s <| hBar ::= fun b => Some (bar_new (fst (ge_bars (geo s))) (scrollerW s) (maxScrollX s) b) |>)
  else
    if negb (vScrollbar s) then s <| vBar := None |>
    else _scrollbarPos false true
           (s <| vBar ::= fun b => Some (bar_new (snd (ge_bars (geo s))) (scrollerH s) (maxScrollY s) b) |>).

Definition _pos (px py : Q) (s : iscroll) : iscroll :=
  if zoomed s then s
  else
    let px := if hScroll s then px else 0 in
    let py := if vScroll s then py else 0 in
    let '(px, py) := if io_useTransform (opts s) then (px, py)
                     else (inject_Z (math_round px), inject_Z (math_round py)) in
    _scrollbarPos false false (_scrollbarPos true false (s <| x := px |> <| y := py |>)).

Definition _transitionTime (time : Z) (s : iscroll) : iscroll := s <| duration := time |>.

Definition stop (s : iscroll) : iscroll :=
  let s := if io_useTransition (opts s) then s <| trnend := false |> else s <| aniTime := None |> in
  s <| steps := [] |> <| moved := false |> <| animating := false |>.

(** ** Animation

    The three functions that call each other, as one function of what is to
    be run. *)

Inductive task :=
| TReset (time : Z)      (** [_resetPos(time)] *)
| TStart                 (** [_startAni()] *)
| TAnimate (a : ani).    (** the function [animate] of [_startAni] *)

Definition resetX (s : iscroll) : Q :=
  if 0 <=q x s then 0
  else if x s <q inject_Z (maxScrollX s) then inject_Z (maxScrollX s) else x s.

Definition resetY (s : iscroll) : Q :=
  if (inject_Z (minScrollY s) <=q y s) || (0 <? maxScrollY s)%Z then inject_Z (minScrollY s)
  else if y s <q inject_Z (maxScrollY s) then inject_Z (maxScrollY s) else y s.

(** [_resetPos] when the position is right. *)
Definition hide_bars (s : iscroll) : iscroll :=
  if io_hideScrollbar (opts s) then
    let off (on : bool) (b : option bar) := if on then (fun b => b <| ba_opaque := false |>) <$> b else b in
    s <| hBar ::= off (hScrollbar s) |> <| vBar ::= off (vScrollbar s) |>
  else s.

Definition settle (s : iscroll) : iscroll :=
  hide_bars (if moved s then onScrollEnd (s <| moved := false |>) else s).

(** The position between start and target: [easeOut] of the elapsed part. *)
Definition ani_pos (a : ani) (t : Z) : Q * Q :=
  let now := inject_Z (t - an_start a) / inject_Z (st_time (an_step a)) - 1 in
  let easeOut := m_sqrt (1 - now * now) in
  ((st_x (an_step a) - an_x a) * easeOut + an_x a,
   (st_y (an_step a) - an_y a) * easeOut + an_y a).

Fixpoint exec (fuel : nat) (t : task) (s : iscroll) : outcome iscroll :=
  match fuel with
  | O => OutOfFuel
  | S n =>
      match t with
      | TReset time =>
          if (resetX s =q x s) && (resetY s =q y s) then Done (settle s)
          else exec n TStart ((stop s) <| steps := [mkStep (resetX s) (resetY s) time] |>)
      | TStart =>
          if animating s then Done s
          else match steps s with
          | [] => exec n (TReset 400) s
          | st :: rest =>
              let time := if (st_x st =q x s) && (st_y st =q y s) then 0%Z else st_time st in
              let st := mkStep (st_x st) (st_y st) time in
              let a := mkAni st (x s) (y s) (now s) in
              let s := s <| steps := rest |> <| animating := true |> <| moved := true |> in
              if io_useTransition (opts s) then
                let s := (_pos (st_x st) (st_y st) (_transitionTime time s)) <| animating := false |> in
                if negb (time =? 0)%Z then Done (s <| trnend := true |>)
                else exec n (TReset 0) s
              else exec n (TAnimate a) s
          end
      | TAnimate a =>
          if (an_start a + st_time (an_step a) <=? now s)%Z then
            exec n TStart ((_pos (st_x (an_step a)) (st_y (an_step a)) s) <| animating := false |>)
          else
            let '(nx, ny) := ani_pos a (now s) in
            let s := _pos nx ny s in
            Done (if animating s then s <| aniTime := Some a |> else s)
      end
  end.

(** The fuel of a call: a queued step takes at most three calls, the final
    return to the limits four. *)
Definition fuel_for (s : iscroll) : nat := 3 * length (steps s) + 8.

Definition run (t : task) (s : iscroll) : outcome iscroll := exec (fuel_for s) t s.

Definition _resetPos (time : Z) (s : iscroll) : outcome iscroll := run (TReset time) s.
Definition _startAni (s : iscroll) : outcome iscroll := run TStart s.

(** [scrollTo(x, y, time, relative)]. *)
Definition scrollTo (px py : Q) (time : Z) (relative : bool) (s : iscroll) : outcome iscroll :=
  let s := stop s in
  let st := if relative then mkStep (x s - px) (y s - py) time else mkStep px py time in
  _startAni (s <| steps := [st] |>).

(** A coordinate that may be [NaN]. *)
Definition scrollToN (px py : option Q) (time : Z) (s : iscroll) : outcome iscroll :=
  match px, py with
  | Some px, Some py => scrollTo px py time false s
  | _, _ => NotANumber
  end.

(** The scheduled frame, and the end of a transition of the scroller. *)
Definition frame (s : iscroll) : outcome iscroll :=
  match aniTime s with
  | Some a => run (TAnimate a) (s <| aniTime := None |>)
  | None => Done s
  end.

Definition _transitionEnd (on_scroller : bool) (s : iscroll) : outcome iscroll :=
  if negb (trnend s) || negb on_scroller then Done s
  else _startAni (s <| trnend := false |>).

(** ** Momentum and snapping *)

Definition deceleration : Q := 6 # 10000.

(** [_momentum]: distance and time, [None] where they are [NaN] (a drag of no
    duration). *)
Definition _momentum (dist : Q) (time : Z) (maxDistUpper maxDistLower size : Q)
    : option (Q * Z) :=
  if (time =? 0)%Z then None
  else
    let speed := Qabs dist / inject_Z time in
    let newDist := (speed * speed) / (2 * deceleration) in
    let outsideDist := size / (6 / (newDist / speed * deceleration)) in
    let '(speed, newDist) :=
      if (0 <q dist) && (maxDistUpper <q newDist) then
        let mx := maxDistUpper + outsideDist in (speed * mx / newDist, mx)
      else if (dist <q 0) && (maxDistLower <q newDist) then
        let mx := maxDistLower + outsideDist in (speed * mx / newDist, mx)
      else (speed, newDist) in
    Some (newDist * (if dist <q 0 then -1 else 1), math_round (speed / deceleration)).

(** The first page the position has not passed, the last one if there is
    none; a page that is [NaN] is never chosen by the comparison. *)
Fixpoint find_page (v : Q) (i : Z) (pages : list (option Q)) : option Z :=
  match pages with
  | [] => None
  | p :: ps =>
      match p with
      | Some q => if q <=q v then Some i else find_page v (i + 1)%Z ps
      | None => find_page v (i + 1)%Z ps
      end
  end.

Definition page_at (pages : list (option Q)) (i : Z) : option Q :=
  if (i <? 0)%Z then None else mjoin (pages !! Z.to_nat i).

(** One axis of [_snap]: the new page, its position and the time. *)
Definition snap_axis (v cur : Q) (pages : list (option Q)) (currPage dir : Z)
    : Z * option Q * Q :=
  let page := default (Z.of_nat (length pages) - 1)%Z (find_page v 0 pages) in
  let page := if (page =? currPage)%Z && (0 <? page)%Z && (dir <? 0)%Z then (page - 1)%Z else page in
  let p := page_at pages page in
  let size := match p, page_at pages currPage with
              | Some a, Some b => if (Qabs (a - b)) =q 0 then 0 else Qabs (cur - a) / Qabs (a - b) * 500
              | _, _ => 0
              end in
  (page, p, size).

Definition _snap (px py : Q) (s : iscroll) : iscroll * (option Q * option Q * Z) :=
  let '(pgx, sx, tx) := snap_axis px (x s) (pagesX s) (currPageX s) (dirX s) in
  let '(pgy, sy, ty) := snap_axis py (y s) (pagesY s) (currPageY s) (dirY s) in
  let time := math_round (Qmax tx ty) in
  (s <| currPageX := pgx |> <| currPageY := pgy |>,
   (sx, sy, if (time =? 0)%Z then 200%Z else time)).

(** [_offset]: the loop over the offset parents ends with a null element, so
    the result is scaled for every element, the wrapper included. *)
Definition _offset (chain : list (Z * Z)) (s : iscroll) : Q * Q :=
  let sum (f : Z * Z -> Z) := foldr (fun p n => (f p + n)%Z) 0%Z chain in
  (inject_Z (- sum fst) * scale s, inject_Z (- sum snd) * scale s).

(** ** [refresh] *)

(** The loop that lists the pages from [pos] down to the limit. *)
Fixpoint page_loop (fuel : nat) (pos limit size : Z) : list Z :=
  match fuel with
  | O => []
  | S n => if (limit <=? pos)%Z then pos :: page_loop n (pos - size)%Z limit size else []
  end.

Definition make_pages (limit size : Z) : list (option Q) :=
  let pages := page_loop (S (Z.to_nat (- limit))) 0 limit size in
  let qs := (fun z => Some (inject_Z z)) <$> pages in
  if negb (Z.rem limit size =? 0)%Z
  then qs ++ [match last pages with Some l => Some (inject_Z (limit - l + l)) | None => None end]
  else qs.

Definition limit_page (limit : Z) (pos sc : Q) : option Q :=
  Some (if pos <q inject_Z limit then inject_Z limit else pos * sc).

Definition refresh_snap (s : iscroll) : iscroll :=
  match io_snap (opts s) with
  | SnapElements =>
      let at_ (c : list (Z * Z)) := let '(l, t) := _offset c s in
                                    (l + wrapperOffsetLeft s, t + wrapperOffsetTop s) in
      let ps := at_ <$> ge_snap (geo s) in
      s <| pagesX := (fun p => limit_page (maxScrollX s) (fst p) (scale s)) <$> ps |>
        <| pagesY := (fun p => limit_page (maxScrollY s) (snd p) (scale s)) <$> ps |>
  | SnapPages =>
      s <| pagesX := make_pages (maxScrollX s) (wrapperW s) |>
        <| pagesY := make_pages (maxScrollY s) (wrapperH s) |>
  | SnapOff => s
  end.

Definition or_one (n : Z) : Z := if (n =? 0)%Z then 1%Z else n.

Definition refresh_sizes (s : iscroll) : iscroll :=
  let o := opts s in
  let g := geo s in
  let s := if scale s <q io_zoomMin o then s <| scale := io_zoomMin o |> else s in
  let s := s <| wrapperW := or_one (fst (ge_client g)) |> <| wrapperH := or_one (snd (ge_client g)) |>
             <| minScrollY := (- io_topOffset o)%Z |> in
  let s := s <| scrollerW := math_round (inject_Z (fst (ge_scroller g)) * scale s) |>
             <| scrollerH := math_round (inject_Z (snd (ge_scroller g) + minScrollY s) * scale s) |> in
  s <| maxScrollX := (wrapperW s - scrollerW s)%Z |>
    <| maxScrollY := (wrapperH s - scrollerH s + minScrollY s)%Z |>
    <| dirX := 0%Z |> <| dirY := 0%Z |>.

Definition refresh_axes (s : iscroll) : iscroll :=
  let o := opts s in
  let s := s <| hScroll := io_hScroll o && (maxScrollX s <? 0)%Z |> in
  let s := s <| vScroll := io_vScroll o
                 && (negb (io_bounceLock o) && negb (hScroll s) || (wrapperH s <? scrollerH s)%Z) |> in
  let s := s <| hScrollbar := hScroll s && io_hScrollbar o |>
             <| vScrollbar := vScroll s && io_vScrollbar o && (wrapperH s <? scrollerH s)%Z |> in
  let '(l, t) := _offset (ge_wrapper (geo s)) s in
  s <| wrapperOffsetLeft := - l |> <| wrapperOffsetTop := - t |>.

(** Everything but the return to the limits. *)
Definition refresh_layout (s : iscroll) : iscroll :=
  _scrollbar false (_scrollbar true (refresh_snap (refresh_axes (onRefresh (refresh_sizes s))))).

Definition refresh (s : iscroll) : outcome iscroll :=
  let s := refresh_layout s in
  if negb (zoomed s) then _resetPos 200 (s <| duration := 0%Z |>) else Done s.

(** [_resize] and [_checkDOMChanges] refresh later. *)
Definition _resize (s : iscroll) : outcome iscroll := refresh s.

Definition _checkDOMChanges (s : iscroll) : outcome iscroll :=
  if moved s || zoomed s || animating s
     || ((inject_Z (scrollerW s) =q inject_Z (fst (ge_scroller (geo s))) * scale s)
         && (inject_Z (scrollerH s) =q inject_Z (snd (ge_scroller (geo s))) * scale s))
  then Done s else refresh s.

(** ** Zooming *)

Definition clampX (s : iscroll) (q : Q) : Q :=
  if 0 <q q then 0 else if q <q inject_Z (maxScrollX s) then inject_Z (maxScrollX s) else q.

Definition clampY (s : iscroll) (q : Q) : Q :=
  if inject_Z (minScrollY s) <q q then inject_Z (minScrollY s)
  else if q <q inject_Z (maxScrollY s) then inject_Z (maxScrollY s) else q.

Definition zoom (px py sc : Q) (time : Z) (s : iscroll) : outcome iscroll :=
  let relScale := sc / scale s in
  if negb (io_useTransform (opts s)) then Done s
  else
    let s := s <| zoomed := true |> in
    let px := px - wrapperOffsetLeft s - x s in
    let py := py - wrapperOffsetTop s - y s in
    let s := s <| x := px - px * relScale + x s |> <| y := py - py * relScale + y s |>
               <| scale := sc |> in
    s ← refresh s;
    let s := s <| x := clampX s (x s) |> <| y := clampY s (y s) |> in
    Done (s <| duration := time |> <| zoomed := false |>).

(** ** Events *)

Definition event_point (e : uievent) : Q * Q :=
  if hasTouch cp then default (ev_point e) (head (ev_touches e)) else ev_point e.

(** The two touches of a pinch. *)
Definition pinch (s : iscroll) (e : uievent) : option ((Q * Q) * (Q * Q)) :=
  if io_zoom (opts s) && hasTouch cp then
    match ev_touches e with a :: b :: _ => Some (a, b) | _ => None end
  else None.

Definition touch_dist (a b : Q * Q) : Q :=
  let c1 := Qabs (fst a - fst b) in
  let c2 := Qabs (snd a - snd b) in
  m_sqrt (c1 * c1 + c2 * c2).

(** The steps of [_start]: the gesture is forgotten ... *)
Definition start_reset (s : iscroll) : iscroll :=
  let s := if io_useTransition (opts s) || io_zoom (opts s) then _transitionTime 0 s else s in
  s <| moved := false |> <| animating := false |> <| zoomed := false |>
    <| distX := 0 |> <| distY := 0 |> <| absDistX := 0 |> <| absDistY := 0 |>
    <| dirX := 0%Z |> <| dirY := 0%Z |>.

(** ... a second finger starts a pinch ... *)
Definition start_pinch (e : uievent) (s : iscroll) : iscroll :=
  match pinch s e with
  | Some (a, b) =>
      s <| touchesDistStart := touch_dist a b |>
        <| originX := Qabs (fst a + fst b - wrapperOffsetLeft s * 2) / 2 - x s |>
        <| originY := Qabs (snd a + snd b - wrapperOffsetTop s * 2) / 2 - y s |>
  | None => s
  end.

(** ... a moving content is caught where it is shown ... *)
Definition start_catch (e : uievent) (s : iscroll) : iscroll :=
  if io_momentum (opts s) then
    let '(cx, cy) := ev_computed e in
    if negb (cx =q x s) || negb (cy =q y s) then
      let s := if io_useTransition (opts s) then s <| trnend := false |> else s <| aniTime := None |> in
      _pos cx cy (s <| steps := [] |>)
    else s
  else s.

(** ... and the position is noted. *)
Definition start_mark (e : uievent) (s : iscroll) : iscroll :=
  let '(ptx, pty) := event_point e in
  s <| absStartX := x s |> <| absStartY := y s |>
    <| startX := x s |> <| startY := y s |>
    <| pointX := ptx |> <| pointY := pty |> <| startTime := ev_time e |>.

Definition _start (e : uievent) (s : iscroll) : iscroll :=
  if negb (enabled s) then s
  else
    (onScrollStart (start_mark e (start_catch e (start_pinch e (start_reset s)))))
      <| listening := true |>.

Definition sign_dir (d : Q) : Z := if 0 <q d then (-1)%Z else if d <q 0 then 1%Z else 0%Z.

(** The position a drag asks for, slowed down or stopped outside the limits. *)
Definition drag_x (deltaX : Q) (s : iscroll) : Q :=
  let newX := x s + deltaX in
  if (0 <q newX) || (newX <q inject_Z (maxScrollX s)) then
    if io_bounce (opts s) then x s + deltaX / 2
    else if (0 <=q newX) || (0 <=? maxScrollX s)%Z then 0 else inject_Z (maxScrollX s)
  else newX.

Definition drag_y (deltaY : Q) (s : iscroll) : Q :=
  let newY := y s + deltaY in
  if (inject_Z (minScrollY s) <q newY) || (newY <q inject_Z (maxScrollY s)) then
    if io_bounce (opts s) then y s + deltaY / 2
    else if (inject_Z (minScrollY s) <=q newY) || (0 <=? maxScrollY s)%Z
         then inject_Z (minScrollY s) else inject_Z (maxScrollY s)
  else newY.

(** [_move] with one finger or the mouse. *)
(** The point of the finger and how far it has come. *)
Definition drag_track (ptx pty : Q) (s : iscroll) : iscroll :=
  let dx := distX s + (ptx - pointX s) in
  let dy := distY s + (pty - pointY s) in
  s <| pointX := ptx |> <| pointY := pty |> <| distX := dx |> <| distY := dy |>
    <| absDistX := Qabs dx |> <| absDistY := Qabs dy |>.

(** The direction of the drag, and a new start where it takes longer. *)
Definition drag_mark (e : uievent) (deltaX deltaY : Q) (s : iscroll) : iscroll :=
  let s := s <| dirX := sign_dir deltaX |> <| dirY := sign_dir deltaY |> in
  if (300 <? ev_time e - startTime s)%Z
  then s <| startTime := ev_time e |> <| startX := x s |> <| startY := y s |>
  else s.

Definition drag (e : uievent) (s : iscroll) : iscroll :=
  let '(ptx, pty) := event_point e in
  let deltaX := ptx - pointX s in
  let deltaY := pty - pointY s in
  let newX := drag_x deltaX s in
  let newY := drag_y deltaY s in
  let s := drag_track ptx pty s in
  if (absDistX s <q 6) && (absDistY s <q 6) then s
  else
    let '(newX, newY, deltaX, deltaY) :=
      if io_lockDirection (opts s) then
        if absDistY s + 5 <q absDistX s then (newX, y s, deltaX, 0)
        else if absDistX s + 5 <q absDistY s then (x s, newY, 0, deltaY)
        else (newX, newY, deltaX, deltaY)
      else (newX, newY, deltaX, deltaY) in
    onScrollMove (drag_mark e deltaX deltaY (_pos newX newY (s <| moved := true |>))).

(** The scale of a pinch, with resistance beyond the limits. *)
Definition pinch_scale (dist : Q) (s : iscroll) : Q :=
  let o := opts s in
  let sc := 1 / touchesDistStart s * dist * scale s in
  if sc <q io_zoomMin o then (1 # 2) * io_zoomMin o * m_pow 2 (sc / io_zoomMin o)
  else if io_zoomMax o <q sc then 2 * io_zoomMax o * m_pow (1 # 2) (io_zoomMax o / sc)
  else sc.

Definition _move (e : uievent) (s : iscroll) : iscroll :=
  match pinch s e with
  | Some (a, b) =>
      s <| zoomed := true |> <| lastScale := pinch_scale (touch_dist a b) s / scale s |>
  | None => drag e s
  end.

(** The momentum of one axis: none at position 0. *)
Definition axis_momentum (pos start : Q) (time : Z) (upper lower size : Q) : option (Q * Z) :=
  if pos =q 0 then Some (0, 0%Z) else _momentum (pos - start) time upper lower size.

Definition momentum_on (m : option (Q * Z)) : bool :=
  match m with Some (d, _) => negb (d =q 0) | None => false end.

Definition add_momentum (pos : Q) (m : option (Q * Z)) : option Q := (fun d => pos + fst d) <$> m.

Definition above (l : Q) (q : option Q) : bool := match q with Some q => l <q q | None => false end.
Definition below (q : option Q) (l : Q) : bool := match q with Some q => q <q l | None => false end.

(** The momenta of [_end], dropped where the content is already outside and
    would stay there, with the positions they lead to. *)
Definition end_momentum (dur : Z) (s : iscroll)
    : option (Q * Z) * option (Q * Z) * option Q * option Q :=
  let none : option (Q * Z) := Some (0, 0%Z) in
  if (dur <? 300)%Z && io_momentum (opts s) then
    let size (n : Z) := if io_bounce (opts s) then inject_Z n else 0 in
    let mx := axis_momentum (x s) (startX s) dur (- x s)
                (inject_Z (scrollerW s - wrapperW s) + x s) (size (wrapperW s)) in
    let my := axis_momentum (y s) (startY s) dur (- y s)
                (if (maxScrollY s <? 0)%Z
                 then inject_Z (scrollerH s - wrapperH s) + y s - inject_Z (minScrollY s) else 0)
                (size (wrapperH s)) in
    let nx := add_momentum (x s) mx in
    let ny := add_momentum (y s) my in
    let '(mxX, mnY, mxY) := (inject_Z (maxScrollX s), inject_Z (minScrollY s), inject_Z (maxScrollY s)) in
    let mx := if ((0 <q x s) && above 0 nx) || ((x s <q mxX) && below nx mxX) then none else mx in
    let my := if ((mnY <q y s) && above mnY ny) || ((y s <q mxY) && below ny mxY) then none else my in
    (mx, my, nx, ny)
  else (none, none, Some (x s), Some (y s)).

Definition near (thr : Q) (p : option Q) (start : Q) : bool :=
  match p with Some q => Qabs (q - start) <q thr | None => false end.

Definition round_pos (p : option Q) : option Q := (fun q => inject_Z (math_round q)) <$> p.

Definition mom_time (m : option (Q * Z)) : Z := from_option snd 0%Z m.

Definition touch_end (r : outcome iscroll) : outcome iscroll := s ← r; Done (onTouchEnd s).

(** [_end] after a drag. *)
Definition end_drag (e : uievent) (s : iscroll) : outcome iscroll :=
  let thr := io_snapThreshold (opts s) in
  let '(mx, my, nx, ny) := end_momentum (ev_time e - startTime s) s in
  if momentum_on mx || momentum_on my then
    let newDuration := Z.max (Z.max (mom_time mx) (mom_time my)) 10 in
    match io_snap (opts s) with
    | SnapOff => touch_end (scrollToN (round_pos nx) (round_pos ny) newDuration s)
    | _ =>
        if near thr nx (absStartX s) && near thr ny (absStartY s) then
          s ← scrollTo (absStartX s) (absStartY s) 200 false s;
          touch_end (scrollToN (round_pos nx) (round_pos ny) newDuration s)
        else match nx, ny with
        | Some px, Some py =>
            let '(s, (sx, sy, time)) := _snap px py s in
            touch_end (scrollToN (round_pos sx) (round_pos sy) (Z.max time newDuration) s)
        | _, _ => NotANumber
        end
    end
  else
    match io_snap (opts s) with
    | SnapOff => touch_end (_resetPos 200 s)
    | _ =>
        if near thr nx (absStartX s) && near thr ny (absStartY s)
        then touch_end (scrollTo (absStartX s) (absStartY s) 200 false s)
        else
          let '(px, py) := (x s, y s) in
          let '(s, (sx, sy, time)) := _snap px py s in
          if match sx, sy with Some a, Some b => (a =q px) && (b =q py) | _, _ => false end
          then Done (onTouchEnd s)
          else touch_end (scrollToN sx sy time s)
    end.

Definition end_zoom (s : iscroll) : outcome iscroll :=
  let sc := Qmin (io_zoomMax (opts s)) (Qmax (io_zoomMin (opts s)) (scale s * lastScale s)) in
  let s := s <| lastScale := sc / scale s |> <| scale := sc |> in
  refresh (s <| x := originX s - originX s * lastScale s + x s |>
             <| y := originY s - originY s * lastScale s + y s |>
             <| duration := 200%Z |> <| zoomed := false |>).

(** [_end] without a movement: a tap or a double tap. *)
Definition end_tap (s : iscroll) : outcome iscroll :=
  s ← (if hasTouch cp then
         if doubleTapTimer s && io_zoom (opts s) then
           zoom (pointX s) (pointY s) (if scale s =q 1 then io_doubleTapZoom (opts s) else 1) 200
             (s <| doubleTapTimer := false |>)
         else if io_handleClick (opts s) then Done (s <| doubleTapTimer := true |>) else Done s
       else Done s);
  touch_end (_resetPos 200 s).

Definition _end (e : uievent) (s : iscroll) : outcome iscroll :=
  if hasTouch cp && negb (Nat.eqb (length (ev_touches e)) 0) then Done s
  else
    let s := s <| listening := false |> in
    if zoomed s then end_zoom s
    else if negb (moved s) then end_tap s
    else end_drag e s.

(** The timer of a tap: a click is sent unless the target is a form field. *)
Definition tap_timer (field : bool) (s : iscroll) : iscroll :=
  let s := s <| doubleTapTimer := false |> in
  if field then s else s <| clicks ::= S |>.

(** [_wheel]; the event says how far, in one of three ways. *)
Inductive wheel := WheelXY (dx dy : Q) | WheelDelta (d : Q) | WheelDetail (d : Q) | WheelUnknown.

Definition wheel_delta (e : wheel) : option (Q * Q) :=
  match e with
  | WheelXY dx dy => Some (dx / 12, dy / 12)
  | WheelDelta d => Some (d / 12, d / 12)
  | WheelDetail d => Some (- d * 3, - d * 3)
  | WheelUnknown => None
  end.

Definition _wheel (e : wheel) (page : Q * Q) (s : iscroll) : outcome iscroll :=
  match wheel_delta e with
  | None => Done s
  | Some (dx, dy) =>
      match io_wheelAction (opts s) with
      | WheelZoom =>
          let dir := if dy =q 0 then 0 else dy / Qabs dy in
          let sc := scale s * m_pow 2 ((1 # 3) * dir) in
          let sc := if sc <q io_zoomMin (opts s) then io_zoomMin (opts s) else sc in
          let sc := if io_zoomMax (opts s) <q sc then io_zoomMax (opts s) else sc in
          if sc =q scale s then Done s else zoom (fst page) (snd page) sc 400 s
      | _ =>
          if (maxScrollY s <? 0)%Z
          then scrollTo (clampX s (x s + dx)) (clampY s (y s + dy)) 0 false s
          else Done s
      end
  end.

(** [_mouseout]: [inside] says whether the mouse is still in the wrapper. *)
Definition _mouseout (inside : bool) (e : uievent) (s : iscroll) : outcome iscroll :=
  if inside then Done s else _end e s.

(** ** Public methods *)

Definition scrollToElement (chain : list (Z * Z)) (time : option Z) (s : iscroll) : outcome iscroll :=
  let '(l, t) := _offset chain s in
  let l := clampX s (l + wrapperOffsetLeft s) in
  let t := clampY s (t + wrapperOffsetTop s) in
  let time := match time with
              | Some z => z
              | None => math_round (Qmax (Qabs l * 2) (Qabs t * 2))
              end in
  scrollTo l t time false s.

Inductive pagespec := PNext | PPrev | PNum (n : Z).

Definition page_number (p : pagespec) (cur : Z) : Z :=
  match p with PNext => cur + 1 | PPrev => cur - 1 | PNum n => n end%Z.

Definition clamp_page (n len : Z) : Z :=
  if (n <? 0)%Z then 0%Z else if (len - 1 <? n)%Z then (len - 1)%Z else n.

(** Without snapping a page must be given by its number. *)
Definition scrollToPage (pageX pageY : pagespec) (time : option Z) (s : iscroll) : outcome iscroll :=
  let time := default 400%Z time in
  let s := onScrollStart s in
  match io_snap (opts s) with
  | SnapOff =>
      match pageX, pageY with
      | PNum px, PNum py =>
          let qx := Qmax (inject_Z (- wrapperW s * px)) (inject_Z (maxScrollX s)) in
          let qy := Qmax (inject_Z (- wrapperH s * py)) (inject_Z (maxScrollY s)) in
          scrollTo qx qy time false s
      | _, _ => NotANumber
      end
  | _ =>
      let px := clamp_page (page_number pageX (currPageX s)) (Z.of_nat (length (pagesX s))) in
      let py := clamp_page (page_number pageY (currPageY s)) (Z.of_nat (length (pagesY s))) in
      scrollToN (page_at (pagesX s) px) (page_at (pagesY s) py) time
        (s <| currPageX := px |> <| currPageY := py |>)
  end.

Definition disable (s : iscroll) : outcome iscroll :=
  s ← _resetPos 0 (stop s); Done (s <| enabled := false |> <| listening := false |>).

Definition enable (s : iscroll) : iscroll := s <| enabled := true |>.

Definition isReady (s : iscroll) : bool := negb (moved s) && negb (zoomed s) && negb (animating s).

Definition destroy (s : iscroll) : iscroll :=
  let s := _scrollbar false (_scrollbar true (s <| hScrollbar := false |> <| vScrollbar := false |>)) in
  let s := s <| listening := false |> in
  if io_useTransition (opts s) then s <| trnend := false |> else s.

(** ** Constructor and dispatch *)

Definition blank (o : isopts) (g : geometry) (t : Z) (px py : Q) (w : W) : iscroll :=
  mkIscroll o g t true px py [] 1 0 0 [] [] false false false 0 0 0 0 0 0 0 0 0 1 0 0 0 0 0 0 0
    0 0 0 0 0 0 0 false false false false None None 0 0 0 false false None false 0 w.

Definition new_iScroll (o : isopts) (g : geometry) (t : Z) (px py : Q) (w : W) : outcome iscroll :=
  refresh (blank (normalize cp o) g t px py w).

Inductive event :=
| EvStart (e : uievent) | EvMove (e : uievent) | EvEnd (e : uievent) | EvResize
| EvWheel (e : wheel) (page : Q * Q) | EvMouseout (inside : bool) (e : uievent)
| EvTransitionEnd (on_scroller : bool).

(** [handleEvent]: an event that is not bound does not arrive. *)
Definition handleEvent (e : event) (s : iscroll) : outcome iscroll :=
  match e with
  | EvStart e =>
      if negb (hasTouch cp) && negb (ev_button e =? 0)%Z then Done s else Done (_start e s)
  | EvMove e => if listening s then Done (_move e s) else Done s
  | EvEnd e => if listening s then _end e s else Done s
  | EvResize => _resize s
  | EvWheel e p => _wheel e p s
  | EvMouseout inside e => _mouseout inside e s
  | EvTransitionEnd b => _transitionEnd b s
  end.

End Operations.

(** ** Lemmas: what moving the content changes *)

Section Lemmas.
Context {W : Type} `{IsCallbacks W, Maths}.
Implicit Types s : iscroll W.

(** The state with other scrollbars. *)
Definition with_bars (hb vb : option bar) s : iscroll W := s <| hBar := hb |> <| vBar := vb |>.

Lemma bars_frame h hidden s : exists hb vb, _scrollbarPos h hidden s = with_bars hb vb s.
Proof.
  exists (hBar (_scrollbarPos h hidden s)), (vBar (_scrollbarPos h hidden s)).
  unfold _scrollbarPos. destruct h; case_match; by destruct s.
Qed.

(** The coordinates [_pos] stores. *)
Definition norm (o : isopts) (on : bool) (q : Q) : Q :=
  let q := if on then q else 0 in
  if io_useTransform o then q else inject_Z (math_round q).

Lemma pos_spec px py s :
  zoomed s = false ->
  exists hb vb, _pos px py s
    = with_bars hb vb (s <| x := norm (opts s) (hScroll s) px |>
                         <| y := norm (opts s) (vScroll s) py |>).
Proof.
  intros Hz. unfold _pos, norm. rewrite Hz.
  destruct (io_useTransform (opts s)).
  all: match goal with |- context [_scrollbarPos true false ?t] =>
         destruct (bars_frame true false t) as (hb & vb & ->) end.
  all: match goal with |- context [_scrollbarPos false false ?t] =>
         destruct (bars_frame false false t) as (hb' & vb' & ->) end.
  all: exists hb', vb'; reflexivity.
Qed.

(** *** Returning to the limits *)

Definition AtRest s : Prop := resetX s == x s /\ resetY s == y s.

Lemma at_rest_test s : (resetX s =q x s) && (resetY s =q y s) = true <-> AtRest s.
Proof. unfold AtRest. by rewrite andb_true_iff, !Qeq_bool_iff. Qed.

(** Nothing stops the content from reaching the limits: it is not being
    zoomed, an axis that does not scroll has its limit at 0, and a limit to
    the left is one. *)
Record Calm s : Prop := {
  ca_zoomed : zoomed s = false;
  ca_y : vScroll s = true \/ minScrollY s = 0%Z;
  ca_x : hScroll s = true -> (maxScrollX s <= 0)%Z;
  ca_top : (minScrollY s <= 0)%Z;
  ca_transition : io_useTransition (opts s) = true;
}.

(** One round of [_resetPos(0)]: the content jumps to the corrected position. *)
Definition jump px py s : iscroll W :=
  (_pos px py (_transitionTime 0 ((stop s) <| steps := [] |> <| animating := true |>
                                     <| moved := true |>))) <| animating := false |>.

Lemma start_jump n px py time s :
  io_useTransition (opts s) = true -> animating s = false -> steps s = [mkStep px py time] ->
  time = 0%Z \/ (px == x s /\ py == y s) ->
  exec (S n) TStart s
  = exec n (TReset 0)
      ((_pos px py (_transitionTime 0 (s <| steps := [] |> <| animating := true |>
                                         <| moved := true |>))) <| animating := false |>).
Proof.
  intros Ht Ha Hs Hor. cbn [exec]. rewrite Ha, Hs. cbn [st_x st_y st_time].
  assert ((if (px =q x s) && (py =q y s) then 0%Z else time) = 0%Z) as ->.
  { destruct Hor as [->|[Hx Hy]]; [by case_match|].
    by rewrite (proj2 (Qeq_bool_iff _ _) Hx), (proj2 (Qeq_bool_iff _ _) Hy). }
  change (opts (_ <| moved := true |>)) with (opts s). rewrite Ht. reflexivity.
Qed.

Lemma exec_reset n time s :
  exec (S n) (TReset time) s
  = if (resetX s =q x s) && (resetY s =q y s) then Done (settle s)
    else exec n TStart ((stop s) <| steps := [mkStep (resetX s) (resetY s) time] |>).
Proof. reflexivity. Qed.

Lemma reset_jump n s :
  io_useTransition (opts s) = true -> ~ AtRest s ->
  exec (S (S n)) (TReset 0) s = exec n (TReset 0) (jump (resetX s) (resetY s) s).
Proof.
  intros Ht Hn.
  assert ((resetX s =q x s) && (resetY s =q y s) = false) as E.
  { apply not_true_is_false. by rewrite at_rest_test. }
  rewrite exec_reset, E. unfold jump, stop. rewrite Ht.
  erewrite start_jump; [reflexivity|exact Ht|reflexivity|reflexivity|by left].
Qed.

Lemma jump_spec px py s :
  zoomed s = false ->
  let s' := jump px py s in
  x s' = norm (opts s) (hScroll s) px /\ y s' = norm (opts s) (vScroll s) py
  /\ opts s' = opts s /\ minScrollY s' = minScrollY s /\ maxScrollX s' = maxScrollX s
  /\ maxScrollY s' = maxScrollY s /\ hScroll s' = hScroll s /\ vScroll s' = vScroll s
  /\ zoomed s' = false /\ world s' = world s.
Proof.
  intros Hz. unfold jump, stop.
  match goal with |- context [_pos px py ?t] => destruct (pos_spec px py t) as (hb & vb & ->) end.
  { destruct (io_useTransition _); done. }
  destruct (io_useTransition _); repeat split; done.
Qed.

Lemma Calm_jump px py s : Calm s -> Calm (jump px py s).
Proof.
  intros [Hz Hy Hx Ht Hu].
  destruct (jump_spec px py s Hz) as (_ & _ & E1 & E2 & E3 & E4 & E5 & E6 & E7 & _).
  split; rewrite ?E1, ?E2, ?E3, ?E5, ?E6; done.
Qed.

(** The corrections as functions of the limits. *)
Definition rx (mx : Z) (v : Q) : Q :=
  if 0 <=q v then 0 else if v <q inject_Z mx then inject_Z mx else v.

Definition ry (mn mx : Z) (v : Q) : Q :=
  if (inject_Z mn <=q v) || (0 <? mx)%Z then inject_Z mn
  else if v <q inject_Z mx then inject_Z mx else v.

Lemma resetX_rx s : resetX s = rx (maxScrollX s) (x s).
Proof. reflexivity. Qed.

Lemma resetY_ry s : resetY s = ry (minScrollY s) (maxScrollY s) (y s).
Proof. reflexivity. Qed.

Lemma rx_range mx v : (mx <= 0)%Z -> inject_Z mx <= rx mx v <= inject_Z 0.
Proof.
  intros Hm. rewrite Zle_Qle in Hm. change (inject_Z 0) with 0 in *. unfold rx. qcases.
Qed.

Lemma rx_fix mx v : inject_Z mx <= v <= inject_Z 0 -> rx mx v == v.
Proof. change (inject_Z 0) with 0. intros Hv. unfold rx. qcases. Qed.

Lemma norm_range o (a b : Z) q :
  inject_Z a <= q <= inject_Z b -> inject_Z a <= norm o true q <= inject_Z b.
Proof.
  intros [Ha Hb]. unfold norm. destruct (io_useTransform o); [done|].
  split; rewrite <- Zle_Qle; [by apply math_round_ge_Z|by apply math_round_le_Z].
Qed.

Lemma norm_int o (a : Z) : norm o true (inject_Z a) = inject_Z a.
Proof. unfold norm. rewrite math_round_Z. by destruct (io_useTransform o). Qed.

Lemma norm_off o q : norm o false q = 0.
Proof. unfold norm. by destruct (io_useTransform o). Qed.

Lemma ry_cases mn mx v :
  ry mn mx v = inject_Z mn
  \/ (ry mn mx v = inject_Z mx /\ (mx <= 0)%Z /\ v < inject_Z mn)
  \/ (ry mn mx v = v /\ inject_Z mx <= v <= inject_Z mn /\ (mx <= 0)%Z).
Proof.
  unfold ry. destruct (inject_Z mn <=q v) eqn:E1; cbn [orb]; [by left|].
  destruct (Z.ltb_spec 0 mx); [by left|]. right.
  destruct (v <q inject_Z mx) eqn:E2; qreflect; [left|right]; repeat split; try done; lra.
Qed.

Lemma ry_min mn mx : ry mn mx (inject_Z mn) = inject_Z mn.
Proof. unfold ry. by rewrite (proj2 (Qle_bool_iff _ _)) by lra. Qed.

Lemma ry_between mn mx v :
  inject_Z mx <= v <= inject_Z mn -> (mx <= 0)%Z -> ry mn mx v == v.
Proof.
  intros [H1 H2] Hm. unfold ry. rewrite (proj2 (Z.ltb_ge _ _)) by done. rewrite orb_false_r.
  qcases.
Qed.

Lemma jump_rest_x q s :
  Calm s -> let s' := jump (resetX s) q s in resetX s' == x s'.
Proof.
  intros Hc. destruct (jump_spec (resetX s) q s (ca_zoomed s Hc))
    as (Ex & _ & _ & _ & Em & _ & _ & _ & _ & _). cbn zeta.
  rewrite (resetX_rx (jump _ _ _)), Em, Ex. destruct (hScroll s) eqn:Eh; [|by rewrite norm_off].
  apply rx_fix, norm_range. rewrite resetX_rx. apply rx_range. by apply (ca_x s Hc).
Qed.

(** After one jump the content is at rest, or it is at the far limit with the
    near limit beyond it. *)
Lemma jump_rest_y p s :
  Calm s -> let s' := jump p (resetY s) s in
  resetY s' == y s' \/ (vScroll s = true /\ y s' = inject_Z (maxScrollY s)
                        /\ resetY s' = inject_Z (minScrollY s)).
Proof.
  intros Hc. destruct (jump_spec p (resetY s) s (ca_zoomed s Hc))
    as (_ & Ey & _ & En & _ & Em & _ & _ & _ & _). cbn zeta.
  rewrite (resetY_ry (jump _ _ _)), En, Em, Ey, resetY_ry.
  destruct (vScroll s) eqn:Ev.
  - destruct (ry_cases (minScrollY s) (maxScrollY s) (y s)) as [->|[(-> & Hm & Hv)|(-> & Hv & Hm)]].
    + left. by rewrite norm_int, ry_min.
    + rewrite norm_int.
      destruct (ry_cases (minScrollY s) (maxScrollY s) (inject_Z (maxScrollY s)))
        as [->|[(-> & _)|(-> & _)]]; [by right|by left|by left].
    + left. by apply ry_between; [apply norm_range|].
  - left. rewrite norm_off. destruct (ca_y s Hc) as [?|E0]; [congruence|].
    rewrite E0. by rewrite (ry_min 0 (maxScrollY s) : ry 0 (maxScrollY s) 0 = 0).
Qed.

Definition limits s : Z * Z * Z := (minScrollY s, maxScrollX s, maxScrollY s).

Lemma reset_zero_settles s :
  Calm s -> forall n, (5 <= n)%nat ->
  exists s', AtRest s' /\ exec n (TReset 0) s = Done (settle s') /\ Calm s' /\ limits s' = limits s.
Proof.
  intros Hc n Hn. do 5 (destruct n as [|n]; [lia|]). clear Hn.
  assert (forall k t, AtRest t -> exec (S k) (TReset 0) t = Done (settle t)) as Hdone.
  { intros k t Ht. rewrite exec_reset. by rewrite (proj2 (at_rest_test t) Ht). }
  destruct (decide ((resetX s =q x s) && (resetY s =q y s) = true)) as [E|E].
  { rewrite at_rest_test in E. exists s. eauto. }
  rewrite at_rest_test in E. rewrite reset_jump by (done || apply Hc).
  pose proof (jump_rest_x (resetY s) s Hc) as Hx1.
  pose proof (jump_rest_y (resetX s) s Hc) as Hy1.
  pose proof (Calm_jump (resetX s) (resetY s) s Hc) as Hc1.
  destruct (jump_spec (resetX s) (resetY s) s (ca_zoomed s Hc))
    as (_ & _ & _ & En1 & Ex1 & Em1 & _ & Ev1 & _ & _). cbn zeta in Hx1, Hy1.
  generalize dependent (jump (resetX s) (resetY s) s). intros s1 Hx1 Hy1 Hc1 En1 Ex1 Em1 Ev1.
  assert (limits s1 = limits s) as L1 by (unfold limits; congruence).
  destruct Hy1 as [Hy|(Hv & Hy & Hr)].
  { exists s1. assert (AtRest s1) as Hr by done. eauto. }
  destruct (decide ((resetX s1 =q x s1) && (resetY s1 =q y s1) = true)) as [E1|E1].
  { rewrite at_rest_test in E1. exists s1. eauto. }
  rewrite at_rest_test in E1. rewrite reset_jump by (done || apply Hc1).
  pose proof (jump_rest_x (resetY s1) s1 Hc1) as Hx2.
  pose proof (Calm_jump (resetX s1) (resetY s1) s1 Hc1) as Hc2.
  destruct (jump_spec (resetX s1) (resetY s1) s1 (ca_zoomed s1 Hc1))
    as (_ & Ey & _ & En & Ex & Em & _ & _ & _ & _). cbn zeta in Hx2.
  generalize dependent (jump (resetX s1) (resetY s1) s1). intros s2 Hx2 Hc2 Ey En Ex Em.
  assert (limits s2 = limits s) as L2 by (rewrite <- L1; unfold limits; congruence).
  exists s2. assert (AtRest s2) as Hr2; [|eauto].
  split; [done|]. rewrite resetY_ry, Ey, Ev1, Hv, Hr, norm_int, En, En1. by rewrite ry_min.
Qed.

Lemma Calm_start px py s :
  Calm s ->
  exec 11 TStart ((stop s) <| steps := [mkStep px py 0] |>) = exec 10 (TReset 0) (jump px py s).
Proof.
  intros Hc. pose proof (ca_transition s Hc) as Ht. unfold jump, stop. rewrite Ht.
  erewrite start_jump; [reflexivity|exact Ht|reflexivity|reflexivity|by left].
Qed.

Lemma jump_limits px py s : zoomed s = false -> limits (jump px py s) = limits s.
Proof.
  intros Hz. destruct (jump_spec px py s Hz) as (_ & _ & _ & E1 & E2 & E3 & _).
  unfold limits. by rewrite E1, E2, E3.
Qed.

Lemma rest_limits s :
  AtRest s -> (maxScrollX s <= 0)%Z -> (maxScrollY s <= minScrollY s <= 0)%Z ->
  inject_Z (maxScrollX s) <= x s <= 0 /\ inject_Z (maxScrollY s) <= y s <= inject_Z (minScrollY s).
Proof.
  intros [Hx Hy] Hmx Hmy. rewrite <- Hx, <- Hy, resetX_rx, resetY_ry.
  split; [by apply rx_range|].
  assert (inject_Z (maxScrollY s) <= inject_Z (minScrollY s)) by (rewrite <- Zle_Qle; lia).
  destruct (ry_cases (minScrollY s) (maxScrollY s) (y s)) as [->|[(-> & _)|(-> & ? & _)]];
    [lra|lra|done].
Qed.

(** *** The other axis *)

Lemma stuck_not_rest s :
  (minScrollY s < 0)%Z -> y s == 0 -> ~ AtRest s.
Proof.
  intros Hm Hy [_ Hr]. rewrite resetY_ry in Hr. rewrite Zlt_Qlt in Hm.
  change (inject_Z 0) with 0 in Hm. unfold ry in Hr.
  rewrite (proj2 (Qle_bool_iff _ _)) in Hr by lra. cbn in Hr. lra.
Qed.

(** *** Pages *)

Lemma page_loop_spec n pos limit size k :
  (0 < size)%Z -> (limit <= pos)%Z -> k = Z.to_nat ((pos - limit) / size) -> (k < n)%nat ->
  page_loop n pos limit size = (fun i => (pos - Z.of_nat i * size)%Z) <$> seq 0 (S k).
Proof.
  intros Hs. revert pos k. induction n as [|n IH]; intros pos k Hp -> Hk; [lia|].
  cbn [page_loop]. rewrite (proj2 (Z.leb_le _ _)) by done.
  cbn [seq fmap list_fmap]. f_equal; [lia|].
  destruct (Z.le_gt_cases limit (pos - size)) as [Hle|Hgt].
  - assert ((pos - limit) / size = (pos - size - limit) / size + 1)%Z as E.
    { replace (pos - limit)%Z with (pos - size - limit + 1 * size)%Z by lia.
      by rewrite Z.div_add by lia. }
    assert (0 <= (pos - size - limit) / size)%Z as Hq by (apply Z.div_pos; lia).
    rewrite (IH (pos - size)%Z _ Hle eq_refl) by lia.
    replace (Z.to_nat ((pos - limit) / size)) with (S (Z.to_nat ((pos - size - limit) / size))) by lia.
    rewrite <- (fmap_S_seq 0), <- list_fmap_compose. apply list_fmap_ext. intros i j _. cbn. lia.
  - assert ((pos - limit) / size = 0)%Z as -> by (apply Z.div_small; lia). cbn.
    destruct n; [done|]. cbn. by rewrite (proj2 (Z.leb_gt _ _)).
Qed.

End Lemmas.

(** ** Invariants of the world

    A property of the options and the world that the five callbacks keep is
    kept by every operation of the scroller: nothing else touches them. *)

Section WorldInvariant.
Context {W : Type} `{IsCallbacks W, Maths}.
Variable cp : caps.
Variable P : isopts * W -> Prop.

(** What the property is about. *)
Definition view (s : iscroll W) : isopts * W := (opts s, world s).

Definition keeps (f : iscroll W -> iscroll W) : Prop := forall s, P (view s) -> P (view (f s)).

Definition keeps_out (r : outcome (iscroll W)) : Prop := forall s', r = Done s' -> P (view s').

Hypothesis keeps_onRefresh : keeps onRefresh.
Hypothesis keeps_onScrollStart : keeps onScrollStart.
Hypothesis keeps_onScrollMove : keeps onScrollMove.
Hypothesis keeps_onScrollEnd : keeps onScrollEnd.
Hypothesis keeps_onTouchEnd : keeps onTouchEnd.

Implicit Types s : iscroll W.

Lemma out_done s : P (view s) -> keeps_out (Done s).
Proof. by intros Hs s' [= <-]. Qed.

Lemma out_bind r (f : iscroll W -> outcome (iscroll W)) :
  keeps_out r -> (forall s, P (view s) -> keeps_out (f s)) -> keeps_out (r ≫= f).
Proof. intros Hr Hf. destruct r as [s| |]; [|done..]. apply Hf. by apply Hr. Qed.

Lemma pos_world px py s : view (_pos px py s) = view s.
Proof.
  destruct (zoomed s) eqn:Hz; [unfold _pos; by rewrite Hz|].
  by destruct (pos_spec px py s Hz) as (hb & vb & ->).
Qed.

Lemma stop_world s : view (stop s) = view s.
Proof. unfold stop. by case_match. Qed.

Lemma settle_world s : P (view s) -> P (view (settle s)).
Proof.
  intros Hs. unfold settle, hide_bars. case_match; case_match; try done;
    by apply (keeps_onScrollEnd (s <| moved := false |>)).
Qed.

(** The view of a state that has just been moved by [_pos]. *)
Ltac moved_world :=
  match goal with |- context [_pos ?a ?b ?u] =>
    let t := fresh "t" in let E := fresh "E" in
    pose proof (pos_world a b u) as E; generalize dependent (_pos a b u); intros t E;
    try case_match; change (P (view t)); rewrite E
  end.

Lemma exec_world n : forall t s, P (view s) -> keeps_out (exec n t s).
Proof.
  induction n as [|n IH]; intros t s Hs; [done|]. destruct t as [time| |a]; cbn [exec].
  - case_match; [apply out_done; by apply settle_world|]. apply IH.
    change (P (view (stop s))). by rewrite stop_world.
  - case_match; [by apply out_done|]. destruct (steps s); [by apply IH|].
    case_match; [|by apply IH].
    case_match; [apply out_done|apply IH]; moved_world; exact Hs.
  - case_match.
    + apply IH. moved_world. exact Hs.
    + destruct (ani_pos _ _). apply out_done. moved_world; exact Hs.
Qed.

Lemma run_world t s : P (view s) -> keeps_out (run t s).
Proof. apply exec_world. Qed.

Lemma scrollTo_world px py time rel s : P (view s) -> keeps_out (scrollTo px py time rel s).
Proof.
  intros Hs. apply run_world. change (P (view (stop s))). by rewrite stop_world.
Qed.

Lemma scrollToN_world px py time s : P (view s) -> keeps_out (scrollToN px py time s).
Proof. intros Hs. destruct px, py; try done. by apply scrollTo_world. Qed.

Lemma scrollbar_world h s : view (_scrollbar h s) = view s.
Proof.
  unfold _scrollbar. destruct h; case_match; try done;
    match goal with |- context [_scrollbarPos ?a ?b ?t] =>
      destruct (bars_frame a b t) as (hb & vb & ->) end; done.
Qed.

Lemma sizes_world s : view (refresh_sizes s) = view s.
Proof. unfold refresh_sizes. by case_match. Qed.

Lemma axes_world s : view (refresh_axes s) = view s.
Proof. reflexivity. Qed.

Lemma snap_world s : view (refresh_snap s) = view s.
Proof. unfold refresh_snap. by case_match. Qed.

Lemma layout_world s : view (refresh_layout s) = view (onRefresh (refresh_sizes s)).
Proof. unfold refresh_layout. by rewrite !scrollbar_world, snap_world, axes_world. Qed.

Lemma duration_world d s : view (s <| duration := d |>) = view s.
Proof. reflexivity. Qed.

Lemma refresh_world s : P (view s) -> keeps_out (refresh s).
Proof.
  intros Hs. assert (P (view (refresh_layout s))) as H1.
  { rewrite layout_world. apply keeps_onRefresh. by rewrite sizes_world. }
  unfold refresh. cbv zeta. generalize dependent (refresh_layout s). intros t Ht.
  case_match; [apply run_world; by rewrite duration_world|by apply out_done].
Qed.

(** With CSS transitions a refresh returns: it starts a transition of 200 ms
    at most. *)
Lemma reset_returns n time s :
  io_useTransition (opts s) = true -> time <> 0%Z ->
  exists s', exec (S (S n)) (TReset time) s = Done s'.
Proof.
  intros Ht Hn. rewrite exec_reset.
  destruct ((resetX s =q x s) && (resetY s =q y s)) eqn:E; [by eexists|].
  cbn [exec]. assert (animating (stop s) = false) as Ha by (unfold stop; by case_match).
  assert (opts (stop s) = opts s) as Eo by (unfold stop; by case_match).
  assert (x (stop s) = x s) as Ex by (unfold stop; by case_match).
  assert (y (stop s) = y s) as Ey by (unfold stop; by case_match).
  generalize dependent (stop s). intros t Ha Eo Ex Ey. cbn.
  rewrite Ha, Ex, Ey, E, Eo, Ht. rewrite (proj2 (Z.eqb_neq _ _)) by done. by eexists.
Qed.

Lemma resetPos_returns time s :
  io_useTransition (opts s) = true -> time <> 0%Z -> exists s', _resetPos time s = Done s'.
Proof.
  unfold _resetPos, run, fuel_for. rewrite Nat.add_comm. apply (reset_returns (6 + _)).
Qed.

Lemma view_opts s t : view s = view t -> opts s = opts t.
Proof. by intros [= ?]. Qed.

Lemma refresh_returns s :
  (forall t, opts (onRefresh t) = opts t) -> io_useTransition (opts s) = true ->
  exists s', refresh s = Done s'.
Proof.
  intros Hr Ht. pose proof (view_opts _ _ (layout_world s)) as E.
  rewrite Hr, (view_opts _ _ (sizes_world s)) in E.
  unfold refresh. cbv zeta. generalize dependent (refresh_layout s). intros t E.
  case_match; [|by eexists]. apply resetPos_returns; [|done].
  change (io_useTransition (opts t) = true). by rewrite E.
Qed.

Lemma zoom_world px py sc time s : P (view s) -> keeps_out (zoom px py sc time s).
Proof.
  intros Hs. unfold zoom. case_match; [by apply out_done|].
  apply out_bind; [by apply refresh_world|]. intros s' Hs'. by apply out_done.
Qed.

Lemma touch_end_world r : keeps_out r -> keeps_out (touch_end r).
Proof. intros Hr. apply out_bind; [done|]. intros s Hs. apply out_done. by apply keeps_onTouchEnd. Qed.

Lemma listening_world b s : view (s <| listening := b |>) = view s.
Proof. reflexivity. Qed.

Lemma start_reset_world s : view (start_reset s) = view s.
Proof. unfold start_reset. by case_match. Qed.

Lemma start_pinch_world e s : view (start_pinch cp e s) = view s.
Proof. unfold start_pinch. by repeat case_match. Qed.

Lemma start_catch_world e s : view (start_catch e s) = view s.
Proof.
  unfold start_catch. case_match; [|done]. destruct (ev_computed e). case_match; [|done].
  rewrite pos_world. by case_match.
Qed.

Lemma start_mark_world e s : view (start_mark cp e s) = view s.
Proof. unfold start_mark. by destruct (event_point cp e). Qed.

Lemma start_world e s : P (view s) -> P (view (_start cp e s)).
Proof.
  intros Hs. unfold _start. case_match; [done|]. rewrite listening_world.
  apply keeps_onScrollStart.
  by rewrite start_mark_world, start_catch_world, start_pinch_world, start_reset_world.
Qed.

Lemma drag_track_world px py s : view (drag_track px py s) = view s.
Proof. reflexivity. Qed.

Lemma drag_mark_world e dx dy s : view (drag_mark e dx dy s) = view s.
Proof. unfold drag_mark. by case_match. Qed.

Lemma moved_flag_world b s : view (s <| moved := b |>) = view s.
Proof. reflexivity. Qed.

Lemma move_world e s : P (view s) -> P (view (_move cp e s)).
Proof.
  intros Hs. unfold _move. destruct (pinch cp s e) as [[a b]|]; [done|].
  unfold drag. destruct (event_point cp e) as [px py].
  case_match; [by rewrite drag_track_world|].
  match goal with |- context [let '_ := ?q in _] => destruct q as [[[nx ny] dx] dy] end.
  apply keeps_onScrollMove.
  by rewrite drag_mark_world, pos_world, moved_flag_world, drag_track_world.
Qed.

Lemma snap_fst_world px py s : view (fst (_snap px py s)) = view s.
Proof. unfold _snap. by destruct (snap_axis _ _ _ _ _) as [[]], (snap_axis _ _ _ _ _) as [[]]. Qed.

Lemma end_world e s : P (view s) -> keeps_out (_end cp e s).
Proof.
  intros Hs. unfold _end. case_match; [by apply out_done|].
  case_match; [by apply refresh_world|].
  case_match.
  - unfold end_tap. apply out_bind.
    + repeat case_match; first [by apply zoom_world | by apply out_done].
    + intros s' Hs'. apply touch_end_world. by apply run_world.
  - unfold end_drag. set (t := s <| listening := false |>).
    assert (P (view t)) as Ht by done. clearbody t.
    assert (forall px py, P (view (fst (_snap px py t)))) as Hsn
      by (intros; by rewrite snap_fst_world).
    destruct (end_momentum _ _) as [[[mx my] nx] ny].
    repeat case_match; try done;
      try (apply touch_end_world; first [by apply run_world | by apply scrollToN_world | by apply scrollTo_world]);
      try (apply out_bind; [by apply scrollTo_world|]; intros s' Hs'; apply touch_end_world; by apply scrollToN_world);
      match goal with
      | E : _snap ?a ?b t = (?s', _) |- _ =>
          pose proof (Hsn a b) as Hs'; rewrite E in Hs'; cbn in Hs'
      end;
      first [apply touch_end_world; by apply scrollToN_world | apply out_done; by apply keeps_onTouchEnd].
Qed.

(** Every event keeps the property. *)
Lemma handleEvent_world e s : P (view s) -> keeps_out (handleEvent cp e s).
Proof.
  intros Hs. destruct e as [e|e|e| |e pg|inside e|b]; cbn [handleEvent].
  - case_match; apply out_done; [done|by apply start_world].
  - case_match; apply out_done; [by apply move_world|done].
  - case_match; [by apply end_world|by apply out_done].
  - by apply refresh_world.
  - unfold _wheel. destruct (wheel_delta e) as [[dx dy]|]; [|by apply out_done].
    repeat case_match; try (by apply out_done); first [by apply zoom_world|by apply scrollTo_world].
  - unfold _mouseout. case_match; [by apply out_done|by apply end_world].
  - unfold _transitionEnd. case_match; [by apply out_done|by apply run_world].
Qed.

Lemma frame_world s : P (view s) -> keeps_out (frame s).
Proof. intros Hs. unfold frame. case_match; [by apply run_world|by apply out_done]. Qed.

Lemma new_world o g t px py w : P (normalize cp o, w) -> keeps_out (new_iScroll cp o g t px py w).
Proof. intros Hw. by apply refresh_world. Qed.

End WorldInvariant.

(** What the theorems need of [onScrollEnd]: it leaves the scroller alone. *)
Class IsCallbacksLaws (W : Type) `{IsCallbacks W} :=
  onScrollEnd_world : forall s : iscroll W, exists w, onScrollEnd s = s <| world := w |>.

(** ** Properties *)

Section Properties.
Context {W : Type} `{IsCallbacks W, !IsCallbacksLaws W, Maths}.
Implicit Types s : iscroll W.

Lemma settle_keeps s : AtRest s -> AtRest (settle s) /\ limits (settle s) = limits s.
Proof.
  intros Hr. unfold settle, hide_bars.
  destruct (moved s).
  - destruct (onScrollEnd_world (s <| moved := false |>)) as [w ->].
    destruct (io_hideScrollbar _); done.
  - by destruct (io_hideScrollbar _).
Qed.

(** C27: with CSS transitions, while the content is not being zoomed, when it
    scrolls vertically or has no top offset, and when its limits are in order
    (the left one not above 0, the lower one not above the top one, which is
    not above 0): scrolling at once to any position, however far outside,
    returns, and leaves the content inside its limits.  ([resetPos_diverges]: with
    a top offset and no vertical scrolling it does not return.) *)
Theorem scrollTo_settles px py relative s :
  Calm s -> (maxScrollX s <= 0)%Z -> (maxScrollY s <= minScrollY s)%Z ->
  exists s', scrollTo px py 0 relative s = Done s'
    /\ inject_Z (maxScrollX s) <= x s' <= 0
    /\ inject_Z (maxScrollY s) <= y s' <= inject_Z (minScrollY s).
Proof.
  intros Hc Hx Hy. unfold scrollTo, _startAni, run, fuel_for.
  set (qx := if relative then x (stop s) - px else px).
  set (qy := if relative then y (stop s) - py else py).
  replace (if relative then mkStep _ _ _ else mkStep _ _ _) with (mkStep qx qy 0)
    by (by destruct relative).
  change (3 * length _ + 8)%nat with 11%nat. rewrite Calm_start by done.
  destruct (reset_zero_settles _ (Calm_jump qx qy s Hc) 10) as (s' & Hr & -> & _ & Hl); [lia|].
  destruct (settle_keeps s' Hr) as [Hr' Hl']. exists (settle s'). split; [done|].
  rewrite Hl, jump_limits in Hl' by apply Hc. pose proof (ca_top s Hc).
  injection Hl' as E1 E2 E3. rewrite <- E1, <- E2, <- E3. apply rest_limits; [done|lia|lia].
Qed.

(** Where the content does not scroll vertically but has a top offset, a
    return to the limits without transition time never ends: the position is
    forced to 0 and corrected to the offset again and again. *)
Theorem resetPos_diverges s :
  vScroll s = false -> (minScrollY s < 0)%Z -> zoomed s = false ->
  io_useTransition (opts s) = true -> y s == 0 ->
  forall n, exec n (TReset 0) s = OutOfFuel.
Proof.
  intros Hv Hm Hz Ht Hy n. revert s Hv Hm Hz Ht Hy.
  induction n as [n IH] using lt_wf_ind. intros s Hv Hm Hz Ht Hy.
  pose proof (stuck_not_rest s Hm Hy) as Hn.
  destruct n as [|[|n]]; [done| |].
  - rewrite exec_reset. assert ((resetX s =q x s) && (resetY s =q y s) = false) as ->; [|done].
    apply not_true_is_false. by rewrite at_rest_test.
  - rewrite reset_jump by done.
    destruct (jump_spec (resetX s) (resetY s) s Hz) as (_ & Ey & E1 & E2 & _ & _ & _ & E6 & E7 & _).
    apply IH; [lia|congruence|congruence|done|congruence|]. by rewrite Ey, Hv, norm_off.
Qed.

(** The snap pages of a content larger than the wrapper start at 0, go in
    steps of the wrapper's size and end at the limit; the loop that makes
    them ends. *)
Theorem make_pages_spec limit size n :
  (0 < size)%Z -> (limit <= 0)%Z -> (S (Z.to_nat (- limit)) <= n)%nat ->
  let k := Z.to_nat (- limit / size) in
  page_loop n 0 limit size = (fun i => - (Z.of_nat i * size))%Z <$> seq 0 (S k)
  /\ (exists l, make_pages limit size = l ++ [Some (inject_Z limit)])
  /\ Forall (fun p => exists z, p = Some (inject_Z z) /\ (limit <= z <= 0)%Z) (make_pages limit size).
Proof.
  intros Hs Hl Hn k.
  assert (0 <= - limit / size)%Z as Hq by (apply Z.div_pos; lia).
  assert (- limit / size <= - limit)%Z as Hq2 by (apply Z.div_le_upper_bound; nia).
  assert (forall m, (S (Z.to_nat (- limit)) <= m)%nat ->
    page_loop m 0 limit size = (fun i => - (Z.of_nat i * size))%Z <$> seq 0 (S k)) as Hloop.
  { intros m Hm. rewrite (page_loop_spec m 0 limit size k); [|done|done| |lia].
    - apply list_fmap_ext. intros; lia.
    - reflexivity. }
  assert (- limit = size * Z.of_nat k + (- limit) mod size)%Z as Hdm.
  { subst k. rewrite Z2Nat.id by done. apply Z.div_mod. lia. }
  pose proof (Z.mod_pos_bound (- limit) size Hs) as Hmod.
  assert (Z.rem limit size = - ((- limit) mod size))%Z as Hrem.
  { rewrite <- (Z.opp_involutive limit) at 1.
    rewrite Z.rem_opp_l', Z.rem_mod_nonneg by lia. done. }
  split; [by apply Hloop|]. unfold make_pages. rewrite (Hloop _ (le_n _)).
  assert (Forall (fun p => exists z, p = Some (inject_Z z) /\ (limit <= z <= 0)%Z)
    ((fun z => Some (inject_Z z)) <$> ((fun i => - (Z.of_nat i * size))%Z <$> seq 0 (S k)))) as HF.
  { rewrite <- list_fmap_compose. apply Forall_fmap, Forall_forall. intros i Hi.
    apply elem_of_seq in Hi. cbn. eexists. split; [done|]. nia. }
  assert (last ((fun i => - (Z.of_nat i * size))%Z <$> seq 0 (S k)) = Some (- (Z.of_nat k * size)))%Z as Hlast.
  { rewrite seq_S, fmap_app. apply last_snoc. }
  destruct (Z.eqb_spec (Z.rem limit size) 0) as [E|E]; cbn [negb].
  - split; [|done]. rewrite seq_S, !fmap_app. cbn [fmap list_fmap].
    assert (- (Z.of_nat (0 + k) * size) = limit)%Z as -> by lia. by eexists.
  - rewrite Hlast. assert (limit - - (Z.of_nat k * size) + - (Z.of_nat k * size) = limit)%Z as -> by lia.
    split; [by eexists|]. apply Forall_app. split; [done|]. constructor; [|done].
    exists limit. split; [done|lia].
Qed.


(** A frame of a running animation shows the content between the position
    it started from and its target, on both axes. *)
Theorem ani_pos_between `{!MathsLaws} a t :
  (0 < st_time (an_step a))%Z -> (an_start a <= t < an_start a + st_time (an_step a))%Z ->
  let '(px, py) := ani_pos a t in
  (Qmin (an_x a) (st_x (an_step a)) <= px <= Qmax (an_x a) (st_x (an_step a)))
  /\ (Qmin (an_y a) (st_y (an_step a)) <= py <= Qmax (an_y a) (st_y (an_step a))).
Proof.
  intros Ht Hr. unfold ani_pos. cbn zeta.
  set (T := inject_Z (st_time (an_step a))).
  set (u := inject_Z (t - an_start a) / T - 1).
  assert (0 < T) as HT by (unfold T; change 0 with (inject_Z 0); by rewrite <- Zlt_Qlt).
  assert (0 <= inject_Z (t - an_start a) <= T) as Hd.
  { unfold T. change 0 with (inject_Z 0). split; rewrite <- Zle_Qle; lia. }
  assert (-1 <= u <= 0) as Hu.
  { assert (0 <= inject_Z (t - an_start a) / T) by (apply Qle_shift_div_l; lra).
    assert (inject_Z (t - an_start a) / T <= 1) by (apply Qle_shift_div_r; lra). unfold u. lra. }
  assert (0 <= u * u <= 1) as Huu by nra.
  pose proof (sqrt_unit (1 - u * u) ltac:(lra)) as He. set (e := m_sqrt _) in *.
  assert (forall p q, Qmin p q <= (q - p) * e + p <= Qmax p q) as Hb; [|by split].
  intros p q. destruct (Q.min_spec p q) as [[Hpq ->]|[Hpq ->]];
    destruct (Q.max_spec p q) as [[Hpq' ->]|[Hpq' ->]]; split; nra.
Qed.

(** The momentum after a drag continues in the direction of the drag, and
    never carries the content past the limit by more than a twelfth of the
    bounce size times the speed; without bouncing it stays inside. *)
Theorem momentum_bounded dist time upper lower size d t :
  (0 < time)%Z -> 0 <= upper -> 0 <= lower -> 0 <= size ->
  _momentum dist time upper lower size = Some (d, t) ->
  let over := size * (Qabs dist / inject_Z time) / 12 in
  (0 < dist -> 0 <= d <= upper + over) /\ (dist < 0 -> - (lower + over) <= d <= 0).
Proof.
  intros Ht Hup Hlo Hsz Hm over. unfold _momentum in Hm.
  rewrite (proj2 (Z.eqb_neq _ _)) in Hm by lia.
  set (v := Qabs dist / inject_Z time) in *. set (nd := v * v / (2 * deceleration)) in *.
  assert (0 < inject_Z time) as HT by (change 0 with (inject_Z 0); by rewrite <- Zlt_Qlt).
  assert (0 <= v) as Hv by (apply Qle_shift_div_l; [done|]; pose proof (Qabs_nonneg dist); lra).
  assert (0 <= nd) as Hnd.
  { unfold nd. apply Qle_shift_div_l; [reflexivity|]. nra. }
  assert (0 <= over) as Hover.
  { unfold over. apply Qle_shift_div_l; [reflexivity|]. nra. }
  assert (~ dist == 0 -> size / (6 / (nd / v * deceleration)) == over) as Hout.
  { intros Hne. assert (~ v == 0) as Hvne.
    { unfold v. intros E. apply Hne.
      assert (Qabs dist == 0) as Ea.
      { fold v in E. assert (Qabs dist == v * inject_Z time) as -> by (unfold v; field; lra).
        rewrite E. lra. }
      destruct (Qlt_le_dec dist 0); [rewrite Qabs_neg in Ea by lra|rewrite Qabs_pos in Ea by lra]; lra. }
    unfold over, nd, deceleration. fold v. field. done. }
  destruct (0 <q dist) eqn:E1; qreflect.
  - assert ((dist <q 0) = false) as E2 by (apply Qltb_ge; lra). rewrite E2 in Hm.
    split; [|lra]. intros _. specialize (Hout ltac:(lra)).
    destruct (upper <q nd) eqn:E3; cbn in Hm; injection Hm as <- _; qreflect;
      [rewrite Hout; lra|lra].
  - destruct (dist <q 0) eqn:E2; qreflect; cbn [andb] in Hm; [|split; lra].
    split; [lra|]. intros _. specialize (Hout ltac:(lra)).
    destruct (lower <q nd) eqn:E3; cbn in Hm; injection Hm as <- _; qreflect;
      [rewrite Hout; lra|lra].
Qed.

(** A scrollbar whose indicator fits it. *)
Record BarOk (b : bar) : Prop := {
  bo_ind : (8 <= ba_indicator b)%Z;
  bo_max : (0 <= ba_max b)%Z;
  bo_shown : (8 <= ba_shown b <= ba_indicator b)%Z;
  bo_size : ba_size b = (ba_indicator b + ba_max b)%Z;
}.

(** Wherever the content is, the indicator is drawn inside its scrollbar
    and is at least eight pixels long. *)
Theorem indicator_inside o hidden p b :
  BarOk b ->
  let b' := bar_move o hidden p b in
  BarOk b' /\ 0 <= ba_pos b' /\ ba_pos b' + inject_Z (ba_shown b') <= inject_Z (ba_size b').
Proof.
  intros [Hi Hm Hs Hz]. unfold bar_move. cbn zeta. set (q := ba_prop b * p).
  assert (inject_Z (ba_shown b) <= inject_Z (ba_indicator b)) as Hsi by (rewrite <- Zle_Qle; lia).
  assert (0 <= inject_Z (ba_max b)) as Hmq by (change 0 with (inject_Z 0); rewrite <- Zle_Qle; lia).
  assert (0 <= inject_Z (ba_indicator b)) as Hiq by (change 0 with (inject_Z 0); rewrite <- Zle_Qle; lia).
  destruct (q <q 0) eqn:E1; qreflect.
  - assert (math_round (q * 3) <= 0)%Z as Hr by (apply math_round_le_Z; change (inject_Z 0) with 0; lra).
    destruct (io_fixedScrollbar o); cbn; rewrite ?Hz, ?inject_Z_plus.
    + repeat split; cbn; try lia; lra.
    + set (sh := Z.max 8 _). assert (8 <= sh <= ba_indicator b)%Z as Hsh by lia.
      assert (inject_Z sh <= inject_Z (ba_indicator b)) by (rewrite <- Zle_Qle; lia).
      repeat split; cbn; try lia; lra.
  - destruct (inject_Z (ba_max b) <q q) eqn:E2; qreflect; cbn.
    + destruct (io_fixedScrollbar o); cbn; rewrite ?Hz, ?inject_Z_plus.
      * repeat split; cbn; try lia; lra.
      * assert (0 <= math_round ((q - inject_Z (ba_max b)) * 3))%Z as Hr
          by (apply math_round_nonneg; lra).
        set (sh := Z.max 8 _). assert (8 <= sh <= ba_indicator b)%Z as Hsh by lia.
        assert (inject_Z sh <= inject_Z (ba_indicator b)) by (rewrite <- Zle_Qle; lia).
        unfold Z.sub. rewrite inject_Z_plus, inject_Z_opp.
        repeat split; cbn; try lia; lra.
    + rewrite Hz, inject_Z_plus. repeat split; cbn; try lia; lra.
Qed.

(** Without bouncing, a drag that starts inside the limits asks for a
    position inside the limits on both axes, however far the finger goes. *)
Theorem drag_inside_limits deltaX deltaY s :
  io_bounce (opts s) = false -> (maxScrollX s <= 0)%Z -> (maxScrollY s <= minScrollY s)%Z ->
  (minScrollY s <= 0)%Z ->
  (inject_Z (maxScrollX s) <= drag_x deltaX s <= 0)
  /\ (inject_Z (maxScrollY s) <= drag_y deltaY s <= inject_Z (minScrollY s)).
Proof.
  intros Hb Hx Hy Ht. unfold drag_x, drag_y. rewrite Hb.
  rewrite Zle_Qle in Hx, Hy, Ht. change (inject_Z 0) with 0 in *.
  split.
  - destruct ((0 <q x s + deltaX) || (x s + deltaX <q inject_Z (maxScrollX s))) eqn:E; [|qreflect; lra].
    destruct ((0 <=q x s + deltaX) || (0 <=? maxScrollX s)%Z); lra.
  - destruct ((inject_Z (minScrollY s) <q y s + deltaY)
              || (y s + deltaY <q inject_Z (maxScrollY s))) eqn:E; [|qreflect; lra].
    destruct ((inject_Z (minScrollY s) <=q y s + deltaY) || (0 <=? maxScrollY s)%Z); lra.
Qed.

End Properties.

(** ** Examples *)

Module Sample.

#[local] Instance callbacks : IsCallbacks unit :=
  {| onRefresh := id; onScrollStart := id; onScrollMove := id; onScrollEnd := id; onTouchEnd := id |}.

#[local] Instance laws : IsCallbacksLaws unit.
Proof. intros s. exists (world s). by destruct s. Qed.

#[local] Instance maths : Maths := {| m_sqrt := fun q => q; m_pow := fun _ _ => 1 |}.

#[local] Instance maths_laws : MathsLaws.
Proof. by intros q Hq. Qed.

Definition cp : caps := mkCaps false false true true true.

Definition options : isopts := (default_options cp) <| io_useTransition := true |>.

(** A wrapper of 300 x 400 pixels around a content of [w] x [h]. *)
Definition around (w h : Z) : geometry := mkGeometry (300, 400)%Z (w, h) (296, 396)%Z [(0, 0)%Z] [].

Definition get (r : outcome (iscroll unit)) : iscroll unit :=
  match r with Done s => s | _ => blank options (around 0 0) 0 0 0 tt end.

Definition long : iscroll unit := get (new_iScroll cp options (around 300 1000) 0 0 0 tt).

Lemma long_calm : Calm long.
Proof. split; vm_compute; try done; try (by left); discriminate. Qed.

Lemma scrollTo_settles_witness :
  exists s', scrollTo 0 (-5000) 0 false long = Done s' /\ inject_Z (-600) <= y s'.
Proof.
  destruct (scrollTo_settles 0 (-5000) false long long_calm) as (s' & H1 & _ & H2 & _);
    [vm_compute; discriminate|vm_compute; discriminate|].
  exists s'. split; [exact H1|exact H2].
Defined.

(** A wide and low content below a top offset of 40 pixels. *)
Definition wide : iscroll unit :=
  get (new_iScroll cp (options <| io_topOffset := 40%Z |>) (around 600 100) 0 0 0 tt).

Lemma resetPos_diverges_witness :
  new_iScroll cp (options <| io_topOffset := 40%Z |>) (around 600 100) 0 0 0 tt = Done wide
  /\ forall n, exec n (TReset 0) (stop wide) = OutOfFuel.
Proof.
  split; [vm_compute; reflexivity|]. apply (resetPos_diverges (stop wide)); vm_compute; reflexivity.
Defined.

Lemma make_pages_spec_witness : exists l, make_pages (-600) 400 = l ++ [Some (inject_Z (-600))].
Proof.
  refine (proj1 (proj2 (make_pages_spec (-600) 400 601 _ _ _))); [lia|lia|vm_compute; lia].
Defined.

Lemma ani_pos_between_witness :
  let '(px, py) := ani_pos (mkAni (mkStep 0 (-100) 200) 0 0 1000) 1100 in
  Qmin 0 (-100) <= py <= Qmax 0 (-100).
Proof. exact (proj2 (ani_pos_between (mkAni (mkStep 0 (-100) 200) 0 0 1000) 1100 ltac:(cbn; lia) ltac:(cbn; lia))). Defined.

Definition flick : option (Q * Z) := _momentum 60 100 50 1000 0.

Lemma momentum_bounded_witness : from_option fst 0 flick <= 50 + 0.
Proof.
  destruct flick as [[d t]|] eqn:E; [|vm_compute in E; discriminate].
  destruct (momentum_bounded 60 100 50 1000 0 d t) as [H _];
    [lia|vm_compute; discriminate|vm_compute; discriminate|vm_compute; discriminate|exact E|].
  destruct (H ltac:(vm_compute; reflexivity)) as [_ H'].
  eapply Qle_trans; [exact H'|]. vm_compute. discriminate.
Defined.

Definition bar0 : bar := bar_new 396 1000 (-600) None.

Lemma indicator_inside_witness : 0 <= ba_pos (bar_move options false (-700) bar0).
Proof.
  refine (proj1 (proj2 (indicator_inside options false (-700) bar0 _))).
  split; vm_compute; try done; split; discriminate.
Defined.

Definition rigid : iscroll unit := long <| opts := options <| io_bounce := false |> |>.

Lemma drag_inside_limits_witness : drag_y 500 rigid <= 0.
Proof.
  destruct (drag_inside_limits 0 500 rigid) as [_ [_ H]];
    [reflexivity|vm_compute; discriminate|vm_compute; discriminate|vm_compute; discriminate|].
  exact H.
Defined.

(** One finger goes down at (10, 100), moves to (10, [py]) and is lifted
    after [t] milliseconds. *)
Definition gesture (py : Q) (t : Z) (s : iscroll unit) : outcome (iscroll unit) :=
  let down := mkUievent [(10, 100)] (10, 100) 0 0 (x s, y s) in
  let move := mkUievent [(10, py)] (10, py) t 0 (0, 0) in
  let up := mkUievent [] (10, py) t 0 (0, 0) in
  s ← handleEvent cp (EvStart down) s;
  s ← handleEvent cp (EvMove move) s;
  handleEvent cp (EvEnd up) s.

Definition snapping_opts : isopts := options <| io_snap := SnapPages |> <| io_snapThreshold := 200 |>.

(** Dragging a content shorter than the wrapper, with snapping on, ends at
    a position that is not a number. *)
Theorem snap_short_content_nan :
  gesture 500 1000 (get (new_iScroll cp snapping_opts (around 300 100) 0 0 0 tt)) = NotANumber.
Proof. vm_compute. reflexivity. Qed.

(** A flick that stays below the snap threshold does not return to the
    page it started from: the position the momentum leads to is scrolled to
    all the same, although it is not a page. *)
Theorem snap_threshold_ignored :
  let s := get (new_iScroll cp snapping_opts (around 300 1200) 0 0 (-400) tt) in
  y s == -400 /\ pagesY s = [Some 0; Some (inject_Z (-400)); Some (inject_Z (-800))]
  /\ exists s', gesture 90 100 s = Done s' /\ y s' == -418.
Proof.
  vm_compute. split; [reflexivity|]. split; [reflexivity|]. eexists. split; reflexivity.
Qed.

End Sample.
