(* ===== verification/Touch.v ===== *)
(** * Gestures (touch.js)

    The module turns touch events into tap, double tap, long tap and swipe
    events.  Its timers are the difficulty: a variable remembers the last
    timer of each kind, while the timers themselves stay with the browser
    until they fire or are cleared.  The state therefore has both, the four
    variables and the list of pending timers. *)

From stdpp Require Import base list strings relations.
From Stdlib Require Import QArith Qabs Lqa.
From S2P Require Import Prelude JsString.

#[local] Open Scope Q_scope.

(** ** Data *)

(** The object [touch]. *)
Record touch := mkTouch {
  t_el : option nat;
  t_x1 : option Q;
  t_y1 : option Q;
  t_x2 : option Q;
  t_y2 : option Q;
  t_last : option Z;
  t_double : bool;
}.

#[export] Instance touch_eta : Eta touch :=
  fun r => mkTouch (t_el r) (t_x1 r) (t_y1 r) (t_x2 r) (t_y2 r) (t_last r) (t_double r).

Definition no_touch : touch := mkTouch None None None None None None false.

(** The four kinds of timers. *)
Inductive kind := KLong | KSwipe | KTap | KSingle.

#[export] Instance kind_eq_dec : EqDecision kind.
Proof. solve_decision. Defined.

Record gestures := mkGestures {
  tch : touch;
  touchTimeout : option nat;
  tapTimeout : option nat;
  swipeTimeout : option nat;
  longTapTimeout : option nat;
  deltaX : option Q;             (** [NaN] is [None] *)
  deltaY : option Q;
  pending : list (nat * kind);   (** the timers that have not fired *)
  next_id : nat;
  log : list (nat * jstr);       (** the events triggered, with their element *)
}.

#[export] Instance gestures_eta : Eta gestures :=
  fun r => mkGestures (tch r) (touchTimeout r) (tapTimeout r) (swipeTimeout r)
    (longTapTimeout r) (deltaX r) (deltaY r) (pending r) (next_id r) (log r).

Definition idle : gestures := mkGestures no_touch None None None None (Some 0) (Some 0) [] 0 [].

(** A touch or pointer event.  [te_primary] is [isPrimaryTouch(e)]. *)
Record tevent := mkTevent {
  te_pointer : bool;
  te_primary : bool;
  te_touches : nat;         (** length of [e.touches] *)
  te_el : nat;
  te_x : Q;
  te_y : Q;
  te_now : Z;
}.

(** ** Operations *)

Inductive direction := DLeft | DRight | DUp | DDown.

(** Numbers that may be [NaN]: a missing coordinate makes the difference and
    every comparison with it fail. *)
Definition nan_sub (a b : option Q) : option Q := p ← a; q ← b; Some (p - q).
Definition nan_add (a b : option Q) : option Q := p ← a; q ← b; Some (p + q).
Definition nan_abs (a : option Q) : option Q := Qabs <$> a.
Definition nan_lt (a b : option Q) : bool :=
  match a, b with Some p, Some q => p <q q | _, _ => false end.
Definition nan_le (a b : option Q) : bool :=
  match a, b with Some p, Some q => p <=q q | _, _ => false end.

Definition swipeDirection (x1 x2 y1 y2 : option Q) : direction :=
  if nan_le (nan_abs (nan_sub y1 y2)) (nan_abs (nan_sub x1 x2))
  then if nan_lt (Some 0) (nan_sub x1 x2) then DLeft else DRight
  else if nan_lt (Some 0) (nan_sub y1 y2) then DUp else DDown.

Definition direction_name (d : direction) : jstr :=
  match d with
  | DLeft => js "Left" | DRight => js "Right" | DUp => js "Up" | DDown => js "Down"
  end.

Definition set_timer (k : kind) (s : gestures) : nat * gestures :=
  (next_id s, s <| pending ::= fun l => l ++ [(next_id s, k)] |> <| next_id ::= S |>).

(** [id && clearTimeout(id)]. *)
Definition clear_timer (id : option nat) (s : gestures) : gestures :=
  match id with
  | Some i => s <| pending ::= base.filter (fun p => fst p <> i) |>
  | None => s
  end.

(** [touch.el.trigger(name)]; an undefined element throws. *)
Definition trigger (name : jstr) (s : gestures) : option gestures :=
  match t_el (tch s) with
  | Some e => Some (s <| log ::= fun l => l ++ [(e, name)] |>)
  | None => None
  end.

Definition trigger_if (name : jstr) (s : gestures) : gestures := default s (trigger name s).

Definition truthy (q : option Q) : bool := match q with Some q => negb (q =q 0) | None => false end.

Definition truthy_time (t : option Z) : bool := match t with Some z => negb (z =? 0)%Z | None => false end.

Definition longTap (s : gestures) : gestures * result unit :=
  let s := s <| longTapTimeout := None |> in
  if truthy_time (t_last (tch s)) then
    match trigger (js "longTap") s with
    | Some s => (s <| tch := no_touch |>, Ret tt)
    | None => (s, Throw)
    end
  else (s, Ret tt).

Definition cancelLongTap (s : gestures) : gestures :=
  (clear_timer (longTapTimeout s) s) <| longTapTimeout := None |>.

Definition cancelAll (s : gestures) : gestures :=
  let s := clear_timer (touchTimeout s) s in
  let s := clear_timer (tapTimeout s) s in
  let s := clear_timer (swipeTimeout s) s in
  let s := clear_timer (longTapTimeout s) s in
  s <| touchTimeout := None |> <| tapTimeout := None |> <| swipeTimeout := None |>
    <| longTapTimeout := None |> <| tch := no_touch |>.

(** The events a pointer other than the primary touch causes are ignored. *)
Definition ignored (e : tevent) : bool := te_pointer e && negb (te_primary e).

Definition on_start (e : tevent) (s : gestures) : gestures :=
  if ignored e then s
  else
    let s := if negb (te_pointer e) && Nat.eqb (te_touches e) 1 && truthy (t_x2 (tch s))
             then s <| tch ::= fun t => t <| t_x2 := None |> <| t_y2 := None |> |> else s in
    let now := te_now e in
    let last := if truthy_time (t_last (tch s)) then default now (t_last (tch s)) else now in
    let delta := (now - last)%Z in
    let s := s <| tch ::= fun t => t <| t_el := Some (te_el e) |> |> in
    let s := clear_timer (touchTimeout s) s in
    let s := s <| tch ::= fun t => t <| t_x1 := Some (te_x e) |> <| t_y1 := Some (te_y e) |> |> in
    let s := if (0 <? delta)%Z && (delta <=? 250)%Z
             then s <| tch ::= fun t => t <| t_double := true |> |> else s in
    let s := s <| tch ::= fun t => t <| t_last := Some now |> |> in
    let '(id, s) := set_timer KLong s in
    s <| longTapTimeout := Some id |>.

Definition on_move (e : tevent) (s : gestures) : gestures :=
  if ignored e then s
  else
    let s := cancelLongTap s in
    let s := s <| tch ::= fun t => t <| t_x2 := Some (te_x e) |> <| t_y2 := Some (te_y e) |> |> in
    s <| deltaX ::= fun d => nan_add d (nan_abs (nan_sub (t_x1 (tch s)) (t_x2 (tch s)))) |>
      <| deltaY ::= fun d => nan_add d (nan_abs (nan_sub (t_y1 (tch s)) (t_y2 (tch s)))) |>.

Definition is_swipe (t : touch) : bool :=
  (truthy (t_x2 t) && nan_lt (Some 30) (nan_abs (nan_sub (t_x1 t) (t_x2 t))))
  || (truthy (t_y2 t) && nan_lt (Some 30) (nan_abs (nan_sub (t_y1 t) (t_y2 t)))).

Definition on_end (e : tevent) (s : gestures) : gestures :=
  if ignored e then s
  else
    let s := cancelLongTap s in
    let s :=
      if is_swipe (tch s) then
        let '(id, s) := set_timer KSwipe s in s <| swipeTimeout := Some id |>
      else match t_last (tch s) with
      | Some _ =>
          if nan_lt (deltaX s) (Some 30) && nan_lt (deltaY s) (Some 30)
          then let '(id, s) := set_timer KTap s in s <| tapTimeout := Some id |>
          else s <| tch := no_touch |>
      | None => s
      end in
    s <| deltaX := Some 0 |> <| deltaY := Some 0 |>.

(** The functions of the timers; [cancels] says whether a handler of the tap
    event calls [cancelTouch]. *)
Definition swipe_timer (s : gestures) : gestures * result unit :=
  match trigger (js "swipe") s with
  | None => (s, Throw)
  | Some s =>
      let t := tch s in
      let d := swipeDirection (t_x1 t) (t_x2 t) (t_y1 t) (t_y2 t) in
      ((trigger_if (js "swipe" ++ direction_name d) s) <| tch := no_touch |>, Ret tt)
  end.

Definition tap_timer (cancels : bool) (s : gestures) : gestures * result unit :=
  match trigger (js "tap") s with
  | None => (s, Throw)
  | Some s =>
      let s := if cancels then cancelAll s else s in
      if t_double (tch s) then
        ((trigger_if (js "doubleTap") s) <| tch := no_touch |>, Ret tt)
      else
        let '(id, s) := set_timer KSingle s in
        (s <| touchTimeout := Some id |>, Ret tt)
  end.

Definition single_timer (s : gestures) : gestures :=
  (trigger_if (js "singleTap") (s <| touchTimeout := None |>)) <| tch := no_touch |>.

(** The pending timer [i] of kind [k] fires. *)
Definition fire (i : nat) (k : kind) (cancels : bool) (s : gestures) : gestures * result unit :=
  let s := clear_timer (Some i) s in
  match k with
  | KLong => longTap s
  | KSwipe => swipe_timer s
  | KTap => tap_timer cancels s
  | KSingle => (single_timer s, Ret tt)
  end.

(** [MSGestureEnd]: a swipe by its velocity. *)
Definition velocity_direction (vx vy : Q) : option direction :=
  if 1 <q vx then Some DRight else if vx <q -1 then Some DLeft
  else if 1 <q vy then Some DDown else if vy <q -1 then Some DUp else None.

Definition gesture_end (vx vy : Q) (s : gestures) : gestures * result unit :=
  match velocity_direction vx vy with
  | None => (s, Ret tt)
  | Some d =>
      match trigger (js "swipe") s with
      | None => (s, Throw)
      | Some s => (trigger_if (js "swipe" ++ direction_name d) s, Ret tt)
      end
  end.

(** ** One finger at a time

    The first component says whether the finger is on the screen.  It causes
    events of one family, touch or pointer, and a timer without delay fires
    before the next touch ([both_families] and [early_touch] show what happens
    otherwise).  A cancelled touch lifts the finger; scrolling leaves it where
    it is. *)

Definition settled (s : gestures) : Prop :=
  Forall (fun p => snd p <> KTap /\ snd p <> KSwipe) (pending s).

Inductive touch_step : bool * gestures -> bool * gestures -> Prop :=
| TsStart e s :
    ignored e = false -> settled s -> touch_step (false, s) (true, on_start e s)
| TsMove e s : ignored e = false -> touch_step (true, s) (true, on_move e s)
| TsEnd e s : ignored e = false -> touch_step (true, s) (false, on_end e s)
| TsFire b i k c s :
    (i, k) ∈ pending s -> touch_step (b, s) (b, fst (fire i k c s))
| TsCancel b s : touch_step (b, s) (false, cancelAll s)
| TsScroll b s : touch_step (b, s) (b, cancelAll s)
| TsGesture b vx vy s : touch_step (b, s) (b, fst (gesture_end vx vy s)).

(** The variable of each kind of timer. *)
Definition timer_var (k : kind) (s : gestures) : option nat :=
  match k with
  | KLong => longTapTimeout s
  | KSwipe => swipeTimeout s
  | KTap => tapTimeout s
  | KSingle => touchTimeout s
  end.

(** At most one timer is pending, the one its variable names; it is the timer
    of a long tap exactly while the finger is down. *)
Definition Tidy (d : bool) (s : gestures) : Prop :=
  pending s = [] \/ exists i k, pending s = [(i, k)] /\ timer_var k s = Some i
                                /\ (if d then k = KLong else k <> KLong).

(** ** Lemmas *)

Definition clears (o : option nat) (l : list (nat * kind)) : list (nat * kind) :=
  match o with Some i => base.filter (fun p => fst p <> i) l | None => l end.

Lemma clear_pending o s : pending (clear_timer o s) = clears o (pending s).
Proof. by destruct o. Qed.

Lemma clear_frame o s :
  tch (clear_timer o s) = tch s /\ touchTimeout (clear_timer o s) = touchTimeout s
  /\ tapTimeout (clear_timer o s) = tapTimeout s /\ swipeTimeout (clear_timer o s) = swipeTimeout s
  /\ longTapTimeout (clear_timer o s) = longTapTimeout s /\ log (clear_timer o s) = log s.
Proof. by destruct o. Qed.

Lemma clears_nil o : clears o [] = [].
Proof. by destruct o. Qed.

Lemma clears_same i k : clears (Some i) [(i, k)] = [].
Proof. cbn. by rewrite decide_False by naive_solver. Qed.

Lemma clears_one o i k : clears o [(i, k)] = [] \/ clears o [(i, k)] = [(i, k)].
Proof. destruct o as [j|]; [|by right]. cbn. case_decide; auto. Qed.

(** The pending timers of [cancelAll]. *)
Lemma cancelAll_pending s :
  pending (cancelAll s)
  = clears (longTapTimeout s) (clears (swipeTimeout s)
      (clears (tapTimeout s) (clears (touchTimeout s) (pending s)))).
Proof.
  unfold cancelAll. cbn.
  repeat match goal with
  | |- context [clear_timer ?o ?t] =>
      lazymatch t with context [clear_timer _ _] => fail | _ => idtac end;
      destruct (clear_frame o t) as (? & ? & ? & ? & ? & ?);
      pose proof (clear_pending o t); generalize dependent (clear_timer o t); intros
  end.
  congruence.
Qed.

Lemma Tidy_cancelAll d s : Tidy d s -> pending (cancelAll s) = [].
Proof.
  intros Ht. rewrite cancelAll_pending. destruct Ht as [->|(i & k & -> & Hv & _)].
  - by rewrite !clears_nil.
  - destruct (clears_one (touchTimeout s) i k) as [E1|E1]; rewrite E1; rewrite ?clears_nil; [done|].
    destruct (clears_one (tapTimeout s) i k) as [E2|E2]; rewrite E2; rewrite ?clears_nil; [done|].
    destruct (clears_one (swipeTimeout s) i k) as [E3|E3]; rewrite E3; rewrite ?clears_nil; [done|].
    destruct k; cbn in Hv; rewrite Hv in *; rewrite clears_same in *; done.
Qed.

(** Clearing the long-tap timer while the finger is down. *)
Lemma cancelLong_down s : Tidy true s -> pending (cancelLongTap s) = [].
Proof.
  intros Ht. unfold cancelLongTap. cbn. rewrite clear_pending.
  destruct Ht as [->|(i & k & -> & Hv & ->)]; [apply clears_nil|].
  cbn in Hv. rewrite Hv. apply clears_same.
Qed.

Lemma trigger_pending name s s' : trigger name s = Some s' -> pending s' = pending s.
Proof. unfold trigger. destruct (t_el (tch s)); [|done]. by intros [= <-]. Qed.

Lemma trigger_if_pending name s : pending (trigger_if name s) = pending s.
Proof. unfold trigger_if, trigger. by destruct (t_el (tch s)). Qed.

(** Firing the only timer leaves none, or the timer of a single tap. *)
Lemma fire_pending i k c s :
  clears (Some i) (pending s) = [] ->
  let s' := fst (fire i k c s) in
  pending s' = [] \/ (k = KTap /\ exists j, pending s' = [(j, KSingle)] /\ touchTimeout s' = Some j).
Proof.
  intros Hp. cbn zeta. unfold fire.
  assert (pending (clear_timer (Some i) s) = []) as E by (by rewrite clear_pending).
  generalize dependent (clear_timer (Some i) s). clear Hp. intros t E.
  destruct k.
  - left. unfold longTap. case_match; [|done].
    destruct (trigger _ _) eqn:Et; [|done]. cbn. apply trigger_pending in Et. by rewrite Et.
  - left. unfold swipe_timer. destruct (trigger _ _) eqn:Et; [|done]. cbn.
    rewrite trigger_if_pending. apply trigger_pending in Et. congruence.
  - unfold tap_timer. destruct (trigger _ _) as [t1|] eqn:Et; [|by left].
    apply trigger_pending in Et. rewrite E in Et.
    assert (pending (if c then cancelAll t1 else t1) = []) as E2.
    { destruct c; [|done]. apply (Tidy_cancelAll true). by left. }
    generalize dependent (if c then cancelAll t1 else t1). clear t1 Et. intros t2 E2.
    destruct (t_double (tch t2)); [left; cbn; by rewrite trigger_if_pending|].
    right. split; [done|]. eexists. cbn. by rewrite E2.
  - left. unfold single_timer. cbn. by rewrite trigger_if_pending.
Qed.

Lemma Tidy_start e s :
  ignored e = false -> settled s -> Tidy false s -> Tidy true (on_start e s).
Proof.
  intros Hi Hs Ht. unfold on_start. rewrite Hi.
  set (s1 := if _ && truthy _ then _ else _).
  assert (pending s1 = pending s /\ touchTimeout s1 = touchTimeout s) as [E1 E2]
    by (unfold s1; by case_match).
  set (s2 := s1 <| tch ::= _ |>).
  assert (pending (clear_timer (touchTimeout s2) s2) = []) as Ec.
  { rewrite clear_pending. change (touchTimeout s2) with (touchTimeout s1).
    change (pending s2) with (pending s1). rewrite E1, E2.
    unfold settled in Hs. destruct Ht as [->|(i & k & Ep & Hv & Hk)]; [apply clears_nil|].
    rewrite Ep in *. apply Forall_cons in Hs as [[H1 H2] _]. destruct k; try done.
    cbn in Hv. rewrite Hv. apply clears_same. }
  generalize dependent (clear_timer (touchTimeout s2) s2). intros s3 E3.
  right. exists (next_id s3), KLong.
  destruct ((0 <? _)%Z && _); cbn; by rewrite E3.
Qed.

Lemma Tidy_end e s : ignored e = false -> Tidy true s -> Tidy false (on_end e s).
Proof.
  intros Hi Ht. unfold on_end. rewrite Hi. pose proof (cancelLong_down s Ht) as Ep.
  generalize dependent (cancelLongTap s). intros t Ep.
  destruct (is_swipe (tch t)).
  - right. exists (next_id t), KSwipe. cbn. by rewrite Ep.
  - destruct (t_last (tch t)); [|by left]. destruct (_ && _); [|by left].
    right. exists (next_id t), KTap. cbn. by rewrite Ep.
Qed.

Lemma Tidy_gesture d vx vy s : Tidy d s -> Tidy d (fst (gesture_end vx vy s)).
Proof.
  intros Ht. unfold gesture_end, trigger_if, trigger. destruct (velocity_direction vx vy); [|done].
  destruct (t_el (tch s)) eqn:E; [|done]. cbn. by rewrite E.
Qed.

Lemma Tidy_step d s d' s' : touch_step (d, s) (d', s') -> Tidy d s -> Tidy d' s'.
Proof.
  inversion 1; subst; intros Ht.
  - by apply Tidy_start.
  - left. unfold on_move. destruct (ignored e); [done|]. cbn. by apply cancelLong_down.
  - by apply Tidy_end.
  - match goal with X : (_, _) ∈ pending s |- _ => rename X into Hin end.
    destruct Ht as [Ep|(j & l & Ep & Hv & Hk)]; rewrite Ep in Hin; [by apply elem_of_nil in Hin|].
    apply list_elem_of_singleton in Hin. simplify_eq.
    destruct (fire_pending j l c s) as [?|(-> & n & E1 & E2)]; [rewrite Ep; apply clears_same|by left|].
    right. exists n, KSingle. destruct d'; [done|]. done.
  - left. by eapply Tidy_cancelAll.
  - left. by eapply Tidy_cancelAll.
  - by apply Tidy_gesture.
Qed.

(** ** Properties *)

(** C40: with one finger at a time, on a browser that sends events of one family
    (touch events, or pointer events of the primary touch) and fires the timers
    without delay before the next touch: at most one timer is ever pending, and
    cancelling a gesture (when the page scrolls) leaves no timer behind that
    could still trigger an event.  ([second_finger_spurious_longTap],
    [both_families] and [early_touch] show that each condition is needed.) *)
Theorem one_timer_pending d s :
  rtc touch_step (false, idle) (d, s) ->
  (length (pending s) <= 1)%nat /\ pending (cancelAll s) = [] /\ log (cancelAll s) = log s.
Proof.
  intros Hs. assert (Tidy d s) as Ht.
  { remember (false, idle) as a eqn:Ea. remember (d, s) as b eqn:Eb.
    assert (Tidy (fst a) (snd a)) as H0 by (subst; by left).
    assert (Tidy (fst b) (snd b)) as H1; [|by subst].
    clear Ea Eb. induction Hs as [|[d1 s1] [d2 s2] b Hst _ IH]; [done|].
    apply IH. by eapply Tidy_step. }
  split_and!.
  - destruct Ht as [->|(i & k & -> & _)]; cbn; lia.
  - by eapply Tidy_cancelAll.
  - unfold cancelAll. cbn. by rewrite !(proj2 (proj2 (proj2 (proj2 (proj2 (clear_frame _ _)))))).
Qed.

(** A swipe is named after the axis of its larger component and the sign
    of that component; on a tie it is horizontal. *)
Theorem swipeDirection_spec x1 x2 y1 y2 :
  let d := swipeDirection (Some x1) (Some x2) (Some y1) (Some y2) in
  ((d = DLeft \/ d = DRight) <-> Qabs (y1 - y2) <= Qabs (x1 - x2))
  /\ (d = DLeft -> x2 < x1) /\ (d = DRight -> x1 <= x2)
  /\ (d = DUp -> y2 < y1) /\ (d = DDown -> y1 < y2).
Proof.
  unfold swipeDirection. cbn.
  destruct (Qabs (y1 - y2) <=q Qabs (x1 - x2)) eqn:E.
  - destruct (0 <q x1 - x2) eqn:E1; qreflect; split_and!; try done; try lra; intuition.
  - destruct (0 <q y1 - y2) eqn:E1; qreflect; split_and!; try done; try lra;
      try (intros _; lra).
    + split; [intros [?|?]; done|lra].
    + split; [intros [?|?]; done|lra].
    + intros _. assert (~ y1 - y2 == 0) as Hne; [|lra].
      intros H0. rewrite H0 in E. change (Qabs 0) with 0 in E.
      pose proof (Qabs_nonneg (x1 - x2)). lra.
Qed.

(** A finger goes down and up at one place. *)
Definition tap_gesture (e e' : tevent) (s : gestures) : gestures := on_end e' (on_start e s).

Definition touched (e : tevent) : touch :=
  mkTouch (Some (te_el e)) (Some (te_x e)) (Some (te_y e)) None None (Some (te_now e)) false.

Lemma start_idle e :
  ignored e = false ->
  on_start e idle
  = mkGestures (touched e) None None None (Some 0%nat) (Some 0) (Some 0) [(0%nat, KLong)] 1 [].
Proof.
  intros Hi. unfold on_start. rewrite Hi.
  replace (negb (te_pointer e) && _ && truthy (t_x2 (tch idle))) with false
    by (by rewrite andb_false_r).
  cbn [tch idle t_last no_touch truthy_time]. rewrite Z.sub_diag. reflexivity.
Qed.

Lemma end_touched e t i :
  ignored e = false -> t_x2 t = None -> t_y2 t = None -> is_Some (t_last t) ->
  on_end e (mkGestures t None None None (Some 0%nat) (Some 0) (Some 0) [(0%nat, KLong)] i [])
  = mkGestures t None (Some i) None None (Some 0) (Some 0) [(i, KTap)] (S i) [].
Proof.
  intros Hi H2 H3 [z Hl]. unfold on_end. rewrite Hi.
  change (cancelLongTap _) with (mkGestures t None None None None (Some 0) (Some 0) [] i []).
  cbn [tch]. unfold is_swipe. rewrite H2, H3, Hl. reflexivity.
Qed.

(** A touch that does not move, on an idle page, triggers tap and then,
    when the second timer fires, singleTap, both on the touched element, and
    leaves no timer and no touch data. *)
Theorem tap_triggers e e' :
  ignored e = false -> ignored e' = false ->
  let s1 := tap_gesture e e' idle in
  exists i, pending s1 = [(i, KTap)] /\
  let s2 := fst (fire i KTap false s1) in
  exists j, pending s2 = [(j, KSingle)] /\
  let s3 := fst (fire j KSingle false s2) in
  log s3 = [(te_el e, js "tap"); (te_el e, js "singleTap")] /\ pending s3 = [] /\ tch s3 = no_touch.
Proof.
  intros H1 H2. unfold tap_gesture. rewrite start_idle by done.
  rewrite end_touched by (done || by eexists).
  exists 1%nat. split; [done|]. cbn zeta.
  set (s2 := fst (fire 1 KTap false _)).
  assert (s2 = mkGestures (touched e) (Some 2%nat) (Some 1%nat) None None (Some 0) (Some 0)
                 [(2%nat, KSingle)] 3 [(te_el e, js "tap")]) as -> by reflexivity.
  exists 2%nat. repeat split.
Qed.

(** ** Examples *)

Module Sample.

Definition at_ (n : nat) (px py : Q) (t : Z) : tevent := mkTevent false false n 7 px py t.

Definition down : gestures := on_start (at_ 1 10 20 1000) idle.

Lemma one_timer_pending_witness : pending (cancelAll down) = [].
Proof.
  refine (proj1 (proj2 (one_timer_pending true down _))).
  apply rtc_once. apply TsStart; [reflexivity|constructor].
Defined.

Lemma tap_triggers_witness :
  exists i, pending (tap_gesture (at_ 1 10 20 1000) (at_ 0 10 20 1050) idle) = [(i, KTap)].
Proof.
  destruct (tap_triggers (at_ 1 10 20 1000) (at_ 0 10 20 1050) eq_refl eq_refl) as (i & H & _).
  exists i. exact H.
Defined.

(** A second finger comes down at 1600 ms and both are lifted. *)
Definition two : gestures := on_end (at_ 0 10 20 1620) (on_start (at_ 2 30 20 1600) down).
Definition tapped : gestures := fst (fire 2 KTap false two).
Definition late : gestures := fst (fire 0 KLong false tapped).

(** With a second finger the first long-tap timer is lost from its
    variable: after both fingers have gone up and tap has been triggered, it
    still fires and triggers longTap. *)
Theorem second_finger_spurious_longTap :
  pending two = [(0%nat, KLong); (2%nat, KTap)]
  /\ log late = [(7%nat, js "tap"); (7%nat, js "longTap")].
Proof. vm_compute. done. Qed.

(** A browser that sends both the pointer and the touch events of a finger
    sets two long-tap timers: one is left when the finger is up. *)
Theorem both_families :
  let pointer t := mkTevent true true 0 7 10 20 t in
  let s := on_start (at_ 1 10 20 1001) (on_start (pointer 1000%Z) idle) in
  let s' := on_end (at_ 0 10 20 1051) (on_end (pointer 1050%Z) s) in
  pending s = [(0%nat, KLong); (1%nat, KLong)] /\ (0%nat, KLong) ∈ pending s'
  /\ pending (cancelAll s) = [(0%nat, KLong)].
Proof.
  vm_compute. split; [done|]. split; [left|done].
Qed.

(** A touch before the tap timer of the last one has fired: two timers. *)
Theorem early_touch :
  pending (on_start (at_ 1 10 20 1050) (on_end (at_ 0 10 20 1050) down)) = [(1%nat, KTap); (2%nat, KLong)].
Proof. vm_compute. done. Qed.

(** A swipe of 300 pixels straight along the edge y = 0 that ends at x = 0
    is not recognised: the coordinates 0 count as missing, and since the
    finger has moved it is not a tap either. *)
Theorem swipe_to_corner_lost :
  let s := on_end (at_ 0 0 0 1100) (on_move (at_ 1 0 0 1090) (on_start (at_ 1 300 0 1000) idle)) in
  pending s = [] /\ log s = [] /\ tch s = no_touch.
Proof. vm_compute. done. Qed.

End Sample.
