(* ===== verification/GameBar.v ===== *)
(** * The file list (game_bar.js)

    The page shows the files of the user in a list inside an iScroll object:
    a menu selects what is listed, pulling the list up loads more.  The
    record [bar_page] holds the script's global variables and the parts of
    the page it changes; it is the world of the scroller, whose callbacks the
    script supplies.  Requests that have not been answered and timers that
    have not fired are lists, so answers can arrive in any order. *)

From stdpp Require Import base list strings relations.
From Stdlib Require Import QArith.
From S2P Require Import Prelude JsString Login IScroll.

#[local] Open Scope Z_scope.

(** ** Data *)

(** The class of the two pull elements. *)
Inductive pull := PullIdle | PullFlip | PullLoading.

#[export] Instance pull_eq_dec : EqDecision pull.
Proof. solve_decision. Defined.

(** A file as the server describes it. *)
Record game := mkGame {
  g_id : Z;
  g_title_m : jstr;
  g_url : jstr;
  g_picurl : jstr;
  g_pv : Z;
  g_descrip : jstr;
  g_hot : Z;
  g_title_s : jstr;
}.

(** The colours of a link: text, background, border. *)
Definition style : Type := option jstr * option jstr * option jstr.

(** An element of the list, as [addOneGameBar] builds it. *)
Record item := mkItem {
  it_game : game;
  it_logo : Z;              (** the number of its image *)
  it_shared : bool;         (** the mark of a shared file *)
  it_pv : jstr;
  it_desc : jstr;
  it_download : style;
  it_share : style;
}.

#[export] Instance item_eta : Eta item :=
  fun r => mkItem (it_game r) (it_logo r) (it_shared r) (it_pv r) (it_desc r) (it_download r)
    (it_share r).

(** The requests the script makes. *)
Inductive request :=
| RLoad (cmd : jstr) (fromId count : Z) (user : jstr)
| RLoadKind (cmd : jstr) (fromId count : Z) (type : jstr)
| RIncrease (id : Z)
| RShared (id : Z) (user : jstr)
| RSelectCnt.

Inductive timer := TPullDown | TPullUp.

(** The sources of the menu icons. *)
Record icons := mkIcons { ic_new : jstr; ic_hot : jstr; ic_kind : jstr; ic_group : jstr }.

#[export] Instance icons_eta : Eta icons :=
  fun r => mkIcons (ic_new r) (ic_hot r) (ic_kind r) (ic_group r).

Record bar_page := mkBarPage {
  CLICKEVENT : jstr;
  ISMOBILE : Z;
  username : jstr;
  password : jstr;
  jar : list cookie;     (* the cookies the page sees *)
  alreadyLoadGameCnt : Z;
  game_logo_id : Z;
  menu_game_new_selected : bool;
  menu_game_hot_selected : bool;
  menu_kind_selected : bool;
  menu_group_selected : bool;
  menu_kind_selected_type : jstr;
  second_menu : bool;             (** the second menu is shown *)
  icon : icons;
  kind_counts : list Z;           (** [gameCntAll] and [gameCnt_1] to [gameCnt_6] *)
  kind_labels : list jstr;        (** what the second menu shows *)
  layerIsShow : bool;
  out_layer : bool;
  point : bool;
  pullDownEl : pull;
  pullUpEl : pull;
  pullUpLabel : jstr;
  pullDownOffset : Z;
  pullUpOffset : Z;
  thelist : list item;            (** the children after the first *)
  requests : list request;
  timers : list timer;
  location : list jstr;
  alerts : list jstr;
  styles : list (jstr * jstr * jstr);  (** selector, property or method, value *)
}.

#[export] Instance bar_page_eta : Eta bar_page :=
  fun r => mkBarPage (CLICKEVENT r) (ISMOBILE r) (username r) (password r) (jar r)
    (alreadyLoadGameCnt r) (game_logo_id r) (menu_game_new_selected r)
    (menu_game_hot_selected r) (menu_kind_selected r) (menu_group_selected r)
    (menu_kind_selected_type r) (second_menu r) (icon r) (kind_counts r) (kind_labels r)
    (layerIsShow r) (out_layer r) (point r) (pullDownEl r) (pullUpEl r) (pullUpLabel r)
    (pullDownOffset r) (pullUpOffset r) (thelist r) (requests r) (timers r) (location r)
    (alerts r) (styles r).

Definition perLoadCnt : Z := 8.

(** The page as the HTML and the declarations leave it. *)
Definition page0 (cookies : list cookie) : bar_page :=
  mkBarPage (js "tap") 1 [] [] cookies 0 0 false false false false (js "0") false
    (mkIcons (js "static/img/icon_1@2x.png") (js "static/img/icon_2@2x.png")
       (js "static/img/icon_3@2x.png") (js "static/img/icon_4@2x.png"))
    (replicate 7 0) [] false false false PullIdle PullIdle (js "轻轻上拉 更多文件...") 0 0 [] [] []
    [] [] [].

(** ** Operations on the page *)

Definition hideMenu (p : bar_page) : bar_page :=
  p <| second_menu := false |> <| menu_kind_selected := false |>.

Definition loadGamesBar (fromId cnt : Z) (kind : jstr) (p : bar_page) : bar_page :=
  p <| requests ::= fun l => l ++ [RLoad kind fromId cnt (getCookieValue (js "username") (jar p))] |>.

Definition loadGamesBarBykind (fromId cnt : Z) (kind type : jstr) (p : bar_page) : bar_page :=
  p <| requests ::= fun l => l ++ [RLoadKind kind fromId cnt type] |>.

Definition addOneGameBar (g : game) (p : bar_page) : bar_page :=
  let pressed : style := (Some (js "#ffffff"), Some (js "#eeb4b4"), Some (js "#eeb4b4")) in
  let share : style :=
    if g_hot g =? 1 then pressed else (None, Some (js "#ff6a6a"), Some (js "#ff6a6a")) in
  let it := mkItem g (game_logo_id p) (g_hot g =? 1) (js "下载次数: " ++ show_Z (g_pv g))
              (g_descrip g ++ js " [" ++ g_title_s g ++ js "]") (None, None, None) share in
  p <| thelist ::= fun l => l ++ [it] |> <| game_logo_id ::= Z.add 1 |>.

(** The loop over the answer of the server. *)
Definition addGames (games : list game) (p : bar_page) : bar_page :=
  foldl (fun p g => (addOneGameBar g p) <| alreadyLoadGameCnt ::= Z.add 1 |>) p games.

Definition clickGame (id : Z) (url : jstr) (p : bar_page) : bar_page :=
  p <| requests ::= fun l => l ++ [RIncrease id] |> <| location ::= fun l => l ++ [url] |>.

Definition shareFile (id : Z) (user : jstr) (p : bar_page) : bar_page :=
  p <| requests ::= fun l => l ++ [RShared id user] |> <| location ::= fun l => l ++ [js "/"] |>.

(** A click on the links of the [n]-th element of the list. *)
Definition click_download (n : nat) (p : bar_page) : bar_page :=
  match thelist p !! n with
  | None => p
  | Some it =>
      (clickGame (g_id (it_game it)) (g_url (it_game it)) p)
        <| thelist ::= <[n := it <| it_download := (Some (js "#ffffff"), Some (js "#0c4bba"), Some (js "#0c4bba")) |>]> |>
  end.

Definition click_share (n : nat) (p : bar_page) : bar_page :=
  match thelist p !! n with
  | None => p
  | Some it =>
      if g_hot (it_game it) =? 1 then p
      else
        (shareFile (g_id (it_game it)) (getCookieValue (js "username") (jar p)) p)
          <| thelist ::= <[n := it <| it_share := (Some (js "#ffffff"), Some (js "#eeb4b4"), Some (js "#eeb4b4")) |>]> |>
  end.

(** A long tap on a link only colours it. *)
Definition longTap_download (n : nat) (p : bar_page) : bar_page :=
  match thelist p !! n with
  | None => p
  | Some it =>
      p <| thelist ::= <[n := it <| it_download := (Some (js "#ffffff"), Some (js "#0c4bba"), Some (js "#0c4bba")) |>]> |>
  end.

Definition longTap_share (n : nat) (p : bar_page) : bar_page :=
  match thelist p !! n with
  | None => p
  | Some it =>
      if g_hot (it_game it) =? 1 then p
      else p <| thelist ::= <[n := it <| it_share := (Some (js "#ffffff"), Some (js "#eeb4b4"), Some (js "#eeb4b4")) |>]> |>
  end.

Definition pullDownAction (p : bar_page) : bar_page := p <| timers ::= fun l => l ++ [TPullDown] |>.
Definition pullUpAction (p : bar_page) : bar_page := p <| timers ::= fun l => l ++ [TPullUp] |>.

(** The function of the timer of [pullUpAction]. *)
Definition pullUp_fires (p : bar_page) : bar_page :=
  if menu_game_new_selected p then
    loadGamesBar (alreadyLoadGameCnt p) perLoadCnt (js "newFile") p
  else if menu_game_hot_selected p then
    loadGamesBar (alreadyLoadGameCnt p) perLoadCnt (js "hotGame") p
  else if menu_kind_selected p || negb (bool_decide (menu_kind_selected_type p = js "0")) then
    loadGamesBarBykind (alreadyLoadGameCnt p) perLoadCnt (js "kind") (menu_kind_selected_type p) p
  else p.

Definition showOutLayer (p : bar_page) : bar_page :=
  if negb (layerIsShow p)
  then p <| out_layer := true |> <| point := true |> <| layerIsShow := true |>
  else p <| out_layer := false |> <| point := false |> <| layerIsShow := false |>.

Definition selecteGameCnt (p : bar_page) : bar_page :=
  p <| requests ::= fun l => l ++ [RSelectCnt] |>.

(** ** The callbacks of the scroller *)

Abbreviation scroller := (iscroll bar_page).

Definition on_page (f : bar_page -> bar_page) (s : scroller) : scroller := s <| world ::= f |>.

Definition label_more : jstr := js "轻轻上拉 更多文件...".

Definition bar_onRefresh (s : scroller) : scroller :=
  on_page (fun p =>
    if decide (pullDownEl p = PullLoading) then p <| pullDownEl := PullIdle |>
    else if decide (pullUpEl p = PullLoading)
    then p <| pullUpEl := PullIdle |> <| pullUpLabel := label_more |>
    else p) s.

Definition bar_onScrollMove (s0 : scroller) : scroller :=
  let s := on_page hideMenu s0 in
  let p := world s in
  let down := bool_decide (pullDownEl p = PullFlip) in
  let up := bool_decide (pullUpEl p = PullFlip) in
  if (5 <q y s) && negb down then
    (on_page (fun p => p <| pullDownEl := PullFlip |>) s) <| minScrollY := 0 |>
  else if (y s <q 5) && down then
    (on_page (fun p => p <| pullDownEl := PullIdle |>) s) <| minScrollY := - pullDownOffset p |>
  else if (y s <q inject_Z (maxScrollY s - 5)) && negb up then
    on_page (fun p => p <| pullUpEl := PullFlip |> <| pullUpLabel := js "刷新中..." |>) s
  else if (inject_Z (maxScrollY s + 5) <q y s) && up then
    (on_page (fun p => p <| pullUpEl := PullIdle |> <| pullUpLabel := label_more |>) s)
      <| maxScrollY := pullUpOffset p |>
  else s.

Definition bar_onScrollEnd (s : scroller) : scroller :=
  on_page (fun p =>
    if decide (pullDownEl p = PullFlip) then pullDownAction (p <| pullDownEl := PullLoading |>)
    else if decide (pullUpEl p = PullFlip)
    then pullUpAction (p <| pullUpEl := PullLoading |> <| pullUpLabel := js "更新中..." |>)
    else p) s.

#[export] Instance bar_callbacks : IsCallbacks bar_page :=
  {| onRefresh := bar_onRefresh; onScrollStart := id; onScrollMove := bar_onScrollMove;
     onScrollEnd := bar_onScrollEnd; onTouchEnd := id |}.

#[export] Instance bar_callbacks_laws : IsCallbacksLaws bar_page.
Proof. intros s. by eexists. Qed.

(** ** Operations that refresh the scroller *)

Section Operations.
Context `{Maths}.

Definition reloadGames (kind : jstr) (s : scroller) : outcome scroller :=
  refresh (on_page (fun p =>
    loadGamesBar 0 perLoadCnt kind
      ((hideMenu p) <| thelist := [] |> <| alreadyLoadGameCnt := 0 |>)) s).

Definition reloadGamesKind (kind type : jstr) (s : scroller) : outcome scroller :=
  refresh (on_page (fun p =>
    loadGamesBarBykind 0 perLoadCnt kind type
      ((hideMenu p) <| thelist := [] |> <| alreadyLoadGameCnt := 0 |>)) s).

(** The arguments [selected_action] is called with. *)
Inductive menu := MNewFile | MShareFile | MHotGame | MGroup | MKind | MKindN (kind : jstr).

Definition icon_off (n : string) : jstr := js "static/img/icon_" ++ js n ++ js "@2x.png".

Definition set_flags (new hot kind : bool) (p : bar_page) : bar_page :=
  p <| menu_game_new_selected := new |> <| menu_game_hot_selected := hot |>
    <| menu_kind_selected := kind |>.

Definition selected_action (m : menu) (s : scroller) : outcome scroller :=
  let p := world s in
  match m with
  | MNewFile =>
      if negb (menu_game_new_selected p) then
        reloadGames (js "newFile") (on_page (fun p => (set_flags true false false p)
          <| icon ::= fun i => i <| ic_hot := icon_off "2" |> <| ic_kind := icon_off "3" |>
                                 <| ic_new := icon_off "11" |> |>) s)
      else Done (on_page hideMenu s)
  | MShareFile =>
      if negb (menu_kind_selected p) then
        reloadGames (js "shareFile") (on_page (fun p => (set_flags false false true p)
          <| icon ::= fun i => i <| ic_new := icon_off "1" |> <| ic_hot := icon_off "2" |>
                                 <| ic_kind := icon_off "31" |> |>) s)
      else Done (on_page (fun p => hideMenu (p <| menu_kind_selected := false |>)) s)
  | MHotGame =>
      if negb (menu_game_hot_selected p) then
        Done (on_page (fun p => (set_flags false true false p)
          <| icon ::= fun i => i <| ic_new := icon_off "1" |> <| ic_kind := icon_off "3" |>
                                 <| ic_hot := icon_off "21" |> |>
          <| location ::= fun l => l ++ [js "/upload.html"] |>) s)
      else Done s
  | MGroup =>
      if negb (menu_group_selected p) then
        Done (on_page (fun p => (set_flags false false false (p <| menu_group_selected := true |>))
          <| icon ::= fun _ => mkIcons (icon_off "1") (icon_off "2") (icon_off "3") (icon_off "41") |>
          <| location ::= fun l => l ++ [js "/login.html"] |>) s)
      else Done s
  | MKind =>
      if negb (menu_kind_selected p) then
        Done (on_page (fun p => (set_flags false false true p)
          <| icon ::= fun i => i <| ic_new := icon_off "1" |> <| ic_hot := icon_off "2" |>
                                 <| ic_kind := icon_off "31" |> |>
          <| second_menu := true |>
          <| kind_labels := (fun n => js "(" ++ show_Z n ++ js ")") <$> kind_counts p |>) s)
      else Done (on_page (fun p => hideMenu (p <| menu_kind_selected := false |>)) s)
  | MKindN kind =>
      let type := default (js "undefined") (split_char 95 kind !! 1%nat) in
      reloadGamesKind (js "kind") type (on_page (fun p => p <| menu_kind_selected_type := type |>) s)
  end.

(** The answer to a request arrives. *)
Definition answer (n : nat) (games : list game) (s : scroller) : outcome scroller :=
  match requests (world s) !! n with
  | Some (RLoad _ _ _ _) | Some (RLoadKind _ _ _ _) =>
      refresh (on_page (fun p => addGames games (p <| requests ::= delete n |>)) s)
  | Some _ => Done (on_page (fun p => p <| requests ::= delete n |>) s)
  | None => Done s
  end.

(** The answer to [selecteGameCnt]. *)
Definition answer_counts (n : nat) (counts : list Z) (s : scroller) : scroller :=
  match requests (world s) !! n with
  | Some RSelectCnt => on_page (fun p => p <| requests ::= delete n |> <| kind_counts := counts |>) s
  | _ => s
  end.

(** A request that fails only writes to the console. *)
Definition answer_error (n : nat) (s : scroller) : scroller :=
  on_page (fun p => p <| requests ::= delete n |>) s.

Definition timer_fires (n : nat) (s : scroller) : outcome scroller :=
  match timers (world s) !! n with
  | Some TPullDown => refresh (on_page (fun p => p <| timers ::= delete n |>) s)
  | Some TPullUp => Done (on_page (fun p => pullUp_fires (p <| timers ::= delete n |>)) s)
  | None => Done s
  end.

(** [loaded]: the scroller is made and the new files are listed. *)
Definition loaded (c : caps) (g : geometry) (t : Z) (downH upH : Z) (p : bar_page) : outcome scroller :=
  let p := p <| pullDownOffset := downH |> <| pullUpOffset := upH |> in
  s ← new_iScroll c ((default_options c) <| io_useTransition := true |> <| io_topOffset := downH |>)
        g t 0 0 p;
  selected_action MNewFile s.

End Operations.

(** ** The start of the page *)

(** What [bindEvent] binds to the clicks. *)
Inductive click := CMenu (m : menu) | CLocation (url : jstr) | CLayer.

Definition bindEvent : list (jstr * click) :=
  [(js "#menu_game_new", CMenu MNewFile); (js "#menu_game_hot", CMenu MHotGame);
   (js "#menu_group", CMenu MGroup); (js "#menu_kind", CMenu MShareFile);
   (js "#menu_kind_0", CMenu MNewFile); (js "#menu_kind_1", CMenu (MKindN (js "kind_1")));
   (js "#menu_kind_2", CMenu (MKindN (js "kind_2"))); (js "#menu_kind_3", CMenu (MKindN (js "kind_3")));
   (js "#menu_kind_4", CMenu (MKindN (js "kind_4"))); (js "#menu_kind_5", CMenu (MKindN (js "kind_5")));
   (js "#menu_kind_6", CMenu (MKindN (js "kind_6")));
   (js "#attention", CLocation (js "http://mp.weixin.qq.com/s?__biz=MzA5MjA2NTY5MA==&mid=203311487&idx=1&sn=3fd67d411e686f7dc4cf1db9e6af2949#rd"));
   (js "#out_layer", CLayer); (js "#attention_please", CLayer)].

Definition run_click `{Maths} (c : click) (s : scroller) : outcome scroller :=
  match c with
  | CMenu m => selected_action m s
  | CLocation url => Done (on_page (fun p => p <| location ::= fun l => l ++ [url] |>) s)
  | CLayer => Done (on_page showOutLayer s)
  end.

Definition bar_checkPC (userAgent : jstr) (p : bar_page) : bar_page :=
  if checkPC userAgent =? 1
  then p <| ISMOBILE := 1 |> <| CLICKEVENT := js "tap" |>
  else p <| ISMOBILE := 0 |> <| CLICKEVENT := js "click" |>.

Definition bar_onload (userAgent : jstr) (p : bar_page) : bar_page :=
  let p := bar_checkPC userAgent p in
  let p := p <| username := getCookieValue (js "username") (jar p) |>
             <| password := getCookieValue (js "passwd") (jar p) |> in
  let p := if decide (username p = [])
           then p <| alerts ::= fun l => l ++ [js "请先登录"] |>
                  <| location ::= fun l => l ++ [js "/login.html"] |>
           else p in
  if ISMOBILE p =? 0 then
    p <| styles ::= fun l => l
      ++ ((fun '(s, k) => (js s, js k, js "33%")) <$>
           [("#wrapper", "width"); ("#wrapper", "margin-left"); ("#header", "width");
            ("#header", "margin-left"); ("#footer", "width"); ("#footer", "margin-left")]%string)
      ++ [(js "#attention", js "hide()", []); (js "#attention_please", js "hide()", []);
          (js "#weixin_qrcode", js "show()", []); (js "#qrcode_desc", js "show()", [])] |>
  else p.

(** ** The page as a state machine *)

Section Steps.
Context `{Maths}.
Variable cp : caps.

(** What can happen to the page: the user clicks, an answer or a failure
    arrives, a timer fires, the scroller handles an event or a frame, the
    layout or the clock changes. *)
Inductive bar_step : scroller -> scroller -> Prop :=
| bs_click sel c s s' : (sel, c) ∈ bindEvent -> run_click c s = Done s' -> bar_step s s'
| bs_download n s : bar_step s (on_page (click_download n) s)
| bs_share n s : bar_step s (on_page (click_share n) s)
| bs_long_download n s : bar_step s (on_page (longTap_download n) s)
| bs_long_share n s : bar_step s (on_page (longTap_share n) s)
| bs_select s : bar_step s (on_page selecteGameCnt s)
| bs_answer n games s s' : answer n games s = Done s' -> bar_step s s'
| bs_counts n counts s : bar_step s (answer_counts n counts s)
| bs_error n s : bar_step s (answer_error n s)
| bs_timer n s s' : timer_fires n s = Done s' -> bar_step s s'
| bs_scroll e s s' : handleEvent cp e s = Done s' -> bar_step s s'
| bs_frame s s' : frame s = Done s' -> bar_step s s'
| bs_layout g s : bar_step s (s <| geo := g |>)
| bs_clock t s : bar_step s (s <| now := t |>).

End Steps.

(** One pull at the bottom of the list: the timer of [pullUpAction] fires and
    the server answers what was asked. *)
Definition reply `{Maths} (serve : request -> list game) (s : scroller) : outcome scroller :=
  match requests (world s) with
  | r :: _ => answer 0 (serve r) s
  | [] => Done s
  end.

Definition pull_round `{Maths} (serve : request -> list game) (s : scroller) : outcome scroller :=
  s ← timer_fires (length (timers (world s))) (on_page pullUpAction s);
  reply serve s.

Fixpoint pull_rounds `{Maths} (serve : request -> list game) (k : nat) (s : scroller) : outcome scroller :=
  match k with
  | O => Done s
  | S k => s ← pull_round serve s; pull_rounds serve k s
  end.

(** ** Lemmas *)

(** A property of the page that does not depend on the pull elements and the
    timers: what the callbacks of the scroller change. *)
Class PullFree (R : bar_page -> Prop) : Prop := {
  pf_down : forall p d, R p -> R (p <| pullDownEl := d |>);
  pf_up : forall p u, R p -> R (p <| pullUpEl := u |>);
  pf_label : forall p l, R p -> R (p <| pullUpLabel := l |>);
  pf_timers : forall p f, R p -> R (p <| timers ::= f |>);
  pf_menu : forall p, R p -> R (hideMenu p);
}.

(** The property of the scroller it gives. *)
Definition lifted (R : bar_page -> Prop) (v : isopts * bar_page) : Prop :=
  io_useTransition (fst v) = true /\ R (snd v).

Section Kept.
Context `{Maths} (cp : caps) (R : bar_page -> Prop) `{!PullFree R}.

Ltac pull_only :=
  let p := fresh "p" in
  intros p ?; unfold pullDownAction, pullUpAction; repeat case_decide;
  repeat first [assumption | apply pf_down | apply pf_up | apply pf_label | apply pf_timers].

Lemma on_page_keeps f : (forall p, R p -> R (f p)) -> keeps (lifted R) (on_page f).
Proof. intros Hf s [Ho Hr]. split; [exact Ho|]. by apply Hf. Qed.

Lemma bar_onRefresh_keeps : keeps (lifted R) bar_onRefresh.
Proof. apply on_page_keeps. pull_only. Qed.

Lemma bar_onScrollEnd_keeps : keeps (lifted R) bar_onScrollEnd.
Proof. apply on_page_keeps. pull_only. Qed.

Lemma bar_onScrollMove_keeps : keeps (lifted R) bar_onScrollMove.
Proof.
  intros s Hs. pose proof (on_page_keeps hideMenu pf_menu s Hs) as Hm. unfold bar_onScrollMove.
  cbv zeta. generalize dependent (on_page hideMenu s). intros t Ht.
  repeat case_match; try exact Ht;
    match goal with |- context [on_page ?f t] => refine (on_page_keeps f _ t Ht) end; pull_only.
Qed.

Lemma id_keeps : keeps (lifted R) id.
Proof. by intros s. Qed.

(** A refresh of the list returns and keeps the property. *)
Lemma bar_refresh s :
  lifted R (view s) -> exists s', refresh s = Done s' /\ lifted R (view s').
Proof.
  intros Hs. destruct (refresh_returns s) as [s' E]; [done|apply Hs|].
  exists s'. split; [exact E|].
  exact (refresh_world _ bar_onRefresh_keeps bar_onScrollEnd_keeps s Hs s' E).
Qed.

Lemma bar_handle e s s' : lifted R (view s) -> handleEvent cp e s = Done s' -> lifted R (view s').
Proof.
  intros Hs. by apply (handleEvent_world (H := bar_callbacks) cp (lifted R) bar_onRefresh_keeps id_keeps
    bar_onScrollMove_keeps bar_onScrollEnd_keeps id_keeps).
Qed.

Lemma bar_frame s s' : lifted R (view s) -> frame s = Done s' -> lifted R (view s').
Proof. intros Hs. by apply (frame_world (H := bar_callbacks) (lifted R) bar_onScrollEnd_keeps). Qed.

End Kept.

(** What holds of the page between two events: the counter is the length of
    the list, every element has an image number of its own, the flags of the
    entries for new and for popular files are not both set, that of the entry
    for shared files is not set, the icon of the group entry shows the flag of
    the entry, the second menu stays hidden, and the two halves of the layer are
    shown together. *)
Record BarInv (p : bar_page) : Prop := mkBarInv {
  bi_count : alreadyLoadGameCnt p = Z.of_nat (length (thelist p));
  bi_logos : Forall (fun it => it_logo it < game_logo_id p) (thelist p);
  bi_unique : NoDup (it_logo <$> thelist p);
  bi_flags : menu_game_new_selected p && menu_game_hot_selected p = false;
  bi_menu : second_menu p = false;
  bi_kind : menu_kind_selected p = false;
  bi_group : ic_group (icon p) = icon_off (if menu_group_selected p then "41" else "4");
  bi_layer : out_layer p = layerIsShow p;
  bi_point : point p = layerIsShow p;
}.

Create HintDb bar.

Ltac bar_same := intros []; split; assumption.

#[export] Instance BarInv_free : PullFree BarInv.
Proof. split; intros p; [intros ?..|]; try bar_same. intros []; by split. Qed.

Lemma BarInv_requests p f : BarInv p -> BarInv (p <| requests ::= f |>).
Proof. bar_same. Qed.

Lemma BarInv_location p f : BarInv p -> BarInv (p <| location ::= f |>).
Proof. bar_same. Qed.

Lemma BarInv_icon p f :
  (forall i, ic_group (f i) = ic_group i) -> BarInv p -> BarInv (p <| icon ::= f |>).
Proof. intros Hf []. split; try assumption. cbn. by rewrite Hf. Qed.

Lemma BarInv_group p a b c :
  BarInv p -> BarInv ((set_flags false false false (p <| menu_group_selected := true |>))
                        <| icon ::= fun _ => mkIcons a b c (icon_off "41") |>).
Proof. intros []. by split. Qed.

Lemma BarInv_type p t : BarInv p -> BarInv (p <| menu_kind_selected_type := t |>).
Proof. bar_same. Qed.

Lemma BarInv_counts p l : BarInv p -> BarInv (p <| kind_counts := l |>).
Proof. bar_same. Qed.

Lemma BarInv_flags p new hot :
  new && hot = false -> BarInv p -> BarInv (set_flags new hot false p).
Proof. intros ? []; by split. Qed.

Lemma BarInv_layer p : BarInv p -> BarInv (showOutLayer p).
Proof. intros []. unfold showOutLayer. destruct (layerIsShow p); by split. Qed.

#[export] Hint Resolve BarInv_requests BarInv_location BarInv_icon BarInv_group BarInv_type
  BarInv_counts BarInv_flags BarInv_layer : bar.
#[export] Hint Extern 1 (forall i, ic_group _ = ic_group i) => reflexivity : bar.
#[export] Hint Extern 1 (BarInv (hideMenu _)) => apply pf_menu : bar.
#[export] Hint Extern 1 (BarInv (upd timers _ _)) => apply pf_timers : bar.

(** An element whose image number is kept may be replaced. *)
Lemma BarInv_restyle p n it it' :
  thelist p !! n = Some it -> it_logo it' = it_logo it ->
  BarInv p -> BarInv (p <| thelist ::= <[n := it']> |>).
Proof.
  intros Hn Hl [Hc Hf Hu]. split; try assumption.
  - change (alreadyLoadGameCnt p = Z.of_nat (length (<[n:=it']> (thelist p)))).
    by rewrite length_insert.
  - apply Forall_insert; [exact Hf|]. rewrite Hl. exact (Forall_lookup_1 _ _ _ _ Hf Hn).
  - change (NoDup (it_logo <$> <[n:=it']> (thelist p))).
    rewrite list_fmap_insert, list_insert_id; [exact Hu|]. by rewrite list_lookup_fmap, Hn, Hl.
Qed.

Lemma BarInv_download n p : BarInv p -> BarInv (click_download n p).
Proof.
  intros Hp. unfold click_download. destruct (thelist p !! n) eqn:E; [|done].
  eapply BarInv_restyle; [exact E|reflexivity|]. unfold clickGame. auto with bar.
Qed.

Lemma BarInv_share n p : BarInv p -> BarInv (click_share n p).
Proof.
  intros Hp. unfold click_share. destruct (thelist p !! n) eqn:E; [|done]. case_match; [done|].
  eapply BarInv_restyle; [exact E|reflexivity|]. unfold shareFile. auto with bar.
Qed.

Lemma BarInv_long_download n p : BarInv p -> BarInv (longTap_download n p).
Proof.
  intros Hp. unfold longTap_download. destruct (thelist p !! n) eqn:E; [|done].
  by eapply BarInv_restyle; [exact E|reflexivity|].
Qed.

Lemma BarInv_long_share n p : BarInv p -> BarInv (longTap_share n p).
Proof.
  intros Hp. unfold longTap_share. destruct (thelist p !! n) eqn:E; [|done]. case_match; [done|].
  by eapply BarInv_restyle; [exact E|reflexivity|].
Qed.

(** One more element. *)
Lemma BarInv_add g p :
  BarInv p -> BarInv ((addOneGameBar g p) <| alreadyLoadGameCnt ::= Z.add 1 |>).
Proof.
  intros [Hc Hf Hu ??????]. unfold addOneGameBar. set (it := mkItem _ _ _ _ _ _ _).
  assert (it_logo it = game_logo_id p) as Hi by done. clearbody it.
  split; try assumption; cbn -[Z.add].
  - rewrite length_app, Hc. cbn [length]. lia.
  - apply Forall_app_2; [|by apply Forall_singleton; lia].
    eapply Forall_impl; [exact Hf|]. cbn. intros; lia.
  - rewrite fmap_app. apply NoDup_app. split_and!; [done| |apply NoDup_singleton].
    intros z Hz ->%list_elem_of_singleton.
    apply list_elem_of_fmap in Hz as (y & Ey & Hy). rewrite Forall_forall in Hf.
    specialize (Hf y Hy). lia.
Qed.

Lemma BarInv_addGames games p : BarInv p -> BarInv (addGames games p).
Proof.
  unfold addGames. revert p. induction games as [|g games IH]; intros p Hp; [exact Hp|].
  cbn [foldl]. by apply IH, BarInv_add.
Qed.

(** The list emptied. *)
Lemma BarInv_cleared p :
  BarInv p -> BarInv (p <| thelist := [] |> <| alreadyLoadGameCnt := 0 |>).
Proof. intros []. split; try assumption; [done|constructor|constructor]. Qed.

#[export] Hint Resolve BarInv_download BarInv_share BarInv_long_download BarInv_long_share
  BarInv_addGames BarInv_cleared : bar.

Section Invariant.
Context `{Maths} (cp : caps).

Definition Inv (s : scroller) : Prop := lifted BarInv (view s).

Lemma Inv_on_page f s : (forall p, BarInv p -> BarInv (f p)) -> Inv s -> Inv (on_page f s).
Proof. intros Hf. by apply on_page_keeps. Qed.

Lemma Inv_refresh f s :
  (forall p, BarInv p -> BarInv (f p)) -> Inv s ->
  exists s', refresh (on_page f s) = Done s' /\ Inv s'.
Proof. intros Hf Hs. apply bar_refresh; [apply BarInv_free|]. by apply Inv_on_page. Qed.

Lemma Inv_done f s :
  (forall p, BarInv p -> BarInv (f p)) -> Inv s -> exists s', Done (on_page f s) = Done s' /\ Inv s'.
Proof. intros Hf Hs. eexists. split; [done|]. by apply Inv_on_page. Qed.

Ltac bar_ops :=
  intros; unfold loadGamesBar, loadGamesBarBykind, selecteGameCnt; auto 10 with bar.

(** A reload hides the menu, so that only the page without it must be right. *)
Definition BarHidden (p : bar_page) : Prop := BarInv (hideMenu p).

Lemma reloadGames_hidden kind s :
  lifted BarHidden (view s) -> exists s', reloadGames kind s = Done s' /\ Inv s'.
Proof.
  intros [Ho Hs]. unfold reloadGames. apply bar_refresh; [apply BarInv_free|].
  split; [exact Ho|]. unfold loadGamesBar. apply BarInv_requests, BarInv_cleared, Hs.
Qed.

Lemma reloadGames_inv kind s : Inv s -> exists s', reloadGames kind s = Done s' /\ Inv s'.
Proof. intros [Ho Hs]. apply reloadGames_hidden. split; [exact Ho|]. by apply pf_menu. Qed.

Lemma reloadGamesKind_inv kind type s :
  Inv s -> exists s', reloadGamesKind kind type s = Done s' /\ Inv s'.
Proof. apply Inv_refresh. bar_ops. Qed.

(** No click is bound to the second menu. *)
Lemma bound_clicks : Forall (fun b : jstr * click => b.2 <> CMenu MKind) bindEvent.
Proof. repeat constructor; discriminate. Qed.

Lemma bound_menu sel m : (sel, CMenu m) ∈ bindEvent -> m <> MKind.
Proof.
  intros Hin ->. pose proof bound_clicks as Hb. rewrite Forall_forall in Hb. by apply (Hb _ Hin).
Qed.

Lemma selected_action_inv m s :
  m <> MKind -> Inv s -> exists s', selected_action m s = Done s' /\ Inv s'.
Proof.
  intros Hm Hs. unfold selected_action. cbv zeta.
  destruct m as [| | | | |kind]; [..|done|].
  - case_match; [|by apply Inv_done; [bar_ops|]].
    apply reloadGames_inv, Inv_on_page; [bar_ops|done].
  - case_match; [|apply Inv_done; [|done]; intros p []; by split].
    apply reloadGames_hidden. destruct Hs as [Ho []]. split; [exact Ho|]. by split.
  - case_match; [|by eexists]. apply Inv_done; [bar_ops|done].
  - case_match; [|by eexists]. apply Inv_done; [bar_ops|done].
  - apply reloadGamesKind_inv, Inv_on_page; [bar_ops|done].
Qed.

Lemma run_click_inv sel c s :
  (sel, c) ∈ bindEvent -> Inv s -> exists s', run_click c s = Done s' /\ Inv s'.
Proof.
  intros Hb Hs. destruct c as [m|url|]; cbn [run_click].
  - apply selected_action_inv; [|done]. by eapply bound_menu.
  - apply Inv_done; [bar_ops|done].
  - apply Inv_done; [bar_ops|done].
Qed.

Lemma answer_inv n games s : Inv s -> exists s', answer n games s = Done s' /\ Inv s'.
Proof.
  intros Hs. unfold answer. repeat case_match;
    first [apply Inv_refresh; [bar_ops|done] | apply Inv_done; [bar_ops|done] | by eexists].
Qed.

Lemma pullUp_fires_inv p : BarInv p -> BarInv (pullUp_fires p).
Proof. intros Hp. unfold pullUp_fires. repeat case_match; bar_ops. Qed.

Lemma timer_fires_inv n s : Inv s -> exists s', timer_fires n s = Done s' /\ Inv s'.
Proof.
  intros Hs. unfold timer_fires. repeat case_match; [| |by eexists].
  - apply Inv_refresh; [bar_ops|done].
  - apply Inv_done; [|done]. intros p Hp. apply pullUp_fires_inv. bar_ops.
Qed.

Lemma step_inv s s' : Inv s -> bar_step cp s s' -> Inv s'.
Proof.
  intros Hs Hst.
  assert (forall r, (exists t, r = Done t /\ Inv t) -> r = Done s' -> Inv s') as Hret
    by (intros r (t & -> & Ht); congruence).
  destruct Hst as [sel c s s' Hb E|n s|n s|n s|n s|s|n games s s' E|n counts s|n s|n s s' E|e s s' E|s s' E|g s|t s].
  - eapply Hret; [|exact E]. by eapply run_click_inv.
  - apply Inv_on_page; [bar_ops|done].
  - apply Inv_on_page; [bar_ops|done].
  - apply Inv_on_page; [bar_ops|done].
  - apply Inv_on_page; [bar_ops|done].
  - apply Inv_on_page; [bar_ops|done].
  - eapply Hret; [|exact E]. by apply answer_inv.
  - unfold answer_counts. repeat case_match; try done. apply Inv_on_page; [bar_ops|done].
  - apply Inv_on_page; [bar_ops|done].
  - eapply Hret; [|exact E]. by apply timer_fires_inv.
  - by eapply bar_handle; [apply BarInv_free| |exact E].
  - by eapply bar_frame; [apply BarInv_free| |exact E].
  - exact Hs.
  - exact Hs.
Qed.

Lemma loaded_inv g t downH upH p :
  hasTransitionEnd cp = true -> BarInv p ->
  exists s, loaded cp g t downH upH p = Done s /\ Inv s.
Proof.
  intros Ht Hp. unfold loaded, new_iScroll. cbv zeta.
  set (q := p <| pullDownOffset := downH |> <| pullUpOffset := upH |>).
  assert (BarInv q) as Hq by (destruct Hp; by split). clearbody q.
  set (o := normalize cp _).
  assert (io_useTransition o = true) as Ho.
  { unfold o, normalize. cbn. by rewrite Ht. }
  clearbody o. destruct (bar_refresh BarInv (blank o g t 0 0 q)) as (s & E & Hs); [by split|].
  rewrite E. apply (selected_action_inv MNewFile s); [discriminate|exact Hs].
Qed.

End Invariant.

(** ** Properties *)

Lemma BarInv_onload agent cookies : BarInv (bar_onload agent (page0 cookies)).
Proof.
  assert (BarInv (page0 cookies)) as [] by (split; try done; constructor).
  unfold bar_onload, bar_checkPC. repeat case_match; by split.
Qed.

(** C33: on a browser with CSS transitions the page starts, and in every state
    it can reach the counter is the length of the list, the image numbers are
    all different, of the three flags for new, popular and shared files at most
    one is set, the icon of the group entry shows the group flag (which is
    separate and can be set beside one of the three, see
    [group_stays_selected]), and the layer is consistent; every click, answer
    and timer is handled without a loop. *)
Theorem bar_reachable `{Maths} cp g t downH upH agent cookies :
  hasTransitionEnd cp = true ->
  exists s0, loaded cp g t downH upH (bar_onload agent (page0 cookies)) = Done s0
  /\ forall s, rtc (bar_step cp) s0 s ->
     BarInv (world s)
     /\ (forall sel c, (sel, c) ∈ bindEvent -> exists s', run_click c s = Done s')
     /\ (forall n games, exists s', answer n games s = Done s')
     /\ (forall n, exists s', timer_fires n s = Done s').
Proof.
  intros Ht. destruct (loaded_inv cp g t downH upH _ Ht (BarInv_onload agent cookies))
    as (s0 & E & Hi). exists s0. split; [exact E|]. intros s Hs.
  assert (Inv s) as Hinv by (clear E; induction Hs; eauto using step_inv).
  split_and!; [apply Hinv|..].
  - intros sel c Hb. destruct (run_click_inv sel c s Hb Hinv) as (s' & ? & _). eauto.
  - intros n games. destruct (answer_inv n games s Hinv) as (s' & ? & _). eauto.
  - intros n. destruct (timer_fires_inv n s Hinv) as (s' & ? & _). eauto.
Qed.

(** Once the shared files are listed no entry of the menu counts as
    selected, so pulling the list up asks for nothing: only the first eight
    are ever shown, and the pull element keeps saying that it is loading. *)
Theorem shared_files_never_continue `{Maths} s :
  io_useTransition (opts s) = true -> menu_kind_selected (world s) = false ->
  menu_kind_selected_type (world s) = js "0" ->
  exists s', selected_action MShareFile s = Done s'
  /\ last (requests (world s'))
     = Some (RLoad (js "shareFile") 0 8 (getCookieValue (js "username") (jar (world s))))
  /\ pullUp_fires (world s') = world s'.
Proof.
  intros Ht Hk Hty.
  set (R := fun p => menu_game_new_selected p = false /\ menu_game_hot_selected p = false
    /\ menu_kind_selected p = false /\ menu_kind_selected_type p = js "0"
    /\ last (requests p)
       = Some (RLoad (js "shareFile") 0 8 (getCookieValue (js "username") (jar (world s))))).
  assert (PullFree R) as HR by (split; intros p; [intros ?..|]; intros (?&?&?&?&?); by repeat split).
  unfold selected_action, reloadGames. cbv zeta. rewrite Hk. cbn [negb].
  match goal with |- exists s', refresh ?u = _ /\ _ => destruct (bar_refresh R u) as (s' & E & _ & Hr) end.
  { split; [exact Ht|]. repeat split; [exact Hty|]. cbn. by rewrite last_snoc. }
  exists s'. destruct Hr as (H1 & H2 & H3 & H4 & H5). split_and!; [exact E|exact H5|].
  cbn in H1, H2, H3, H4. unfold pullUp_fires. rewrite H1, H2, H3, H4. by rewrite bool_decide_eq_true_2.
Qed.

Lemma addGames_spec games p :
  let q := addGames games p in
  it_game <$> thelist q = (it_game <$> thelist p) ++ games
  /\ alreadyLoadGameCnt q = alreadyLoadGameCnt p + Z.of_nat (length games)
  /\ requests q = requests p /\ menu_game_new_selected q = menu_game_new_selected p /\ jar q = jar p.
Proof.
  unfold addGames. revert p. induction games as [|g games IH]; intros p.
  - cbn. rewrite app_nil_r. split_and!; [done|lia|done..].
  - cbn [foldl]. cbn zeta in IH. set (p1 := upd alreadyLoadGameCnt _ _).
    assert (it_game <$> thelist p1 = (it_game <$> thelist p) ++ [g]) as E1
      by (unfold p1, addOneGameBar; cbn; by rewrite fmap_app).
    assert (alreadyLoadGameCnt p1 = 1 + alreadyLoadGameCnt p) as E2 by done.
    assert (requests p1 = requests p) as E3 by done.
    assert (menu_game_new_selected p1 = menu_game_new_selected p) as E4 by done.
    assert (jar p1 = jar p) as E5 by done.
    clearbody p1. destruct (IH p1) as (-> & -> & -> & -> & ->).
    rewrite E1, E2, E3, E4, E5, <- app_assoc. split_and!; [done|cbn [length]; lia|done..].
Qed.

Section Paging.
Context `{Maths} (serve : request -> list game) (files : list game) (user : jstr).
Hypothesis serve_newFile : forall from count,
  serve (RLoad (js "newFile") from count user) = take (Z.to_nat count) (drop (Z.to_nat from) files).

(** The first [n] files are listed, and [waits] says whether the next ones
    have been asked for. *)
Definition Listed (n : nat) (waits : bool) (p : bar_page) : Prop :=
  (menu_game_new_selected p = true /\ getCookieValue (js "username") (jar p) = user)
  /\ alreadyLoadGameCnt p = Z.of_nat (length (thelist p))
  /\ it_game <$> thelist p = take n files
  /\ requests p = if waits then [RLoad (js "newFile") (alreadyLoadGameCnt p) perLoadCnt user] else [].

#[local] Instance Listed_free n waits : PullFree (Listed n waits).
Proof. split; intros p; [intros ?..|]; intros ((?&?)&?&?&?); split_and!; assumption. Qed.

Lemma take_more {A} (l : list A) n k :
  take n l ++ take k (drop (length (take n l)) l) = take (n + k) l.
Proof.
  rewrite length_take. destruct (decide (n <= length l)%nat).
  - rewrite Nat.min_l by done. by rewrite take_take_drop.
  - rewrite Nat.min_r, drop_all, take_nil, app_nil_r by lia. by rewrite !take_ge by lia.
Qed.

Lemma reply_lists n s :
  lifted (Listed n true) (view s) ->
  exists s', reply serve s = Done s' /\ lifted (Listed (n + 8) false) (view s').
Proof.
  intros [Ho (H1 & H2 & H3 & H4)]. unfold reply. cbn in H1, H2, H3, H4. rewrite H4.
  unfold answer. rewrite H4. cbn [lookup list_lookup]. apply bar_refresh; [apply Listed_free|].
  split; [exact Ho|]. cbn [view on_page snd]. rewrite serve_newFile.
  set (q := (world s) <| requests ::= delete 0%nat |>). set (l := take _ _).
  destruct (addGames_spec l q) as (E1 & E2 & E3 & E4 & E5).
  change (Listed (n + 8) false (addGames l q)). red. rewrite E4, E5, E2, E3, E1.
  assert (length (addGames l q).(thelist) = (length (thelist (world s)) + length l)%nat) as El.
  { rewrite <- (length_fmap it_game), E1, length_app, length_fmap. done. }
  rewrite El. split_and!; [apply H1|apply H1|change (alreadyLoadGameCnt q) with (alreadyLoadGameCnt (world s)); lia| |].
  - change (thelist q) with (thelist (world s)). rewrite H3. unfold l.
    rewrite H2, Nat2Z.id, <- (length_fmap it_game), H3. apply take_more.
  - unfold q. cbn. by rewrite H4.
Qed.

Lemma round_lists n s :
  lifted (Listed n false) (view s) ->
  exists s', pull_round serve s = Done s' /\ lifted (Listed (n + 8) false) (view s').
Proof.
  intros [Ho (H1 & H2 & H3 & H4)]. cbn in H1, H2, H3, H4.
  unfold pull_round, timer_fires. cbn [world on_page upd].
  assert (timers (pullUpAction (world s)) !! length (timers (world s)) = Some TPullUp) as ->
    by (cbn; by rewrite lookup_app_r, Nat.sub_diag).
  apply reply_lists. split; [exact Ho|].
  cbn [view on_page snd world]. unfold pullUp_fires. cbn. destruct H1 as [H1 Hu]. rewrite H1.
  split_and!; [exact H1|exact Hu|exact H2|exact H3|]. cbn. by rewrite H4, Hu.
Qed.

Lemma rounds_list k n s :
  lifted (Listed n false) (view s) ->
  exists s', pull_rounds serve k s = Done s' /\ lifted (Listed (n + 8 * k) false) (view s').
Proof.
  revert n s. induction k as [|k IH]; intros n s Hs; cbn [pull_rounds].
  - exists s. by rewrite Nat.mul_0_r, Nat.add_0_r.
  - destruct (round_lists n s Hs) as (s1 & E & Hs1). rewrite E.
    destruct (IH _ s1 Hs1) as (s2 & E2 & Hs2). exists s2. split; [exact E2|].
    by replace (n + 8 * S k)%nat with (n + 8 + 8 * k)%nat by lia.
Qed.

Lemma loaded_waits cp g t downH upH p :
  hasTransitionEnd cp = true -> menu_game_new_selected p = false -> requests p = [] ->
  getCookieValue (js "username") (jar p) = user ->
  exists s, loaded cp g t downH upH p = Done s /\ lifted (Listed 0 true) (view s).
Proof.
  intros Ht Hn Hq Hu. unfold loaded, new_iScroll. cbv zeta.
  set (R := fun p => menu_game_new_selected p = false /\ requests p = []
    /\ getCookieValue (js "username") (jar p) = user).
  assert (PullFree R) as HR by (split; intros ?; [intros ?..|]; intros (?&?&?); by split_and!).
  set (q := p <| pullDownOffset := downH |> <| pullUpOffset := upH |>).
  assert (R q) as HRq by (by split). clearbody q. set (o := normalize cp _).
  assert (io_useTransition o = true) as Ho by (unfold o, normalize; cbn; by rewrite Ht).
  clearbody o. destruct (bar_refresh R (blank o g t 0 0 q)) as (s & -> & Hs & E1 & E2 & E3); [by split|].
  cbn [mbind outcome_bind]. unfold selected_action, reloadGames. cbv zeta. cbn in E1, E2, E3.
  rewrite E1. cbn [negb]. apply bar_refresh; [apply Listed_free|]. split; [exact Hs|].
  split_and!; [done|exact E3|done|done|]. cbn. by rewrite E2, E3.
Qed.

Lemma paging_run cp g t downH upH agent cookies k :
  hasTransitionEnd cp = true -> getCookieValue (js "username") cookies = user ->
  exists s, (s ← loaded cp g t downH upH (bar_onload agent (page0 cookies));
             s ← reply serve s; pull_rounds serve k s) = Done s
  /\ it_game <$> thelist (world s) = take (8 * (k + 1)) files.
Proof.
  intros Ht Hu. destruct (loaded_waits cp g t downH upH (bar_onload agent (page0 cookies)) Ht)
    as (s & -> & Hs); [unfold bar_onload, bar_checkPC; by repeat case_match..|].
  cbn [mbind outcome_bind]. destruct (reply_lists 0 s Hs) as (s1 & -> & Hs1).
  cbn [mbind outcome_bind]. destruct (rounds_list k _ s1 Hs1) as (s2 & -> & _ & Hl).
  exists s2. split; [done|]. replace (8 * (k + 1))%nat with (0 + 8 + 8 * k)%nat by lia. apply Hl.
Qed.

End Paging.

(** With a server that answers a request for new files with the files
    asked for, the page shows after [k] pulls exactly the first [8 (k + 1)]
    files, in order. *)
Theorem paging_shows_prefix `{Maths} serve files cp g t downH upH agent cookies k :
  (forall from count,
     serve (RLoad (js "newFile") from count (getCookieValue (js "username") cookies))
     = take (Z.to_nat count) (drop (Z.to_nat from) files)) ->
  hasTransitionEnd cp = true ->
  exists s, (s ← loaded cp g t downH upH (bar_onload agent (page0 cookies));
             s ← reply serve s; pull_rounds serve k s) = Done s
  /\ it_game <$> thelist (world s) = take (8 * (k + 1)) files.
Proof. intros Hs Ht. by eapply paging_run. Qed.

Lemma resetY_positive (s : scroller) : 0 < maxScrollY s -> resetY s = inject_Z (minScrollY s).
Proof. intros Hp. unfold resetY. by rewrite (proj2 (Z.ltb_lt _ _) Hp), orb_true_r. Qed.

Lemma on_page_limits f (s : scroller) :
  y (on_page f s) = y s /\ maxScrollY (on_page f s) = maxScrollY s
  /\ minScrollY (on_page f s) = minScrollY s.
Proof. done. Qed.

Lemma lower_limit m (s : scroller) :
  maxScrollY (s <| maxScrollY := m |>) = m /\ minScrollY (s <| maxScrollY := m |>) = minScrollY s.
Proof. done. Qed.

(** The last branch of [onScrollMove]. *)
Lemma move_back s :
  pullDownEl (world s) = PullIdle -> pullUpEl (world s) = PullFlip ->
  (inject_Z (maxScrollY s + 5) < y s)%Q -> (y s <= 5)%Q ->
  exists f, bar_onScrollMove s = (on_page f (on_page hideMenu s)) <| maxScrollY := pullUpOffset (world s) |>.
Proof.
  intros Hd Hu Hy%Qltb_lt Hy5%Qltb_ge. unfold bar_onScrollMove. cbv zeta.
  destruct (on_page_limits hideMenu s) as (-> & -> & _).
  change (world (on_page hideMenu s)) with (hideMenu (world s)).
  cbn [pullDownEl pullUpEl pullUpOffset hideMenu upd].
  rewrite Hd, Hu, Hy5, Hy, bool_decide_eq_false_2, bool_decide_eq_true_2 by done.
  cbn [andb negb]. rewrite !andb_false_r. by eexists.
Qed.

(** A list pulled up beyond its end and pushed back before the finger is
    lifted gets the height of the pull element as its lower limit; the content
    then returns to the top instead of the end. *)
Theorem pull_back_jumps_to_top s :
  pullDownEl (world s) = PullIdle -> pullUpEl (world s) = PullFlip -> 0 < pullUpOffset (world s) ->
  (inject_Z (maxScrollY s + 5) < y s)%Q -> (y s <= 5)%Q ->
  maxScrollY (bar_onScrollMove s) = pullUpOffset (world s)
  /\ resetY (bar_onScrollMove s) = inject_Z (minScrollY s).
Proof.
  intros Hd Hu Hp Hy Hy5. destruct (move_back s Hd Hu Hy Hy5) as [f ->].
  destruct (lower_limit (pullUpOffset (world s)) (on_page f (on_page hideMenu s))) as [E1 E2].
  split; [exact E1|]. rewrite resetY_positive by (by rewrite E1). by rewrite E2.
Qed.

(** ** Samples *)

Module Sample.

#[local] Instance maths : Maths := {| m_sqrt := fun q => q; m_pow := fun _ _ => 1%Q |}.

Definition cp : caps := mkCaps true false true true true.

Definition geom : geometry := mkGeometry (300, 400)%Z (300, 1000)%Z (296, 396)%Z [(0, 0)%Z] [].

Definition agent : jstr := js "Mozilla/5.0 (Linux; Android 4.4)".

Definition cookies : list cookie := [mkCookie (js "username") (js "bob") []].

Definition file (n : Z) : game := mkGame n (js "a") (js "/f") (js "/p") 0 (js "bob") 0 (js "d").

Definition start : outcome scroller := loaded cp geom 0 40 40 (bar_onload agent (page0 cookies)).

Lemma bar_reachable_witness : exists s0, start = Done s0 /\ BarInv (world s0).
Proof.
  destruct (bar_reachable cp geom 0 40 40 agent cookies eq_refl) as (s0 & E & Hr).
  exists s0. split; [exact E|exact (proj1 (Hr s0 (rtc_refl _ _)))].
Defined.

Definition page : scroller :=
  match start with Done s => s | _ => blank (default_options cp) geom 0 0 0 (page0 cookies) end.

Lemma shared_files_never_continue_witness :
  exists s', selected_action MShareFile page = Done s' /\ pullUp_fires (world s') = world s'.
Proof.
  destruct (shared_files_never_continue page eq_refl eq_refl eq_refl) as (s' & E & _ & Hp).
  exists s'. split; [exact E|exact Hp].
Defined.

Definition store : list game := file <$> seqZ 1 20.

(** A server that answers as documented. *)
Definition serve (r : request) : list game :=
  match r with
  | RLoad _ from count _ => take (Z.to_nat count) (drop (Z.to_nat from) store)
  | _ => []
  end.

Lemma paging_shows_prefix_witness :
  exists s, (s ← start; s ← reply serve s; pull_rounds serve 1 s) = Done s
  /\ it_game <$> thelist (world s) = take 16 store.
Proof. exact (paging_shows_prefix serve store cp geom 0 40 40 agent cookies 1 (fun _ _ => eq_refl) eq_refl). Defined.

(** The list pulled up and pushed back half way. *)
Definition pulled : scroller :=
  (on_page (fun p => p <| pullUpEl := PullFlip |>) page)
    <| y := (-300)%Q |> <| maxScrollY := -560 |>.

Lemma pull_back_jumps_to_top_witness :
  maxScrollY (bar_onScrollMove pulled) = 40 /\ resetY (bar_onScrollMove pulled) = inject_Z (-40).
Proof.
  exact (pull_back_jumps_to_top pulled eq_refl eq_refl eq_refl eq_refl ltac:(vm_compute; discriminate)).
Defined.

(** The entry for new files does not take the selection back from the group
    entry: both count as selected, and both icons show it. *)
Theorem group_stays_selected :
  exists s, (s ← start; s ← selected_action MGroup s; selected_action MNewFile s) = Done s
  /\ menu_group_selected (world s) = true /\ menu_game_new_selected (world s) = true
  /\ ic_group (icon (world s)) = icon_off "41" /\ ic_new (icon (world s)) = icon_off "11".
Proof. eexists. split_and!; vm_compute; reflexivity. Qed.

(** A menu entry clicked before the first answer has arrived: the list of
    the shared files then starts with the new files, because an answer is
    added whatever is selected when it arrives. *)
Theorem late_answer_is_mixed_in :
  exists s, (s ← start; s ← selected_action MShareFile s;
             s ← answer 0 [file 1; file 2] s; answer 0 [file 7] s) = Done s
  /\ menu_game_new_selected (world s) = false
  /\ (fun it => g_id (it_game it)) <$> thelist (world s) = [1; 2; 7].
Proof. eexists. split_and!; vm_compute; reflexivity. Qed.

End Sample.
