(* ===== verification/GameBarNet.v ===== *)
(** * The file list and its server (game_bar.js with ajax.js)

    The requests of the file list as the objects it gives to [Zepto.ajax], the
    query string the server gets, and what the page reads from the answer.
    The theorems compose the list of [GameBar], the settings of
    [AjaxSettings] and the machine of [Ajax]: what the page asks for is what
    the server decodes, and what the server sends is what [success] gets and
    what the list shows. *)

From stdpp Require Import base gmap list strings.
From Stdlib Require Import QArith.
From S2P Require Import Prelude JsString JsUri ZeptoCore AjaxParam AjaxSettings Ajax Login IScroll GameBar.

#[local] Open Scope Z_scope.

(** ** Requests *)

(** The data of a request. *)
Definition request_data (r : GameBar.request) : object :=
  match r with
  | RLoad kind fromId cnt user =>
      [(js "cmd", VStr kind); (js "fromId", VNum fromId); (js "count", VNum cnt); (js "user", VStr user)]
  | RLoadKind kind fromId cnt type =>
      [(js "cmd", VStr kind); (js "fromId", VNum fromId); (js "count", VNum cnt); (js "kind", VStr type)]
  | RIncrease id => [(js "cmd", VStr (js "increase")); (js "fileId", VNum id)]
  | RShared id user =>
      [(js "cmd", VStr (js "shared")); (js "fileId", VNum id); (js "user", VStr user)]
  | RSelectCnt => [(js "cmd", VStr (js "selectCnt")); (js "kind", VStr (js "all"))]
  end.

Definition success_fun : jsval := VFun (js "function(data){...}") VUndef.
Definition error_fun : jsval := VFun (js "function(xhr, type){...}") VUndef.

(** The argument of [Zepto.ajax]. *)
Definition request_options (r : GameBar.request) : object :=
  [(js "type", VStr (js "get")); (js "url", VStr (js "/data")); (js "data", VObj (request_data r));
   (js "dataType", VStr (js "json")); (js "success", success_fun); (js "error", error_fun)].

Definition request_settings (r : GameBar.request) : object := init_settings (VObj (request_options r)).

(** ** Answers *)

(** The fields of one file, as [addOneGameBar] is called with them. *)
Definition read_game (v : jsval) : option game :=
  match v with
  | VObj o =>
      match sget "id" o, sget "title_m" o, sget "url" o, sget "picurl_m" o, sget "pv" o,
            sget "descrip" o, sget "hot" o, sget "title_s" o with
      | VNum id, VStr title, VStr url, VStr pic, VNum pv, VStr desc, VNum hot, VStr user =>
          Some (mkGame id title url pic pv desc hot user)
      | _, _, _, _, _, _, _, _ => None
      end
  | _ => None
  end.

(** [eval(data.games)] on an array is the array. *)
Definition read_games (data : jsval) : option (list game) :=
  match data with
  | VObj o => match sget "games" o with VArr l => mapM read_game l | _ => None end
  | _ => None
  end.

(** The counts of [selecteGameCnt]. *)
Definition read_counts (data : jsval) : option (list Z) :=
  match data with
  | VObj o =>
      mapM (fun k => match sget k o with VNum n => Some n | _ => None end)
        ["kind_0"; "kind_1"; "kind_2"; "kind_3"; "kind_4"; "kind_5"; "kind_6"]%string
  | _ => None
  end.

(** The function [success] of a request, on the data the library gives it;
    [None] when the data have another shape. *)
Definition success `{Maths} (n : nat) (data : jsval) (s : scroller) : option (outcome scroller) :=
  match GameBar.requests (world s) !! n with
  | Some (RLoad _ _ _ _) | Some (RLoadKind _ _ _ _) => (fun games => answer n games s) <$> read_games data
  | Some RSelectCnt => (fun counts => Done (answer_counts n counts s)) <$> read_counts data
  | Some _ => Some (answer n [] s)
  | None => Some (Done s)
  end.

(** ** What the server sees *)

(** The texts of the data. *)
Definition request_pairs (r : GameBar.request) : list (jstr * jstr) :=
  (fun p => (p.1, to_string p.2)) <$> request_data r.

(** The texts a request takes from cookies and from the menu have no half
    surrogates. *)
Definition sendable (r : GameBar.request) : Prop :=
  match r with
  | RLoad kind _ _ user => well_formed kind /\ well_formed user
  | RLoadKind kind _ _ type => well_formed kind /\ well_formed type
  | RShared _ user => well_formed user
  | RIncrease _ | RSelectCnt => True
  end.

Lemma ascii_well_formed s : Forall (fun c => (c < 128)%N) s -> well_formed s.
Proof.
  intros Hs. split; [eapply Forall_impl; [done|intros c Hc; cbn in *; lia]|].
  induction Hs as [|c s Hc Hs [bs IH]]; [by eexists|]. cbn [utf8]. unfold is_low, is_high.
  rewrite (proj2 (N.leb_gt 56320 c)), (proj2 (N.leb_gt 55296 c)) by lia. cbn [andb]. rewrite IH. by eexists.
Qed.

Lemma show_Z_well_formed z : well_formed (show_Z z).
Proof.
  apply ascii_well_formed. unfold show_Z.
  assert (forall u, Forall (fun c => (c < 128)%N) (uint_units u)) as Hu.
  { intros u. eapply Forall_impl; [apply uint_units_digits|]. unfold is_digit. intros c; cbn.
    destruct (N.leb_spec c 57); [lia|]. by rewrite andb_false_r. }
  destruct (Z.to_int z); [apply Hu|constructor; [lia|apply Hu]].
Qed.

Lemma request_pairs_encodable r : sendable r -> Forall encodable (request_pairs r).
Proof.
  assert (forall w, bool_decide (well_formed (js w)) = true -> well_formed (js w)) as Hw
    by (intros w; apply bool_decide_eq_true_1).
  unfold request_pairs. destruct r; cbn [request_data fmap list_fmap sendable]; intros Hs;
    repeat (apply Forall_cons; split); try apply Forall_nil_2; (split; cbn [fst snd to_string]);
    lazymatch goal with
    | |- well_formed (show_Z _) => apply show_Z_well_formed
    | |- well_formed (js _) => apply Hw; vm_compute; reflexivity
    | _ => tauto
    end.
Qed.

Lemma request_settings_get r :
  sget "url" (request_settings r) = VStr (js "/data")
  /\ sget "data" (request_settings r) = VObj (request_data r)
  /\ sget "dataType" (request_settings r) = VStr (js "json")
  /\ sget "type" (request_settings r) = VStr (js "get").
Proof. destruct r; split_and!; reflexivity. Qed.

Section Net.
Context `{Page}.

Lemma request_prepared r now :
  sendable r ->
  exists q, prepare (VObj (request_options r)) now (request_settings r)
              = Ret (get_settings (js "/data") q (request_settings r), VStr (js "json"))
            /\ form_pairs q = request_pairs r.
Proof.
  intros Hs. destruct (request_settings_get r) as (Eu & Ed & Et & Ety). rewrite <- Et.
  apply prepare_get with (t := js "get").
  - exact Eu.
  - discriminate.
  - apply (bool_decide_unpack _). vm_compute. exact I.
  - apply (bool_decide_unpack _). vm_compute. exact I.
  - rewrite Ed. destruct r; reflexivity.
  - by destruct r.
  - by apply request_pairs_encodable.
  - destruct r; reflexivity.
  - by rewrite Ed.
  - by rewrite Ed.
  - exact Ety.
  - reflexivity.
  - destruct r; reflexivity.
  - by rewrite Et.
  - by rewrite Et.
Qed.

(** ** Through the machine

    A request alone in the library, while nobody else runs: page code starts
    it and every function it calls returns. *)

Definition ask (options : jsval) (now : Z) (first : bool) : list Ajax.event :=
  [EPage; EAjax options now] ++ (if first then [EReturn VUndef] else [])
  ++ [ELibrary; ELibrary; EReturn VUndef; ELibrary; EReturn VUndef; ELibrary; EReturn VUndef; ELibrary;
      EReturn VUndef].

Definition receive (n : nat) (resp : response) (last : bool) : list Ajax.event :=
  [EReply n resp; ELibrary; EReturn VUndef; ELibrary; EReturn VUndef; ELibrary; EReturn VUndef; ELibrary;
   EReturn VUndef; ELibrary] ++ (if last then [EReturn VUndef] else []).

Context `{Parsers}.

#[local] Arguments sget : simpl never.
#[local] Arguments isFunction : simpl never.
#[local] Arguments truthy : simpl never.
#[local] Arguments lookup : simpl never.
#[local] Arguments alter : simpl never.
#[local] Arguments init_settings : simpl never.
#[local] Arguments run_prepare : simpl never.
#[local] Arguments protocol : simpl never.

Lemma run_cons s e l s' : Ajax.step s e = Some s' -> Ajax.run s (e :: l) = Ajax.run s' l.
Proof. intros E. cbn [Ajax.run]. by rewrite E. Qed.

Lemma alter_snoc {A} (f : A -> A) l x : alter f (length l) (l ++ [x]) = l ++ [f x].
Proof. induction l as [|y l IH]; [done|]. by apply (f_equal (cons y)) in IH. Qed.

Lemma lookup_snoc_length {A} (l : list A) x : (l ++ [x]) !! length l = Some x.
Proof. rewrite lookup_app_r, Nat.sub_diag by done. done. Qed.

(** The library calls page code and page code returns, in a machine whose
    request [n] is [q]. *)
Section Calls.
Context (a j : Z) (rs : list Ajax.request) (w : gmap jstr wvalue) (n : nat) (q : Ajax.request).
Hypothesis (Hq : rs !! n = Some q) (Hg : is_global q = true).

Abbreviation at_ st lg := (Ajax a j rs w st lg).

Lemma run_call c todo st lg rest :
  isFunction (sget (callback_name c) (settings q)) = true ->
  Ajax.run (at_ (Library n (Call c :: todo) :: st) lg) (ELibrary :: rest)
  = Ajax.run (at_ (Running (FCallback n c) :: return_to n todo st) (lg ++ [LCallback n c])) rest.
Proof.
  intros Hf. apply run_cons. cbn [Ajax.step library_step stack Ajax.requests]. rewrite Hq. cbn. unfold call.
  by rewrite Hf.
Qed.

Lemma run_trigger e todo st lg rest :
  Ajax.run (at_ (Library n (Trigger e :: todo) :: st) lg) (ELibrary :: rest)
  = Ajax.run (at_ (Running (FEvent n e) :: return_to n todo st) (lg ++ [LEvent n e])) rest.
Proof.
  apply run_cons. cbn [Ajax.step library_step stack Ajax.requests]. rewrite Hq. cbn. by rewrite Hg.
Qed.

(** What page code that returns [undefined] hands back to. *)
Definition continuation (f : Ajax.frame) : list Ajax.task :=
  match f with
  | FCallback n BeforeSend => [Library n [Trigger AjaxBeforeSend]]
  | FEvent n AjaxBeforeSend => [Library n [Trigger AjaxSend; Send]]
  | _ => []
  end.

Lemma run_return f st lg rest :
  match f with FCallback m _ | FEvent m _ => m = n | FEval _ _ => False | _ => True end ->
  Ajax.run (at_ (Running f :: st) lg) (EReturn VUndef :: rest) = Ajax.run (at_ (continuation f ++ st) lg) rest.
Proof.
  intros Hf. apply run_cons. cbn [Ajax.step stack].
  destruct f as [|m c|m e|m code|data]; cbn [return_from]; try done; subst m; [destruct c|destruct e]; try done;
    cbn [Ajax.requests with_stack]; by rewrite Hq.
Qed.

End Calls.

(** What the library still does after [prepare], for a request that waits
    for [beforeSend]. *)
Lemma sending_runs o dt h a j rs w lg :
  let n := length rs in
  let q := Request o dt (protocol o) h Starting false None in
  isFunction (sget "beforeSend" o) = true -> truthy (sget "global" o) = true ->
  sget "async" o = VUndef -> sget "timeout" o = VNum 0 ->
  Ajax.run (Ajax a j (rs ++ [q]) w [Library n [Call BeforeSend]; Running FPage] lg)
    [ELibrary; EReturn VUndef; ELibrary; EReturn VUndef; ELibrary; EReturn VUndef; ELibrary; EReturn VUndef]
  = Some (Ajax a j (rs ++ [Request o dt (protocol o) h Waiting false None]) w [] (lg ++ start_calls true n)).
Proof.
  intros n q Eb Eg Ea Et. assert ((rs ++ [q]) !! n = Some q) as Hq by apply lookup_snoc_length.
  assert (is_global q = true) as Hg by exact Eg.
  rewrite (run_call _ _ _ _ n q Hq BeforeSend) by exact Eb. rewrite (run_return _ _ _ _ n q Hq) by done.
  cbn [continuation return_to app]. rewrite (run_trigger _ _ _ _ n q Hq Hg), (run_return _ _ _ _ n q Hq) by done.
  cbn [continuation return_to app]. rewrite (run_trigger _ _ _ _ n q Hq Hg), (run_return _ _ _ _ n q Hq) by done.
  cbn [continuation return_to app].
  rewrite (run_cons _ _ _ (Ajax a j (rs ++ [Request o dt (protocol o) h Waiting false None]) w [Running FPage]
    (((lg ++ [LCallback n BeforeSend]) ++ [LEvent n AjaxBeforeSend]) ++ [LEvent n AjaxSend]))).
  - by rewrite <- !app_assoc.
  - cbn [Ajax.step library_step stack Ajax.requests]. rewrite Hq. cbn [mbind option_bind run_action return_to].
    unfold send, is_async. cbn [r_jsonp q settings]. rewrite Ea. unfold update, with_requests. cbn.
    unfold n. rewrite alter_snoc. unfold set_timer, has_timeout. cbn. by rewrite Et.
Qed.

Lemma ask_runs options now o dt h m a j rs w lg :
  let n := length rs in
  prepare options now (init_settings options) = Ret (o, dt) -> is_word "jsonp" dt = false ->
  headers o dt = Ret h -> override_mime o dt = Ret m ->
  isFunction (sget "beforeSend" o) = true -> truthy (sget "global" o) = true ->
  truthy (sget "global" (init_settings options)) = true ->
  sget "async" o = VUndef -> sget "timeout" o = VNum 0 ->
  Ajax.run (Ajax a j rs w [] lg) (ask options now (a =? 0))
  = Some (Ajax (a + 1) j (rs ++ [Request o dt (protocol o) h Waiting false None]) w []
            (lg ++ (if a =? 0 then [LEvent n AjaxStart] else []) ++ start_calls true n)).
Proof.
  intros n Ep Ej Eh Em Eb Eg Eg0 Ea Et. unfold ask.
  set (q0 := Request (init_settings options) VUndef [] [] New false None).
  set (q1 := Request o dt (protocol o) h Starting false None).
  set (rest := [ELibrary; ELibrary; _; _; _; _; _; _; _]).
  rewrite (app_assoc lg). set (lg1 := lg ++ if a =? 0 then [LEvent n AjaxStart] else []).
  transitivity (Ajax.run (Ajax (a + 1) j (rs ++ [q0]) w [Library n [Prepare options now]; Running FPage] lg1) rest).
  - unfold lg1. cbn [Ajax.run app]. cbn. unfold ajax_call, ajaxStart, is_global. cbn. rewrite Eg0. cbn.
    destruct (a =? 0); cbn; [done|]. by rewrite app_nil_r.
  - unfold rest.
    rewrite (run_cons _ _ _ (Ajax (a + 1) j (rs ++ [q1]) w [Library n [Call BeforeSend]; Running FPage] lg1)).
    + by apply sending_runs.
    + cbn [Ajax.step]. unfold library_step. cbn [stack Ajax.requests].
      replace ((rs ++ [q0]) !! n) with (Some q0) by (symmetry; apply lookup_snoc_length).
      cbn [mbind option_bind run_action return_to]. unfold run_prepare. cbn [settings q0].
      rewrite Ep, Ej, Eh, Em. unfold update, push, with_stack, with_requests. cbn. unfold n.
      by rewrite alter_snoc.
Qed.

(** The answer to a request that waits. *)
Lemma receive_runs n resp data q a j rs w lg :
  rs !! n = Some q -> r_phase q = Waiting -> r_jsonp q = None -> is_global q = true ->
  isFunction (sget "success" (settings q)) = true -> isFunction (sget "complete" (settings q)) = true ->
  handle (settings q) (dataType q) (r_protocol q) resp = VSuccess data ->
  Ajax.run (Ajax a j rs w [] lg) (receive n resp (a - 1 =? 0))
  = Some (Ajax (a - 1) j (alter (fun q => set_timer false (set_phase Ajax.Done q)) n rs) w []
            (lg ++ end_calls true n (Succeeded data) ++ if a - 1 =? 0 then [LEvent n AjaxStop] else [])).
Proof.
  intros Hq Hp Hj Hg Hs Hc Hh. unfold receive. set (q' := set_timer false (set_phase Ajax.Done q)).
  assert (alter (fun q => set_timer false (set_phase Ajax.Done q)) n rs !! n = Some q') as Hq'
    by by rewrite list_lookup_alter_eq, Hq.
  assert (is_global q' = true) as Hg' by exact Hg.
  set (rs' := alter _ n rs) in *.
  cbn [app]. rewrite (run_cons _ _ _ (Ajax a j rs' w [Library n (ajaxSuccess data)] lg)).
  - unfold ajaxSuccess, ajaxComplete. rewrite (run_call _ _ _ _ n q' Hq' (Success data)) by exact Hs.
    rewrite (run_return _ _ _ _ n q' Hq') by done. cbn [continuation return_to app].
    rewrite (run_trigger _ _ _ _ n q' Hq' Hg'), (run_return _ _ _ _ n q' Hq') by done.
    cbn [continuation return_to app]. rewrite (run_call _ _ _ _ n q' Hq' (Complete Ok)) by exact Hc.
    rewrite (run_return _ _ _ _ n q' Hq') by done. cbn [continuation return_to app].
    rewrite (run_trigger _ _ _ _ n q' Hq' Hg'), (run_return _ _ _ _ n q' Hq') by done.
    cbn [continuation return_to app Ajax.run Ajax.step library_step stack Ajax.requests]. rewrite Hq'.
    cbn [mbind option_bind run_action return_to]. unfold ajaxStop. rewrite Hg'. cbn.
    destruct (a - 1 =? 0); cbn; unfold with_active, with_stack; cbn; by rewrite <- !app_assoc.
  - cbn [Ajax.step Ajax.requests]. rewrite Hq. cbn [mbind option_bind].
    rewrite bool_decide_eq_true_2, bool_decide_eq_true_2 by done. cbn [andb stack]. unfold xhr_handler.
    by rewrite Hh.
Qed.

(** *** A request of the file list *)

Lemma get_settings_other k path q s :
  js k <> js "url" -> js k <> js "data" -> js k <> js "crossDomain" ->
  sget k (get_settings path q s) = sget k s.
Proof.
  intros Hu Hd Hc. unfold get_settings. rewrite !sget_sset_ne by done. unfold set_crossDomain.
  case_match; [done|]. by apply sget_sset_ne.
Qed.

Lemma request_settings_other r :
  sget "accepts" (request_settings r) = VObj accepts /\ sget "contentType" (request_settings r) = VUndef
  /\ sget "headers" (request_settings r) = VUndef /\ sget "mimeType" (request_settings r) = VUndef
  /\ sget "beforeSend" (request_settings r) = empty_fun /\ sget "global" (request_settings r) = VBool true
  /\ sget "async" (request_settings r) = VUndef /\ sget "timeout" (request_settings r) = VNum 0
  /\ sget "success" (request_settings r) = success_fun /\ sget "complete" (request_settings r) = empty_fun.
Proof. destruct r; split_and!; reflexivity. Qed.

Lemma request_headers r q :
  let o := get_settings (js "/data") q (request_settings r) in
  exists h m, headers o (VStr (js "json")) = Ret h /\ override_mime o (VStr (js "json")) = Ret m.
Proof.
  intros o. destruct (request_settings_other r) as (Ea & Ec & Eh & Em & _).
  assert (sget "data" o = VUndef) as Ed by apply sget_sset_eq.
  rewrite <- (get_settings_other "accepts" (js "/data") q) in Ea by differ.
  rewrite <- (get_settings_other "contentType" (js "/data") q) in Ec by differ.
  rewrite <- (get_settings_other "headers" (js "/data") q) in Eh by differ.
  rewrite <- (get_settings_other "mimeType" (js "/data") q) in Em by differ.
  fold o in Ea, Ec, Eh, Em. unfold headers, override_mime. rewrite Ea, Ec, Eh, Em, Ed.
  assert (prop (VObj accepts) (to_string (VStr (js "json"))) = Ret (VStr jsonType)) as -> by reflexivity.
  cbn [mbind result_bind as_object foldl]. change (truthy VUndef) with false.
  change (truthy (VStr jsonType)) with true. cbn [mbind result_bind as_str]. eexists _, _. split; reflexivity.
Qed.

Lemma handle_json o p body data :
  is_blank body = false -> json_parse body = Ret data ->
  handle o (VStr (js "json")) p (Response 200 (js "OK") None body VNull) = VSuccess data.
Proof.
  intros Hb Hj. unfold handle, good_status. cbn [status Z.leb Z.ltb Z.compare Pos.compare Pos.compare_cont andb orb].
  change (response_type o (VStr (js "json")) _) with (VStr (js "json")).
  cbn [is_word]. rewrite bool_decide_eq_false_2, bool_decide_eq_false_2, bool_decide_eq_true_2 by (done || differ).
  cbn [responseText]. by rewrite Hb, Hj.
Qed.

(** A request of the file list, made while the library is idle, goes out
    as a GET request whose query string the server decodes to exactly the
    texts of the page's arguments; when the server answers with JSON, the
    function [success] is called with the parsed data, followed by the other
    calls of the end, and the library is idle again with the same number of
    active requests. *)
Theorem request_delivered r now s :
  sendable r -> stack s = [] ->
  let n := length (Ajax.requests s) in
  exists q s1 rq,
    Ajax.run s (ask (VObj (request_options r)) now (active s =? 0)) = Some s1
    /\ Ajax.requests s1 !! n = Some rq /\ r_phase rq = Waiting
    /\ sget "url" (settings rq) = VStr (js "/data" ++ js "?" ++ q) /\ form_pairs q = request_pairs r
    /\ forall body data, is_blank body = false -> json_parse body = Ret data ->
         exists s2,
           Ajax.run s1 (receive n (Response 200 (js "OK") None body VNull) (active s =? 0)) = Some s2
           /\ stack s2 = [] /\ active s2 = active s
           /\ log s2 = log s1 ++ end_calls true n (Succeeded data)
                       ++ (if active s =? 0 then [LEvent n AjaxStop] else []).
Proof.
  intros Hs Hst n. destruct s as [a j rs w st lg]. cbn in Hst. subst st. cbn [Ajax.requests active log] in *.
  destruct (request_prepared r now Hs) as (q & Ep & Eq). exists q.
  destruct (request_headers r q) as (h & m & Eh & Em).
  destruct (request_settings_other r) as (_ & _ & _ & _ & Eb & Eg & Ea & Et & Esu & Eco).
  set (o := get_settings (js "/data") q (request_settings r)) in *.
  assert (forall k, js k <> js "url" -> js k <> js "data" -> js k <> js "crossDomain" ->
    sget k o = sget k (request_settings r)) as Eo by (intros; by apply get_settings_other).
  eexists _, _. split; [eapply ask_runs; [exact Ep|done|exact Eh|exact Em|..]|].
  1-5: rewrite ?Eo by differ; rewrite ?Eb, ?Ea, ?Et, ?Eg; try done.
  cbn [Ajax.requests active log]. split; [apply lookup_snoc_length|]. split; [done|].
  split; [unfold o, get_settings; cbn [settings]; by sget_simpl|]. split; [exact Eq|].
  intros body data Hb Hj. replace (a =? 0) with (a + 1 - 1 =? 0) by (f_equal; lia).
  eexists. split; [eapply receive_runs; [apply lookup_snoc_length|done|done|..]|].
  - unfold is_global. cbn [settings]. by rewrite Eo, Eg by differ.
  - cbn [settings]. by rewrite Eo, Esu by differ.
  - cbn [settings]. by rewrite Eo, Eco by differ.
  - by apply handle_json.
  - cbn. split; [done|]. split; [lia|done].
Qed.

(** *** The list and the server *)

(** What the server finds after the question mark of an address. *)
Definition query_of (url : jstr) : jstr := drop (S (Z.to_nat (str_index (js "?") url))) url.

(** The files the page gets for a request, from a server that turns the
    decoded query into the body of its answer. *)
Definition over_wire (server : list (jstr * jstr) -> jstr) (r : GameBar.request) : list game :=
  match prepare (VObj (request_options r)) 0 (request_settings r) with
  | Ret (o, dt) =>
      let body := server (form_pairs (query_of (to_string (sget "url" o)))) in
      match handle o dt (protocol o) (Response 200 (js "OK") None body VNull) with
      | VSuccess data => default [] (read_games data)
      | _ => []
      end
  | Throw => []
  end.

Lemma over_wire_get server r data :
  sendable r -> is_blank (server (request_pairs r)) = false -> json_parse (server (request_pairs r)) = Ret data ->
  over_wire server r = default [] (read_games data).
Proof.
  intros Hs Hb Hj. unfold over_wire. destruct (request_prepared r 0 Hs) as (q & -> & Eq).
  assert (sget "url" (get_settings (js "/data") q (request_settings r)) = VStr (js "/data?" ++ q)) as ->
    by (unfold get_settings; by sget_simpl).
  cbn [to_string]. assert (query_of (js "/data?" ++ q) = q) as -> by reflexivity.
  rewrite Eq. by rewrite (handle_json _ _ _ data).
Qed.

(** C9: the whole path of the file list.  On a browser with CSS transitions,
    for a user whose name has no half of a surrogate pair, with a server that
    decodes the query string, and answers a request of the user for new files
    with JSON that holds the files asked for, the page shows after [k] pulls
    (from [pullUpAction] on) exactly the first [8 (k + 1)] files of the server,
    in order. *)
Theorem paging_over_wire `{Maths} server files cp g t downH upH agent cookies k :
  let user := getCookieValue (js "username") cookies in
  well_formed user ->
  (forall from count, exists data,
     let body := server [(js "cmd", js "newFile"); (js "fromId", show_Z from); (js "count", show_Z count);
                         (js "user", user)] in
     is_blank body = false /\ json_parse body = Ret data
     /\ read_games data = Some (take (Z.to_nat count) (drop (Z.to_nat from) files))) ->
  hasTransitionEnd cp = true ->
  exists s, (s ← loaded cp g t downH upH (bar_onload agent (page0 cookies));
             s ← reply (over_wire server) s; pull_rounds (over_wire server) k s) = Done s
  /\ it_game <$> thelist (world s) = take (8 * (k + 1)) files.
Proof.
  intros user Hu Hserver Ht. eapply paging_run; [|exact Ht|done].
  intros from count. destruct (Hserver from count) as (data & Hb & Hj & Hr).
  rewrite (over_wire_get server _ data), Hr; [done| |exact Hb|exact Hj].
  split; [|exact Hu]. apply (bool_decide_unpack _). vm_compute. exact I.
Qed.

End Net.

(** ** Samples *)

Module Sample.

Export AjaxSettings.Sample.

Definition file_json (g : game) : jsval :=
  VObj [(js "id", VNum (g_id g)); (js "title_m", VStr (g_title_m g)); (js "url", VStr (g_url g));
        (js "picurl_m", VStr (g_picurl g)); (js "pv", VNum (g_pv g)); (js "descrip", VStr (g_descrip g));
        (js "hot", VNum (g_hot g)); (js "title_s", VStr (g_title_s g))].

Fixpoint read_uint (s : jstr) : Decimal.uint :=
  match s with
  | [] => Decimal.Nil
  | c :: r =>
      let u := read_uint r in
      match c with
      | 48%N => Decimal.D0 u | 49%N => Decimal.D1 u | 50%N => Decimal.D2 u | 51%N => Decimal.D3 u
      | 52%N => Decimal.D4 u | 53%N => Decimal.D5 u | 54%N => Decimal.D6 u | 55%N => Decimal.D7 u
      | 56%N => Decimal.D8 u | _ => Decimal.D9 u
      end
  end.

Definition read_Z (s : jstr) : Z :=
  match s with
  | 45%N :: r => Z.of_int (Decimal.Neg (read_uint r))
  | _ => Z.of_int (Decimal.Pos (read_uint s))
  end.

Lemma read_show z : read_Z (show_Z z) = z.
Proof.
  assert (forall u, read_uint (uint_units u) = u) as Hu by (induction u; cbn [uint_units read_uint]; congruence).
  rewrite <- (DecimalZ.of_to z) at 2. unfold show_Z, read_Z. destruct (Z.to_int z) as [u|u].
  - assert (read_Z (uint_units u) = Z.of_int (Decimal.Pos (read_uint (uint_units u)))) as E by by destruct u.
    unfold read_Z in E. by rewrite E, Hu.
  - by rewrite Hu.
Qed.

Lemma show_no_comma z : 44%N ∉ show_Z z.
Proof.
  unfold show_Z. assert (forall u, 44%N ∉ uint_units u) as Hu.
  { intros u Hin. pose proof (uint_units_digits u) as Hf. rewrite Forall_forall in Hf. by apply Hf in Hin. }
  destruct (Z.to_int z); [apply Hu|]. intros [Hc|Hin]%elem_of_cons; [done|by eapply Hu].
Qed.

Definition files : list game := GameBar.Sample.store.

(** A server whose documents name the first file and the number of files, and
    the parser that knows what they stand for. *)
Definition server (pairs : list (jstr * jstr)) : jstr :=
  match pairs with
  | [_; (_, from); (_, count); _] => 123%N :: from ++ 44%N :: count
  | _ => []
  end.

#[export] Instance parsers : Parsers := {|
  canonical_number := fun _ => None;
  json_parse := fun s =>
    match s with
    | 123%N :: r =>
        let i := Z.to_nat (str_index [44%N] r) in
        Ret (VObj [(js "games", VArr (file_json <$>
          take (Z.to_nat (read_Z (drop (S i) r))) (drop (Z.to_nat (read_Z (take i r))) files)))])
    | _ => Throw
    end;
|}.

Lemma read_file_json l : mapM read_game (file_json <$> l) = Some l.
Proof. induction l as [|g l IH]; [done|]. cbn [fmap list_fmap mapM]. rewrite IH. by destruct g. Qed.

Lemma server_answers from count : exists data,
  let body := server [(js "cmd", js "newFile"); (js "fromId", show_Z from); (js "count", show_Z count);
                      (js "user", js "bob")] in
  is_blank body = false /\ json_parse body = Ret data
  /\ read_games data = Some (take (Z.to_nat count) (drop (Z.to_nat from) files)).
Proof.
  eexists. split; [done|]. split; [done|]. cbn [read_games].
  rewrite str_index_char, Nat2Z.id, take_app_length by apply show_no_comma.
  rewrite <- (Nat.add_1_r (length _)), <- drop_drop, drop_app_length. cbn [drop]. rewrite drop_0, !read_show.
  apply read_file_json.
Qed.

#[local] Instance maths : Maths := {| m_sqrt := fun q => q; m_pow := fun _ _ => 1%Q |}.

Lemma paging_over_wire_witness :
  exists s, (s ← loaded GameBar.Sample.cp GameBar.Sample.geom 0 40 40
                  (bar_onload GameBar.Sample.agent (page0 GameBar.Sample.cookies));
             s ← reply (over_wire server) s; pull_rounds (over_wire server) 1 s) = Done s
  /\ it_game <$> thelist (world s) = take 16 files.
Proof.
  apply (paging_over_wire server files GameBar.Sample.cp GameBar.Sample.geom 0 40 40 GameBar.Sample.agent
           GameBar.Sample.cookies 1).
  - apply (bool_decide_unpack _). vm_compute. exact I.
  - exact server_answers.
  - reflexivity.
Defined.

(** The first request of the page, and the answer of that server. *)
Definition first_request : GameBar.request := RLoad (js "newFile") 0 8 (js "bob").

Lemma request_delivered_witness :
  exists q s1 rq,
    Ajax.run (Ajax.init ∅) (ask (VObj (request_options first_request)) 0 true) = Some s1
    /\ Ajax.requests s1 !! 0%nat = Some rq /\ r_phase rq = Waiting
    /\ sget "url" (settings rq) = VStr (js "/data" ++ js "?" ++ q) /\ form_pairs q = request_pairs first_request
    /\ forall body data, is_blank body = false -> json_parse body = Ret data ->
         exists s2,
           Ajax.run s1 (receive 0 (Response 200 (js "OK") None body VNull) true) = Some s2
           /\ stack s2 = [] /\ active s2 = 0
           /\ log s2 = log s1 ++ end_calls true 0 (Succeeded data) ++ [LEvent 0 AjaxStop].
Proof.
  apply (request_delivered first_request 0 (Ajax.init ∅)).
  - apply (bool_decide_unpack _). vm_compute. exact I.
  - reflexivity.
Defined.

End Sample.
