(* ===== verification/JqCallbacks.v ===== *)
(** * Callback lists and deferreds (jquery-1.7.2.js)

    [jQuery.Callbacks] keeps a list of functions and calls them when it is
    fired; [jQuery.Deferred] is made of three such lists that act on each
    other.  The functions of a list are page code, which may add to the list
    that is being fired, remove from it, fire it again, or throw; so the
    module is a machine with a call stack.  A frame of the stack is page code
    that runs, a loop of [fire] at one of its points, or calls of the library
    that are still to be made.

    The arguments of a call are an array; the context is left out.  [when]
    passes arrays it goes on writing to, so these are passed by reference. *)

From stdpp Require Import base gmap list strings.
From S2P Require Import Prelude JsString ZeptoCore.

(** ** Callback lists *)

Record flags := Flags { once : bool; with_memory : bool; unique : bool; stopOnFalse : bool }.

(** [createFlags]. *)
Definition createFlags (s : jstr) : flags :=
  let has w := bool_decide (js w ∈ split_runs s) in
  Flags (has "once"%string) (has "memory"%string) (has "unique"%string) (has "stopOnFalse"%string).

Inductive dstate := Pending | Resolved | Rejected.

#[export] Instance dstate_eq_dec : EqDecision dstate.
Proof. solve_decision. Defined.

(** The three lists of a deferred, by what fires them. *)
Inductive action := Resolve | Reject | Notify.

#[export] Instance action_eq_dec : EqDecision action.
Proof. solve_decision. Defined.

#[export] Instance action_countable : Countable action.
Proof.
  refine (inj_countable'
    (fun a => match a with Resolve => Some true | Reject => Some false | Notify => None end)
    (fun b => match b with Some true => Resolve | Some false => Reject | None => Notify end) _).
  by intros [].
Defined.

(** Lists: those the page makes, and the three of each deferred, which are
    variables of its closures. *)
Inductive lid := Raw (n : nat) | Of (a : action) (d : nat).

#[export] Instance lid_eq_dec : EqDecision lid.
Proof. solve_decision. Defined.

#[export] Instance lid_countable : Countable lid.
Proof.
  refine (inj_countable' (fun l => match l with Raw n => inl n | Of a d => inr (a, d) end)
    (fun x => match x with inl n => Raw n | inr p => Of p.1 p.2 end) _).
  by intros [].
Defined.

(** Functions: of the page, methods of lists, and the closures of [Deferred],
    [pipe] and [when]. *)
Inductive fn :=
| User (n : nat)
| Disable (l : lid)
| Lock (l : lid)
| Fire (l : lid)
| SetState (d : nat) (st : dstate)
| Pipe (n : nat) (d : nat) (a : action)
| WhenDone (w i : nat)
| WhenProgress (w i : nat).

#[export] Instance fn_eq_dec : EqDecision fn.
Proof. solve_decision. Defined.

(** The arguments of a call: an array of the caller, or one of the arrays of a
    call of [when]. *)
Inductive actuals := Actual (v : list jsval) | ArgsOf (w : nat) | PValuesOf (w : nat).

(** [memory]: undefined, [true], or the values of the last call. *)
Inductive memory := MNone | MTrue | MVal (v : actuals).

(** The variables of a list; [None] is undefined. *)
Record callbacks := Callbacks {
  c_flags : flags;
  c_list : option (list fn);
  c_stack : option (list actuals);
  c_memory : memory;
  c_fired : bool;
  c_firing : bool;
  firingStart : Z;
  firingLength : Z;
  firingIndex : Z;
}.

#[export] Instance callbacks_eta : Eta callbacks :=
  fun r => Callbacks (c_flags r) (c_list r) (c_stack r) (c_memory r) (c_fired r) (c_firing r)
    (firingStart r) (firingLength r) (firingIndex r).

Definition new_callbacks (f : flags) : callbacks :=
  Callbacks f (Some []) (Some []) MNone false false 0 0 0.

(** The arguments of [add]. *)
Inductive arg := AFn (f : fn) | AArr (l : list arg) | AOther.

(** [has]. *)
Definition has (f : fn) (c : callbacks) : bool :=
  match c_list c with Some l => bool_decide (f ∈ l) | None => false end.

(** The inner [add]. *)
Fixpoint add_arg (uniq : bool) (a : arg) (l : list fn) {struct a} : list fn :=
  match a with
  | AFn f => if uniq && bool_decide (f ∈ l) then l else l ++ [f]
  | AArr args =>
      (fix go (args : list arg) (l : list fn) : list fn :=
         match args with
         | [] => l
         | x :: args' => go args' (add_arg uniq x l)
         end) args l
  | AOther => l
  end.

Definition add_args (uniq : bool) (args : list arg) (l : list fn) : list fn := add_arg uniq (AArr args) l.

(** The loops of [remove] for one argument, from position [i] on. *)
Fixpoint remove_from (uniq firing : bool) (f : fn) (i : Z) (l : list fn) (index len : Z)
    : list fn * Z * Z :=
  match l with
  | [] => ([], index, len)
  | g :: l' =>
      if decide (f = g) then
        let '(index, len) :=
          if firing && (i <=? len) then (if i <=? index then index - 1 else index, len - 1)
          else (index, len) in
        if uniq then (l', index, len) else remove_from uniq firing f i l' index len
      else
        let '(r, index, len) := remove_from uniq firing f (i + 1) l' index len in (g :: r, index, len)
  end.

Definition remove_fn (c : callbacks) (f : fn) : callbacks :=
  match c_list c with
  | Some l =>
      let '(l', index, len) :=
        remove_from (unique (c_flags c)) (c_firing c) f 0 l (firingIndex c) (firingLength c) in
      c <| c_list := Some l' |> <| firingIndex := index |> <| firingLength := len |>
  | None => c
  end.

Definition remove (fs : list fn) (c : callbacks) : callbacks := foldl remove_fn c fs.

Definition empty (c : callbacks) : callbacks := c <| c_list := Some [] |>.

Definition disable (c : callbacks) : callbacks :=
  c <| c_list := None |> <| c_stack := None |> <| c_memory := MNone |>.

Definition disabled (c : callbacks) : bool := bool_decide (c_list c = None).

Definition lock (c : callbacks) : callbacks :=
  let c := c <| c_stack := None |> in
  match c_memory c with MVal _ => c | _ => disable c end.

Definition locked (c : callbacks) : bool := match c_stack c with None => true | _ => false end.

Definition fired (c : callbacks) : bool := c_fired c.

(** [fire] up to its loop. *)
Definition start_fire (v : actuals) (c : callbacks) : callbacks :=
  c <| c_memory := if with_memory (c_flags c) then MVal v else MTrue |>
    <| c_fired := true |> <| c_firing := true |>
    <| firingIndex := firingStart c |> <| firingStart := 0 |>
    <| firingLength := Z.of_nat (length (default [] (c_list c))) |>.

(** ** Deferreds *)

(** The variables of a call of [when]. *)
Record when_call := WhenCall {
  w_args : list jsval;
  pValues : list jsval;
  w_count : Z;
  w_deferred : nat;
}.

#[export] Instance when_eta : Eta when_call :=
  fun r => WhenCall (w_args r) (pValues r) (w_count r) (w_deferred r).

(** ** The machine *)

(** What a function returns: a value, or a deferred. *)
Inductive ret := RValue (v : jsval) | RDeferred (d : nat).

(** Calls the library has still to make. *)
Inductive op :=
| OAdd (l : lid) (args : list arg)
| OFire (l : lid) (v : actuals)
| OCount (w : nat)
| OCheck (w : nat).

(** [Code]: page code.  [Loop] and [Called] are [fire] before the test of its
    loop and during the call of a function.
    [Returned]: a function has returned to the frame below.  [Piped]: the
    closure of [pipe] waits for the page function it has called. *)
Inductive frame :=
| Code (n : nat)
| Loop (l : lid) (v : actuals)
| Called (l : lid) (v : actuals)
| Returned (r : ret)
| Piped (d : nat) (a : action)
| Todo (ops : list op).

Inductive entry :=
| LAdd (l : lid) (fs : list fn)                 (* functions are appended *)
| LCall (l : lid) (f : fn) (v : actuals) (values : list jsval)  (* a list calls a function *)
| LTypeError (l : lid)                          (* a list finds no function to call *)
| LException.

Record machine := Machine {
  raws : nat;                         (* lists the page has made *)
  lists : gmap lid callbacks;
  deferreds : list dstate;            (* [state] *)
  whens : list when_call;
  stack : list frame;
  log : list entry;
}.

#[export] Instance machine_eta : Eta machine :=
  fun r => Machine (raws r) (lists r) (deferreds r) (whens r) (stack r) (log r).

Definition push (f : frame) (s : machine) : machine := s <| stack ::= cons f |>.
Definition logged (e : entry) (s : machine) : machine := s <| log ::= fun l => l ++ [e] |>.
Definition on_list (l : lid) (f : callbacks -> callbacks) (s : machine) : machine :=
  s <| lists ::= alter f l |>.

Definition is_code (f : frame) : bool := match f with Code _ => true | _ => false end.

(** An exception passes the frames of the library and reaches page code. *)
Fixpoint unwind (st : list frame) : list frame :=
  match st with
  | [] => []
  | f :: st' => if is_code f then st else unwind st'
  end.

Definition throw (e : entry) (s : machine) : machine := logged e (s <| stack ::= unwind |>).

(** [fire]. *)
Definition fire (l : lid) (v : actuals) (s : machine) : machine :=
  push (Loop l v) (on_list l (start_fire v) s).

(** [fireWith]. *)
Definition fireWith (l : lid) (v : actuals) (s : machine) : machine :=
  match lists s !! l with
  | None => s
  | Some c =>
      match c_stack c with
      | None => s
      | Some waiting =>
          if c_firing c then
            if once (c_flags c) then s else on_list l (fun c => c <| c_stack := Some (waiting ++ [v]) |>) s
          else if once (c_flags c) && match c_memory c with MNone => false | _ => true end then s
          else fire l v s
      end
  end.

(** [self.add]. *)
Definition add (l : lid) (args : list arg) (s : machine) : machine :=
  match lists s !! l with
  | None => s
  | Some c =>
      match c_list c with
      | None => s
      | Some fs =>
          let fs' := add_args (unique (c_flags c)) args fs in
          let s := logged (LAdd l (drop (length fs) fs')) (on_list l (fun c => c <| c_list := Some fs' |>) s) in
          if c_firing c then on_list l (fun c => c <| firingLength := Z.of_nat (length fs') |>) s
          else match c_memory c with
          | MVal v => fire l v (on_list l (fun c => c <| firingStart := Z.of_nat (length fs) |>) s)
          | _ => s
          end
      end
  end.

(** [jQuery.Callbacks(flags)]. *)
Definition new_list (l : lid) (f : flags) (s : machine) : machine :=
  s <| lists ::= <[l := new_callbacks f]> |>.

Definition new_raw (f : jstr) (s : machine) : machine :=
  (new_list (Raw (raws s)) (createFlags f) s) <| raws ::= S |>.

Definition once_memory : flags := createFlags (js "once memory").
Definition memory_only : flags := createFlags (js "memory").

(** The functions that "handle state". *)
Definition state_fns (d : nat) (a : action) : list fn :=
  match a with
  | Resolve => [SetState d Resolved; Disable (Of Reject d); Lock (Of Notify d)]
  | Reject => [SetState d Rejected; Disable (Of Resolve d); Lock (Of Notify d)]
  | Notify => []
  end.

(** [jQuery.Deferred()]. *)
Definition new_deferred (s : machine) : machine :=
  let d := length (deferreds s) in
  let s := new_list (Of Resolve d) once_memory s in
  let s := new_list (Of Reject d) once_memory s in
  let s := new_list (Of Notify d) memory_only s in
  let s := s <| deferreds ::= fun l => l ++ [Pending] |> in
  let s := add (Of Resolve d) (AFn <$> state_fns d Resolve) s in
  add (Of Reject d) (AFn <$> state_fns d Reject) s.

(** [then]. *)
Definition then_ops (d : nat) (doneCallbacks failCallbacks progressCallbacks : arg) : list op :=
  [OAdd (Of Resolve d) [doneCallbacks]; OAdd (Of Reject d) [failCallbacks];
   OAdd (Of Notify d) [progressCallbacks]].

(** [always]. *)
Definition always_ops (d : nat) (args : list arg) : list op :=
  [OAdd (Of Resolve d) args; OAdd (Of Reject d) args].

(** What [pipe] adds to one of the lists: [None] is an argument that is no
    function. *)
Definition pipe_op (d newDefer : nat) (a : action) (f : option nat) : op :=
  OAdd (Of a d) [AFn match f with Some n => Pipe n newDefer a | None => Fire (Of a newDefer) end].

Definition pipe (d : nat) (fnDone fnFail fnProgress : option nat) (s : machine) : machine :=
  let newDefer := length (deferreds s) in
  push (Todo [pipe_op d newDefer Resolve fnDone; pipe_op d newDefer Reject fnFail;
              pipe_op d newDefer Notify fnProgress]) (new_deferred s).

(** The closure of [pipe] when its function has returned. *)
Definition piped (newDefer : nat) (a : action) (r : ret) (s : machine) : machine :=
  match r with
  | RValue v => fireWith (Of a newDefer) (Actual [v]) s
  | RDeferred d =>
      push (Todo (then_ops d (AFn (Fire (Of Resolve newDefer))) (AFn (Fire (Of Reject newDefer)))
                    (AFn (Fire (Of Notify newDefer))))) s
  end.

(** An argument of [when]. *)
Inductive warg := WDeferred (d : nat) | WValue (v : jsval).

Definition warg_value (a : warg) : jsval := match a with WValue v => v | WDeferred _ => VUndef end.

(** What the loop of [when] does with its arguments, from number [i] on. *)
Fixpoint when_ops (w i : nat) (deferred : nat) (args : list warg) : list op :=
  match args with
  | [] => []
  | WDeferred d :: args' =>
      then_ops d (AFn (WhenDone w i)) (AFn (Fire (Of Reject deferred))) (AFn (WhenProgress w i))
        ++ when_ops w (S i) deferred args'
  | WValue _ :: args' => OCount w :: when_ops w (S i) deferred args'
  end.

Definition when (args : list warg) (s : machine) : machine :=
  let deferred := length (deferreds s) in
  match args with
  | [WDeferred _] => s
  | [] | [_] => push (Todo [OFire (Of Resolve deferred) (Actual (warg_value <$> args))]) (new_deferred s)
  | _ =>
      let w := length (whens s) in
      push (Todo (when_ops w 0 deferred args ++ [OCheck w]))
        ((new_deferred s) <| whens ::= fun l => l ++ [WhenCall (warg_value <$> args)
                                                       (replicate (length args) VUndef)
                                                       (Z.of_nat (length args)) deferred] |>)
  end.

(** [deferred.resolveWith(deferred, args)] of a call of [when]. *)
Definition when_resolve (w : nat) (c : when_call) (s : machine) : machine :=
  fireWith (Of Resolve (w_deferred c)) (ArgsOf w) s.

(** [arguments.length > 1 ? sliceDeferred.call(arguments, 0) : value]. *)
Definition value_of (args : list jsval) : jsval :=
  match args with [] => VUndef | [v] => v | _ => VArr args end.

(** The functions of [resolveFunc] and [progressFunc]. *)
Definition when_done (w i : nat) (v : list jsval) (s : machine) : machine :=
  match whens s !! w with
  | Some c =>
      let c := c <| w_args ::= <[i := value_of v]> |> <| w_count ::= fun n => n - 1 |> in
      let s := s <| whens ::= <[w := c]> |> in
      if w_count c =? 0 then when_resolve w c s else s
  | None => s
  end.

Definition when_progress (w i : nat) (v : list jsval) (s : machine) : machine :=
  match whens s !! w with
  | Some c =>
      let c := c <| pValues ::= <[i := value_of v]> |> in
      let s := s <| whens ::= <[w := c]> |> in
      fireWith (Of Notify (w_deferred c)) (PValuesOf w) s
  | None => s
  end.

(** ** Steps *)

(** The elements of an array of arguments, when the call is made. *)
Definition values (v : actuals) (s : machine) : list jsval :=
  match v with
  | Actual l => l
  | ArgsOf w => from_option w_args [] (whens s !! w)
  | PValuesOf w => from_option pValues [] (whens s !! w)
  end.

(** A list calls a function of its own with [v]; the frame of the loop is
    below. *)
Definition invoke (f : fn) (v : list jsval) (s : machine) : machine :=
  let done s := push (Returned (RValue VUndef)) s in
  match f with
  | User n => push (Code n) s
  | Disable l => done (on_list l disable s)
  | Lock l => done (on_list l lock s)
  | Fire l => fireWith l (Actual v) (done s)
  | SetState d st => done (s <| deferreds ::= <[d := st]> |>)
  | Pipe n d a => push (Code n) (push (Piped d a) s)
  | WhenDone w i => when_done w i v (done s)
  | WhenProgress w i => when_progress w i v (done s)
  end.

(** The end of [fire]. *)
Definition finish (l : lid) (c : callbacks) (s : machine) : machine :=
  let s := on_list l (fun c => c <| c_firing := false |>) s in
  match c_list c with
  | None => s
  | Some _ =>
      if once (c_flags c) then
        match c_memory c with
        | MTrue => on_list l disable s
        | _ => on_list l (fun c => c <| c_list := Some [] |>) s
        end
      else match c_stack c with
      | Some (v :: waiting) =>
          fireWith l v (on_list l (fun c => c <| c_stack := Some waiting |> <| c_memory := MVal v |>) s)
      | _ => s
      end
  end.

(** The loop of [fire]. *)
Definition loop (l : lid) (v : actuals) (c : callbacks) (s : machine) : machine :=
  match c_list c with
  | Some fs =>
      if firingIndex c <? firingLength c then
        match (if firingIndex c <? 0 then None else fs !! Z.to_nat (firingIndex c)) with
        | Some f => invoke f (values v s) (logged (LCall l f v (values v s)) (push (Called l v) s))
        | None => throw (LTypeError l) s
        end
      else finish l c s
  | None => finish l c s
  end.

Definition is_false (r : ret) : bool := match r with RValue (VBool false) => true | _ => false end.

(** A function of the list has returned. *)
Definition called (l : lid) (v : actuals) (r : ret) (c : callbacks) (s : machine) : machine :=
  if is_false r && stopOnFalse (c_flags c)
  then finish l (c <| c_memory := MTrue |>) (on_list l (fun c => c <| c_memory := MTrue |>) s)
  else push (Loop l v) (on_list l (fun c => c <| firingIndex ::= Z.add 1 |>) s).

Definition run_op (o : op) (s : machine) : machine :=
  match o with
  | OAdd l args => add l args s
  | OFire l v => fireWith l v s
  | OCount w => s <| whens ::= alter (fun c => c <| w_count ::= fun n => n - 1 |>) w |>
  | OCheck w =>
      match whens s !! w with
      | Some c => if w_count c =? 0 then when_resolve w c s else s
      | None => s
      end
  end.

Definition library_step (s : machine) : option machine :=
  match stack s with
  | Loop l v :: st => c ← lists s !! l; Some (loop l v c (s <| stack := st |>))
  | Returned r :: Called l v :: st => c ← lists s !! l; Some (called l v r c (s <| stack := st |>))
  | Returned r :: Piped d a :: st =>
      Some (piped d a r (s <| stack := Returned (RValue VUndef) :: st |>))
  | Todo [] :: st => Some (s <| stack := st |>)
  | Todo (o :: ops) :: st => Some (run_op o (s <| stack := Todo ops :: st |>))
  | _ => None
  end.

(** ** What page code does *)

(** The lists the page can name. *)
Definition is_raw (l : lid) : bool := match l with Raw _ => true | Of _ _ => false end.

(** The functions the page can name: its own, the methods of its lists, and
    what fires a list of a deferred. *)
Definition page_fn (f : fn) : bool :=
  match f with
  | User _ | Fire _ => true
  | Disable l | Lock l => is_raw l
  | _ => false
  end.

Fixpoint page_arg (a : arg) : bool :=
  match a with
  | AFn f => page_fn f
  | AArr l => forallb page_arg l
  | AOther => true
  end.

(** The page names deferreds that have been made. *)
Definition made (s : machine) (d : nat) : bool := Nat.ltb d (length (deferreds s)).

Definition known (s : machine) (a : warg) : bool :=
  match a with WDeferred d => made s d | WValue _ => true end.

Inductive event :=
| ELibrary
| EReturn (r : ret)
| EThrow
| ENewList (flags : jstr)
| ENewDeferred
| EAdd (l : lid) (args : list arg)
| ERemove (l : lid) (fs : list fn)
| EEmpty (l : lid)
| EDisable (l : lid)
| ELock (l : lid)
| EFireWith (l : lid) (v : list jsval)
| EDeferredAdd (d : nat) (a : action) (args : list arg)        (* done, fail, progress *)
| EThen (d : nat) (doneCallbacks failCallbacks progressCallbacks : arg)
| EAlways (d : nat) (args : list arg)
| ESettle (d : nat) (a : action) (v : list jsval)                   (* resolve, reject, notify *)
| EPipe (d : nat) (fnDone fnFail fnProgress : option nat)
| EWhen (args : list warg).

(** Page code runs: a function of the page, or its top level. *)
Definition page_runs (s : machine) : bool :=
  match stack s with [] => true | f :: _ => is_code f end.

Definition page_step (e : event) (s : machine) : option machine :=
  match e with
  | ELibrary => None
  | EReturn r =>
      match stack s with Code _ :: st => Some (s <| stack := Returned r :: st |>) | _ => None end
  | EThrow =>
      match stack s with
      | Code _ :: st => Some (throw LException (s <| stack := st |>))
      | _ => None
      end
  | ENewList f => Some (new_raw f s)
  | ENewDeferred => Some (new_deferred s)
  | EAdd l args => if is_raw l && forallb page_arg args then Some (add l args s) else None
  | ERemove l fs => if is_raw l then Some (on_list l (remove fs) s) else None
  | EEmpty l => if is_raw l then Some (on_list l empty s) else None
  | EDisable l => if is_raw l then Some (on_list l disable s) else None
  | ELock l => if is_raw l then Some (on_list l lock s) else None
  | EFireWith l v => if is_raw l then Some (fireWith l (Actual v) s) else None
  | EDeferredAdd d a args =>
      if made s d && forallb page_arg args then Some (add (Of a d) args s) else None
  | EThen d a b c =>
      if made s d && forallb page_arg [a; b; c] then Some (push (Todo (then_ops d a b c)) s) else None
  | EAlways d args =>
      if made s d && forallb page_arg args then Some (push (Todo (always_ops d args)) s) else None
  | ESettle d a v => if made s d then Some (fireWith (Of a d) (Actual v) s) else None
  | EPipe d a b c => if made s d then Some (pipe d a b c s) else None
  | EWhen args => if forallb (known s) args then Some (when args s) else None
  end.

Definition step (s : machine) (e : event) : option machine :=
  match e with
  | ELibrary => library_step s
  | _ => if page_runs s then page_step e s else None
  end.

Fixpoint run (s : machine) (l : list event) : option machine :=
  match l with
  | [] => Some s
  | e :: l' => s' ← step s e; run s' l'
  end.

Definition init : machine := Machine 0 ∅ [] [] [] [].
