(* ===== verification/JqDeferred.v ===== *)
(** * Deferreds keep their promises (jquery-1.7.2.js)

    The machine of [JqCallbacks], seen from one list of a deferred, moves by
    the rules of [lstep] only ([step_sim]); so the life of a list is an
    invariant by rule induction ([LInv]), whatever the page's functions do in
    between.  On it rest the theorems on deferreds: what is called, in which
    order and with what, and that a deferred is settled once. *)

From stdpp Require Import base gmap list strings.
From S2P Require Import Prelude JsString ZeptoCore JqCallbacks.

(** ** One list *)

(** The frames of a list, and the entries of the log that concern it. *)
Definition owns (l : lid) (f : frame) : bool :=
  match f with Loop l' _ | Called l' _ => bool_decide (l' = l) | _ => false end.

Definition about (l : lid) (e : entry) : bool :=
  match e with LAdd l' _ | LCall l' _ _ _ => bool_decide (l' = l) | LTypeError _ | LException => true end.

Definition exceptional (e : entry) : bool :=
  match e with LTypeError _ | LException => true | _ => false end.

Definition frames (l : lid) (st : list frame) : list frame := List.filter (owns l) st.
Definition entries (l : lid) (lg : list entry) : list entry := List.filter (about l) lg.

#[global] Arguments frames : simpl never.
#[global] Arguments entries : simpl never.

Record lview := LView { v_list : callbacks; v_frames : list frame; v_log : list entry }.

Definition view (l : lid) (c : callbacks) (s : machine) : lview :=
  LView c (frames l (stack s)) (entries l (log s)).

(** The loop of [fire] ends, and what [fire] does then when no call waits. *)
Definition ended (c : callbacks) : Prop :=
  forall fs, c_list c = Some fs -> firingLength c <= firingIndex c.

Definition after_fire (c : callbacks) : callbacks :=
  let c' := c <| c_firing := false |> in
  match c_list c with
  | None => c'
  | Some _ =>
      if once (c_flags c) then
        match c_memory c with MTrue => disable c' | _ => c' <| c_list := Some [] |> end
      else c'
  end.

(** What can happen to a list of a deferred. *)
Inductive lstep (l : lid) : lview -> lview -> Prop :=
| s_append c fr lg fs new :
    c_list c = Some fs -> c_firing c = false -> (forall v, c_memory c <> MVal v) ->
    lstep l (LView c fr lg) (LView (c <| c_list := Some (fs ++ new) |>) fr (lg ++ [LAdd l new]))
| s_append_firing c fr lg fs new :
    c_list c = Some fs -> c_firing c = true ->
    lstep l (LView c fr lg)
      (LView (c <| c_list := Some (fs ++ new) |> <| firingLength := Z.of_nat (length (fs ++ new)) |>)
         fr (lg ++ [LAdd l new]))
| s_append_fire c fr lg fs new v :
    c_list c = Some fs -> c_firing c = false -> c_memory c = MVal v ->
    lstep l (LView c fr lg)
      (LView (start_fire v (c <| c_list := Some (fs ++ new) |> <| firingStart := Z.of_nat (length fs) |>))
         (Loop l v :: fr) (lg ++ [LAdd l new]))
| s_queue c fr lg w v :
    c_stack c = Some w -> c_firing c = true -> once (c_flags c) = false ->
    lstep l (LView c fr lg) (LView (c <| c_stack := Some (w ++ [v]) |>) fr lg)
| s_start c fr lg w v :
    c_stack c = Some w -> c_firing c = false -> (once (c_flags c) = true -> c_memory c = MNone) ->
    lstep l (LView c fr lg) (LView (start_fire v c) (Loop l v :: fr) lg)
| s_call c fr lg fs f v x :
    c_list c = Some fs -> 0 <= firingIndex c < firingLength c ->
    fs !! Z.to_nat (firingIndex c) = Some f ->
    lstep l (LView c (Loop l v :: fr) lg) (LView c (Called l v :: fr) (lg ++ [LCall l f v x]))
| s_type_error c fr fr' lg fs v :
    c_list c = Some fs -> firingIndex c < firingLength c ->
    (0 <= firingIndex c -> fs !! Z.to_nat (firingIndex c) = None) -> fr' `suffix_of` fr ->
    lstep l (LView c (Loop l v :: fr) lg) (LView c fr' (lg ++ [LTypeError l]))
| s_return c fr lg v :
    lstep l (LView c (Called l v :: fr) lg) (LView (c <| firingIndex ::= Z.add 1 |>) (Loop l v :: fr) lg)
| s_finish c fr lg v :
    ended c -> lstep l (LView c (Loop l v :: fr) lg) (LView (after_fire c) fr lg)
| s_finish_next c fr lg v fs v' w :
    ended c -> c_list c = Some fs -> once (c_flags c) = false -> c_stack c = Some (v' :: w) ->
    lstep l (LView c (Loop l v :: fr) lg)
      (LView (start_fire v' (c <| c_firing := false |> <| c_stack := Some w |> <| c_memory := MVal v' |>))
         (Loop l v' :: fr) lg)
| s_halt c c' fr fr' lg v :                     (* no list of a deferred has this flag *)
    stopOnFalse (c_flags c) = true -> lstep l (LView c (Called l v :: fr) lg) (LView c' fr' lg)
| s_disable c fr lg : lstep l (LView c fr lg) (LView (disable c) fr lg)
| s_lock c fr lg : lstep l (LView c fr lg) (LView (lock c) fr lg)
| s_unwind c fr fr' lg e :
    exceptional e = true -> e <> LTypeError l -> fr' `suffix_of` fr ->
    lstep l (LView c fr lg) (LView c fr' (lg ++ [e])).

(** ** The machine follows the rules *)

(** A list that has not been made is an empty one. *)
Definition flags_of (l : lid) : flags := match l with Of Notify _ => memory_only | _ => once_memory end.

Definition get (l : lid) (s : machine) : callbacks := default (new_callbacks (flags_of l)) (lists s !! l).

(** From [s] to [s'], list [l] moves by the rules. *)
Definition sim (l : lid) (s s' : machine) : Prop :=
  rtc (lstep l) (view l (get l s) s) (view l (get l s') s').

#[export] Instance sim_refl l : Reflexive (sim l).
Proof. intros s. unfold sim. reflexivity. Qed.

#[export] Instance sim_trans l : Transitive (sim l).
Proof. intros s1 s2 s3 H1 H2. unfold sim in *. by etrans. Qed.

Lemma sim_get l s s' :
  get l s' = get l s -> frames l (stack s') = frames l (stack s) ->
  entries l (log s') = entries l (log s) -> sim l s s'.
Proof. intros H1 H2 H3. unfold sim, view. by rewrite H1, H2, H3. Qed.

Lemma sim_same l s s' :
  lists s' !! l = lists s !! l -> frames l (stack s') = frames l (stack s) ->
  entries l (log s') = entries l (log s) -> sim l s s'.
Proof. intros H1. apply sim_get. unfold get. by rewrite H1. Qed.

Lemma get_some l s c : lists s !! l = Some c -> get l s = c.
Proof. intros H. unfold get. by rewrite H. Qed.

Lemma sim_once l s s' c c' :
  lists s !! l = Some c -> lists s' !! l = Some c' ->
  lstep l (view l c s) (view l c' s') -> sim l s s'.
Proof. intros H1 H2 H3. unfold sim. rewrite (get_some _ _ _ H1), (get_some _ _ _ H2). by apply rtc_once. Qed.

Lemma owns_self l v : owns l (Loop l v) = true /\ owns l (Called l v) = true.
Proof. cbn. by rewrite bool_decide_true. Qed.

Lemma frames_cons l f st : frames l (f :: st) = if owns l f then f :: frames l st else frames l st.
Proof. done. Qed.

Lemma entries_snoc l e lg : entries l (lg ++ [e]) = entries l lg ++ (if about l e then [e] else []).
Proof. unfold entries. rewrite List.filter_app. cbn. by destruct (about l e). Qed.

Lemma unwind_frames l st : frames l (unwind st) `suffix_of` frames l st.
Proof.
  induction st as [|f st IH]; [done|]. cbn [unwind]. destruct (is_code f) eqn:E; [done|].
  rewrite frames_cons. destruct (owns l f); [|done]. by apply suffix_cons_r.
Qed.

Lemma add_arg_app u a : forall l, exists new, add_arg u a l = l ++ new.
Proof.
  revert a. fix IH 1. intros [f|args|] l; cbn [add_arg].
  - destruct (u && bool_decide (f ∈ l)); [exists []; by rewrite app_nil_r|by exists [f]].
  - revert l. induction args as [|x args IHa]; intros l; [exists []; by rewrite app_nil_r|].
    destruct (IH x l) as [n1 ->]. destruct (IHa (l ++ n1)) as [n2 E]. exists (n1 ++ n2).
    by rewrite E, app_assoc.
  - exists []. by rewrite app_nil_r.
Qed.

Lemma add_args_app u args l : exists new, add_args u args l = l ++ new.
Proof. apply add_arg_app. Qed.

(** Acting on another list. *)
Lemma sim_on_other l l' f s : l' <> l -> sim l s (on_list l' f s).
Proof. intros H. apply sim_same; [|done|done]. cbn. by rewrite lookup_alter_ne. Qed.

Lemma sim_logged_other l e s : about l e = false -> sim l s (logged e s).
Proof. intros H. apply sim_same; [done|done|]. cbn. by rewrite entries_snoc, H, app_nil_r. Qed.

Lemma sim_push_other l f s : owns l f = false -> sim l s (push f s).
Proof. intros H. apply sim_same; [done| |done]. cbn. by rewrite frames_cons, H. Qed.

Lemma sim_fire_other l l' v s : l' <> l -> sim l s (fire l' v s).
Proof.
  intros H. unfold fire. etrans; [by apply sim_on_other|]. apply sim_push_other. cbn.
  by rewrite bool_decide_false.
Qed.

Lemma sim_fireWith l l' v s : sim l s (fireWith l' v s).
Proof.
  unfold fireWith. destruct (lists s !! l') as [c|] eqn:Hc; [|done].
  destruct (c_stack c) as [w|] eqn:Hw; [|done]. destruct (decide (l' = l)) as [->|Hl].
  - destruct (c_firing c) eqn:Hf.
    + destruct (once (c_flags c)) eqn:Ho; [done|]. eapply sim_once; [done|cbn; by rewrite lookup_alter_eq, Hc|].
      by apply s_queue.
    + destruct (once (c_flags c) && _) eqn:Ho; [done|].
      eapply sim_once; [done|cbn; by rewrite lookup_alter_eq, Hc|].
      unfold view. cbn. rewrite frames_cons. rewrite (proj1 (owns_self l v)). apply s_start with w; [done..|].
      intros E. rewrite E in Ho. by destruct (c_memory c).
  - destruct (c_firing c); [destruct (once _); [done|by apply sim_on_other]|].
    destruct (_ && _); [done|by apply sim_fire_other].
Qed.

Lemma sim_add l l' args s : sim l s (add l' args s).
Proof.
  unfold add. destruct (lists s !! l') as [c|] eqn:Hc; [|done].
  destruct (c_list c) as [fs|] eqn:Hfs; [|done].
  destruct (add_args_app (unique (c_flags c)) args fs) as [new ->]. rewrite drop_app_length.
  destruct (decide (l' = l)) as [->|Hl].
  - assert (about l (LAdd l new) = true) as Ha by (cbn; by rewrite bool_decide_true).
    destruct (c_firing c) eqn:Hf; [|destruct (c_memory c) as [| |v] eqn:Hm].
    all: eapply sim_once; [done|cbn; by rewrite ?lookup_alter_eq, ?Hc|].
    all: unfold view; cbn [log stack]; cbn; rewrite entries_snoc, Ha.
    + by apply s_append_firing.
    + apply s_append; [done..|]. by rewrite Hm.
    + apply s_append; [done..|]. by rewrite Hm.
    + rewrite frames_cons, (proj1 (owns_self l v)). by eapply (s_append_fire l c).
  - assert (about l (LAdd l' new) = false) as Ha by (cbn; by rewrite bool_decide_false).
    etrans; [by apply (sim_on_other l l')|]. etrans; [by apply sim_logged_other|].
    destruct (c_firing c); [by apply sim_on_other|]. destruct (c_memory c); [done|done|].
    etrans; [|by apply sim_fire_other]. by apply sim_on_other.
Qed.

Lemma sim_disable l l' s : sim l s (on_list l' disable s).
Proof.
  destruct (decide (l' = l)) as [->|Hl]; [|by apply sim_on_other].
  destruct (lists s !! l) as [c|] eqn:Hc.
  - eapply sim_once; [done|cbn; by rewrite lookup_alter_eq, Hc|]. apply s_disable.
  - apply sim_same; [|done|done]. cbn. by rewrite lookup_alter_eq, Hc.
Qed.

Lemma sim_lock l l' s : sim l s (on_list l' lock s).
Proof.
  destruct (decide (l' = l)) as [->|Hl]; [|by apply sim_on_other].
  destruct (lists s !! l) as [c|] eqn:Hc.
  - eapply sim_once; [done|cbn; by rewrite lookup_alter_eq, Hc|]. apply s_lock.
  - apply sim_same; [|done|done]. cbn. by rewrite lookup_alter_eq, Hc.
Qed.

Lemma sim_throw l e s : exceptional e = true -> e <> LTypeError l -> sim l s (throw e s).
Proof.
  intros He Hl. apply rtc_once. unfold view, throw. cbn.
  rewrite entries_snoc. assert (about l e = true) as -> by by destruct e. apply s_unwind; [done..|].
  apply unwind_frames.
Qed.

Lemma sim_new_list l l' f s :
  (l' = l -> f = flags_of l /\ lists s !! l = None) -> sim l s (new_list l' f s).
Proof.
  intros H. apply sim_get; [|done|done]. unfold get. cbn. destruct (decide (l' = l)) as [->|Hl].
  - destruct (H eq_refl) as [-> E]. by rewrite lookup_insert_eq, E.
  - by rewrite lookup_insert_ne.
Qed.

Lemma sim_when_done l w i v s : sim l s (when_done w i v s).
Proof.
  unfold when_done. destruct (whens s !! w) as [c|]; [|done].
  destruct (_ =? 0); [|by apply sim_same]. unfold when_resolve. etrans; [|apply sim_fireWith]. by apply sim_same.
Qed.

Lemma sim_when_progress l w i v s : sim l s (when_progress w i v s).
Proof.
  unfold when_progress. destruct (whens s !! w) as [c|]; [|done].
  etrans; [|apply sim_fireWith]. by apply sim_same.
Qed.

Lemma sim_invoke l f v s : sim l s (invoke f v s).
Proof.
  assert (forall s, sim l s (push (Returned (RValue VUndef)) s)) as Hr by (intros; by apply sim_push_other).
  destruct f; cbn [invoke].
  - by apply sim_push_other.
  - etrans; [apply sim_disable|apply Hr].
  - etrans; [apply sim_lock|apply Hr].
  - etrans; [apply Hr|apply sim_fireWith].
  - etrans; [|apply Hr]. by apply sim_same.
  - etrans; by apply sim_push_other.
  - etrans; [apply Hr|apply sim_when_done].
  - etrans; [apply Hr|apply sim_when_progress].
Qed.

Lemma sim_run_op l o s : sim l s (run_op o s).
Proof.
  destruct o as [l' args|l' v|w|w]; cbn [run_op].
  - apply sim_add.
  - apply sim_fireWith.
  - by apply sim_same.
  - destruct (whens s !! w) as [c|]; [|done]. destruct (_ =? 0); [|done]. apply sim_fireWith.
Qed.

Lemma sim_piped l d a r s : sim l s (piped d a r s).
Proof. destruct r; [apply sim_fireWith|by apply sim_push_other]. Qed.

(** ** Steps *)

Lemma sim_pop_other l f st s : stack s = f :: st -> owns l f = false -> sim l s (s <| stack := st |>).
Proof. intros Hs Hf. apply sim_same; [done| |done]. cbn. by rewrite Hs, frames_cons, Hf. Qed.

Lemma owns_other l l' v :
  l' <> l -> owns l (Loop l' v) = false /\ owns l (Called l' v) = false.
Proof. intros H. cbn. by rewrite bool_decide_false. Qed.

(** Replacing the top frame of a list. *)
Lemma view_top l s f st : stack s = f :: st -> owns l f = true -> frames l (stack s) = f :: frames l st.
Proof. intros Hs H. rewrite Hs. by rewrite frames_cons, H. Qed.

Lemma log_fireWith l v s : log (fireWith l v s) = log s.
Proof. unfold fireWith. repeat case_match; done. Qed.

Lemma log_finish l c s : log (finish l c s) = log s.
Proof. unfold finish. repeat case_match; try done. by rewrite log_fireWith. Qed.

Lemma sim_finish_other l l' c s : l' <> l -> sim l s (finish l' c s).
Proof.
  intros Hl. unfold finish. etrans; [by apply (sim_on_other l l')|]. destruct (c_list c); [|done].
  destruct (once _).
  - destruct (c_memory c); [by apply sim_on_other|apply sim_disable|by apply sim_on_other].
  - destruct (c_stack c) as [[|v w]|]; [done| |done]. etrans; [|apply sim_fireWith]. by apply sim_on_other.
Qed.

Lemma sim_finish l v c st s :
  stack s = Loop l v :: st -> lists s !! l = Some c -> ended c -> sim l s (finish l c (s <| stack := st |>)).
Proof.
  intros Hs Hc He. destruct (owns_self l v) as (O1 & _). pose proof (view_top _ _ _ _ Hs O1) as Hv.
  pose proof (s_finish l c (frames l st) (entries l (log s)) v He) as Hstep. unfold after_fire in Hstep.
  unfold finish. destruct (c_list c) as [fs|] eqn:Hfs; [destruct (once (c_flags c)) eqn:Ho|].
  - destruct (c_memory c); (eapply (sim_once _ _ _ c); [done|cbn; by rewrite !lookup_alter_eq, Hc|]);
      unfold view; by rewrite Hv.
  - destruct (c_stack c) as [[|v' w]|] eqn:Hw.
    2: { unfold fireWith. cbn. rewrite !lookup_alter_eq, Hc. cbn. rewrite Ho. cbn.
         eapply (sim_once _ _ _ c); [done|cbn; by rewrite !lookup_alter_eq, Hc|].
         unfold view. rewrite Hv. cbn. rewrite frames_cons. cbn. rewrite bool_decide_true by done.
         by eapply (s_finish_next l c). }
    all: eapply (sim_once _ _ _ c); [done|cbn; by rewrite lookup_alter_eq, Hc|]; unfold view; by rewrite Hv.
  - eapply (sim_once _ _ _ c); [done|cbn; by rewrite lookup_alter_eq, Hc|]. unfold view; by rewrite Hv.
Qed.

Lemma sim_loop l l' v c st s :
  stack s = Loop l' v :: st -> lists s !! l' = Some c -> sim l s (loop l' v c (s <| stack := st |>)).
Proof.
  intros Hs Hc. unfold loop. destruct (decide (l' = l)) as [->|Hl].
  - destruct (owns_self l v) as (O1 & O2). pose proof (view_top _ _ _ _ Hs O1) as Hv.
    pose proof (fun H => sim_finish l v c st s Hs Hc H) as Hx. unfold ended in Hx.
    destruct (c_list c) as [fs|] eqn:Hfs; [|by apply Hx].
    destruct (firingIndex c <? firingLength c) eqn:Hi; [|apply Hx; intros; simplify_eq; lia].
    destruct (if firingIndex c <? 0 then None else _) as [f|] eqn:Hf.
    + destruct (firingIndex c <? 0) eqn:H0; [done|]. etrans; [|apply sim_invoke].
      eapply (sim_once _ _ _ c c); [done|done|]. unfold view. rewrite Hv. cbn -[values].
      rewrite frames_cons, O2, entries_snoc. cbn -[values]. rewrite bool_decide_true by done.
      apply s_call with fs; [done|lia|done].
    + eapply (sim_once _ _ _ c c); [done|done|]. unfold view. rewrite Hv. cbn. rewrite entries_snoc. cbn.
      apply s_type_error with fs; [done|lia| |apply unwind_frames]. intros H0.
      destruct (firingIndex c <? 0) eqn:E; [lia|done].
  - destruct (owns_other l l' v Hl) as (O1 & O2). etrans; [by eapply sim_pop_other|].
    pose proof (sim_finish_other l l' c (s <| stack := st |>) Hl) as Hx.
    destruct (c_list c) as [fs|]; [|done]. destruct (_ <? _); [|done].
    destruct (if firingIndex c <? 0 then None else _) as [f|].
    + etrans; [|apply sim_invoke]. etrans; [by apply (sim_push_other l (Called l' v))|].
      apply sim_logged_other. cbn. by rewrite bool_decide_false.
    + apply sim_throw; [done|]. by intros [=].
Qed.

Lemma sim_called l l' v r c st s :
  stack s = Returned r :: Called l' v :: st -> lists s !! l' = Some c ->
  sim l s (called l' v r c (s <| stack := st |>)).
Proof.
  intros Hs Hc. unfold called. destruct (decide (l' = l)) as [->|Hl].
  - destruct (owns_self l v) as (O1 & O2).
    assert (frames l (stack s) = Called l v :: frames l st) as Hv by by rewrite Hs, !frames_cons, O2.
    destruct (_ && _) eqn:Hh.
    + apply andb_true_iff in Hh as [_ Hh]. unfold sim. rewrite (get_some _ _ _ Hc). unfold view at 1.
      rewrite Hv. apply rtc_once. unfold view. rewrite log_finish.
      by apply s_halt.
    + eapply sim_once; [done|cbn; by rewrite lookup_alter_eq, Hc|].
      unfold view; rewrite Hv; cbn; rewrite frames_cons, O1. apply (s_return l c).
  - destruct (owns_other l l' v Hl) as (O1 & O2).
    assert (sim l s (s <| stack := st |>)) as Hp.
    { apply sim_same; [done| |done]. cbn. by rewrite Hs, !frames_cons, O2. }
    destruct (_ && _); (etrans; [exact Hp|]); (etrans; [by apply (sim_on_other l l')|]).
    + by apply sim_finish_other.
    + by apply sim_push_other.
Qed.

Lemma sim_library l s s' : library_step s = Some s' -> sim l s s'.
Proof.
  unfold library_step. destruct (stack s) as [|[] st] eqn:Hs; try done.
  - destruct (lists s !! l0) as [c|] eqn:Hc; [|done]. cbn. intros [= <-]. by apply sim_loop.
  - destruct st as [|[] st]; try done.
    + destruct (lists s !! l0) as [c|] eqn:Hc; [|done]. cbn. intros [= <-]. by eapply sim_called.
    + intros [= <-]. etrans; [|apply sim_piped]. apply sim_same; [done| |done]. cbn. by rewrite Hs.
  - destruct ops as [|o ops]; intros [= <-]; [by eapply sim_pop_other|].
    etrans; [|apply sim_run_op]. apply sim_same; [done| |done]. cbn. by rewrite Hs.
Qed.

(** No list and no deferred is made. *)
Definition kept (s s' : machine) : Prop :=
  (forall l, lists s' !! l = None <-> lists s !! l = None) /\ length (deferreds s') = length (deferreds s).

Lemma kept_on_list l f s s' : kept s s' -> kept s (on_list l f s').
Proof.
  intros [H1 H2]. split; [|done]. intros l'. etrans; [|apply H1]. cbn. destruct (decide (l = l')) as [->|Hn].
  - rewrite lookup_alter_eq. by destruct (lists s' !! l').
  - by rewrite lookup_alter_ne.
Qed.

Lemma kept_fireWith l v s s' : kept s s' -> kept s (fireWith l v s').
Proof.
  intros H. unfold fireWith, fire, push. repeat case_match; try done; try by apply kept_on_list.
Qed.

Lemma kept_add l args s s' : kept s s' -> kept s (add l args s').
Proof.
  intros H. unfold add, fire, push, logged. repeat case_match; try done.
  all: repeat first [apply kept_on_list | split; [apply H|apply H]
    | match goal with |- kept _ (?m <| stack ::= _ |>) => change (kept s m) end
    | match goal with |- kept _ (?m <| log ::= _ |>) => change (kept s m) end]; done.
Qed.

Lemma kept_invoke f v s s' : kept s s' -> kept s (invoke f v s').
Proof.
  intros H. destruct f; cbn [invoke]; try done.
  - by apply (kept_on_list l disable).
  - by apply (kept_on_list l lock).
  - by apply kept_fireWith.
  - destruct H as [H1 H2]. split; [done|]. cbn. by rewrite length_insert.
  - unfold when_done, when_resolve. repeat case_match; try done; by apply kept_fireWith.
  - unfold when_progress. repeat case_match; try done; by apply kept_fireWith.
Qed.

Lemma kept_finish l c s s' : kept s s' -> kept s (finish l c s').
Proof.
  intros H. unfold finish. repeat case_match; try apply kept_fireWith; repeat apply kept_on_list; done.
Qed.

Lemma kept_library s s' : library_step s = Some s' -> kept s s'.
Proof.
  assert (kept s s) as H by done. assert (forall st, kept s (s <| stack := st |>)) as Hs by done.
  unfold library_step. destruct (stack s) as [|[] st]; try done.
  - destruct (lists s !! l) as [c|]; [|done]. cbn. intros [= <-]. unfold loop.
    repeat case_match; try done; first [by apply kept_invoke|by apply kept_finish].
  - destruct st as [|[] st]; try done.
    + destruct (lists s !! l) as [c|]; [|done]. cbn. intros [= <-]. unfold called.
      case_match; [|by apply (kept_on_list l _ s (s <| stack := st |>))].
      apply kept_finish, (kept_on_list l _ s (s <| stack := st |>)), Hs.
    + intros [= <-]. unfold piped. destruct r; [by apply kept_fireWith|done].
  - destruct ops as [|o ops]; intros [= <-]; [done|]. destruct o; cbn [run_op].
    + by apply kept_add.
    + by apply kept_fireWith.
    + done.
    + unfold when_resolve. repeat case_match; try done; by apply kept_fireWith.
Qed.

(** Exactly the deferreds that have been made have lists. *)
Definition fresh (s : machine) : Prop :=
  forall a d, lists s !! Of a d = None <-> (length (deferreds s) <= d)%nat.

Lemma kept_fresh s s' : kept s s' -> fresh s -> fresh s'.
Proof. intros [H1 H2] Hf a d. rewrite H2. etrans; [apply H1|apply Hf]. Qed.

Lemma fresh_new_deferred s : fresh s -> fresh (new_deferred s).
Proof.
  intros Hf. unfold new_deferred.
  eapply kept_fresh; [apply kept_add, kept_add; done|]. intros a d. cbn. rewrite length_app. cbn.
  destruct (decide (d = length (deferreds s))) as [->|Hn].
  - destruct a; rewrite ?lookup_insert_eq, ?lookup_insert_ne, ?lookup_insert_eq by done;
      rewrite ?lookup_insert_ne, ?lookup_insert_eq by done; split; (done || lia).
  - rewrite !lookup_insert_ne by congruence. etrans; [apply Hf|lia].
Qed.

Lemma sim_new_deferred l s : fresh s -> sim l s (new_deferred s).
Proof.
  intros Hf. set (d := length (deferreds s)). assert (forall a, lists s !! Of a d = None) as Hn.
  { intros a. by apply Hf. }
  unfold new_deferred. fold d. etrans; [|apply sim_add]. etrans; [|apply sim_add].
  etrans; [apply (sim_new_list l (Of Resolve d) once_memory)|].
  { by intros <-. }
  etrans; [apply (sim_new_list l (Of Reject d) once_memory)|].
  { intros <-. split; [done|]. cbn. by rewrite lookup_insert_ne. }
  etrans; [apply (sim_new_list l (Of Notify d) memory_only)|].
  { intros <-. split; [done|]. cbn. by rewrite !lookup_insert_ne. }
  by apply sim_same.
Qed.

Lemma fresh_page e s s' : fresh s -> page_step e s = Some s' -> fresh s'.
Proof.
  intros Hf. assert (forall s0, kept s s0 -> fresh s0) as Hk by (intros; by eapply kept_fresh).
  assert (kept s s) as H by done. assert (forall st, kept s (s <| stack := st |>)) as Hs by done.
  destruct e; cbn; intros Hp; repeat case_match; simplify_option_eq; try done;
    try (apply Hk; first [done | by apply kept_on_list | by apply kept_fireWith | by apply kept_add]).
  - intros a d. cbn. rewrite lookup_insert_ne by done. apply Hf.
  - by apply fresh_new_deferred.
  - by apply (fresh_new_deferred s).
  - unfold when. repeat case_match; try done; by apply (fresh_new_deferred s).
Qed.

Lemma fresh_step s e s' : fresh s -> step s e = Some s' -> fresh s'.
Proof.
  intros Hf. destruct e; cbn [step].
  1: intros H; by eapply kept_fresh; [apply kept_library|].
  all: destruct (page_runs s); [|done]; by apply fresh_page.
Qed.

Lemma sim_page l e s s' : is_raw l = false -> fresh s -> page_step e s = Some s' -> sim l s s'.
Proof.
  intros Hr Hf. assert (forall l', is_raw l' = true -> l' <> l) as Hn by (intros l' ? ->; congruence).
  destruct e; cbn; intros Hp; repeat case_match; simplify_option_eq; try done;
    try first [apply sim_add | apply sim_fireWith | apply sim_on_other, Hn; done | by apply sim_push_other
              | by apply sim_new_deferred].
  - apply sim_same; [done| |done]. cbn.
    match goal with H : stack s = _ |- _ => by rewrite H end.
  - etrans; [by eapply (sim_pop_other l (Code n))|]. by apply sim_throw.
  - unfold new_raw. etrans; [apply (sim_new_list l (Raw (raws s)) (createFlags flags))|by apply sim_same].
    intros <-. done.
  - unfold when. repeat case_match; try done; etrans; try (by apply sim_new_deferred); by apply sim_same.
Qed.

(** The machine moves a list of a deferred by the rules. *)
Lemma step_sim l s e s' : is_raw l = false -> fresh s -> step s e = Some s' -> sim l s s'.
Proof.
  intros Hr Hf. destruct e; cbn [step]; try (destruct (page_runs s); [|done]; by apply sim_page).
  apply sim_library.
Qed.

(** ** The life of a list that fires once *)

(** The functions added to a list, and its calls. *)
Definition added (l : lid) (lg : list entry) : list fn :=
  flat_map (fun e => match e with LAdd l' fs => if decide (l' = l) then fs else [] | _ => [] end) lg.

Definition calls (l : lid) (lg : list entry) : list (fn * actuals) :=
  flat_map (fun e => match e with LCall l' f v _ => if decide (l' = l) then [(f, v)] else [] | _ => [] end) lg.

Lemma added_app l lg lg' : added l (lg ++ lg') = added l lg ++ added l lg'.
Proof. apply flat_map_app. Qed.

Lemma calls_app l lg lg' : calls l (lg ++ lg') = calls l lg ++ calls l lg'.
Proof. apply flat_map_app. Qed.

Lemma added_entries l lg : added l (entries l lg) = added l lg.
Proof.
  induction lg as [|e lg IH]; [done|]. change (entries l (e :: lg)) with (if about l e then e :: entries l lg else entries l lg).
  rewrite (added_app l [e] lg : added l (e :: lg) = _), <- IH. destruct (about l e) eqn:E; [apply (added_app l [e])|].
  destruct e; try done; cbn in E; rewrite bool_decide_eq_false in E; cbn; by rewrite ?decide_False.
Qed.

Lemma calls_entries l lg : calls l (entries l lg) = calls l lg.
Proof.
  induction lg as [|e lg IH]; [done|]. change (entries l (e :: lg)) with (if about l e then e :: entries l lg else entries l lg).
  rewrite (calls_app l [e] lg : calls l (e :: lg) = _), <- IH. destruct (about l e) eqn:E; [apply (calls_app l [e])|].
  destruct e; try done; cbn in E; rewrite bool_decide_eq_false in E; cbn; by rewrite ?decide_False.
Qed.

(** Of the functions added, [now] have been called, in order, with [v]; [later]
    have not. *)
Definition serves (l : lid) (v : actuals) (now later : list fn) (lg : list entry) : Prop :=
  added l lg = now ++ later /\ calls l lg = (fun f => (f, v)) <$> now.

Lemma serves_add l v now later new lg :
  serves l v now later lg -> serves l v now (later ++ new) (lg ++ [LAdd l new]).
Proof.
  intros [H1 H2]. split.
  - rewrite added_app, H1. cbn. by rewrite decide_True, app_nil_r, app_assoc.
  - rewrite calls_app, H2. cbn. by rewrite app_nil_r.
Qed.

Lemma serves_call l v now f later lg x :
  serves l v now (f :: later) lg -> serves l v (now ++ [f]) later (lg ++ [LCall l f v x]).
Proof.
  intros [H1 H2]. split.
  - rewrite added_app, H1. cbn. by rewrite app_nil_r, <- app_assoc.
  - rewrite calls_app, H2. cbn. by rewrite decide_True, fmap_app.
Qed.

Lemma serves_exc l v now later lg e :
  exceptional e = true -> serves l v now later lg -> serves l v now later (lg ++ [e]).
Proof. intros He [H1 H2]. unfold serves. rewrite added_app, calls_app. destruct e; try done; cbn; by rewrite !app_nil_r. Qed.

Definition threw (lg : list entry) : bool := existsb exceptional lg.

Local Abbreviation om := (Flags true true false false).

Inductive LInv (l : lid) : lview -> Prop :=
| i_pending fs lg v n i :
    serves l v [] fs lg ->
    LInv l (LView (Callbacks om (Some fs) (Some []) MNone false false 0 n i) [] lg)
| i_loop v stk fs base (i : nat) lg :
    (i <= length fs)%nat -> serves l v (base ++ take i fs) (drop i fs) lg ->
    LInv l (LView (Callbacks om (Some fs) stk (MVal v) true true 0
                     (Z.of_nat (length fs)) (Z.of_nat i)) [Loop l v] lg)
| i_called v stk fs base (i : nat) lg :
    (i < length fs)%nat -> serves l v (base ++ take (S i) fs) (drop (S i) fs) lg ->
    LInv l (LView (Callbacks om (Some fs) stk (MVal v) true true 0
                     (Z.of_nat (length fs)) (Z.of_nat i)) [Called l v] lg)
| i_idle v stk base n i lg :
    serves l v base [] lg ->
    LInv l (LView (Callbacks om (Some []) stk (MVal v) true false 0 n i) [] lg)
| i_stuck v stk fs base later n i lg :
    threw lg = true -> serves l v base later lg ->
    LInv l (LView (Callbacks om (Some fs) stk (MVal v) true true 0 n i) [] lg)
| i_dead v base later fired firing n i fr lg :
    serves l v base later lg -> (fr = [] \/ fired = true /\ length fr = 1%nat) ->
    (fired = false -> base = []) ->
    LInv l (LView (Callbacks om None None MNone fired firing 0 n i) fr lg).

Lemma once_memory_flags : once_memory = om.
Proof. by vm_compute. Qed.

Lemma suffix_one {A} (l : list A) x : l `suffix_of` [x] -> l = [] \/ l = [x].
Proof. intros [k H]. destruct k as [|y [|z k]]; cbn in H; simplify_eq; eauto. Qed.

Lemma threw_snoc lg e : threw (lg ++ [e]) = threw lg || exceptional e.
Proof. unfold threw. rewrite existsb_app. cbn. by rewrite orb_false_r. Qed.

Lemma dead_frames {A} (fr fr' : list A) (fired : bool) :
  fr' `suffix_of` fr -> fr = [] \/ fired = true /\ length fr = 1%nat ->
  fr' = [] \/ fired = true /\ length fr' = 1%nat.
Proof.
  intros Hs [->|[-> Hl]]; [left; by apply suffix_nil_inv|]. destruct fr as [|x [|y fr]]; try done.
  destruct (suffix_one _ _ Hs) as [->| ->]; eauto.
Qed.

(** Every rule keeps the list in the states of its life. *)
Lemma LInv_step l w w' : LInv l w -> lstep l w w' -> LInv l w'.
Proof.
  intros H1 H2. destruct H1; inversion H2; subst; cbn in *; simplify_eq; try lia; try congruence;
    try (match goal with H : true = true -> _ |- _ => by specialize (H eq_refl) end);
    try (match goal with H : forall v, MVal _ <> MVal v |- _ => by edestruct H end).
  all: match goal with H : lstep _ _ _ |- _ => clear H end.
  all: try (by eapply i_dead; eauto).
  all: try (match goal with H : _ `suffix_of` [_] |- _ => apply suffix_one in H as [->| ->] end).
  all: try (match goal with H : _ `suffix_of` [] |- _ => apply suffix_nil_inv in H as -> end).
  all: try (by econstructor; eauto using serves_add, serves_exc).
  all: try (by eapply i_stuck; [rewrite threw_snoc, ?orb_true_iff; eauto|apply serves_exc; eauto]).
  - apply (i_loop l v0 (Some []) fs [] 0); [lia|]. by destruct H.
  - apply (i_loop l v stk _ base); [rewrite length_app; lia|]. rewrite take_app_le, drop_app_le by lia.
    by apply serves_add.
  - rewrite Nat2Z.id in *. match goal with H : fs0 !! i = Some f |- _ => rename H into Hf end.
    apply (i_called l v stk fs0 base); [by eapply lookup_lt_Some|].
    rewrite (take_S_r _ _ f Hf), app_assoc. apply serves_call. by rewrite <- (drop_S _ f i).
  - match goal with H : ended _ |- _ => specialize (H _ eq_refl); cbn in H end.
    apply (i_idle l v stk (base ++ fs)). rewrite take_ge, drop_ge in H0 by lia. done.
  - apply (i_called l v stk _ base); [rewrite length_app; lia|]. rewrite take_app_le, drop_app_le by lia.
    by apply serves_add.
  - pose proof (i_loop l v stk fs base (S i) lg ltac:(lia) H0) as HL. by rewrite Nat2Z.inj_succ, <- Z.add_1_l in HL.
  - apply (i_loop l v0 stk new base 0); [lia|]. rewrite take_0, app_nil_r. by apply (serves_add l v0 base []).
  - eapply i_stuck; [by rewrite threw_snoc; apply orb_true_iff; left|by apply serves_add].
  - eapply i_dead; [done| |done]. destruct H0 as [?|[? ?]]; [done|eauto].
  - eapply i_dead; [done| |done]. destruct H0 as [?|[? Hl]]; [done|]. cbn in Hl. left. by destruct fr0.
  - eapply i_dead; [by apply serves_exc|by eapply dead_frames|done].
Qed.

Lemma lstep_log l w w' : lstep l w w' -> v_log w `prefix_of` v_log w'.
Proof. intros H. destruct H; cbn; try done; by apply prefix_app_r. Qed.

Lemma sim_LInv l s s' : sim l s s' -> LInv l (view l (get l s) s) -> LInv l (view l (get l s') s').
Proof. unfold sim. generalize (view l (get l s) s), (view l (get l s') s'). induction 1; eauto using LInv_step. Qed.

Lemma sim_added l s s' : sim l s s' -> added l (log s) `prefix_of` added l (log s').
Proof.
  intros H. assert (entries l (log s) `prefix_of` entries l (log s')) as [k Hk].
  { change (v_log (view l (get l s) s) `prefix_of` v_log (view l (get l s') s')). unfold sim in H.
    induction H; [done|]. etrans; [by eapply lstep_log|done]. }
  rewrite <- (added_entries l (log s')), Hk, added_app, added_entries. by apply prefix_app_r.
Qed.

(** ** Reachable states *)

Lemma run_ind (P : machine -> Prop) :
  P init -> (forall s e s', P s -> step s e = Some s' -> P s') ->
  forall evs s, run init evs = Some s -> P s.
Proof.
  intros H0 Hs evs. assert (forall s0 s, P s0 -> run s0 evs = Some s -> P s) as H; [|by eauto].
  induction evs as [|e evs IH]; intros s0 s HP Hr; cbn in Hr; [by simplify_eq|].
  destruct (step s0 e) as [s1|] eqn:E; [|done]. cbn in Hr. eauto.
Qed.

Definition settles (a : action) : bool := match a with Notify => false | _ => true end.

Definition lived (s : machine) : Prop :=
  fresh s /\ forall a d, settles a = true -> LInv (Of a d) (view (Of a d) (get (Of a d) s) s).

Lemma lived_init : lived init.
Proof.
  split; [intros a d; cbn; split; [lia|done]|]. intros a d Ha. unfold get, view. cbn. destruct a; try done; cbn.
  all: rewrite once_memory_flags; by apply (i_pending _ [] _ (Actual [])).
Qed.

Lemma lived_step s e s' : lived s -> step s e = Some s' -> lived s'.
Proof.
  intros [Hf HL] He. split; [by eapply fresh_step|]. intros a d Ha.
  eapply sim_LInv; [by eapply step_sim|]. by apply HL.
Qed.

(** A disabled list stays so, a fired one too, and what it was fired with is
    kept. *)
Lemma lstep_sticky l w w' :
  LInv l w -> lstep l w w' ->
  (c_list (v_list w) = None -> c_list (v_list w') = None) /\
  (c_fired (v_list w) = true -> c_fired (v_list w') = true) /\
  (forall v, c_memory (v_list w) = MVal v -> c_list (v_list w') <> None -> c_memory (v_list w') = MVal v).
Proof.
  intros H1 H2. destruct H1; inversion H2; subst; cbn in *; simplify_eq; try lia; try congruence;
    try (match goal with H : true = true -> _ |- _ => by specialize (H eq_refl) end).
  all: repeat split; try done; intros; simplify_eq; try congruence.
Qed.

Lemma sim_sticky l s s' :
  sim l s s' -> LInv l (view l (get l s) s) ->
  (c_list (get l s) = None -> c_list (get l s') = None) /\
  (c_fired (get l s) = true -> c_fired (get l s') = true) /\
  (forall v, c_memory (get l s) = MVal v -> c_list (get l s') <> None -> c_memory (get l s') = MVal v).
Proof.
  unfold sim. change (get l s) with (v_list (view l (get l s) s)) at 3 4 5.
  change (get l s') with (v_list (view l (get l s') s')) at 2 3 4 5.
  generalize (view l (get l s) s), (view l (get l s') s'). intros w w'.
  induction 1 as [w|w1 w2 w3 H1 H2 IH]; intros HL; [done|].
  destruct (lstep_sticky _ _ _ HL H1) as (A1 & A2 & A3). destruct (IH (LInv_step _ _ _ HL H1)) as (B1 & B2 & B3).
  repeat split; [by auto|by auto|]. intros v Hv Hn. apply B3; [|done]. apply A3; [done|]. auto.
Qed.

(** A list that was not fired has called nothing. *)
Lemma LInv_unfired l c s : LInv l (view l c s) -> c_fired c = false -> calls l (log s) = [].
Proof.
  intros H Hp. unfold view in H. rewrite <- calls_entries. inversion H; subst; cbn in *; try done.
  - by match goal with H : serves _ _ _ _ _ |- _ => destruct H as [_ ->] end.
  - match goal with H : serves _ _ _ _ _ |- _ => destruct H as [_ ->] end. by rewrite H5.
Qed.

(** No function is missing. *)
Lemma lstep_sound l w w' : LInv l w -> lstep l w w' -> LTypeError l ∉ v_log w -> LTypeError l ∉ v_log w'.
Proof.
  intros H1 H2 Hn. destruct H2; cbn in *; try done; rewrite elem_of_app, list_elem_of_singleton; try naive_solver.
  exfalso. inversion H1; subst; cbn in *; simplify_eq.
  match goal with H : 0 <= _ -> _ !! _ = None |- _ => specialize (H ltac:(lia)); rewrite Nat2Z.id in H;
    apply lookup_ge_None in H end. lia.
Qed.
