(* ===== verification/JqPromise.v ===== *)
(** * A deferred is settled once (jquery-1.7.2.js)

    The three functions a deferred puts first into its lists set its state,
    disable the opposite list and lock the list of notifications.  They are
    called before any function of the page, so whenever page code runs the
    state agrees with the lists. *)

From stdpp Require Import base gmap list strings.
From S2P Require Import Prelude JsString ZeptoCore JqCallbacks JqDeferred.

(** ** Which functions are in a list *)

(** What the page, [pipe] and [when] put into lists. *)
Definition free (f : fn) : bool :=
  match f with SetState _ _ => false | Disable l | Lock l => is_raw l | _ => true end.

Fixpoint free_arg (a : arg) : bool :=
  match a with AFn f => free f | AArr l => forallb free_arg l | AOther => true end.

(** The functions of a list: free ones, and those a deferred puts there. *)
Definition fn_ok (l : lid) (f : fn) : Prop :=
  free f = true \/ exists a d, l = Of a d /\ f ∈ state_fns d a.

Definition op_ok (o : op) : bool := match o with OAdd _ args => forallb free_arg args | _ => true end.

Definition frame_ok (f : frame) : bool := match f with Todo ops => forallb op_ok ops | _ => true end.

Definition list_ok (l : lid) (c : callbacks) : Prop :=
  forall fs, c_list c = Some fs -> Forall (fn_ok l) fs.

Definition typed (s : machine) : Prop :=
  (forall l c, lists s !! l = Some c -> list_ok l c) /\ forallb frame_ok (stack s) = true.

Lemma add_arg_ok (P : fn -> Prop) u a l :
  (free_arg a = true -> forall f, free f = true -> P f) -> free_arg a = true ->
  Forall P l -> Forall P (add_arg u a l).
Proof.
  revert a l. fix IH 1. intros [f|args|] l HP Ha Hl; cbn in *; [..|done].
  - destruct (u && _); [done|]. apply Forall_app. split; [done|]. constructor; [by apply HP|done].
  - assert (forall f, free f = true -> P f) as HP' by (by apply HP). clear HP.
    revert l Hl. induction args as [|x args IHa]; intros l Hl; [done|]. cbn in *.
    apply andb_true_iff in Ha as [Hx Ha]. apply IHa; [done|]. by apply IH.
Qed.

Lemma add_args_ok l u args fs :
  forallb free_arg args = true -> Forall (fn_ok l) fs -> Forall (fn_ok l) (add_args u args fs).
Proof. intros Ha. apply add_arg_ok; [|done]. intros _ f Hf. by left. Qed.

Lemma typed_on_list l g s :
  (forall c, list_ok l c -> list_ok l (g c)) -> typed s -> typed (on_list l g s).
Proof.
  intros Hg [H1 H2]. split; [|done]. intros l' c Hc. cbn in Hc. destruct (decide (l = l')) as [->|Hn].
  - rewrite lookup_alter_eq in Hc. destruct (lists s !! l') as [c0|] eqn:E; [|done]. cbn in Hc.
    simplify_eq. by apply Hg, H1.
  - rewrite lookup_alter_ne in Hc by done. by apply H1.
Qed.

Lemma typed_push f s : frame_ok f = true -> typed s -> typed (push f s).
Proof. intros Hf [H1 H2]. split; [done|]. cbn. by rewrite Hf. Qed.

Lemma typed_fireWith l v s : typed s -> typed (fireWith l v s).
Proof.
  intros H. unfold fireWith, fire.
  repeat case_match; try done; try (apply typed_push; [done|]); by apply typed_on_list.
Qed.

Lemma typed_add_ok l args s :
  (forall u fs, Forall (fn_ok l) fs -> Forall (fn_ok l) (add_args u args fs)) ->
  typed s -> typed (add l args s).
Proof.
  intros Ha H. unfold add. destruct (lists s !! l) as [c|] eqn:Hc; [|done].
  destruct (c_list c) as [fs|] eqn:Hfs; [|done].
  assert (Forall (fn_ok l) (add_args (unique (c_flags c)) args fs)) as Hn.
  { apply Ha. by eapply (proj1 H). }
  set (fs' := add_args _ _ _) in *.
  assert (typed (logged (LAdd l (drop (length fs) fs')) (on_list l (fun c => c <| c_list := Some fs' |>) s))) as H1.
  { apply (typed_on_list l (fun c => c <| c_list := Some fs' |>)); [|done].
    intros c0 Hc0 fs0 E. cbn in E. by simplify_eq. }
  unfold fire. destruct (c_firing c); [by apply typed_on_list|]. destruct (c_memory c); try done.
  apply typed_push; [done|]. apply typed_on_list; [done|]. by apply typed_on_list.
Qed.

Lemma typed_add l args s : forallb free_arg args = true -> typed s -> typed (add l args s).
Proof. intros Ha. apply typed_add_ok. intros u fs. by apply add_args_ok. Qed.

Lemma add_state_ok a d u fs :
  Forall (fn_ok (Of a d)) fs -> Forall (fn_ok (Of a d)) (add_args u (AFn <$> state_fns d a) fs).
Proof.
  unfold add_args. assert (Forall (fn_ok (Of a d)) (state_fns d a)) as Hs.
  { apply Forall_forall. intros f Hf. right. eauto. }
  revert Hs fs. generalize (state_fns d a). intros l. induction l as [|f l IH]; intros Hl fs Hfs; [done|].
  apply Forall_cons in Hl as [Hf Hl]. cbn. apply (IH Hl). destruct (u && _); [done|].
  apply Forall_app. split; [done|]. by constructor.
Qed.

Lemma list_ok_disable l c : list_ok l (disable c).
Proof. by intros fs. Qed.

Lemma list_ok_lock l c : list_ok l c -> list_ok l (lock c).
Proof. intros H fs. unfold lock. cbn. destruct (c_memory c); [done|done|apply H]. Qed.

Lemma list_ok_empty l c : list_ok l (c <| c_list := Some [] |>).
Proof. intros fs [= <-]. constructor. Qed.

Lemma remove_from_Forall (P : fn -> Prop) u b f l2 : forall i a n,
  Forall P l2 -> Forall P (remove_from u b f i l2 a n).1.1.
Proof.
  induction l2 as [|g l2 IH]; intros i a n Hl; [done|]. apply Forall_cons in Hl as [Hg Hl].
  cbn. destruct (decide (f = g)).
  - destruct (if b && (i <=? n) then _ else _) as [a' n']. destruct u; [done|]. by apply IH.
  - specialize (IH (i + 1) a n Hl). destruct (remove_from _ _ _ _ _ _ _) as [[r a'] n']. cbn in *. by constructor.
Qed.

Lemma list_ok_remove l fs c : list_ok l c -> list_ok l (remove fs c).
Proof.
  unfold remove. revert c. induction fs as [|f fs IH]; intros c H; [done|]. cbn. apply IH. clear IH fs.
  unfold remove_fn. destruct (c_list c) as [l0|] eqn:El; [|done]. intros fs. specialize (H _ El).
  pose proof (remove_from_Forall _ (unique (c_flags c)) (c_firing c) f l0 0 (firingIndex c) (firingLength c) H) as Hr.
  destruct (remove_from _ _ _ _ _ _ _) as [[l1 ix] len]. cbn. by intros [= <-].
Qed.

Lemma typed_unwind s : typed s -> typed (s <| stack ::= unwind |>).
Proof.
  intros [H1 H2]. split; [done|]. cbn. revert H2. generalize (stack s). intros st.
  induction st as [|f st IH]; [done|]. cbn. intros [Hf Hst]%andb_true_iff. destruct (is_code f); [|by apply IH].
  cbn. by rewrite Hf.
Qed.

Lemma typed_throw e s : typed s -> typed (throw e s).
Proof. intros H. by apply (typed_unwind s). Qed.

Lemma typed_invoke f v s : typed s -> typed (invoke f v s).
Proof.
  intros H. assert (typed (push (Returned (RValue VUndef)) s)) as Hr by by apply typed_push.
  destruct f; cbn [invoke].
  - by apply typed_push.
  - apply typed_push; [done|]. apply typed_on_list; [|done]. intros; apply list_ok_disable.
  - apply typed_push; [done|]. apply typed_on_list; [|done]. intros; by apply list_ok_lock.
  - by apply typed_fireWith.
  - done.
  - by apply typed_push, typed_push.
  - unfold when_done, when_resolve. repeat case_match; try done; by apply typed_fireWith.
  - unfold when_progress. repeat case_match; try done; by apply typed_fireWith.
Qed.

Lemma typed_finish l c s : typed s -> typed (finish l c s).
Proof.
  intros H. assert (typed (on_list l (fun c => c <| c_firing := false |>) s)) as H1 by by apply typed_on_list.
  unfold finish. repeat case_match; try done; try (apply typed_fireWith; by apply typed_on_list).
  all: apply typed_on_list; [|done]; intros; (apply list_ok_disable || apply list_ok_empty).
Qed.

Lemma typed_library s s' : typed s -> library_step s = Some s' -> typed s'.
Proof.
  intros [H1 H2] He. unfold library_step in He.
  assert (forall st, forallb frame_ok st = true -> typed (s <| stack := st |>)) as Hs by done.
  destruct (stack s) as [|[] st] eqn:Est; try done; cbn in H2.
  - destruct (lists s !! l) as [c|]; [|done]. cbn in He. simplify_eq. unfold loop.
    specialize (Hs st H2). pose proof (typed_finish l c _ Hs) as Hf.
    destruct (c_list c) as [fs|]; [|done]. destruct (_ <? _); [|done].
    destruct (if firingIndex c <? 0 then None else _) as [f|].
    + apply typed_invoke. change (typed (push (Called l v) (s <| stack := st |>))). by apply typed_push.
    + by apply typed_throw.
  - destruct st as [|[] st]; try done.
    + destruct (lists s !! l) as [c|]; [|done]. cbn in He. simplify_eq. unfold called. cbn in H2.
      specialize (Hs st H2). case_match.
      * apply typed_finish. by apply (typed_on_list l _ (s <| stack := st |>)).
      * apply typed_push; [done|]. by apply (typed_on_list l _ (s <| stack := st |>)).
    + simplify_eq. unfold piped. cbn in H2. destruct r; [apply typed_fireWith|apply typed_push; [done|]];
        by apply Hs.
  - destruct ops as [|o ops]; simplify_eq; [by apply Hs|].
    apply andb_true_iff in H2 as [Ho H2]. cbn in Ho. apply andb_true_iff in Ho as [Ho Hops].
    assert (typed (s <| stack := Todo ops :: st |>)) as Ht by (apply Hs; cbn; by rewrite Hops).
    destruct o; cbn [run_op].
    + by apply typed_add.
    + by apply typed_fireWith.
    + done.
    + unfold when_resolve. repeat case_match; try done; by apply typed_fireWith.
Qed.

Lemma typed_new_list l f s : typed s -> typed (new_list l f s).
Proof.
  intros [H1 H2]. split; [|done]. intros l' c Hc. cbn in Hc. destruct (decide (l = l')) as [->|Hn].
  - rewrite lookup_insert_eq in Hc. simplify_eq. by intros fs [= <-].
  - rewrite lookup_insert_ne in Hc by done. by apply H1.
Qed.

Lemma typed_new_deferred s : typed s -> typed (new_deferred s).
Proof.
  intros H. unfold new_deferred. do 2 (apply typed_add_ok; [intros u fs; apply add_state_ok|]).
  by apply (typed_new_list (Of Notify _)), typed_new_list, typed_new_list.
Qed.

Lemma page_arg_free a : page_arg a = true -> free_arg a = true.
Proof.
  revert a. fix IH 1. intros [f|args|] Ha; cbn in *; [by destruct f|..|done].
  induction args as [|x args IHa]; [done|]. cbn in *. apply andb_true_iff in Ha as [Hx Ha].
  rewrite (IH x Hx). by apply IHa.
Qed.

Lemma page_args_free args : forallb page_arg args = true -> forallb free_arg args = true.
Proof. apply (page_arg_free (AArr args)). Qed.

Lemma when_ops_ok w i d args : forallb op_ok (when_ops w i d args) = true.
Proof. revert i. induction args as [|[] args IH]; intros i; cbn; [done|apply IH|apply IH]. Qed.

Lemma typed_when args s : typed s -> typed (when args s).
Proof.
  intros H. pose proof (typed_new_deferred _ H) as Hn. unfold when. repeat case_match; try done;
    (apply typed_push; [|done]); cbn [frame_ok]; rewrite ?forallb_app, ?when_ops_ok; done.
Qed.

Lemma typed_page e s s' : typed s -> page_step e s = Some s' -> typed s'.
Proof.
  intros H. assert (forall f st, stack s = f :: st -> typed (s <| stack := st |>)) as Hs.
  { intros f st E. destruct H as [H1 H2]. split; [done|]. rewrite E in H2. cbn in H2.
    by apply andb_true_iff in H2 as [_ H2]. }
  destruct e; cbn [page_step]; intros Hp.
  - done.
  - destruct (stack s) as [|[] st] eqn:E; simplify_eq. by destruct (Hs (Code n) st eq_refl).
  - destruct (stack s) as [|[] st] eqn:E; simplify_eq. by apply typed_throw, (Hs (Code n)).
  - simplify_eq. by apply (typed_new_list (Raw (raws s))).
  - simplify_eq. by apply typed_new_deferred.
  - destruct (is_raw l && _) eqn:E; simplify_eq. apply andb_true_iff in E as [_ E].
    apply typed_add; [|done]. by apply page_args_free.
  - destruct (is_raw l); simplify_eq. apply typed_on_list; [|done]. intros; by apply list_ok_remove.
  - destruct (is_raw l); simplify_eq. apply typed_on_list; [|done]. intros; by apply list_ok_empty.
  - destruct (is_raw l); simplify_eq. apply typed_on_list; [|done]. intros; by apply list_ok_disable.
  - destruct (is_raw l); simplify_eq. apply typed_on_list; [|done]. intros; by apply list_ok_lock.
  - destruct (is_raw l); simplify_eq. by apply typed_fireWith.
  - destruct (made s d && _) eqn:E; simplify_eq. apply andb_true_iff in E as [_ E].
    apply typed_add; [|done]. by apply page_args_free.
  - destruct (made s d && _) eqn:E; simplify_eq. apply andb_true_iff in E as [_ E].
    apply page_args_free in E. cbn in E. apply typed_push; [|done]. cbn.
    by destruct (free_arg _), (free_arg _), (free_arg _).
  - destruct (made s d && _) eqn:E; simplify_eq. apply andb_true_iff in E as [_ E].
    apply page_args_free in E. apply typed_push; [|done]. cbn. by rewrite E.
  - destruct (made s d); simplify_eq. by apply typed_fireWith.
  - destruct (made s d); simplify_eq. apply typed_push; [|by apply typed_new_deferred].
    by destruct fnDone, fnFail, fnProgress.
  - destruct (forallb _ _); simplify_eq. by apply typed_when.
Qed.

Lemma typed_step s e s' : typed s -> step s e = Some s' -> typed s'.
Proof.
  intros Ht. destruct e; cbn [step]; try (destruct (page_runs s); [|done]; by apply typed_page).
  by apply typed_library.
Qed.

(** ** The state of a deferred and its lists *)

(** Not fired, fired, disabled unfired, disabled when it had fired. *)
Inductive status := SPend | SFired | SDead | SBurnt.

Definition status_of (c : callbacks) : status :=
  match c_list c with
  | None => if c_fired c then SBurnt else SDead
  | Some _ => if c_fired c then SFired else SPend
  end.

Definition lstatus (l : lid) (s : machine) : status := status_of (get l s).

(** What the life of a list says of its variables. *)
Record sane (c : callbacks) : Prop := {
  sane_flags : c_flags c = Flags true true false false;
  sane_memory : c_memory c <> MTrue;
  sane_fired : forall v, c_memory c = MVal v -> c_fired c = true;
  sane_pending : status_of c = SPend ->
    c_stack c = Some [] /\ c_memory c = MNone /\ c_firing c = false /\ firingStart c = 0;
  sane_dead : c_list c = None -> c_stack c = None;
}.

Lemma LInv_sane l w : LInv l w -> sane (v_list w).
Proof.
  intros H. destruct H; constructor; try done; try (by intros ? [=]). unfold status_of. cbn. by destruct fired.
Qed.

Definition lists_sane (s : machine) : Prop := forall a d, settles a = true -> sane (get (Of a d) s).

Lemma lived_sane s : lived s -> lists_sane s.
Proof. intros [_ H] a d Ha. apply (LInv_sane _ _ (H a d Ha)). Qed.

(** No list that settles a deferred changes its status. *)
Definition still (s s' : machine) : Prop :=
  deferreds s' = deferreds s /\ forall a d, settles a = true -> lstatus (Of a d) s' = lstatus (Of a d) s.

#[export] Instance still_refl : Reflexive still.
Proof. by intros s. Qed.

#[export] Instance still_trans : Transitive still.
Proof. intros s1 s2 s3 [H1 H2] [H3 H4]. split; [congruence|]. intros a d Ha. by rewrite H4, H2. Qed.

Lemma get_on_list l g s c : lists s !! l = Some c -> get l (on_list l g s) = g c.
Proof. intros H. unfold get. cbn. by rewrite lookup_alter_eq, H. Qed.

Lemma get_on_other l l' g s : l' <> l -> get l (on_list l' g s) = get l s.
Proof. intros H. unfold get. cbn. by rewrite lookup_alter_ne. Qed.

Lemma get_on_none l l' g s : lists s !! l' = None -> get l (on_list l' g s) = get l s.
Proof.
  intros H. unfold get. cbn. destruct (decide (l' = l)) as [->|Hn]; [by rewrite lookup_alter_eq, H|].
  by rewrite lookup_alter_ne.
Qed.

Lemma still_on_list l g s c :
  lists s !! l = Some c -> (forall a d, l = Of a d -> settles a = true -> status_of (g c) = status_of c) ->
  still s (on_list l g s).
Proof.
  intros Hc Hg. split; [done|]. intros a d Ha. unfold lstatus. destruct (decide (l = Of a d)) as [->|Hn].
  - rewrite (get_on_list _ _ _ _ Hc), (get_some _ _ _ Hc). by eapply Hg.
  - by rewrite get_on_other.
Qed.

(** [l] settles no deferred. *)
Definition aside (l : lid) : Prop := forall a d, l = Of a d -> settles a = false.

Lemma still_on_aside l g s : aside l -> still s (on_list l g s).
Proof.
  intros Hl. destruct (lists s !! l) as [c|] eqn:Hc.
  - eapply still_on_list; [done|]. intros a d -> Ha. by rewrite (Hl a d eq_refl) in Ha.
  - split; [done|]. intros a d Ha. unfold lstatus. by rewrite get_on_none.
Qed.

Lemma settles_or_aside l : (exists a d, l = Of a d /\ settles a = true) \/ aside l.
Proof.
  destruct l as [n|a d]; [by right|]. destruct (settles a) eqn:E; [left; eauto|]. right. intros a' d' [= <- <-]. done.
Qed.

(** A list that settles a deferred starts to fire. *)
Definition starts (s s' : machine) (a : action) (d : nat) : Prop :=
  settles a = true /\ deferreds s' = deferreds s /\ lstatus (Of a d) s = SPend /\
  (forall b e, settles b = true -> (b, e) <> (a, d) -> lstatus (Of b e) s' = lstatus (Of b e) s) /\
  exists c v st, lists s !! Of a d = Some c /\ lists s' !! Of a d = Some (start_fire v c) /\
    stack s' = Loop (Of a d) v :: st.

Definition moved (s s' : machine) : Prop := still s s' \/ exists a d, starts s s' a d.

Lemma moved_fireWith l v s : lists_sane s -> moved s (fireWith l v s).
Proof.
  intros Hs. unfold fireWith. destruct (lists s !! l) as [c|] eqn:Hc; [|by left].
  destruct (c_stack c) as [w|] eqn:Hw; [|by left]. destruct (settles_or_aside l) as [(a & d & -> & Ha)|Hl].
  - pose proof (Hs a d Ha) as Hsc. rewrite (get_some _ _ _ Hc) in Hsc. rewrite (sane_flags _ Hsc).
    destruct (c_firing c) eqn:Hf; [by left|]. destruct (c_memory c) as [| |v0] eqn:Hm; [|by left..].
    cbn. destruct (lstatus (Of a d) s) eqn:E.
    + right. exists a, d. repeat split; try done.
      * intros b e Hb Hn. apply (f_equal status_of). apply (get_on_other (Of b e) (Of a d)). congruence.
      * exists c, v, (stack s). split; [done|]. cbn. by rewrite lookup_alter_eq, Hc.
    + left. apply (still_on_list (Of a d) (start_fire v) s c Hc). intros ? ? _ _.
      unfold lstatus in E. rewrite (get_some _ _ _ Hc) in E. rewrite E. unfold status_of in *. cbn.
      destruct (c_list c); [done|]. by destruct (c_fired c).
    + unfold lstatus in E. rewrite (get_some _ _ _ Hc) in E. unfold status_of in E.
      destruct (c_list c) eqn:El; [by destruct (c_fired c)|]. by rewrite (sane_dead _ Hsc El) in Hw.
    + unfold lstatus in E. rewrite (get_some _ _ _ Hc) in E. unfold status_of in E.
      destruct (c_list c) eqn:El; [by destruct (c_fired c)|]. by rewrite (sane_dead _ Hsc El) in Hw.
  - left. destruct (c_firing c).
    + destruct (once _); [done|]. by apply still_on_aside.
    + destruct (_ && _); [done|]. by apply (still_on_aside l (start_fire v) s).
Qed.

Lemma lists_add_other l l' args s : l' <> l -> lists (add l' args s) !! l = lists s !! l.
Proof. intros H. unfold add. repeat case_match; cbn; by rewrite ?lookup_alter_ne. Qed.

Lemma deferreds_add l args s : deferreds (add l args s) = deferreds s.
Proof. unfold add. repeat case_match; done. Qed.

Lemma still_add l args s : lists_sane s -> still s (add l args s).
Proof.
  intros Hs. split; [apply deferreds_add|]. intros a d Ha. unfold lstatus, get.
  destruct (decide (l = Of a d)) as [->|Hn]; [|by rewrite lists_add_other].
  unfold add. destruct (lists s !! Of a d) as [c|] eqn:Hc; [|by rewrite Hc].
  pose proof (Hs a d Ha) as Hsc. rewrite (get_some _ _ _ Hc) in Hsc.
  destruct (c_list c) as [fs|] eqn:Hfs; [|by rewrite Hc]. cbn.
  destruct (c_firing c); [|destruct (c_memory c) eqn:Hm]; cbn; rewrite ?lookup_alter_eq, Hc; cbn;
    unfold status_of; cbn; rewrite Hfs; try done.
  by rewrite (sane_fired _ Hsc _ Hm).
Qed.

Lemma still_finish l c s :
  lists_sane s -> lists s !! l = Some c -> still s (finish l c s).
Proof.
  intros Hs Hc. unfold finish. destruct (settles_or_aside l) as [(a & d & -> & Ha)|Hl].
  - pose proof (Hs a d Ha) as Hsc. rewrite (get_some _ _ _ Hc) in Hsc.
    assert (forall g, status_of (g (c <| c_firing := false |>)) = status_of c ->
      still s (on_list (Of a d) g (on_list (Of a d) (fun c => c <| c_firing := false |>) s))) as H1.
    { intros g Hg. etrans; [by eapply (still_on_list (Of a d) (fun c => c <| c_firing := false |>))|].
      eapply still_on_list; [cbn; by rewrite lookup_alter_eq, Hc|]. intros; by rewrite Hg. }
    destruct (c_list c) as [fs|] eqn:Hfs; [|by eapply still_on_list].
    rewrite (sane_flags _ Hsc). cbn. destruct (c_memory c) eqn:Hm; [..|].
    + apply (H1 (fun c => c <| c_list := Some [] |>)). unfold status_of. cbn. by rewrite Hfs.
    + by destruct (sane_memory _ Hsc).
    + apply (H1 (fun c => c <| c_list := Some [] |>)). unfold status_of. cbn. by rewrite Hfs.
  - pose proof (still_on_aside l (fun c => c <| c_firing := false |>) s Hl) as H1.
    destruct (c_list c); [|done]. etrans; [exact H1|]. destruct (once _).
    + destruct (c_memory c); by apply still_on_aside.
    + destruct (c_stack c) as [[|v w]|]; try done. etrans; [by apply still_on_aside|].
      unfold fireWith. repeat case_match; try done; by apply (still_on_aside l).
Qed.

Definition settled (a : action) : dstate :=
  match a with Resolve => Resolved | Reject => Rejected | Notify => Pending end.

Definition other (a : action) : action :=
  match a with Resolve => Reject | Reject => Resolve | Notify => Notify end.

(** The state of a deferred agrees with its lists. *)
Definition quiet (d : nat) (s : machine) : Prop :=
  (deferreds s !! d = Some Pending /\ lstatus (Of Resolve d) s = SPend /\ lstatus (Of Reject d) s = SPend) \/
  (exists a, settles a = true /\ deferreds s !! d = Some (settled a) /\
     lstatus (Of a d) s = SFired /\ lstatus (Of (other a) d) s = SDead).

(** The first functions of a list of the deferred are being called. *)
Definition starting (a : action) (d : nat) (s : machine) : Prop :=
  settles a = true /\ lstatus (Of (other a) d) s = SPend /\
  exists c v rest st,
    lists s !! Of a d = Some c /\ c_list c = Some (state_fns d a ++ rest) /\ c_fired c = true /\
    firingLength c = Z.of_nat (length (state_fns d a ++ rest)) /\
    ((stack s = Loop (Of a d) v :: st /\ firingIndex c = 0 /\ deferreds s !! d = Some Pending) \/
     ((exists r, stack s = Returned r :: Called (Of a d) v :: st) /\ firingIndex c = 0 /\
      deferreds s !! d = Some (settled a)) \/
     (stack s = Loop (Of a d) v :: st /\ firingIndex c = 1 /\ deferreds s !! d = Some (settled a))).

Definition all_quiet (s : machine) : Prop := forall d, (d < length (deferreds s))%nat -> quiet d s.

Definition DInv (s : machine) : Prop :=
  forall d, (d < length (deferreds s))%nat -> quiet d s \/ exists a, starting a d s.

(** The functions that handle state come first. *)
Definition led (s : machine) : Prop :=
  forall a d, (d < length (deferreds s))%nat -> state_fns d a `prefix_of` added (Of a d) (log s).

Lemma other_settles a : settles a = true -> settles (other a) = true /\ other a <> a.
Proof. by destruct a. Qed.

Lemma quiet_cong d s s' :
  deferreds s' !! d = deferreds s !! d ->
  (forall a, settles a = true -> lstatus (Of a d) s' = lstatus (Of a d) s) -> quiet d s -> quiet d s'.
Proof.
  intros Hd Hl [(H1 & H2 & H3)|(a & Ha & H1 & H2 & H3)].
  - left. by rewrite Hd, !Hl.
  - right. exists a. destruct (other_settles a Ha) as [Ho _]. by rewrite Hd, !Hl.
Qed.

Lemma still_quiet d s s' : still s s' -> quiet d s -> quiet d s'.
Proof. intros [H1 H2]. apply quiet_cong; [by rewrite H1|]. intros a Ha. by apply H2. Qed.

Lemma quiet_other a d s :
  settles a = true -> quiet d s -> lstatus (Of a d) s = SFired ->
  deferreds s !! d = Some (settled a) /\ lstatus (Of (other a) d) s = SDead.
Proof.
  intros Ha [(H1 & H2 & H3)|(b & Hb & H1 & H2 & H3)] Hf; [destruct a; try done; congruence|].
  destruct a, b; try done; cbn in *; congruence.
Qed.

Lemma quiet_pending a d s :
  settles a = true -> quiet d s -> lstatus (Of a d) s = SPend ->
  deferreds s !! d = Some Pending /\ lstatus (Of (other a) d) s = SPend.
Proof.
  intros Ha [(H1 & H2 & H3)|(b & Hb & H1 & H2 & H3)] Hf; [by destruct a|].
  destruct a, b; try done; cbn in *; congruence.
Qed.

Lemma fresh_made s a d c : fresh s -> lists s !! Of a d = Some c -> (d < length (deferreds s))%nat.
Proof. intros Hf Hc. destruct (decide (d < length (deferreds s))%nat); [done|]. rewrite (proj2 (Hf a d)) in Hc; [done|lia]. Qed.

Lemma fresh_exists s a d : fresh s -> (d < length (deferreds s))%nat -> exists c, lists s !! Of a d = Some c.
Proof. intros Hf Hd. destruct (lists s !! Of a d) as [c|] eqn:E; [eauto|]. apply Hf in E. lia. Qed.

Lemma LInv_pend l c s : LInv l (view l c s) -> status_of c = SPend -> c_list c = Some (added l (log s)).
Proof.
  intros H Hp. unfold view in H. inversion H; subst; cbn in *; try done; [|by destruct fired].
  match goal with H : serves _ _ _ _ _ |- _ => destruct H as [Ha _] end. rewrite added_entries in Ha. by rewrite Ha.
Qed.

Lemma moved_DInv s s' : lived s -> led s -> all_quiet s -> moved s s' -> DInv s'.
Proof.
  intros HL Hled Hq [Hs|(a & d & Ha & Hd & Hp & Ho & c & v & st & Hc & Hc' & Hst)] e He.
  - left. rewrite (proj1 Hs) in He. eapply still_quiet; [done|]. by apply Hq.
  - rewrite Hd in He. destruct (decide (e = d)) as [->|Hn].
    2: { left. eapply quiet_cong; [by rewrite Hd| |by apply Hq]. intros b Hb. apply Ho; congruence. }
    right. exists a. destruct (other_settles a Ha) as [Ho1 Ho2].
    destruct (quiet_pending a d s Ha (Hq d He) Hp) as [Hpend Hop].
    split; [done|]. split; [rewrite Ho by congruence; done|]. unfold lstatus in Hp. rewrite (get_some _ _ _ Hc) in Hp.
    destruct HL as [_ HL]. specialize (HL a d Ha). rewrite (get_some _ _ _ Hc) in HL.
    destruct (sane_pending _ (LInv_sane _ _ HL) Hp) as (_ & _ & _ & H0).
    destruct (Hled a d He) as [rest Hr]. pose proof (LInv_pend _ _ _ HL Hp) as Hfs. rewrite Hr in Hfs.
    exists (start_fire v c), v, rest, st. split; [done|]. cbn. rewrite Hfs. repeat (split; [done|]).
    left. rewrite Hd. cbn in H0. by rewrite H0.
Qed.

(** ** The steps *)

Lemma moved_from s s1 s' :
  lists s1 = lists s -> deferreds s1 = deferreds s -> moved s1 s' -> moved s s'.
Proof.
  intros H1 H2. unfold moved, still, starts, lstatus, get. rewrite H1, H2. done.
Qed.

Lemma sane_from s s1 : lists s1 = lists s -> lists_sane s -> lists_sane s1.
Proof. intros H1. unfold lists_sane, get. by rewrite H1. Qed.

Lemma moved_fire_from l v s s1 :
  lists s1 = lists s -> deferreds s1 = deferreds s -> lists_sane s -> moved s (fireWith l v s1).
Proof. intros H1 H2 Hs. apply (moved_from s s1); [done|done|]. by apply moved_fireWith, (sane_from s). Qed.

(** A list calls one of its functions. *)
Lemma moved_invoke l f v s :
  lists_sane s -> all_quiet s -> fn_ok l f ->
  (forall a d, l = Of a d -> settles a = true -> (d < length (deferreds s))%nat /\ lstatus l s = SFired) ->
  moved s (invoke f v s).
Proof.
  intros Hs Hq Hf Hl. assert (forall s', still s s' -> moved s (push (Returned (RValue VUndef)) s')) as Hr by by left.
  destruct f; cbn [invoke].
  - by left.
  - apply Hr. destruct Hf as [Hf|(a & d & -> & Hf)].
    { apply still_on_aside. destruct l0; [by intros ? ?|done]. }
    assert (l0 = Of (other a) d /\ settles a = true) as [-> Ha].
    { destruct a; cbn in Hf; set_unfold in Hf; naive_solver. }
    destruct (Hl a d eq_refl Ha) as [Hd Hlf]. destruct (quiet_other a d s Ha (Hq d Hd) Hlf) as [_ Hdead].
    destruct (lists s !! Of (other a) d) as [c|] eqn:Hc.
    + eapply still_on_list; [done|]. intros ? ? _ _. unfold lstatus in Hdead. rewrite (get_some _ _ _ Hc) in Hdead.
      unfold status_of in *. cbn. destruct (c_list c), (c_fired c); done.
    + split; [done|]. intros b e Hb. unfold lstatus. by rewrite get_on_none.
  - apply Hr. apply still_on_aside. destruct l0 as [n|b e]; [by intros ? ?|].
    destruct Hf as [Hf|(a & d & -> & Hf)]; [done|]. intros ? ? [= <- <-].
    destruct a; cbn in Hf; set_unfold in Hf; naive_solver.
  - by apply moved_fire_from.
  - apply Hr. destruct Hf as [Hf|(a & d' & -> & Hf)]; [done|].
    assert (d' = d /\ st = settled a /\ settles a = true) as (-> & -> & Ha).
    { destruct a; cbn in Hf; set_unfold in Hf; naive_solver. }
    destruct (Hl a d eq_refl Ha) as [Hd Hlf]. destruct (quiet_other a d s Ha (Hq d Hd) Hlf) as [Hst _].
    split; [|done]. cbn. by apply list_insert_id.
  - by left.
  - unfold when_done, when_resolve. repeat case_match; try (by left). by apply moved_fire_from.
  - unfold when_progress. repeat case_match; try (by left). by apply moved_fire_from.
Qed.

Lemma LInv_frames_fired l c fr lg : LInv l (LView c fr lg) -> fr <> [] -> c_fired c = true.
Proof. intros H Hn. inversion H; subst; try done. destruct H4 as [->|[-> _]]; done. Qed.

Lemma loop_fired s a d v st c :
  lived s -> settles a = true -> stack s = Loop (Of a d) v :: st -> lists s !! Of a d = Some c ->
  c_list c <> None -> lstatus (Of a d) s = SFired.
Proof.
  intros [_ HL] Ha Hs Hc Hn. specialize (HL a d Ha). unfold lstatus. rewrite (get_some _ _ _ Hc) in *.
  unfold view in HL. rewrite Hs, frames_cons, (proj1 (owns_self _ _)) in HL.
  apply LInv_frames_fired in HL; [|done]. unfold status_of. rewrite HL. by destruct (c_list c).
Qed.

Lemma moved_loop l v c st s :
  lived s -> typed s -> all_quiet s -> stack s = Loop l v :: st -> lists s !! l = Some c ->
  moved s (loop l v c (s <| stack := st |>)).
Proof.
  intros HL Ht Hq Hs Hc. pose proof (lived_sane _ HL) as Hsn. unfold loop.
  assert (moved s (finish l c (s <| stack := st |>))) as Hfin.
  { apply (moved_from s (s <| stack := st |>)); [done|done|]. left. by apply still_finish. }
  destruct (c_list c) as [fs|] eqn:Hfs; [|done]. destruct (_ <? _); [|done].
  destruct (if firingIndex c <? 0 then None else _) as [f|] eqn:Hf; [|by left].
  destruct (firingIndex c <? 0); [done|].
  set (s1 := logged _ _). apply (moved_from s s1); [done|done|]. apply (moved_invoke l).
  - done.
  - done.
  - apply list_elem_of_lookup_2 in Hf. pose proof (proj1 Ht _ _ Hc _ Hfs) as Hok. rewrite Forall_forall in Hok. by apply Hok.
  - intros a d -> Ha. split; [eapply fresh_made; [apply HL|done]|].
    change (lstatus (Of a d) s = SFired). eapply loop_fired; try done. by rewrite Hfs.
Qed.

Lemma moved_called l v r c st s :
  lived s -> lists s !! l = Some c -> moved s (called l v r c (s <| stack := st |>)).
Proof.
  intros HL Hc. pose proof (lived_sane _ HL) as Hsn. unfold called.
  destruct (is_false r && stopOnFalse (c_flags c)) eqn:Eh.
  - left. destruct (settles_or_aside l) as [(a & d & -> & Ha)|Hl].
    + specialize (Hsn a d Ha). rewrite (get_some _ _ _ Hc) in Hsn. rewrite (sane_flags _ Hsn), andb_false_r in Eh. done.
    + pose proof (still_on_aside l (fun c => c <| c_memory := MTrue |>) (s <| stack := st |>) Hl) as H1.
      etrans; [exact H1|]. apply still_finish.
      * intros a d Ha. rewrite get_on_other; [by apply Hsn|]. intros ->. by rewrite (Hl a d eq_refl) in Ha.
      * cbn. by rewrite lookup_alter_eq, Hc.
  - left. destruct (still_on_list l (fun c => c <| firingIndex ::= Z.add 1 |>) s c Hc) as [H1 H2]; by split.
Qed.

Lemma library_moves s s' : lived s -> typed s -> all_quiet s -> library_step s = Some s' -> moved s s'.
Proof.
  intros HL Ht Hq He. pose proof (lived_sane _ HL) as Hsn. unfold library_step in He.
  destruct (stack s) as [|[] st] eqn:Est; try done.
  - destruct (lists s !! l) as [c|] eqn:Hc; [|done]. cbn in He. simplify_eq. by apply moved_loop.
  - destruct st as [|[] st]; try done.
    + destruct (lists s !! l) as [c|] eqn:Hc; [|done]. cbn in He. simplify_eq. by apply moved_called.
    + simplify_eq. unfold piped. destruct r; [by apply moved_fire_from|by left].
  - destruct ops as [|o ops]; simplify_eq; [by left|]. destruct o; cbn [run_op].
    + apply (moved_from s (s <| stack := Todo ops :: st |>)); [done|done|]. left. by apply still_add.
    + by apply moved_fire_from.
    + by left.
    + unfold when_resolve. repeat case_match; try (by left). by apply moved_fire_from.
Qed.

(** The first two calls of a list that settles its deferred. *)
Lemma starting_step a d s s' :
  lived s -> starting a d s -> library_step s = Some s' ->
  (starting a d s' \/ quiet d s') /\ length (deferreds s') = length (deferreds s) /\
  forall e, e <> d -> quiet e s -> quiet e s'.
Proof.
  intros HL (Ha & Ho & c & v & rest & st & Hc & Hfs & Hfd & Hlen & Hph) He.
  pose proof (lived_sane _ HL a d Ha) as Hsc. rewrite (get_some _ _ _ Hc) in Hsc.
  destruct (other_settles a Ha) as [Hoa Hne].
  assert (forall f, state_fns d a !! Z.to_nat (firingIndex c) = Some f ->
    0 <= firingIndex c < 3 -> loop (Of a d) v c (s <| stack := st |>) =
    invoke f (values v (s <| stack := st |>)) (logged (LCall (Of a d) f v (values v (s <| stack := st |>)))
      (push (Called (Of a d) v) (s <| stack := st |>)))) as Hloop.
  { intros f Hf Hi. unfold loop. rewrite Hfs, Hlen, length_app.
    assert (length (state_fns d a) = 3%nat) as -> by by destruct a. assert ((firingIndex c <? Z.of_nat (3 + length rest)) = true) as -> by (apply Z.ltb_lt; lia).
    destruct (_ <? 0) eqn:E0; [lia|]. by rewrite (lookup_app_l_Some _ _ _ _ Hf). }
  destruct Hph as [(Hs & Hi & Hd)|[([r Hs] & Hi & Hd)|(Hs & Hi & Hd)]].
  - unfold library_step in He. rewrite Hs, Hc in He. cbn in He. rewrite (Hloop (SetState d (settled a))) in He;
      [|rewrite Hi; by destruct a|lia]. cbn [invoke] in He. simplify_eq. split.
    + left. split; [done|]. split; [done|]. exists c, v, rest, st. repeat (split; [done|]). right; left.
      split; [by eexists|]. split; [done|]. cbn. apply list_lookup_insert_eq. by eapply lookup_lt_Some.
    + split; [cbn; by rewrite length_insert|]. intros e Hn. apply quiet_cong; [|done].
      cbn. by rewrite list_lookup_insert_ne.
  - unfold library_step in He. rewrite Hs, Hc in He. cbn in He. unfold called in He.
    rewrite (sane_flags _ Hsc), andb_false_r in He. simplify_eq. split.
    + left. split; [done|]. split.
      { unfold lstatus. change (status_of (get (Of (other a) d) (on_list (Of a d) (fun c => c <| firingIndex ::= Z.add 1 |>) s)) = SPend).
        rewrite get_on_other by congruence. done. }
      exists (c <| firingIndex ::= Z.add 1 |>), v, rest, st. cbn. rewrite lookup_alter_eq, Hc. repeat (split; [done|]).
      right; right. by rewrite Hi.
    + split; [done|]. intros e Hn. apply quiet_cong; [done|]. intros b Hb.
      apply (f_equal status_of (get_on_other (Of b e) (Of a d) (fun c => c <| firingIndex ::= Z.add 1 |>) s ltac:(congruence))).
  - unfold library_step in He. rewrite Hs, Hc in He. cbn in He. rewrite (Hloop (Disable (Of (other a) d))) in He;
      [|rewrite Hi; by destruct a|lia]. cbn [invoke] in He. simplify_eq. split.
    + right. right. exists a. split; [done|]. split; [done|]. split.
      * apply (eq_trans (f_equal status_of (get_on_other (Of a d) (Of (other a) d) disable s ltac:(congruence)))).
        rewrite (get_some _ _ _ Hc). unfold status_of. by rewrite Hfs, Hfd.
      * destruct (fresh_exists s (other a) d (proj1 HL)) as [c' Hc']; [by eapply lookup_lt_Some|].
        apply (eq_trans (f_equal status_of (get_on_list (Of (other a) d) disable s c' Hc'))).
        unfold lstatus in Ho. rewrite (get_some _ _ _ Hc') in Ho. unfold status_of in *. cbn.
        by destruct (c_list c'), (c_fired c').
    + split; [done|]. intros e Hn. apply quiet_cong; [done|]. intros b Hb.
      apply (f_equal status_of (get_on_other (Of b e) (Of (other a) d) disable s ltac:(congruence))).
Qed.

(** ** What the page does *)

(** A deferred is made, and nothing else happens to lists. *)
Definition makes (s s' : machine) : Prop :=
  let n := new_deferred s in lists s' = lists n /\ deferreds s' = deferreds n /\ log s' = log n.

Lemma page_cases e s s' : lists_sane s -> page_step e s = Some s' -> moved s s' \/ makes s s'.
Proof.
  intros Hs. assert (forall l, is_raw l = true -> aside l) as Hr by (by intros [n|a d]).
  destruct e; cbn [page_step]; intros Hp.
  - done.
  - destruct (stack s) as [|[] st]; simplify_eq. left. by left.
  - destruct (stack s) as [|[] st]; simplify_eq. left. by left.
  - simplify_eq. left. left. split; [done|]. intros a d Ha. unfold lstatus, get. cbn.
    by rewrite lookup_insert_ne.
  - simplify_eq. by right.
  - destruct (is_raw l && _); simplify_eq. left. left. by apply still_add.
  - destruct (is_raw l) eqn:E; simplify_eq. left. left. by apply still_on_aside, Hr.
  - destruct (is_raw l) eqn:E; simplify_eq. left. left. by apply still_on_aside, Hr.
  - destruct (is_raw l) eqn:E; simplify_eq. left. left. by apply still_on_aside, Hr.
  - destruct (is_raw l) eqn:E; simplify_eq. left. left. by apply still_on_aside, Hr.
  - destruct (is_raw l) eqn:E; simplify_eq. left. by apply moved_fireWith.
  - destruct (made s d && _); simplify_eq. left. left. by apply still_add.
  - destruct (made s d && _); simplify_eq. left. by left.
  - destruct (made s d && _); simplify_eq. left. by left.
  - destruct (made s d); simplify_eq. left. by apply moved_fireWith.
  - destruct (made s d); simplify_eq. by right.
  - destruct (forallb _ _); simplify_eq. unfold when. repeat case_match; try (by right). left. by left.
Qed.

Lemma add_state a d x :
  lists x !! Of a d = Some (new_callbacks once_memory) ->
  (exists c, lists (add (Of a d) (AFn <$> state_fns d a) x) !! Of a d = Some c /\ status_of c = SPend)
  /\ log (add (Of a d) (AFn <$> state_fns d a) x) = log x ++ [LAdd (Of a d) (state_fns d a)].
Proof.
  intros Hx. unfold add. rewrite Hx, once_memory_flags. cbn. rewrite lookup_alter_eq, Hx. split.
  - eexists. split; [done|]. done.
  - by destruct a.
Qed.

Lemma new_deferred_eq s :
  let d := length (deferreds s) in
  log (new_deferred s) = log s ++ [LAdd (Of Resolve d) (state_fns d Resolve); LAdd (Of Reject d) (state_fns d Reject)] /\
  deferreds (new_deferred s) = deferreds s ++ [Pending] /\
  lstatus (Of Resolve d) (new_deferred s) = SPend /\ lstatus (Of Reject d) (new_deferred s) = SPend /\
  forall b e, e <> d -> lists (new_deferred s) !! Of b e = lists s !! Of b e.
Proof.
  cbn. set (d := length (deferreds s)).
  set (s1 := (new_list (Of Notify d) memory_only (new_list (Of Reject d) once_memory
               (new_list (Of Resolve d) once_memory s))) <| deferreds ::= fun l => l ++ [Pending] |>).
  assert (lists s1 !! Of Resolve d = Some (new_callbacks once_memory)) as H1.
  { cbn. rewrite !lookup_insert_ne by done. by rewrite lookup_insert_eq. }
  assert (lists s1 !! Of Reject d = Some (new_callbacks once_memory)) as H2.
  { cbn. rewrite lookup_insert_ne by done. by rewrite lookup_insert_eq. }
  change (new_deferred s) with (add (Of Reject d) (AFn <$> state_fns d Reject)
    (add (Of Resolve d) (AFn <$> state_fns d Resolve) s1)).
  assert (lists (add (Of Resolve d) (AFn <$> state_fns d Resolve) s1) !! Of Reject d =
    Some (new_callbacks once_memory)) as H3 by by rewrite lists_add_other.
  set (s2 := add (Of Resolve d) (AFn <$> state_fns d Resolve) s1) in *.
  destruct (add_state Resolve d s1 H1) as [(c1 & H4 & P1) H5]. fold s2 in H4, H5.
  destruct (add_state Reject d s2 H3) as [(c2 & H6 & P2) H7]. split; [by rewrite H7, H5, <- app_assoc|].
  split; [unfold s2; by rewrite !deferreds_add|]. unfold lstatus, get. rewrite lists_add_other by done. rewrite H4, H6.
  repeat (split; [done|]). intros b e Hn. unfold s2. rewrite !lists_add_other by congruence. cbn.
  by rewrite !lookup_insert_ne by congruence.
Qed.

(** ** Reachable states *)

Lemma makes_led s s' : lived s -> led s -> makes s s' -> led s'.
Proof.
  intros [Hf HL] Hled (Hl & Hd & Hlog) a d Hlt. destruct (new_deferred_eq s) as (E1 & E2 & _).
  rewrite Hd, E2, length_app in Hlt. cbn in Hlt. rewrite Hlog, E1, added_app.
  destruct (decide (d = length (deferreds s))) as [->|Hn]; [|apply prefix_app_r, Hled; lia].
  destruct (settles a) eqn:Ha; [|destruct a; try done; by apply prefix_nil].
  assert (added (Of a (length (deferreds s))) (log s) = []) as ->.
  { specialize (HL a (length (deferreds s)) Ha). unfold get in HL. rewrite (proj2 (Hf _ _)) in HL by lia.
    apply LInv_pend in HL; [|by destruct a]. cbn in HL. congruence. }
  unfold added. destruct a; try done; cbn -[state_fns]; repeat case_decide; try congruence; cbn -[state_fns]; rewrite ?app_nil_r; done.
Qed.

Lemma makes_DInv s s' : all_quiet s -> makes s s' -> DInv s'.
Proof.
  intros Hq (Hl & Hd & _) d Hlt. left. destruct (new_deferred_eq s) as (_ & E2 & P1 & P2 & Hr).
  rewrite Hd, E2, length_app in Hlt. cbn in Hlt. destruct (decide (d = length (deferreds s))) as [->|Hn].
  - left. unfold lstatus, get. rewrite Hl, Hd, E2. split; [|by split]. by rewrite list_lookup_middle.
  - eapply (quiet_cong d s); [|intros a Ha|apply Hq; lia].
    + rewrite Hd, E2. rewrite lookup_app_l by lia. done.
    + unfold lstatus, get. by rewrite Hl, Hr.
Qed.

Record good (s : machine) : Prop := {
  g_lived : lived s;
  g_typed : typed s;
  g_led : led s;
  g_dinv : DInv s;
}.

Lemma led_same s s' :
  length (deferreds s') = length (deferreds s) ->
  (forall a d, sim (Of a d) s s') -> led s -> led s'.
Proof.
  intros Hl Hs Hled a d Hd. rewrite Hl in Hd. etrans; [by apply Hled|]. by apply sim_added.
Qed.

Lemma moved_deferreds s s' : moved s s' -> deferreds s' = deferreds s.
Proof. intros [[H _]|(a & d & _ & H & _)]; done. Qed.

(** Page code runs in quiet states only. *)
Lemma page_quiet s : DInv s -> page_runs s = true -> all_quiet s.
Proof.
  intros HD Hp d Hd. destruct (HD d Hd) as [Hq|(a & _ & _ & c & v & rest & st & _ & _ & _ & _ & H)]; [done|].
  unfold page_runs in Hp. destruct H as [(E & _)|[([r E] & _)|(E & _)]]; by rewrite E in Hp.
Qed.

(** At most one deferred is being settled. *)
Lemma starting_unique a b d e s : starting a d s -> starting b e s -> a = b /\ d = e.
Proof.
  intros (_ & _ & c & v & r1 & st & _ & _ & _ & _ & H1) (_ & _ & c' & v' & r2 & st' & _ & _ & _ & _ & H2).
  destruct H1 as [(E1 & _)|[([? E1] & _)|(E1 & _)]], H2 as [(E2 & _)|[([? E2] & _)|(E2 & _)]];
    rewrite E1 in E2; by simplify_eq.
Qed.

Lemma quiet_or_starting s : DInv s -> all_quiet s \/ exists a d, (d < length (deferreds s))%nat /\ starting a d s.
Proof.
  intros HD. destruct (page_runs s) eqn:Hp; [left; by apply page_quiet|].
  assert (forall n, (forall d, (d < n)%nat -> (d < length (deferreds s))%nat -> quiet d s) \/
                    exists a d, (d < length (deferreds s))%nat /\ starting a d s) as H.
  { intros n. induction n as [|n [IH|IH]]; [left; lia| |by right].
    destruct (decide (n < length (deferreds s))%nat) as [Hn|Hn].
    - destruct (HD n Hn) as [Hq|[a Ha]]; [|right; eauto]. left. intros d Hd1 Hd2.
      destruct (decide (d = n)) as [->|]; [done|]. apply IH; lia.
    - left. intros d Hd1 Hd2. apply IH; lia. }
  destruct (H (length (deferreds s))) as [Hq|Hs]; [left|by right]. intros d Hd. by apply Hq.
Qed.

Lemma DInv_step s e s' : good s -> step s e = Some s' -> DInv s' /\ (deferreds s' = deferreds s \/ length (deferreds s') = length (deferreds s) \/ makes s s').
Proof.
  intros [HL HT HP HD] He. destruct (quiet_or_starting s HD) as [Hq|(a & d & Hd & Hst)].
  - assert (moved s s' \/ makes s s') as [Hm|Hm].
    { destruct e; cbn [step] in He; try (destruct (page_runs s); [|done]; eapply page_cases; [by apply lived_sane|done]).
      left. by apply library_moves. }
    + split; [by eapply moved_DInv|]. left. by apply moved_deferreds.
    + split; [by eapply makes_DInv|]. by right; right.
  - assert (library_step s = Some s') as Hlib.
    { destruct e; cbn [step] in He; try done; exfalso.
      all: destruct (page_runs s) eqn:Hp; [|done]; destruct Hst as (_ & _ & ? & ? & ? & ? & _ & _ & _ & _ & H);
        unfold page_runs in Hp; destruct H as [(E & _)|[([? E] & _)|(E & _)]]; by rewrite E in Hp. }
    destruct (starting_step a d s s' HL Hst Hlib) as (H1 & H2 & H3). split; [|by right; left]. intros b Hb.
    destruct (decide (b = d)) as [->|Hn]; [destruct H1; eauto|]. left. apply H3; [done|].
    rewrite H2 in Hb. destruct (HD b Hb) as [Hq|[a' Ha']]; [done|].
    destruct (starting_unique _ _ _ _ _ Ha' Hst). done.
Qed.

Lemma good_step s e s' : good s -> step s e = Some s' -> good s'.
Proof.
  intros Hg He. destruct (DInv_step s e s' Hg He) as [HD Hlen]. destruct Hg as [HL HT HP _].
  constructor; [by eapply lived_step|by eapply typed_step| |done].
  assert (forall a d, sim (Of a d) s s') as Hsim by (intros; eapply step_sim; [done|apply HL|done]).
  destruct Hlen as [Hlen|[Hlen|Hm]]; [|by eapply led_same|by eapply makes_led].
  apply (led_same s); [by rewrite Hlen|done|done].
Qed.

Lemma step_length s e s' : good s -> step s e = Some s' -> (length (deferreds s) <= length (deferreds s'))%nat.
Proof.
  intros Hg He. destruct (DInv_step s e s' Hg He) as [_ [->|[->|(_ & -> & _)]]]; [done|done|].
  destruct (new_deferred_eq s) as (_ & -> & _). rewrite length_app. lia.
Qed.

Lemma run_good s evs s' :
  good s -> run s evs = Some s' -> good s' /\ (length (deferreds s) <= length (deferreds s'))%nat.
Proof.
  revert s. induction evs as [|e evs IH]; intros s Hg Hr; cbn in Hr; [by simplify_eq|].
  destruct (step s e) as [s1|] eqn:E; [|done]. destruct (IH s1 (good_step _ _ _ Hg E) Hr).
  pose proof (step_length _ _ _ Hg E). split; [done|lia].
Qed.

Lemma good_init : good init.
Proof.
  constructor; [apply lived_init|by split|by intros a d Hd; cbn in Hd; lia|by intros d Hd; cbn in Hd; lia].
Qed.

Lemma good_run evs s : run init evs = Some s -> good s.
Proof. intros Hr. exact (proj1 (run_good init evs s good_init Hr)). Qed.
