(* ===== verification/JqSettle.v ===== *)
(** * What deferreds promise (jquery-1.7.2.js)

    The theorems on [jQuery.Deferred], for every page and every order of its
    calls: the state agrees with the lists whenever page code runs, an outcome
    is final, and the functions are called once each, in order, with the values
    the deferred was settled with. *)

From stdpp Require Import base gmap list strings.
From S2P Require Import Prelude JsString ZeptoCore JqCallbacks JqDeferred JqPromise.

Lemma quiet_settled a d s :
  settles a = true -> deferreds s !! d = Some (settled a) -> quiet d s ->
  lstatus (Of a d) s = SFired /\ lstatus (Of (other a) d) s = SDead.
Proof.
  intros Ha Hd [(H1 & H2 & H3)|(b & Hb & H1 & H2 & H3)]; rewrite Hd in H1; destruct a; try done;
    destruct b; try done.
Qed.

Lemma status_fired c : status_of c = SFired -> c_fired c = true /\ c_list c <> None.
Proof. unfold status_of. by destruct (c_list c), (c_fired c). Qed.

Lemma status_unfired c : status_of c = SPend \/ status_of c = SDead -> c_fired c = false.
Proof. unfold status_of. destruct (c_list c), (c_fired c); naive_solver. Qed.

Lemma status_alive c : status_of c = SPend \/ status_of c = SFired -> c_list c <> None.
Proof. unfold status_of. destruct (c_list c), (c_fired c); naive_solver. Qed.

Lemma unfired_calls l s :
  LInv l (view l (get l s) s) -> lstatus l s = SPend \/ lstatus l s = SDead ->
  fired (get l s) = false /\ calls l (log s) = [].
Proof. intros HL Hs. apply status_unfired in Hs. split; [done|]. by eapply LInv_unfired. Qed.

(** C6: whenever page code runs, a deferred's [state()] agrees with what its lists have done: while it is pending neither [isResolved()] nor [isRejected()] holds and no function of the done or fail list has been called; once it is resolved [isResolved()] holds and no function of the fail list has ever been called, and the other way round once it is rejected. *)
Theorem deferred_state_sound evs s d st :
  run init evs = Some s -> page_runs s = true -> deferreds s !! d = Some st ->
  let l1 := Of Resolve d in let l2 := Of Reject d in
  fired (get l1 s) = bool_decide (st = Resolved) /\ fired (get l2 s) = bool_decide (st = Rejected) /\
  (st <> Resolved -> calls l1 (log s) = []) /\ (st <> Rejected -> calls l2 (log s) = []).
Proof.
  intros Hr Hp Hd. destruct (good_run _ _ Hr) as [[_ HL] _ _ HD].
  pose proof (page_quiet s HD Hp d (lookup_lt_Some _ _ _ Hd)) as Hq. cbn.
  pose proof (fun H => unfired_calls _ _ (HL Resolve d eq_refl) H) as U1.
  pose proof (fun H => unfired_calls _ _ (HL Reject d eq_refl) H) as U2. destruct st.
  - destruct (quiet_pending Resolve d s eq_refl Hq) as [_ H2].
    { destruct Hq as [(_ & H & _)|(b & Hb & H & _)]; [done|]. rewrite Hd in H. by destruct b. }
    destruct (quiet_pending Reject d s eq_refl Hq) as [_ H1]; [done|].
    destruct (U1 (or_introl H1)), (U2 (or_introl H2)). by split_and!.
  - destruct (quiet_settled Resolve d s eq_refl Hd Hq) as [H1 H2]. destruct (U2 (or_intror H2)).
    destruct (status_fired _ H1) as [F _]. by split_and!.
  - destruct (quiet_settled Reject d s eq_refl Hd Hq) as [H1 H2]. destruct (U1 (or_intror H2)).
    destruct (status_fired _ H1) as [F _]. by split_and!.
Qed.

(** The value a list was fired with. *)
Definition outcome (a : action) (d : nat) (s : machine) : memory := c_memory (get (Of a d) s).

Definition final (a : action) (d : nat) (v : actuals) (s : machine) : Prop :=
  good s /\ deferreds s !! d = Some (settled a) /\ lstatus (Of a d) s = SFired /\
  lstatus (Of (other a) d) s = SDead /\ outcome a d s = MVal v.

Lemma final_step a d v s e s' : settles a = true -> final a d v s -> step s e = Some s' -> final a d v s'.
Proof.
  intros Ha (Hg & Hd & H1 & H2 & Hm) He. pose proof (good_step _ _ _ Hg He) as Hg'.
  destruct (other_settles a Ha) as [Hoa Hne].
  assert (forall b, settles b = true -> sim (Of b d) s s' /\ LInv (Of b d) (view (Of b d) (get (Of b d) s) s)) as HS.
  { intros b Hb. split; [eapply step_sim; [done|apply (g_lived _ Hg)|done]|by apply (g_lived _ Hg)]. }
  destruct (HS _ Ha) as [S1 L1]. destruct (HS _ Hoa) as [S2 L2].
  destruct (sim_sticky _ _ _ S1 L1) as (_ & A2 & A3). destruct (sim_sticky _ _ _ S2 L2) as (B1 & _ & _).
  apply status_fired in H1 as [F1 F2].
  assert (c_list (get (Of (other a) d) s') = None) as Hdead.
  { apply B1. unfold lstatus, status_of in H2.
    by destruct (c_list (get (Of (other a) d) s)), (c_fired (get (Of (other a) d) s)). }
  assert (c_fired (get (Of a d) s') = true) as Hf by auto.
  assert (d < length (deferreds s'))%nat as Hlt.
  { apply lookup_lt_Some in Hd. pose proof (step_length _ _ _ Hg He). lia. }
  destruct (g_dinv _ Hg' d Hlt) as [[(Q1 & Q2 & Q3)|(b & Hb & Q1 & Q2 & Q3)]|(b & Hb & Q2 & c & ? & ? & ? & Hc & Hl & _)].
  - pose proof (status_unfired _ (or_introl Q2)). pose proof (status_unfired _ (or_introl Q3)).
    destruct a; try done; cbn in *; congruence.
  - destruct (status_fired _ Q2) as [G1 G2].
    assert (b = a) as -> by (destruct a, b; done). do 4 (split; [done|]). by apply A3.
  - exfalso. pose proof (status_alive _ (or_introl Q2)) as Hal.
    destruct a, b; try done; cbn in *; rewrite (get_some _ _ _ Hc) in *; congruence.
Qed.

Lemma fired_value l c s :
  LInv l (view l c s) -> c_fired c = true -> c_list c <> None -> exists v, c_memory c = MVal v.
Proof. intros H. unfold view in H. inversion H; subst; cbn; try done; eauto. Qed.

(** C34: the outcome of a deferred is final: once it is resolved or rejected, no later call of the page, however nested, changes its [state()], the values it was settled with, or lets a function of the opposite list be called. *)
Theorem deferred_outcome_final evs evs' s s' d a :
  run init evs = Some s -> page_runs s = true -> settles a = true ->
  deferreds s !! d = Some (settled a) -> run s evs' = Some s' ->
  exists v, outcome a d s = MVal v /\ outcome a d s' = MVal v /\
    deferreds s' !! d = Some (settled a) /\ calls (Of (other a) d) (log s') = [].
Proof.
  intros Hr Hp Ha Hd Hr'. pose proof (good_run _ _ Hr) as Hg.
  pose proof (page_quiet s (g_dinv _ Hg) Hp d (lookup_lt_Some _ _ _ Hd)) as Hq.
  destruct (quiet_settled a d s Ha Hd Hq) as [H1 H2]. destruct (status_fired _ H1) as [F1 F2].
  destruct (fired_value _ _ _ (proj2 (g_lived _ Hg) a d Ha) F1 F2) as [v Hv].
  assert (final a d v s) as Hf by done. exists v.
  assert (final a d v s') as (Hg' & E1 & E2 & E3 & E4).
  { clear -Hf Hr' Ha. revert s Hf Hr'. induction evs' as [|e evs' IH]; intros s Hf Hr; cbn in Hr; [by simplify_eq|].
    destruct (step s e) as [s1|] eqn:E; [|done]. eapply IH; [|done]. by eapply final_step. }
  do 3 (split; [done|]). destruct (other_settles a Ha) as [Hoa _].
  apply (unfired_calls _ _ (proj2 (g_lived _ Hg') _ d Hoa)). by right.
Qed.

(** ** What is called *)

Lemma LInv_serves l c s :
  LInv l (view l c s) -> exists v now later, added l (log s) = now ++ later /\ calls l (log s) = (fun f => (f, v)) <$> now.
Proof.
  intros H. rewrite <- added_entries, <- calls_entries. unfold view in H. inversion H; subst;
    match goal with H : serves _ ?v ?n ?l _ |- _ => exists v, n, l; exact H end.
Qed.

Lemma sim_sound l s s' :
  sim l s s' -> LInv l (view l (get l s) s) -> LTypeError l ∉ entries l (log s) -> LTypeError l ∉ entries l (log s').
Proof.
  unfold sim. change (entries l (log s)) with (v_log (view l (get l s) s)).
  change (entries l (log s')) with (v_log (view l (get l s') s')).
  generalize (view l (get l s) s), (view l (get l s') s'). intros w w'.
  induction 1 as [w|w1 w2 w3 H1 H2 IH]; intros HL; [done|]. intros Hn.
  apply IH; [by eapply LInv_step|by eapply lstep_sound].
Qed.

Lemma entries_error l lg : (LTypeError l ∈ entries l lg) <-> (LTypeError l ∈ lg).
Proof. unfold entries. rewrite !list_elem_of_In, List.filter_In. naive_solver. Qed.

Lemma run_sound evs s a d : settles a = true -> run init evs = Some s -> LTypeError (Of a d) ∉ log s.
Proof.
  intros Ha Hr. enough (good s /\ LTypeError (Of a d) ∉ log s) as [_ ?] by done. revert evs s Hr.
  apply (run_ind (fun s => good s /\ LTypeError (Of a d) ∉ log s)); [split; [apply good_init|by intros H%elem_of_nil]|].
  intros s e s' [Hg Hn] He. split; [by eapply good_step|]. intros Hin%entries_error. revert Hin.
  eapply sim_sound; [eapply step_sim; [done|apply (g_lived _ Hg)|done]|by apply (g_lived _ Hg)|].
  by rewrite entries_error.
Qed.

(** C22: whatever the page's functions do while they are called (add functions, settle this or another deferred, throw), the done or fail list of a deferred calls its functions in the order they were added, each at most once, never skipping one, all with the same arguments, and never fails for want of a function. *)
Theorem deferred_calls_in_order evs s d a :
  run init evs = Some s -> settles a = true ->
  (exists v now later, added (Of a d) (log s) = now ++ later /\
     calls (Of a d) (log s) = (fun f => (f, v)) <$> now) /\
  LTypeError (Of a d) ∉ log s.
Proof.
  intros Hr Ha. split; [|by eapply run_sound]. eapply LInv_serves, (g_lived _ (good_run _ _ Hr)), Ha.
Qed.

Lemma threw_entries l lg : threw (entries l lg) = true -> threw lg = true.
Proof.
  unfold threw, entries. rewrite !existsb_exists. intros (e & He & H). apply List.filter_In in He as [He _]. eauto.
Qed.

Lemma LInv_idle l c lg :
  LInv l (LView c [] lg) -> c_fired c = true -> c_list c <> None -> threw lg = false ->
  exists v, c_memory c = MVal v /\ calls l lg = (fun f => (f, v)) <$> added l lg.
Proof.
  intros HL Hf Hl Ht. inversion HL; subst; cbn in *; try done; [|congruence].
  match goal with H : serves _ _ _ _ _ |- _ => destruct H as [H1 H2] end.
  exists v. split; [done|]. by rewrite H1, H2, app_nil_r.
Qed.

(** C7: no function is forgotten: when the page's code has run to its end and no exception has passed, a resolved (or rejected) deferred has called every function of its done (or fail) list, those added before and those added after it was settled, in order and once each, with the values it was settled with. *)
Theorem deferred_serves_all evs s d a :
  run init evs = Some s -> stack s = [] -> threw (log s) = false -> settles a = true ->
  deferreds s !! d = Some (settled a) ->
  exists v, outcome a d s = MVal v /\ calls (Of a d) (log s) = (fun f => (f, v)) <$> added (Of a d) (log s).
Proof.
  intros Hr Hst Ht Ha Hd. pose proof (good_run _ _ Hr) as Hg.
  assert (page_runs s = true) as Hp by (unfold page_runs; by rewrite Hst).
  destruct (quiet_settled a d s Ha Hd (page_quiet s (g_dinv _ Hg) Hp d (lookup_lt_Some _ _ _ Hd))) as [H1 _].
  destruct (status_fired _ H1) as [F1 F2]. pose proof (proj2 (g_lived _ Hg) a d Ha) as HL.
  unfold outcome. unfold view in HL. rewrite Hst in HL. rewrite <- added_entries, <- calls_entries.
  assert (threw (entries (Of a d) (log s)) <> true) as Hno by (intros ?%threw_entries; congruence).
  destruct (LInv_idle _ _ _ HL F1 F2) as (v & Hv & Hs); [by destruct (threw (entries _ _))|]. eauto.
Qed.

(** ** A page *)

Module Sample.

(** A page makes a deferred, adds a function that adds another one, and
    resolves it; the functions return. *)
Definition ret0 : event := EReturn (RValue VUndef).
Definition lib (n : nat) : list event := replicate n ELibrary.

Definition page : list event :=
  [ENewDeferred; EThen 0 (AFn (User 1)) (AFn (User 2)) (AArr [])] ++ lib 4 ++ [ESettle 0 Resolve [VNum 7]]
  ++ lib 7 ++ [EDeferredAdd 0 Resolve [AFn (User 3)]; ret0] ++ lib 2 ++ [ret0] ++ lib 2.

Definition ended_page : machine := default init (run init page).

Lemma page_log :
  run init page = Some ended_page /\ stack ended_page = [] /\ deferreds ended_page = [Resolved] /\
  calls (Of Resolve 0) (log ended_page) =
    (fun f => (f, Actual [VNum 7])) <$> state_fns 0 Resolve ++ [User 1; User 3].
Proof. vm_compute. done. Qed.

Lemma deferred_state_sound_witness :
  fired (get (Of Resolve 0) ended_page) = true /\ calls (Of Reject 0) (log ended_page) = [].
Proof.
  destruct (deferred_state_sound page ended_page 0 Resolved (proj1 page_log)) as (H1 & _ & _ & H2).
  - vm_compute. reflexivity.
  - vm_compute. reflexivity.
  - split; [exact H1|]. apply H2. discriminate.
Defined.

(** Rejecting it afterwards changes nothing. *)
Lemma deferred_outcome_final_witness :
  exists v, outcome Resolve 0 ended_page = MVal v /\
    exists s', run ended_page [ESettle 0 Reject [VNum 9]; EDeferredAdd 0 Reject [AFn (User 4)]] = Some s' /\
    outcome Resolve 0 s' = MVal v /\ calls (Of Reject 0) (log s') = [].
Proof.
  destruct (deferred_outcome_final page [ESettle 0 Reject [VNum 9]; EDeferredAdd 0 Reject [AFn (User 4)]]
    ended_page (default init (run ended_page [ESettle 0 Reject [VNum 9]; EDeferredAdd 0 Reject [AFn (User 4)]]))
    0 Resolve (proj1 page_log)) as (v & H1 & H2 & _ & H3).
  - vm_compute. reflexivity.
  - reflexivity.
  - vm_compute. reflexivity.
  - vm_compute. reflexivity.
  - exists v. split; [exact H1|]. eexists. split; [vm_compute; reflexivity|]. split; [exact H2|exact H3].
Defined.

Lemma deferred_calls_in_order_witness : LTypeError (Of Resolve 0) ∉ log ended_page.
Proof.
  exact (proj2 (deferred_calls_in_order page ended_page 0 Resolve (proj1 page_log) eq_refl)).
Defined.

Lemma deferred_serves_all_witness :
  exists v, calls (Of Resolve 0) (log ended_page) = (fun f => (f, v)) <$> added (Of Resolve 0) (log ended_page).
Proof.
  destruct (deferred_serves_all page ended_page 0 Resolve (proj1 page_log)) as (v & _ & H).
  - vm_compute. reflexivity.
  - vm_compute. reflexivity.
  - reflexivity.
  - vm_compute. reflexivity.
  - exists v. exact H.
Defined.

(** A function that throws leaves the list firing: a function added later is
    kept and never called, although the deferred is resolved. *)
Definition throwing : list event :=
  [ENewDeferred; EDeferredAdd 0 Resolve [AFn (User 1)]; ESettle 0 Resolve [VNum 7]]
  ++ lib 7 ++ [EThrow; EDeferredAdd 0 Resolve [AFn (User 2)]].

Example throw_blocks_later :
  exists s, run init throwing = Some s /\ stack s = [] /\ deferreds s = [Resolved] /\
    added (Of Resolve 0) (log s) = state_fns 0 Resolve ++ [User 1; User 2] /\
    (calls (Of Resolve 0) (log s)).*1 = state_fns 0 Resolve ++ [User 1].
Proof. eexists. split; [vm_compute; reflexivity|]. vm_compute. done. Qed.

(** [empty] called by a function of a firing list: the loop goes on to a
    function that is no longer there. *)
Definition emptying : list event :=
  [ENewList []; EAdd (Raw 0) [AFn (User 1); AFn (User 2)]; EFireWith (Raw 0) []; ELibrary; EEmpty (Raw 0); ret0;
   ELibrary; ELibrary].

Example empty_while_firing :
  exists s, run init emptying = Some s /\ stack s = [] /\ LTypeError (Raw 0) ∈ log s.
Proof.
  eexists. split; [vm_compute; reflexivity|]. split; [done|]. apply list_elem_of_In. cbn. eauto.
Qed.

(** [when] hands its array of progress values to the functions: the second
    function of one notification sees what the first one made another
    deferred notify. *)
Definition sharing : list event :=
  [ENewDeferred; ENewDeferred; EWhen [WDeferred 0; WDeferred 1]] ++ lib 8
  ++ [EDeferredAdd 2 Notify [AFn (User 1); AFn (User 2)]; ESettle 0 Notify [VNum 1]]
  ++ lib 2 ++ [ESettle 1 Notify [VNum 2]] ++ lib 3 ++ [ret0] ++ lib 2.

Example progress_values_shared :
  exists s, run init sharing = Some s /\
    List.filter (fun e => match e with LCall (Of Notify 2) _ _ _ => true | _ => false end) (log s) =
      [LCall (Of Notify 2) (User 1) (PValuesOf 0) [VNum 1; VUndef];
       LCall (Of Notify 2) (User 2) (PValuesOf 0) [VNum 1; VNum 2]].
Proof. eexists. split; [vm_compute; reflexivity|]. vm_compute. done. Qed.

End Sample.
