(* ===== verification/JqLive.v ===== *)
(** * The library comes back (jquery-1.7.2.js)

    The machine of [JqCallbacks] never gets stuck inside the library, and
    settling a deferred whose functions return does come back to the caller,
    after every function has been called. *)

From stdpp Require Import base gmap list strings.
From S2P Require Import Prelude JsString ZeptoCore JqCallbacks JqDeferred JqPromise JqSettle.

(** ** No state is stuck *)

(** The stacks that occur; with [b] a frame is on top that returns to the
    frame below. *)
Fixpoint shape (m : gmap lid callbacks) (b : bool) (st : list frame) : bool :=
  match st with
  | [] => negb b
  | Called l _ :: st' => b && bool_decide (is_Some (m !! l)) && shape m false st'
  | Piped _ _ :: st' => b && shape m true st'
  | Code _ :: st' | Returned _ :: st' => negb b && shape m true st'
  | Loop l _ :: st' => negb b && bool_decide (is_Some (m !! l)) && shape m false st'
  | Todo _ :: st' => negb b && shape m false st'
  end.

Definition shaped (s : machine) : Prop := shape (lists s) false (stack s) = true.

Definition grows (m m' : gmap lid callbacks) : Prop := forall l, is_Some (m !! l) -> is_Some (m' !! l).

Lemma shape_grows m m' b st : grows m m' -> shape m b st = true -> shape m' b st = true.
Proof.
  intros Hg. revert b. induction st as [|f st IH]; intros b; [done|].
  destruct f; cbn; rewrite ?andb_true_iff, ?bool_decide_eq_true; naive_solver.
Qed.

Lemma shape_unwind m b st : shape m b st = true -> shape m false (unwind st) = true.
Proof.
  revert b. induction st as [|f st IH]; intros b; [by destruct b|].
  destruct f; cbn; rewrite ?andb_true_iff; naive_solver.
Qed.

Lemma grows_kept s s' : kept s s' -> grows (lists s) (lists s').
Proof.
  intros [H _] l. rewrite <- !not_eq_None_Some. intros Hn Hn'. by apply Hn, H.
Qed.

(** What a call of the library leaves on the stack: at most a loop more. *)
Definition called_from (s s' : machine) : Prop :=
  grows (lists s) (lists s') /\
  (stack s' = stack s \/ exists l v, is_Some (lists s' !! l) /\ stack s' = Loop l v :: stack s).

Lemma called_fireWith l v s : called_from s (fireWith l v s).
Proof.
  split; [by apply grows_kept, kept_fireWith|]. unfold fireWith.
  destruct (lists s !! l) as [c|] eqn:Hc; [|by left]. destruct (c_stack c); [|by left].
  destruct (c_firing c); [destruct (once _); by left|]. destruct (_ && _); [by left|].
  right. exists l, v. split; [|done]. cbn. rewrite lookup_alter_eq, Hc. by eexists.
Qed.

Lemma called_add l args s : called_from s (add l args s).
Proof.
  split; [by apply grows_kept, kept_add|]. unfold add.
  destruct (lists s !! l) as [c|] eqn:Hc; [|by left]. destruct (c_list c); [|by left].
  destruct (c_firing c); [by left|]. destruct (c_memory c) as [| |v]; [by left..|].
  right. exists l, v. split; [|done]. cbn. rewrite !lookup_alter_eq, Hc. by eexists.
Qed.

Lemma called_shaped s s' : called_from s s' -> shaped s -> shaped s'.
Proof.
  intros [Hg H] Hs. unfold shaped in *. apply (shape_grows _ _ _ _ Hg) in Hs.
  destruct H as [->|(l & v & Hl & ->)]; [done|]. cbn. by rewrite bool_decide_true.
Qed.

Lemma called_finish l c s : called_from s (finish l c s).
Proof.
  split; [by apply grows_kept, kept_finish|]. unfold finish. destruct (c_list c); [|by left].
  destruct (once _); [destruct (c_memory c); by left|]. destruct (c_stack c) as [[|v w]|]; [by left| |by left].
  set (s1 := on_list l _ (on_list l _ s)). by destruct (called_fireWith l v s1) as [_ H].
Qed.

(** A function returns, or page code runs. *)
Lemma shaped_invoke f v s :
  shape (lists s) true (stack s) = true -> shaped (invoke f v s).
Proof.
  intros Hs. assert (shaped (push (Returned (RValue VUndef)) s)) as Hr by done.
  destruct f; cbn [invoke]; try done.
  - unfold shaped. cbn. eapply shape_grows; [|exact Hs]. apply (grows_kept s (on_list l disable s)). by apply kept_on_list.
  - unfold shaped. cbn. eapply shape_grows; [|exact Hs]. apply (grows_kept s (on_list l lock s)). by apply kept_on_list.
  - eapply called_shaped; [apply called_fireWith|done].
  - unfold when_done, when_resolve. repeat case_match; try done. eapply called_shaped; [apply called_fireWith|done].
  - unfold when_progress. repeat case_match; try done. eapply called_shaped; [apply called_fireWith|done].
Qed.

Lemma shaped_library s s' : shaped s -> library_step s = Some s' -> shaped s'.
Proof.
  unfold shaped at 1, library_step. destruct (stack s) as [|[] st] eqn:Est; try done; cbn; intros Hs He.
  - destruct (lists s !! l) as [c|] eqn:Hc; [|done]. cbn in *. simplify_eq.
    pose proof (called_shaped _ _ (called_finish l c (s <| stack := st |>)) Hs) as Hf.
    unfold loop. destruct (c_list c) as [fs|]; [|done]. destruct (_ <? _); [|done].
    destruct (if firingIndex c <? 0 then None else _) as [f|].
    + apply shaped_invoke. cbn. by rewrite Hc.
    + unfold shaped. cbn. by eapply shape_unwind.
  - destruct st as [|[] st]; try done; cbn in Hs.
    + destruct (lists s !! l) as [c|] eqn:Hc; [|done]. cbn in *. simplify_eq. unfold called.
      assert (forall g, shaped (on_list l g (s <| stack := st |>))) as Hg.
      { intros g. unfold shaped. cbn. eapply shape_grows; [|exact Hs]. apply (grows_kept s (on_list l g s)). by apply kept_on_list. }
      destruct (_ && _).
      * eapply called_shaped; [apply called_finish|apply Hg].
      * unfold shaped. cbn. specialize (Hg (fun c => c <| firingIndex ::= Z.add 1 |>)). unfold shaped in Hg. cbn in Hg.
        by rewrite lookup_alter_eq, Hc, Hg.
    + simplify_eq. unfold piped. destruct r; [|done]. eapply called_shaped; [apply called_fireWith|done].
  - destruct ops as [|o ops]; simplify_eq; [done|]. destruct o; cbn [run_op]; try done.
    + eapply called_shaped; [apply called_add|done].
    + eapply called_shaped; [apply called_fireWith|done].
    + unfold when_resolve. repeat case_match; try done. eapply called_shaped; [apply called_fireWith|done].
Qed.

Lemma grows_new_list l f s : grows (lists s) (lists (new_list l f s)).
Proof.
  intros l' H. cbn. destruct (decide (l = l')) as [->|Hn]; [rewrite lookup_insert_eq; by eexists|].
  by rewrite lookup_insert_ne.
Qed.

Lemma grows_trans m1 m2 m3 : grows m1 m2 -> grows m2 m3 -> grows m1 m3.
Proof. unfold grows. eauto. Qed.

Lemma stack_new_deferred s : stack (new_deferred s) = stack s.
Proof.
  unfold new_deferred. set (d := length (deferreds s)).
  assert (forall a x, lists x !! Of a d = Some (new_callbacks once_memory) ->
    stack (add (Of a d) (AFn <$> state_fns d a) x) = stack x) as HA.
  { intros a x Hx. unfold add. by rewrite Hx, once_memory_flags. }
  rewrite !HA; [done|..]; rewrite ?lists_add_other by done; cbn;
    rewrite ?lookup_insert_ne, ?lookup_insert_eq by done; rewrite ?lookup_insert_ne, ?lookup_insert_eq by done; done.
Qed.

Lemma grows_new_deferred s : grows (lists s) (lists (new_deferred s)).
Proof.
  unfold new_deferred. eapply grows_trans; [|apply grows_kept, kept_add; done].
  eapply grows_trans; [|apply grows_kept, kept_add; done]. cbn.
  eapply grows_trans; [apply (grows_new_list (Of Resolve (length (deferreds s))) once_memory s)|].
  eapply grows_trans; [apply (grows_new_list (Of Reject (length (deferreds s))) once_memory)|].
  apply (grows_new_list (Of Notify (length (deferreds s))) memory_only).
Qed.

Lemma shaped_page e s s' : shaped s -> page_step e s = Some s' -> shaped s'.
Proof.
  intros Hs. assert (shaped (new_deferred s)) as Hn.
  { unfold shaped. rewrite stack_new_deferred. eapply shape_grows; [apply grows_new_deferred|done]. }
  assert (forall l g, shaped (on_list l g s)) as Hg.
  { intros l g. eapply shape_grows; [|exact Hs]. by apply grows_kept, kept_on_list. }
  destruct e; cbn [page_step]; intros Hp.
  - done.
  - unfold shaped in Hs. destruct (stack s) as [|[] st]; simplify_eq. done.
  - unfold shaped in Hs. destruct (stack s) as [|[] st]; simplify_eq. unfold shaped. cbn in *. by apply (shape_unwind _ true).
  - simplify_eq. unfold shaped. cbn. eapply shape_grows; [apply grows_new_list|done].
  - by simplify_eq.
  - destruct (is_raw l && _); simplify_eq. eapply called_shaped; [apply called_add|done].
  - destruct (is_raw l); by simplify_eq.
  - destruct (is_raw l); by simplify_eq.
  - destruct (is_raw l); by simplify_eq.
  - destruct (is_raw l); by simplify_eq.
  - destruct (is_raw l); simplify_eq. eapply called_shaped; [apply called_fireWith|done].
  - destruct (made s d && _); simplify_eq. eapply called_shaped; [apply called_add|done].
  - destruct (made s d && _); by simplify_eq.
  - destruct (made s d && _); by simplify_eq.
  - destruct (made s d); simplify_eq. eapply called_shaped; [apply called_fireWith|done].
  - destruct (made s d); by simplify_eq.
  - destruct (forallb _ _); simplify_eq. unfold when. repeat case_match; done.
Qed.

Lemma shaped_run evs s : run init evs = Some s -> shaped s.
Proof.
  revert evs s. apply run_ind; [done|]. intros s e s' Hs.
  destruct e; cbn [step]; try (destruct (page_runs s); [|done]; by apply shaped_page). by apply shaped_library.
Qed.

(** The library never gets stuck: in every reachable state either page code runs, and can go on, or the library has a next step; no return is lost, no frame is left without its list, also when exceptions have passed through the library. *)
Theorem library_never_stuck evs s :
  run init evs = Some s -> page_runs s = true \/ exists s', step s ELibrary = Some s'.
Proof.
  intros Hr%shaped_run. unfold shaped, page_runs in *. cbn [step]. unfold library_step.
  destruct (stack s) as [|f st]; [by left|]. destruct f; cbn in Hr; try done; [by left|right..].
  - destruct (lists s !! l) as [c|] eqn:E; [|done]. by eexists.
  - destruct st as [|[] st]; try done; cbn in Hr; [|by eexists].
    destruct (lists s !! l) as [c|] eqn:E; [|done]. by eexists.
  - destruct ops; by eexists.
Qed.

(** ** Settling a deferred comes back *)

Lemma run_app s evs evs' : run s (evs ++ evs') = run s evs ≫= fun s' => run s' evs'.
Proof. revert s. induction evs as [|e evs IH]; intros s; [done|]. cbn. destruct (step s e); [apply IH|done]. Qed.

(** Functions that are called and return at once: those of the page that do no
    more than return, and those that handle state. *)
Definition plain (l : lid) (f : fn) : bool :=
  match f with
  | User _ | SetState _ _ => true
  | Disable l' | Lock l' => negb (bool_decide (l' = l))
  | _ => false
  end.

(** What such a function does. *)
Definition effect (f : fn) (s : machine) : machine :=
  match f with
  | Disable l => on_list l disable s
  | Lock l => on_list l lock s
  | SetState d st => s <| deferreds ::= <[d := st]> |>
  | _ => s
  end.

(** The page's functions return, the library goes on. *)
Definition passive (e : event) : Prop := e = ELibrary \/ e = EReturn (RValue VUndef).

Lemma passive_library : Forall passive [ELibrary].
Proof. apply Forall_singleton. by left. Qed.

Lemma passive_return : Forall passive [ELibrary; EReturn (RValue VUndef)].
Proof. apply Forall_cons. split; [by left|]. apply Forall_singleton. by right. Qed.

(** The loop of [fire] has made one call. *)
Definition turn (l : lid) (v : list jsval) (f : fn) (s : machine) : machine :=
  on_list l (fun c => c <| firingIndex ::= Z.add 1 |>) (effect f (logged (LCall l f (Actual v) v) s)).

(** [fire] is at the [i]th of the functions [fs]. *)
Definition at_call (l : lid) (v : list jsval) (fs : list fn) (i : nat) (s : machine) : Prop :=
  (exists st, stack s = Loop l (Actual v) :: st) /\
  exists c, lists s !! l = Some c /\ c_list c = Some fs /\ firingIndex c = Z.of_nat i /\
    firingLength c = Z.of_nat (length fs) /\ c_flags c = Flags true true false false /\
    c_memory c = MVal (Actual v).

Lemma effect_lists l f s : plain l f = true -> lists (effect f s) !! l = lists s !! l.
Proof.
  destruct f; cbn; try done; rewrite negb_true_iff, bool_decide_eq_false; intros H; by rewrite lookup_alter_ne.
Qed.

Lemma effect_stack f s : stack (effect f s) = stack s /\ log (effect f s) = log s.
Proof. by destruct f. Qed.

Lemma turn_at l v fs i f s :
  at_call l v fs i s -> plain l f = true -> at_call l v fs (S i) (turn l v f s).
Proof.
  intros ([st Hs] & c & Hc & H1 & H2 & H3 & H4 & H5) Hp. split.
  - exists st. unfold turn. cbn. by rewrite (proj1 (effect_stack _ _)).
  - exists (c <| firingIndex ::= Z.add 1 |>). unfold turn. cbn. rewrite lookup_alter_eq, effect_lists by done. cbn.
    rewrite Hc. repeat (split; [done|]). cbn. split; [lia|done].
Qed.

Lemma run_turn l v fs i f s :
  at_call l v fs i s -> fs !! i = Some f -> plain l f = true ->
  exists evs, Forall passive evs /\ run s evs = Some (turn l v f s).
Proof.
  intros ([st Hs] & c & Hc & H1 & H2 & H3 & H4 & _) Hf Hp. destruct s as [rw ls ds ws stk lg]. cbn in *. subst stk.
  pose proof (lookup_lt_Some _ _ _ Hf) as Hlt.
  assert (loop l (Actual v) c (Machine rw ls ds ws st lg) =
    invoke f v (logged (LCall l f (Actual v) v) (push (Called l (Actual v)) (Machine rw ls ds ws st lg)))) as Hl.
  { unfold loop. rewrite H1, H2, H3. assert ((Z.of_nat i <? Z.of_nat (length fs)) = true) as -> by (apply Z.ltb_lt; lia).
    assert ((Z.of_nat i <? 0) = false) as -> by (apply Z.ltb_ge; lia). by rewrite Nat2Z.id, Hf. }
  assert (exists evs s1, Forall passive evs /\ run (Machine rw ls ds ws (Loop l (Actual v) :: st) lg) evs = Some s1 /\
    s1 = Machine rw (lists (effect f (Machine rw ls ds ws st lg))) (deferreds (effect f (Machine rw ls ds ws st lg))) ws
      (Returned (RValue VUndef) :: Called l (Actual v) :: st) (lg ++ [LCall l f (Actual v) v])) as (evs & s1 & He & Hr & ->).
  { destruct f; try done.
    1: exists [ELibrary; EReturn (RValue VUndef)].
    2-4: exists [ELibrary].
    all: eexists; (split; [apply passive_return || apply passive_library|]); cbn; rewrite Hc; cbn; 
      change ((Machine rw ls ds ws (Loop l (Actual v) :: st) lg) <| stack := st |>) with (Machine rw ls ds ws st lg);
      rewrite Hl; done. }
  exists (evs ++ [ELibrary]). split; [apply Forall_app; split; [done|apply passive_library]|].
  rewrite run_app, Hr. cbn. rewrite (effect_lists l f (Machine rw ls ds ws st lg) Hp). cbn. rewrite Hc. cbn.
  unfold called, turn, push, on_list. cbn. by destruct f.
Qed.

Definition turns (l : lid) (v : list jsval) (fs : list fn) (s : machine) : machine :=
  foldl (fun s f => turn l v f s) s fs.

Lemma run_turns l v gs : forall before s,
  at_call l v (before ++ gs) (length before) s -> Forall (fun f => plain l f = true) gs ->
  exists evs, Forall passive evs /\ run s evs = Some (turns l v gs s) /\
    at_call l v (before ++ gs) (length (before ++ gs)) (turns l v gs s).
Proof.
  induction gs as [|f gs IH]; intros before s Ha Hp.
  - exists []. rewrite app_nil_r in *. done.
  - apply Forall_cons in Hp as [Hf Hp].
    destruct (run_turn l v (before ++ f :: gs) (length before) f s Ha) as (evs & He & Hr); [by apply list_lookup_middle|done|].
    apply (turn_at _ _ _ _ f) in Ha; [|done]. rewrite cons_middle, app_assoc in Ha |- *.
    replace (S (length before)) with (length (before ++ [f])) in Ha by (rewrite length_app; cbn; lia).
    destruct (IH _ _ Ha Hp) as (evs' & He' & Hr' & Ha'). exists (evs ++ evs'). split; [by apply Forall_app|].
    split; [|done]. by rewrite run_app, Hr.
Qed.

Lemma turns_log l v gs s : log (turns l v gs s) = log s ++ ((fun f => LCall l f (Actual v) v) <$> gs).
Proof.
  revert s. induction gs as [|f gs IH]; intros s; [cbn; by rewrite app_nil_r|].
  change (turns l v (f :: gs) s) with (turns l v gs (turn l v f s)). rewrite IH. cbn.
  rewrite (proj2 (effect_stack _ _)). cbn. by rewrite <- app_assoc.
Qed.

Lemma turns_stack l v gs s : stack (turns l v gs s) = stack s.
Proof.
  revert s. induction gs as [|f gs IH]; intros s; [done|].
  change (turns l v (f :: gs) s) with (turns l v gs (turn l v f s)). rewrite IH. cbn.
  by rewrite (proj1 (effect_stack _ _)).
Qed.

Lemma run_end l v fs st s :
  at_call l v fs (length fs) s -> stack s = Loop l (Actual v) :: st ->
  exists s', run s [ELibrary] = Some s' /\ stack s' = st /\ log s' = log s /\ deferreds s' = deferreds s.
Proof.
  intros (_ & c & Hc & H1 & H2 & H3 & H4 & H5) Hs. cbn. unfold library_step. rewrite Hs, Hc. cbn.
  unfold loop. rewrite H1, H2, H3. assert ((Z.of_nat (length fs) <? Z.of_nat (length fs)) = false) as -> by (apply Z.ltb_ge; lia).
  unfold finish. rewrite H1, H4. cbn. rewrite H5. by eexists.
Qed.

(** The list of a pending deferred. *)
Lemma pending_list s a d :
  good s -> page_runs s = true -> settles a = true -> deferreds s !! d = Some Pending ->
  exists c, lists s !! Of a d = Some c /\ c_list c = Some (added (Of a d) (log s)) /\ sane c /\ status_of c = SPend.
Proof.
  intros Hg Hp Ha Hd. pose proof (lookup_lt_Some _ _ _ Hd) as Hlt.
  pose proof (page_quiet s (g_dinv _ Hg) Hp d Hlt) as Hq.
  assert (lstatus (Of a d) s = SPend) as Hs.
  { destruct Hq as [(_ & H1 & H2)|(b & Hb & H & _)]; [by destruct a|]. rewrite Hd in H. by destruct b. }
  destruct (fresh_exists s a d (proj1 (g_lived _ Hg)) Hlt) as [c Hc]. exists c.
  pose proof (proj2 (g_lived _ Hg) a d Ha) as HL. unfold lstatus in Hs. rewrite (get_some _ _ _ Hc) in *.
  split; [done|]. split; [by apply LInv_pend|]. split; [by apply (LInv_sane _ _ HL)|done].
Qed.

Lemma calls_fmap l v x fs : calls l ((fun f => LCall l f v x) <$> fs) = (fun f => (f, v)) <$> fs.
Proof. induction fs as [|f fs IH]; [done|]. cbn. rewrite decide_True by done. cbn. f_equal. apply IH. Qed.

(** A list that has called a function has settled its deferred. *)
Lemma called_settled s a d :
  good s -> page_runs s = true -> settles a = true -> (d < length (deferreds s))%nat ->
  calls (Of a d) (log s) <> [] -> deferreds s !! d = Some (settled a).
Proof.
  intros Hg Hp Ha Hd Hc. pose proof (page_quiet s (g_dinv _ Hg) Hp d Hd) as Hq.
  pose proof (fun H => proj2 (unfired_calls _ _ (proj2 (g_lived _ Hg) a d Ha) H)) as Hu.
  destruct Hq as [(_ & H1 & H2)|(b & Hb & H1 & H2 & H3)].
  - exfalso. apply Hc, Hu. left. by destruct a.
  - destruct a, b; try done; exfalso; apply Hc, Hu; by right.
Qed.

(** C14: settling a pending deferred whose functions do no more than return comes back to the caller: the functions of the done (or fail) list are all called, in the order they were added and with the given values, the state is set, and the caller goes on. *)
Theorem settle_comes_back evs s d a v :
  run init evs = Some s -> page_runs s = true -> settles a = true -> deferreds s !! d = Some Pending ->
  (forall f, f ∈ added (Of a d) (log s) -> f ∈ state_fns d a \/ exists n, f = User n) ->
  exists evs' s', Forall passive evs' /\ run s (ESettle d a v :: evs') = Some s' /\ stack s' = stack s /\
    deferreds s' !! d = Some (settled a) /\
    log s' = log s ++ ((fun f => LCall (Of a d) f (Actual v) v) <$> added (Of a d) (log s)).
Proof.
  intros Hr Hp Ha Hd Hf. pose proof (good_run _ _ Hr) as Hg.
  destruct (pending_list s a d Hg Hp Ha Hd) as (c & Hc & Hl & Hsn & Hpd).
  destruct (sane_pending _ Hsn Hpd) as (P1 & P2 & P3 & P4). set (fs := added (Of a d) (log s)) in *.
  set (s1 := fire (Of a d) (Actual v) s).
  assert (step s (ESettle d a v) = Some s1) as Hs1.
  { cbn [step page_step]. rewrite Hp. unfold made. assert (Nat.ltb d (length (deferreds s)) = true) as ->.
    { apply Nat.ltb_lt. by eapply lookup_lt_Some. }
    unfold fireWith. by rewrite Hc, P1, P3, P2, andb_false_r. }
  assert (at_call (Of a d) v ([] ++ fs) (length (@nil fn)) s1) as Hat.
  { split; [by eexists|]. exists (start_fire (Actual v) c). cbn. rewrite lookup_alter_eq, Hc. split; [done|]. cbn.
    rewrite Hl, P4, (sane_flags _ Hsn). done. }
  destruct (run_turns (Of a d) v fs [] s1 Hat) as (evs1 & He & Hr1 & Hat').
  { apply Forall_forall. intros f Hin. destruct (Hf f Hin) as [Hst|[n ->]]; [|done].
    destruct a; cbn in Hst; try done; set_unfold in Hst; destruct_or?; subst; cbn; by rewrite ?bool_decide_false. }
  destruct (run_end (Of a d) v fs (stack s) _ Hat') as (s' & Hr2 & E1 & E2 & E3); [by rewrite turns_stack|].
  exists (evs1 ++ [ELibrary]), s'. split; [apply Forall_app; split; [done|apply passive_library]|].
  assert (run s (ESettle d a v :: evs1 ++ [ELibrary]) = Some s') as Hrun.
  { cbn [run]. rewrite Hs1. cbn. by rewrite run_app, Hr1. }
  split; [done|]. split; [done|]. split; [|by rewrite E2, turns_log].
  destruct (run_good _ _ _ Hg Hrun) as [Hg' Hlen].
  assert (page_runs s' = true) as Hp' by (unfold page_runs in *; by rewrite E1).
  pose proof (lookup_lt_Some _ _ _ Hd) as Hlt.
  assert (fs <> []) as Hne.
  { destruct (g_led _ Hg a d Hlt) as [k Hk]. unfold fs. rewrite Hk. by destruct a. }
  apply called_settled; [done|done|done|lia|].
  rewrite E2, turns_log, calls_app, calls_fmap. intros [_ H]%app_eq_nil. by apply fmap_nil_inv in H.
Qed.

Module Sample.

Definition pending : machine := default init (run init [ENewDeferred; EDeferredAdd 0 Reject [AFn (User 1)]]).

Lemma library_never_stuck_witness :
  page_runs pending = true \/ exists s', step pending ELibrary = Some s'.
Proof.
  apply (library_never_stuck [ENewDeferred; EDeferredAdd 0 Reject [AFn (User 1)]]). vm_compute. reflexivity.
Defined.

Lemma settle_comes_back_witness :
  exists evs' s', Forall passive evs' /\ run pending (ESettle 0 Reject [VNum 3] :: evs') = Some s' /\
    deferreds s' !! 0%nat = Some Rejected.
Proof.
  destruct (settle_comes_back [ENewDeferred; EDeferredAdd 0 Reject [AFn (User 1)]] pending 0 Reject [VNum 3])
    as (evs' & s' & H1 & H2 & _ & H3 & _).
  - vm_compute. reflexivity.
  - vm_compute. reflexivity.
  - reflexivity.
  - vm_compute. reflexivity.
  - intros f Hf. assert (f ∈ state_fns 0 Reject ++ [User 1]) as Hf' by exact Hf.
    apply elem_of_app in Hf' as [Hs|Hu]; [left; exact Hs|]. right. exists 1%nat. by apply list_elem_of_singleton in Hu.
  - exists evs', s'. split; [exact H1|]. split; [exact H2|exact H3].
Defined.

End Sample.
