(* ===== verification/JqData.v ===== *)
(** * The data store (jquery-1.7.2.js)

    [jQuery.data] attaches named values to elements and objects.  An element
    only holds a number, under the name [jQuery.expando]; the values are in
    [jQuery.cache] under this number, in two objects: those of the library and,
    in its property [data], those of the page.  A plain object holds the two
    objects itself.

    Values are of any type, [undefined] is [None].  What objects inherit from
    [Object.prototype] is a parameter. *)

From stdpp Require Import base gmap list strings.
From S2P Require Import Prelude JsString ZeptoCore.

(** ** Names *)

(** [camelCase]. *)
Definition dash_alpha (c : N) : bool := is_lower c || is_upper c || is_digit c.

Fixpoint camel_dashes (s : jstr) : jstr :=
  match s with
  | 45%N :: (c :: s') as t => if dash_alpha c then upper_unit c :: camel_dashes s' else 45%N :: camel_dashes t
  | c :: s' => c :: camel_dashes s'
  | [] => []
  end.

Definition camelCase (s : jstr) : jstr :=
  camel_dashes (if starts_with (js "-ms-") s then drop 1 s else s).

Section Data.

Context {V : Type}.
Variable truthy : V -> bool.
Variable is_null : V -> bool.                  (* the value is [null] *)
Variable proto : jstr -> option V.             (* [Object.prototype] *)
Variable noop : V.

Abbreviation obj := (gmap jstr V).

(** [o[n]], and [n in o]. *)
Definition prop (n : jstr) (o : obj) : option V :=
  match o !! n with Some v => Some v | None => proto n end.

Definition has_prop (n : jstr) (o : obj) : bool := bool_decide (is_Some (prop n o)).

(** An object of [jQuery.cache]; [e_data] is its property [data]. *)
Record entry := Entry { e_priv : obj; e_data : option obj }.

#[local] Instance entry_eta : Eta entry := fun r => Entry (e_priv r) (e_data r).

(** What data is attached to: [TNode] has a [nodeType]. *)
Inductive target :=
| TNode (nodeName : jstr) (classid : option jstr) (expando : option Z)
| TObj (expando : option entry).

Record world := World {
  cache : gmap Z entry;
  uuid : Z;
  targets : gmap nat target;
}.

#[local] Instance world_eta : Eta world := fun r => World (cache r) (uuid r) (targets r).

(** [isEmptyObject] and [isEmptyDataObject]. *)
Definition isEmptyObject (o : obj) : bool := bool_decide (o = ∅).

Definition isEmptyDataObject (e : entry) : bool :=
  bool_decide (delete (js "toJSON") (e_priv e) = ∅) && from_option isEmptyObject true (e_data e).

(** [acceptData]. *)
Definition flash : jstr := js "clsid:D27CDB6E-AE6D-11cf-96B8-444553540000".

Definition acceptData (t : target) : bool :=
  match t with
  | TNode n cls _ =>
      let n := to_lower n in
      if bool_decide (n = js "embed" \/ n = js "applet") then false
      else if bool_decide (n = js "object") then bool_decide (cls = Some flash) else true
  | TObj _ => true
  end.

(** [cache[id]] of an element or object. *)
Definition entry_of (t : target) (w : world) : option entry :=
  match t with
  | TNode _ _ (Some id) => cache w !! id
  | TNode _ _ None => None
  | TObj e => e
  end.

(** [hasData]. *)
Definition hasData (x : nat) (w : world) : bool :=
  match targets w !! x with
  | Some t => match entry_of t w with Some e => negb (isEmptyDataObject e) | None => false end
  | None => false
  end.

(** [cache[id]] is made when there is none. *)
Definition ensure (x : nat) (t : target) (w : world) : world * entry :=
  match t with
  | TNode n cls o =>
      let '(id, w) :=
        match o with
        | Some id => (id, w)
        | None =>
            let id := uuid w + 1 in
            (id, w <| uuid := id |> <| targets ::= <[x := TNode n cls (Some id)]> |>)
        end in
      match cache w !! id with
      | Some e => (w, e)
      | None => let e := Entry ∅ None in (w <| cache ::= <[id := e]> |>, e)
      end
  | TObj (Some e) => (w, e)
  | TObj None =>
      let e := Entry {[js "toJSON" := noop]} None in (w <| targets ::= <[x := TObj (Some e)]> |>, e)
  end.

(** The entry of [x] is changed. *)
Definition put (x : nat) (e : entry) (w : world) : world :=
  match targets w !! x with
  | Some (TNode _ _ (Some id)) => w <| cache ::= <[id := e]> |>
  | Some (TObj (Some _)) => w <| targets ::= <[x := TObj (Some e)]> |>
  | _ => w
  end.

(** The argument [name] of [data]. *)
Inductive dname := ByName (n : jstr) | ByObject (o : obj) | NoName.

Inductive result := RUndef | RVal (v : V) | RThis.

Definition ret_of (v : option V) : result := match v with Some v => RVal v | None => RUndef end.

(** [thisCache]: the object of the library or that of the page. *)
Definition this_cache (pvt : bool) (e : entry) : obj := if pvt then e_priv e else default ∅ (e_data e).

Definition set_this (pvt : bool) (o : obj) (e : entry) : entry :=
  if pvt then e <| e_priv := o |> else e <| e_data := Some o |>.

(** The reading of [data]. *)
Definition read (n : jstr) (o : obj) : option V :=
  match prop n o with
  | Some v => if is_null v then prop (camelCase n) o else Some v
  | None => prop (camelCase n) o
  end.

Definition isEvents (name : dname) : bool :=
  match name with ByName n => bool_decide (n = js "events") | _ => false end.

(** [data] returns at once when there is nothing to read. *)
Definition nothing (name : dname) (value : option V) (pvt : bool) (o : option entry) : bool :=
  match name, value with
  | ByName _, None =>
      match o with
      | None => true
      | Some e => negb (isEvents name) && negb pvt && bool_decide (e_data e = None)
      end
  | _, _ => false
  end.

(** The assignments of [data]. *)
Definition fill (name : dname) (value : option V) (pvt : bool) (e : entry) : entry :=
  let e := match name with ByObject o => set_this pvt (o ∪ this_cache pvt e) e | _ => e end in
  let e := if pvt then e else e <| e_data := Some (default ∅ (e_data e)) |> in
  match name, value with
  | ByName n, Some v => set_this pvt (<[camelCase n := v]> (this_cache pvt e)) e
  | _, _ => e
  end.

(** What [data] returns. *)
Definition answer (name : dname) (pvt : bool) (e : entry) : result :=
  let this := this_cache pvt e in
  if isEvents name && negb (from_option truthy false (prop (js "events") this))
  then ret_of (prop (js "events") (e_priv e))
  else match name with ByName n => ret_of (read n this) | _ => RThis end.

(** [data]; internal data is not called [data]. *)
Definition data (x : nat) (name : dname) (value : option V) (pvt : bool) (w : world) : world * result :=
  match targets w !! x with
  | None => (w, RUndef)
  | Some t =>
      if negb (acceptData t) || nothing name value pvt (entry_of t w) then (w, RUndef)
      else
        let '(w, e) := ensure x t w in
        let e := fill name value pvt e in
        (put x e w, answer name pvt e)
  end.

(** [_data]. *)
Definition _data (x : nat) (name : dname) (value : option V) (w : world) : world * result :=
  data x name value true w.

(** ** Removing *)

(** The argument [name] of [removeData]. *)
Inductive rname := RAll | RName (n : jstr) | RNames (l : list jstr).

(** The keys that are deleted. *)
Definition keys_of (name : rname) (o : obj) : list jstr :=
  match name with
  | RAll => []
  | RNames l => l
  | RName n =>
      if has_prop n o then [n]
      else let n := camelCase n in if has_prop n o then [n] else split_char 32 n
  end.

Definition delete_keys (l : list jstr) (o : obj) : obj := foldl (fun o n => delete n o) o l.

(** The object is given up. *)
Definition drop_entry (x : nat) (w : world) : world :=
  match targets w !! x with
  | Some (TNode n cls (Some id)) =>
      w <| cache ::= delete id |> <| targets ::= <[x := TNode n cls None]> |>
  | Some (TObj _) => w <| targets ::= <[x := TObj None]> |>
  | _ => w
  end.

(** [if (name)]. *)
Definition named (name : rname) : bool :=
  match name with RAll | RName [] => false | _ => true end.

Definition removeData (x : nat) (name : rname) (pvt : bool) (w : world) : world :=
  match targets w !! x with
  | None => w
  | Some t =>
      match (if acceptData t then entry_of t w else None) with
      | None => w
      | Some e =>
          let has_this := pvt || bool_decide (is_Some (e_data e)) in
          let e := if named name && has_this
                   then set_this pvt (delete_keys (keys_of name (this_cache pvt e)) (this_cache pvt e)) e else e in
          let left := if pvt then negb (isEmptyDataObject e) else negb (isEmptyObject (this_cache pvt e)) in
          if named name && has_this && left then put x e w
          else if pvt then drop_entry x w
          else
            let e := e <| e_data := None |> in
            if isEmptyDataObject e then drop_entry x w else put x e w
      end
  end.

(** ** The cache *)

(** The entry of [x], if it has one. *)
Definition entry_at (x : nat) (w : world) : option entry := t ← targets w !! x; entry_of t w.

(** Every number an element holds is that of an entry of the cache, no two
    elements hold the same, and the cache has no other entries. *)
Record wf (w : world) : Prop := {
  wf_held : forall x n c id, targets w !! x = Some (TNode n c (Some id)) -> id <= uuid w /\ is_Some (cache w !! id);
  wf_apart : forall x y n m c c' id,
    targets w !! x = Some (TNode n c (Some id)) -> targets w !! y = Some (TNode m c' (Some id)) -> x = y;
  wf_owned : forall id, is_Some (cache w !! id) -> exists x n c, targets w !! x = Some (TNode n c (Some id));
}.

Lemma wf_above w id : wf w -> uuid w < id -> cache w !! id = None.
Proof.
  intros H Hid. destruct (cache w !! id) as [e|] eqn:E; [|done].
  destruct (wf_owned _ H id) as (x & n & c & Hx); [by eexists|]. destruct (wf_held _ H _ _ _ _ Hx). lia.
Qed.

(** Changing the entry of [x] only. *)
Definition only (x : nat) (w w' : world) : Prop := forall y, y <> x -> entry_at y w' = entry_at y w.

Lemma entry_at_some x w t : targets w !! x = Some t -> entry_at x w = entry_of t w.
Proof. intros H. unfold entry_at. by rewrite H. Qed.

(** The three ways in which an entry changes. *)
Lemma change_obj x o0 o w :
  wf w -> targets w !! x = Some (TObj o0) ->
  let w' := w <| targets ::= <[x := TObj o]> |> in wf w' /\ entry_at x w' = o /\ only x w w'.
Proof.
  intros Hw Hx. split; [|split].
  - constructor; cbn.
    + intros y m c' o'. destruct (decide (x = y)) as [->|]; [by rewrite lookup_insert_eq|].
      rewrite lookup_insert_ne by done. apply (wf_held _ Hw).
    + intros y z m m' c1 c2 o'. destruct (decide (x = y)) as [->|]; [by rewrite lookup_insert_eq|].
      destruct (decide (x = z)) as [->|]; [by rewrite lookup_insert_eq|]. rewrite !lookup_insert_ne by done.
      apply (wf_apart _ Hw).
    + intros o' Ho. destruct (wf_owned _ Hw o' Ho) as (y & m & c & Hy). exists y, m, c.
      rewrite lookup_insert_ne; [done|]. intros ->. congruence.
  - unfold entry_at. cbn. by rewrite lookup_insert_eq.
  - intros y Hy. unfold entry_at. cbn. by rewrite lookup_insert_ne.
Qed.

(** The element has the number [id]: one of its own, or the next one. *)
Lemma change_node x n c o id e w :
  wf w -> targets w !! x = Some (TNode n c o) -> o = Some id \/ o = None /\ id = uuid w + 1 ->
  let w' := World (<[id := e]> (cache w)) (Z.max id (uuid w)) (<[x := TNode n c (Some id)]> (targets w)) in
  wf w' /\ entry_at x w' = Some e /\ only x w w'.
Proof.
  intros Hw Hx Ho. assert (forall y m c' o', targets w !! y = Some (TNode m c' (Some o')) -> y <> x -> o' <> id) as Hd.
  { intros y m c' o' Hy Hn ->. destruct Ho as [->|[-> ->]]; [apply Hn; by eapply (wf_apart _ Hw)|].
    destruct (wf_held _ Hw _ _ _ _ Hy). lia. }
  split; [|split].
  - constructor; cbn.
    + intros y m c' o'. destruct (decide (x = y)) as [->|Hn].
      * rewrite lookup_insert_eq. intros [= <- <- <-]. split; [lia|]. rewrite lookup_insert_eq. by eexists.
      * rewrite lookup_insert_ne by done. intros Hy. destruct (wf_held _ Hw _ _ _ _ Hy). split; [lia|].
        rewrite lookup_insert_ne; [done|]. intros <-. by eapply Hd.
    + intros y z m m' c1 c2 o'. destruct (decide (x = y)) as [->|Hy], (decide (y = z)) as [->|Hz]; try done.
      * rewrite lookup_insert_eq, lookup_insert_ne by done. intros [= <- <- <-] Hz'. by eapply Hd in Hz'.
      * destruct (decide (x = z)) as [->|Hxz].
        -- rewrite lookup_insert_ne, lookup_insert_eq by done. intros Hy' [= <- <- <-]. by eapply Hd in Hy'.
        -- rewrite !lookup_insert_ne by done. apply (wf_apart _ Hw).
    + intros o' Hs. destruct (decide (id = o')) as [->|Hn]; [exists x, n, c; by rewrite lookup_insert_eq|].
      rewrite lookup_insert_ne in Hs by done. destruct (wf_owned _ Hw o' Hs) as (y & m & c1 & Hy). exists y, m, c1.
      rewrite lookup_insert_ne; [done|]. intros ->. destruct Ho as [->|[-> ->]]; congruence.
  - unfold entry_at. cbn. rewrite lookup_insert_eq. cbn. by rewrite lookup_insert_eq.
  - intros y Hy. unfold entry_at. cbn. rewrite lookup_insert_ne by done.
    destruct (targets w !! y) as [[m c' [o'|]|o']|] eqn:Ey; try done. cbn.
    rewrite lookup_insert_ne; [done|]. intros ->. by eapply Hd.
Qed.

Lemma release_node x n c id w :
  wf w -> targets w !! x = Some (TNode n c (Some id)) ->
  let w' := w <| cache ::= delete id |> <| targets ::= <[x := TNode n c None]> |> in
  wf w' /\ entry_at x w' = None /\ only x w w'.
Proof.
  intros Hw Hx. assert (forall y m c' o', targets w !! y = Some (TNode m c' (Some o')) -> y <> x -> o' <> id) as Hd.
  { intros y m c' o' Hy Hn ->. apply Hn. by eapply (wf_apart _ Hw). }
  split; [|split].
  - constructor; cbn.
    + intros y m c' o'. destruct (decide (x = y)) as [->|]; [by rewrite lookup_insert_eq|].
      rewrite lookup_insert_ne by done. intros Hy. rewrite lookup_delete_ne; [by eapply (wf_held _ Hw)|].
      intros <-. by eapply Hd.
    + intros y z m m' c1 c2 o'. destruct (decide (x = y)) as [->|]; [by rewrite lookup_insert_eq|].
      destruct (decide (x = z)) as [->|]; [by rewrite lookup_insert_eq|]. rewrite !lookup_insert_ne by done.
      apply (wf_apart _ Hw).
    + intros o' Ho. destruct (decide (id = o')) as [->|]; [rewrite lookup_delete_eq in Ho; by destruct Ho|].
      rewrite lookup_delete_ne in Ho by done.
      destruct (wf_owned _ Hw o' Ho) as (y & m & c1 & Hy). exists y, m, c1.
      rewrite lookup_insert_ne; [done|]. intros ->. congruence.
  - unfold entry_at. cbn. by rewrite lookup_insert_eq.
  - intros y Hy. unfold entry_at. cbn. rewrite lookup_insert_ne by done.
    destruct (targets w !! y) as [[m c' [o'|]|o']|] eqn:Ey; try done. cbn.
    rewrite lookup_delete_ne; [done|]. intros ->. by eapply Hd.
Qed.

(** [put], [drop_entry] and [ensure] change the entry of [x] only. *)
Lemma put_spec x e e0 w :
  wf w -> entry_at x w = Some e0 ->
  wf (put x e w) /\ entry_at x (put x e w) = Some e /\ only x w (put x e w).
Proof.
  intros Hw He. unfold entry_at in He. unfold put.
  destruct (targets w !! x) as [[n c [id|]|[o|]]|] eqn:Hx; cbn in He; try done; [|exact (change_obj x (Some o) (Some e) w Hw Hx)].
  pose proof (change_node x n c (Some id) id e w Hw Hx (or_introl eq_refl)) as H. cbn in H.
  destruct (wf_held _ Hw _ _ _ _ Hx) as [Hle _]. rewrite Z.max_r, (insert_id (targets w)) in H by done. destruct w. exact H.
Qed.

Lemma drop_spec x w e0 :
  wf w -> entry_at x w = Some e0 ->
  wf (drop_entry x w) /\ entry_at x (drop_entry x w) = None /\ only x w (drop_entry x w).
Proof.
  intros Hw He. unfold entry_at in He. unfold drop_entry.
  destruct (targets w !! x) as [[n c [id|]|[o|]]|] eqn:Hx; cbn in He; try done;
    [exact (release_node x n c id w Hw Hx)|exact (change_obj x (Some o) None w Hw Hx)].
Qed.

(** A new entry. *)
Definition blank (t : target) : entry :=
  match t with TNode _ _ _ => Entry ∅ None | TObj _ => Entry {[js "toJSON" := noop]} None end.

Lemma ensure_spec x t w :
  wf w -> targets w !! x = Some t ->
  let '(w', e) := ensure x t w in
  wf w' /\ entry_at x w' = Some e /\ e = default (blank t) (entry_of t w) /\ only x w w'.
Proof.
  intros Hw Hx. unfold ensure. destruct t as [n c [id|]|[o|]].
  - destruct (wf_held _ Hw _ _ _ _ Hx) as [_ [e He]]. cbn. rewrite He. split; [done|].
    split; [|done]. unfold entry_at. rewrite Hx. cbn. by rewrite He.
  - cbn. rewrite (wf_above w (uuid w + 1) Hw) by lia.
    pose proof (change_node x n c None (uuid w + 1) (Entry ∅ None) w Hw Hx (or_intror (conj eq_refl eq_refl))) as H.
    cbn in H. rewrite Z.max_l in H by lia. destruct H as (H1 & H2 & H3). done.
  - split; [done|]. split; [|done]. unfold entry_at. by rewrite Hx.
  - destruct (change_obj x None (Some (blank (TObj None))) w Hw Hx) as (H1 & H2 & H3). done.
Qed.

(** ** The store the page sees *)

(** The two objects of [x], without numbers and cache. *)
Definition pub (x : nat) (w : world) : obj := default ∅ (entry_at x w ≫= e_data).
Definition priv (x : nat) (w : world) : obj := delete (js "toJSON") (from_option e_priv ∅ (entry_at x w)).

Definition objs (w : world) (x : nat) : obj * obj := (pub x w, priv x w).

Definition accepts (x : nat) (w : world) : bool := from_option acceptData false (targets w !! x).

Inductive event :=
| EGet (x : nat) (n : jstr) (pvt : bool)
| ESet (x : nat) (n : jstr) (v : V) (pvt : bool)
| EMerge (x : nat) (o : obj) (pvt : bool)
| EAll (x : nat) (pvt : bool)
| ERemove (x : nat) (name : rname) (pvt : bool)
| ENew (x : nat) (t : target).                       (* the page makes an element or object *)

Definition untouched (t : target) : bool :=
  match t with TNode _ _ None | TObj None => true | _ => false end.

Definition step (w : world) (e : event) : world * result :=
  match e with
  | EGet x n pvt => data x (ByName n) None pvt w
  | ESet x n v pvt => data x (ByName n) (Some v) pvt w
  | EMerge x o pvt => data x (ByObject o) None pvt w
  | EAll x pvt => data x NoName None pvt w
  | ERemove x name pvt => (removeData x name pvt w, RUndef)
  | ENew x t =>
      (match targets w !! x with
       | Some _ => w
       | None => if untouched t then w <| targets ::= <[x := t]> |> else w
       end, RUndef)
  end.

(** ** The specification: two plain maps for every element or object *)

Definition on (pvt : bool) (f : obj -> obj) (p : obj * obj) : obj * obj :=
  if pvt then (p.1, f p.2) else (f p.1, p.2).

Definition this (pvt : bool) (p : obj * obj) : obj := if pvt then p.2 else p.1.

(** The names a call of [removeData] takes from the map [m]: the name itself
    when the map has it, else its camel-cased form, else each of the words of
    the camel-cased form. *)
Definition doomed (name : rname) (m : obj) (k : jstr) : Prop :=
  match name with
  | RAll => True
  | RNames l => k ∈ l
  | RName n =>
      match m !! n, m !! camelCase n with
      | Some _, _ => k = n
      | None, Some _ => k = camelCase n
      | None, None => k ∈ split_char 32 (camelCase n)
      end
  end.

#[export] Instance doomed_dec name m k : Decision (doomed name m k).
Proof. destruct name as [|n|l]; cbn; [| destruct (m !! n), (m !! camelCase n)|]; apply _. Defined.

Definition spec_step (p : obj * obj) (e : event) : obj * obj :=
  match e with
  | ESet _ n v pvt => on pvt (<[camelCase n := v]>) p
  | EMerge _ o pvt => on pvt (fun m => o ∪ m) p
  | ERemove _ (RAll | RName []) pvt => (∅, if pvt then ∅ else p.2)
  | ERemove _ name pvt => on pvt (fun m => filter (fun kv => ~ doomed name m kv.1) m) p
  | _ => p
  end.

(** The same with the deletions one after the other, as [removeData] makes
    them, and with the inherited names it finds. *)
Definition maps_step (p : obj * obj) (e : event) : obj * obj :=
  match e with
  | ESet _ n v pvt => on pvt (<[camelCase n := v]>) p
  | EMerge _ o pvt => on pvt (fun m => o ∪ m) p
  | ERemove _ name pvt =>
      if named name then on pvt (fun m => delete_keys (keys_of name m) m) p
      else if pvt then (∅, ∅) else (∅, p.2)
  | _ => p
  end.

Definition spec_read (n : jstr) (pvt : bool) (p : obj * obj) : option V :=
  if bool_decide (n = js "events") && negb (from_option truthy false (this pvt p !! n)) then p.2 !! n
  else match this pvt p !! n with
  | Some v => if is_null v then this pvt p !! camelCase n else Some v
  | None => this pvt p !! camelCase n
  end.

Definition subject (e : event) : nat :=
  match e with
  | EGet x _ _ | ESet x _ _ _ | EMerge x _ _ | EAll x _ | ERemove x _ _ | ENew x _ => x
  end.

(** Names that are not the library's own, and that nothing is inherited
    under. *)
Definition reserved (n : jstr) : Prop := n = js "data" \/ n = js "toJSON".

Definition proper (e : event) : Prop :=
  match e with
  | EGet _ n pvt | ESet _ n _ pvt =>
      proto n = None /\ proto (camelCase n) = None /\ (pvt = true -> ~ reserved n /\ ~ reserved (camelCase n))
  | EMerge _ o pvt => pvt = true -> forall n, reserved n -> o !! n = None
  | ERemove _ (RName n) pvt =>
      pvt = true -> ~ reserved n /\ ~ reserved (camelCase n) /\ Forall (fun n => ~ reserved n) (split_char 32 (camelCase n))
  | ERemove _ (RNames l) pvt => pvt = true -> Forall (fun n => ~ reserved n) l
  | _ => True
  end.

(** The name that is removed is not inherited either. *)
Definition own_name (e : event) : Prop :=
  match e with
  | ERemove _ (RName n) _ => proto n = None /\ proto (camelCase n) = None
  | _ => True
  end.

Lemma delete_keys_filter (l : list jstr) (m : obj) : delete_keys l m = filter (fun kv => kv.1 ∉ l) m.
Proof.
  revert m. induction l as [|n l IH]; intros m.
  - symmetry. apply map_filter_id. intros. apply not_elem_of_nil.
  - cbn. fold (delete_keys l (delete n m)). rewrite IH. apply map_eq. intros k. apply option_eq. intros v.
    rewrite !map_lookup_filter_Some, lookup_delete_Some. set_solver.
Qed.

Lemma prop_own n o : proto n = None -> prop n o = o !! n.
Proof. intros H. unfold prop. rewrite H. by destruct (o !! n). Qed.

Lemma own_prop (n : jstr) (m : obj) : proto n = None -> has_prop n m = bool_decide (is_Some (m !! n)).
Proof. intros H. unfold has_prop. by rewrite prop_own. Qed.

Lemma doomed_keys (name : rname) (m : obj) (k : jstr) :
  own_name (ERemove 0 name false) -> named name = true -> doomed name m k <-> k ∈ keys_of name m.
Proof.
  destruct name as [|n|l]; [done| |done]. cbn. intros [H1 H2] _. rewrite !own_prop by done.
  destruct (m !! n), (m !! camelCase n); cbn; set_solver.
Qed.

Lemma maps_step_spec p e : own_name e -> maps_step p e = spec_step p e.
Proof.
  destruct e as [| | | |x name pvt|]; try done. intros Ho.
  assert (named name = true -> forall m : obj,
    delete_keys (keys_of name m) m = filter (fun kv => ~ doomed name m kv.1) m) as Hf.
  { intros Hn m. rewrite delete_keys_filter. apply map_filter_ext. intros k v _. cbn.
    by rewrite doomed_keys. }
  destruct name as [|[|c n]|l]; cbn [maps_step named]; [by destruct pvt..| |];
    unfold on; destruct pvt; cbn [fst snd spec_step]; by rewrite Hf.
Qed.

Lemma objs_only x w w' y : only x w w' -> y <> x -> objs w' y = objs w y.
Proof. intros H Hy. unfold objs, pub, priv. by rewrite H. Qed.

Lemma objs_entry x w e : entry_at x w = Some e -> objs w x = (default ∅ (e_data e), delete (js "toJSON") (e_priv e)).
Proof. intros H. unfold objs, pub, priv. by rewrite H. Qed.

Lemma objs_none x w : entry_at x w = None -> objs w x = (∅, ∅).
Proof. intros H. unfold objs, pub, priv. rewrite H. cbn. by rewrite delete_empty. Qed.

(** [data] when it does not return at once. *)
Lemma data_puts x t e' w (f : entry -> entry) :
  wf w -> targets w !! x = Some t -> f (default (blank t) (entry_of t w)) = e' ->
  let w' := put x (f (ensure x t w).2) (ensure x t w).1 in
  wf w' /\ objs w' x = (default ∅ (e_data e'), delete (js "toJSON") (e_priv e')) /\
  forall y, y <> x -> objs w' y = objs w y.
Proof.
  intros Hw Hx <-. pose proof (ensure_spec x t w Hw Hx) as H. destruct (ensure x t w) as [w1 e1].
  destruct H as (H1 & H2 & -> & H3). cbn.
  destruct (put_spec x (f (default (blank t) (entry_of t w))) _ w1 H1 H2) as (P1 & P2 & P3). split; [done|].
  split; [by apply objs_entry|]. intros y Hy. rewrite (objs_only x w1 _ y P3 Hy). by apply (objs_only x).
Qed.

Lemma blank_objs x t w :
  targets w !! x = Some t ->
  let e := default (blank t) (entry_of t w) in
  objs w x = (default ∅ (e_data e), delete (js "toJSON") (e_priv e)).
Proof.
  intros Hx. cbn. pose proof (entry_at_some x w t Hx) as Ht. destruct (entry_of t w) as [e|] eqn:E.
  - by apply objs_entry.
  - rewrite (objs_none x w Ht). destruct t; cbn; [by rewrite delete_empty|]. by rewrite delete_singleton_eq.
Qed.

Lemma not_toJSON n : ~ reserved n -> n <> js "toJSON".
Proof. intros H ->. apply H. by right. Qed.

Lemma data_spec x t name value pvt w :
  wf w -> targets w !! x = Some t -> acceptData t = true ->
  let e := fill name value pvt (default (blank t) (entry_of t w)) in
  let '(w', r) := data x name value pvt w in
  if nothing name value pvt (entry_of t w) then w' = w /\ r = RUndef
  else wf w' /\ objs w' x = (default ∅ (e_data e), delete (js "toJSON") (e_priv e)) /\
       (forall y, y <> x -> objs w' y = objs w y) /\ r = answer name pvt e.
Proof.
  intros Hw Hx Ha. cbn. unfold data. rewrite Hx, Ha. cbn.
  destruct (nothing name value pvt (entry_of t w)); [done|].
  pose proof (data_puts x t _ w (fill name value pvt) Hw Hx eq_refl) as (H1 & H2 & H3).
  pose proof (ensure_spec x t w Hw Hx) as He. destruct (ensure x t w) as [w1 e1]. cbn in *.
  destruct He as (_ & _ & -> & _). done.
Qed.

(** The assignments on the two maps. *)
Definition spec_fill (name : dname) (value : option V) (pvt : bool) (p : obj * obj) : obj * obj :=
  match name with
  | ByName n => match value with Some v => on pvt (<[camelCase n := v]>) p | None => p end
  | ByObject o => on pvt (fun m => o ∪ m) p
  | NoName => p
  end.

Definition fill_ok (name : dname) (value : option V) (pvt : bool) : Prop :=
  match name with
  | ByName n => match value with Some _ => pvt = true -> camelCase n <> js "toJSON" | None => True end
  | ByObject o => pvt = true -> o !! js "toJSON" = None
  | NoName => True
  end.

Lemma fill_objs name value pvt e :
  fill_ok name value pvt ->
  let p := (default ∅ (e_data e), delete (js "toJSON") (e_priv e)) in
  let e' := fill name value pvt e in
  (default ∅ (e_data e'), delete (js "toJSON") (e_priv e')) = spec_fill name value pvt p.
Proof.
  intros H. destruct name as [n|o|], value as [v|], pvt; cbn in *; try done.
  - rewrite delete_insert_ne by (intros E; by apply H). done.
  - f_equal. rewrite delete_union. by rewrite (delete_id o) by auto.
  - f_equal. rewrite delete_union. by rewrite (delete_id o) by auto.
Qed.

(** The answer in terms of the two maps. *)
Lemma answer_read n value pvt e :
  proto n = None -> proto (camelCase n) = None ->
  (pvt = true -> ~ reserved n /\ ~ reserved (camelCase n)) ->
  let e' := fill (ByName n) value pvt e in
  answer (ByName n) pvt e' = ret_of (spec_read n pvt (default ∅ (e_data e'), delete (js "toJSON") (e_priv e'))).
Proof.
  intros P1 P2 Hp e'. unfold answer, spec_read. cbn [isEvents]. cbv zeta. cbn [snd].
  assert (forall m, (m = n \/ m = camelCase n) ->
    this pvt (default ∅ (e_data e'), delete (js "toJSON") (e_priv e')) !! m = this_cache pvt e' !! m) as Ht.
  { intros m Hm. destruct pvt; [|done]. cbn. rewrite lookup_delete_ne; [done|]. intros Em.
    destruct (Hp eq_refl) as [R1 R2]. destruct Hm as [-> | ->]; [apply R1|apply R2]; by right. }
  assert (bool_decide (n = js "events") = true -> prop (js "events") (this_cache pvt e') = this_cache pvt e' !! n /\
    prop (js "events") (e_priv e') = delete (js "toJSON") (e_priv e') !! n) as He.
  { intros ->%bool_decide_eq_true. rewrite !prop_own by done. by rewrite lookup_delete_ne. }
  rewrite !Ht by auto. destruct (bool_decide (n = js "events")) eqn:E; cbn [andb].
  - destruct (He eq_refl) as [-> ->]. destruct (negb _); [done|]. unfold read. by rewrite !prop_own.
  - unfold read. by rewrite !prop_own.
Qed.

(** ** Removing, on the two maps *)

Lemma delete_keys_comm l k m : delete_keys l (delete k m) = delete k (delete_keys l m).
Proof.
  revert m. induction l as [|n l IH]; intros m; [done|]. cbn. fold (delete_keys l (delete n (delete k m))).
  rewrite delete_delete. apply IH.
Qed.

Lemma has_prop_delete n k m : n <> k -> has_prop n (delete k m) = has_prop n m.
Proof. intros H. unfold has_prop, prop. by rewrite lookup_delete_ne. Qed.

Lemma keys_of_delete name m :
  proper (ERemove 0 name true) -> keys_of name (delete (js "toJSON") m) = keys_of name m.
Proof.
  destruct name as [|n|l]; [done| |done]. cbn. intros (R1 & R2 & _); [done|].
  by rewrite !has_prop_delete by (by apply not_toJSON).
Qed.

Lemma empty_objs e :
  isEmptyDataObject e = true <-> (default ∅ (e_data e), delete (js "toJSON") (e_priv e)) = (∅, ∅).
Proof.
  unfold isEmptyDataObject. rewrite andb_true_iff, bool_decide_eq_true.
  destruct (e_data e) as [o|]; cbn; unfold isEmptyObject; rewrite ?bool_decide_eq_true.
  - split; [intros [-> ->]; done|intros H; by simplify_eq].
  - split; [intros [-> _]; done|intros H; by simplify_eq].
Qed.

Lemma delete_keys_empty l : delete_keys l ∅ = ∅.
Proof. induction l as [|k l IH]; [done|]. cbn. by rewrite delete_empty. Qed.

(** What [removeData] leaves. *)
Definition left_over (x : nat) (p : obj * obj) (w w' : world) : Prop :=
  wf w' /\ objs w' x = p /\ (forall y, y <> x -> objs w' y = objs w y) /\ (p = (∅, ∅) -> entry_at x w' = None).

Lemma left_put x e e' p w :
  wf w -> entry_at x w = Some e -> isEmptyDataObject e' = false ->
  p = (default ∅ (e_data e'), delete (js "toJSON") (e_priv e')) -> left_over x p w (put x e' w).
Proof.
  intros Hw He Hn ->. destruct (put_spec x e' e w Hw He) as (P1 & P2 & P3). split; [done|].
  split; [by apply objs_entry|]. split; [intros y Hy; by eapply objs_only|].
  intros H%empty_objs. congruence.
Qed.

Lemma left_drop x e p w :
  wf w -> entry_at x w = Some e -> p = (∅, ∅) -> left_over x p w (drop_entry x w).
Proof.
  intros Hw He ->. destruct (drop_spec x w e Hw He) as (P1 & P2 & P3). split; [done|].
  split; [by apply objs_none|]. split; [intros y Hy; by eapply objs_only|done].
Qed.

Lemma removeData_spec x t name pvt w :
  wf w -> targets w !! x = Some t -> acceptData t = true -> proper (ERemove x name pvt) ->
  left_over x (maps_step (objs w x) (ERemove x name pvt)) w (removeData x name pvt w).
Proof.
  intros Hw Hx Ha Hp. unfold removeData. rewrite Hx, Ha, <- (entry_at_some x w t Hx). cbn [maps_step].
  destruct (entry_at x w) as [e|] eqn:He.
  2: { rewrite (objs_none x w He). split; [done|]. rewrite (objs_none x w He). split; [|done].
       destruct (named name), pvt; cbn; by rewrite ?delete_keys_empty. }
  rewrite (objs_entry x w e He). destruct pvt; cbn [orb negb this_cache set_this on fst snd].
  - rewrite andb_true_r. destruct (named name); cbn [andb]; [|by eapply left_drop].
    rewrite keys_of_delete, delete_keys_comm by done. set (e1 := e <| e_priv := _ |>).
    destruct (isEmptyDataObject e1) eqn:E; cbn [negb]; [|by eapply left_put].
    eapply left_drop; [done..|]. by apply empty_objs in E.
  - set (e2 := e <| e_data := None |>). assert (forall p, p = (∅, delete (js "toJSON") (e_priv e)) ->
      left_over x p w (if isEmptyDataObject e2 then drop_entry x w else put x e2 w)) as Hlast.
    { intros p ->. destruct (isEmptyDataObject e2) eqn:E; [|by eapply left_put].
      eapply left_drop; [done..|]. by apply empty_objs in E. }
    destruct (named name); cbn [andb]; [|by apply Hlast]. destruct (e_data e) as [o|] eqn:Hd.
    + rewrite bool_decide_true by (by eexists). cbn -[delete_keys keys_of isEmptyDataObject bool_decide].
      set (o' := delete_keys (keys_of name o) o).
      set (e1 := e <| e_data := Some o' |>). unfold isEmptyObject.
      destruct (bool_decide (o' = ∅)) eqn:Eo; cbn [negb].
      * apply bool_decide_eq_true in Eo. apply (Hlast (o', _)). by rewrite Eo.
      * eapply left_put; [done|done| |done]. apply not_true_is_false. intros E%empty_objs. cbn in E. simplify_eq.
        by rewrite bool_decide_eq_false in Eo.
    + rewrite bool_decide_false by (by intros [? ?]). cbn. apply Hlast. by rewrite delete_keys_empty.
Qed.

(** ** The theorems *)

Lemma new_spec x t w :
  wf w -> targets w !! x = None -> untouched t = true ->
  let w' := w <| targets ::= <[x := t]> |> in wf w' /\ forall y, objs w' y = objs w y.
Proof.
  intros Hw Hx Ht. split.
  - constructor; cbn.
    + intros y n c id. destruct (decide (x = y)) as [->|]; [rewrite lookup_insert_eq; intros [= ->]; done|].
      rewrite lookup_insert_ne by done. apply (wf_held _ Hw).
    + intros y z n m c c' id. destruct (decide (x = y)) as [->|]; [rewrite lookup_insert_eq; intros [= ->]; done|].
      destruct (decide (x = z)) as [->|]; [rewrite lookup_insert_eq; intros _ [= ->]; done|].
      rewrite !lookup_insert_ne by done. apply (wf_apart _ Hw).
    + intros id Hid. destruct (wf_owned _ Hw id Hid) as (y & n & c & Hy). exists y, n, c.
      rewrite lookup_insert_ne; [done|]. intros ->. congruence.
  - intros y. destruct (decide (x = y)) as [->|Hn].
    + rewrite !objs_none; [done|unfold entry_at; by rewrite Hx|]. unfold entry_at. cbn. rewrite lookup_insert_eq. cbn.
      by destruct t as [n c [id|]|[e|]].
    + unfold objs, pub, priv, entry_at. cbn. by rewrite lookup_insert_ne.
Qed.

Lemma refused x name value pvt w : accepts x w = false -> data x name value pvt w = (w, RUndef).
Proof. unfold accepts, data. destruct (targets w !! x) as [t|]; [|done]. cbn. by intros ->. Qed.

Lemma nothing_objs x t n pvt w :
  targets w !! x = Some t -> proto n = None -> proto (camelCase n) = None ->
  nothing (ByName n) None pvt (entry_of t w) = true -> spec_read n pvt (objs w x) = None.
Proof.
  intros Hx _ _ Hn. rewrite <- (entry_at_some x w t Hx) in Hn. unfold spec_read. cbn in Hn.
  destruct (entry_at x w) as [e|] eqn:He.
  - rewrite (objs_entry x w e He). rewrite !andb_true_iff, !negb_true_iff, bool_decide_eq_true in Hn.
    destruct Hn as [[-> ->] ->]. cbn. by rewrite !lookup_empty.
  - rewrite (objs_none x w He). unfold this. destruct pvt; cbn; rewrite !lookup_empty; by destruct (_ && _).
Qed.

Lemma data_step x t name value pvt w p r :
  wf w -> targets w !! x = Some t -> acceptData t = true ->
  data x name value pvt w = (p, r) ->
  fill_ok name value pvt ->
  wf p /\ (forall y, y <> x -> objs p y = objs w y) /\
  objs p x = spec_fill name value pvt (objs w x).
Proof.
  intros Hw Hx Ha Hd Hn. pose proof (data_spec x t name value pvt w Hw Hx Ha) as H. cbv zeta in H. rewrite Hd in H.
  destruct (nothing name value pvt (entry_of t w)) eqn:E.
  - destruct H as [-> ->]. split; [done|]. split; [done|]. by destruct name, value.
  - destruct H as (H1 & H2 & H3 & _). split; [done|]. split; [done|].
    rewrite H2, (fill_objs name value pvt _ Hn). cbv zeta. by rewrite <- (blank_objs x t w Hx).
Qed.

Lemma store_step w e w' r :
  wf w -> proper e -> step w e = (w', r) ->
  wf w' /\ (forall y, y <> subject e -> objs w' y = objs w y) /\
  objs w' (subject e) = (if accepts (subject e) w then maps_step (objs w (subject e)) e else objs w (subject e)) /\
  (forall x n pvt, e = EGet x n pvt ->
     r = if accepts x w then ret_of (spec_read n pvt (objs w x)) else RUndef).
Proof.
  intros Hw Hp Hs. destruct (accepts (subject e) w) eqn:Hacc.
  2: { destruct e; cbn [step subject] in *; try (rewrite (refused _ _ _ _ _ Hacc) in Hs; simplify_eq;
         split; [done|]; split; [done|]; split; [done|]; intros ? ? ? [=]; subst; by rewrite Hacc).
       - simplify_eq. unfold removeData. unfold accepts in Hacc. destruct (targets w !! x) as [t|]; [|done].
         cbn in Hacc. by rewrite Hacc.
       - simplify_eq. destruct (targets w !! x) eqn:Hx; [done|]. destruct (untouched t) eqn:Ht; [|done].
         destruct (new_spec x t w Hw Hx Ht) as [H1 H2]. done. }
  unfold accepts in Hacc. destruct (targets w !! subject e) as [t|] eqn:Hx; [|done]. cbn in Hacc.
  destruct e; cbn [step subject maps_step] in *.
  - destruct Hp as (P1 & P2 & P3). destruct (data_step _ _ _ _ _ _ _ _ Hw Hx Hacc Hs I) as (H1 & H2 & H3).
    split; [done|]. split; [done|]. split; [done|]. intros ? ? ? [= <- <- <-]. unfold accepts. rewrite Hx. cbn.
    rewrite Hacc. pose proof (data_spec x t (ByName n) None pvt w Hw Hx Hacc) as H. cbv zeta in H. rewrite Hs in H.
    destruct (nothing (ByName n) None pvt (entry_of t w)) eqn:E.
    + destruct H as [_ ->]. by rewrite (nothing_objs x t n pvt w).
    + destruct H as (_ & E2 & _ & ->). rewrite answer_read by done. cbv zeta. by rewrite <- E2, H3.
  - destruct Hp as (P1 & P2 & P3). destruct (data_step _ _ _ _ _ _ _ _ Hw Hx Hacc Hs) as (H1 & H2 & H3); [|done].
    intros E. apply not_toJSON. by apply P3.
  - destruct (data_step _ _ _ _ _ _ _ _ Hw Hx Hacc Hs) as (H1 & H2 & H3); [|done]. intros E. apply Hp; [done|by right].
  - destruct (data_step _ _ _ _ _ _ _ _ Hw Hx Hacc Hs I) as (H1 & H2 & H3). done.
  - simplify_eq. destruct (removeData_spec x t name pvt w Hw Hx Hacc Hp) as (H1 & H2 & H3 & _). done.
  - simplify_eq. by rewrite Hx.
Qed.

(** C12: the data store refines two maps per element or object, one for the
    page and one for the library.  For names that the object does not inherit
    from [Object.prototype], and for data of the library that is not called
    [data] or [toJSON]: every call of [data] and [removeData] changes the maps
    of its element only, in the way its specification says (assignment under the
    camel-cased name; merging; deletion of the name the map has, or of its
    camel-cased form, or of each of its words, or of everything), reading
    returns what the map holds under the name or, when that is missing or null,
    under its camel-cased form (and the library's value for the name [events] when the map asked has
    none), and elements that refuse data are left alone;
    the numbers on elements and the global cache, which implement it, stay
    consistent. *)
Theorem store_refines w e w' r :
  wf w -> proper e -> own_name e -> step w e = (w', r) ->
  wf w' /\ (forall y, y <> subject e -> objs w' y = objs w y) /\
  objs w' (subject e) = (if accepts (subject e) w then spec_step (objs w (subject e)) e else objs w (subject e)) /\
  (forall x n pvt, e = EGet x n pvt ->
     r = if accepts x w then ret_of (spec_read n pvt (objs w x)) else RUndef).
Proof. intros Hw Hp Ho. rewrite <- maps_step_spec by done. by apply store_step. Qed.



(** Which elements accept data does not change. *)
Lemma accepts_data x name value pvt w : accepts x (data x name value pvt w).1 = accepts x w.
Proof.
  unfold accepts, data. destruct (targets w !! x) as [t|] eqn:Hx; [|by cbn; rewrite Hx].
  destruct (_ || _); [by cbn; rewrite Hx|]. unfold ensure.
  destruct t as [n c [id|]|[e|]]; [destruct (cache w !! id) as [e|]| | |]; cbn; unfold put; cbn;
    rewrite ?lookup_insert_eq, ?Hx; cbn; rewrite ?lookup_insert_eq, ?Hx; try done.
  destruct (cache w !! (uuid w + 1)); cbn; rewrite ?lookup_insert_eq; cbn; by rewrite ?lookup_insert_eq.
Qed.

(** What [data] stores under a name is what it then returns for this name, for the page and for the library's own data, also when the name is written with hyphens, unless the object has a property under the hyphenated name itself. *)
Theorem stored_data_read w x n v pvt :
  wf w -> accepts x w = true -> proper (ESet x n v pvt) -> n <> js "events" ->
  n = camelCase n \/ this pvt (objs w x) !! n = None ->
  (data x (ByName n) None pvt (data x (ByName n) (Some v) pvt w).1).2 = RVal v.
Proof.
  intros Hw Ha Hp Hne Hn. pose proof (accepts_data x (ByName n) (Some v) pvt w) as Ha1.
  destruct (data x (ByName n) (Some v) pvt w) as [w1 r1] eqn:E1.
  destruct (store_step w (ESet x n v pvt) w1 r1 Hw Hp E1) as (Hw1 & _ & H1 & _). cbn in H1, Ha1. rewrite Ha in *.
  cbn [fst]. destruct (data x (ByName n) None pvt w1) as [w2 r2] eqn:E2.
  destruct (store_step w1 (EGet x n pvt) w2 r2 Hw1 Hp E2) as (_ & _ & _ & H2).
  cbn. rewrite (H2 x n pvt eq_refl), Ha1, H1. unfold spec_read. rewrite bool_decide_false by done. cbn [andb].
  assert (this pvt (on pvt <[camelCase n:=v]> (objs w x)) = <[camelCase n := v]> (this pvt (objs w x))) as ->
    by by destruct pvt.
  rewrite lookup_insert_eq. destruct (decide (camelCase n = n)) as [E|E].
  - rewrite E, lookup_insert_eq. by destruct (is_null v).
  - rewrite lookup_insert_ne by done. destruct Hn as [Hn|Hn]; [by symmetry in Hn|]. by rewrite Hn.
Qed.

Definition run (w : world) (evs : list event) : world := foldl (fun w e => (step w e).1) w evs.

Definition init : world := World ∅ 0 ∅.

Lemma run_wf evs : forall w, wf w -> Forall proper evs -> wf (run w evs).
Proof.
  induction evs as [|e evs IH]; intros w Hw Hp; [done|]. apply Forall_cons in Hp as [He Hp]. cbn.
  destruct (step w e) as [w' r] eqn:E. apply IH; [|done]. by eapply store_step.
Qed.

Lemma no_data_wf : wf init.
Proof. constructor; cbn; intros *; rewrite ?lookup_empty; try done. Qed.

(** C30: the data store does not leak: whatever has been stored and removed, every entry of [jQuery.cache] belongs to exactly one element, and when the page's data is removed from an element that carries none of the library's, its entry of the cache and the number on the element are gone. *)
Theorem data_no_leak evs x n c o :
  Forall proper evs -> let w := run init evs in
  targets w !! x = Some (TNode n c o) -> accepts x w = true -> priv x w = ∅ ->
  let w' := removeData x RAll false w in
  targets w' !! x = Some (TNode n c None) /\
  (forall id, is_Some (cache w' !! id) ->
     exists y m d, targets w' !! y = Some (TNode m d (Some id)) /\
       forall z m' d', targets w' !! z = Some (TNode m' d' (Some id)) -> z = y).
Proof.
  intros Hp w Hx Ha Hpr w'. pose proof (run_wf evs init no_data_wf Hp) as Hw. fold w in Hw.
  assert (acceptData (TNode n c o) = true) as Hacc by (unfold accepts in Ha; by rewrite Hx in Ha).
  destruct (removeData_spec x _ RAll false w Hw Hx Hacc I) as (Hw' & H2 & _ & H4). fold w' in Hw', H2, H4.
  split.
  - assert (entry_at x w' = None) as Hnone by (apply H4; cbn; by rewrite Hpr).
    assert (exists o', targets w' !! x = Some (TNode n c o')) as [o' Ht].
    { unfold w', removeData. rewrite Hx, Hacc. destruct (entry_of _ w) eqn:E; [|eauto]. cbn.
      destruct o as [id|]; [|done]. unfold drop_entry, put. rewrite Hx.
      destruct (isEmptyDataObject _); cbn; rewrite ?lookup_insert_eq; eauto. }
    destruct o' as [id|]; [|done]. destruct (wf_held _ Hw' _ _ _ _ Ht) as [_ [e He]].
    unfold entry_at in Hnone. rewrite Ht in Hnone. cbn in Hnone. congruence.
  - intros id Hid. destruct (wf_owned _ Hw' id Hid) as (y & m & d & Hy). exists y, m, d. split; [done|].
    intros z m' d' Hz. by eapply (wf_apart _ Hw').
Qed.

End Data.

Module Sample.

Definition null (v : jsval) : bool := match v with VNull => true | _ => false end.

(** Every object inherits [constructor]. *)
Definition inherited (n : jstr) : option jsval :=
  if bool_decide (n = js "constructor") then Some (VFun (js "Object") VUndef) else None.

Definition noop : jsval := VFun (js "noop") VUndef.

Abbreviation get x n := (EGet (V := jsval) x (js n) false).
Abbreviation set x n v := (ESet (V := jsval) x (js n) v false).

Definition exec (w : world) (evs : list event) : world := run truthy null inherited noop w evs.
Definition ask (w : world) (e : event) : result := (step truthy null inherited noop w e).2.

(** An element, with data of the page. *)
Definition div : target := TNode (V := jsval) (js "DIV") None None.
Definition page : world := exec init [ENew 1 div; ENew 2 div; set 1 "back-color" (VNum 7)].

Lemma page_data_wf : wf page.
Proof. apply (run_wf truthy null inherited noop); [apply no_data_wf|]. repeat constructor; by vm_compute. Defined.

Definition forget : event := ERemove (V := jsval) 1 (RName (js "back-color")) false.

Lemma store_refines_witness :
  objs (exec page [forget]) 1 = spec_step (objs page 1) forget /\ objs (exec page [forget]) 1 = (∅, ∅).
Proof.
  destruct (store_refines truthy null inherited noop page forget (exec page [forget]) RUndef page_data_wf)
    as (_ & _ & H & _).
  - done.
  - split; vm_compute; reflexivity.
  - vm_compute. reflexivity.
  - split; [exact H|]. vm_compute. reflexivity.
Defined.

Lemma stored_data_read_witness : ask (exec page [set 2 "fore-color" (VNum 9)]) (get 2 "fore-color") = RVal (VNum 9).
Proof.
  apply (stored_data_read truthy null inherited noop page 2 (js "fore-color") (VNum 9) false page_data_wf).
  - vm_compute. reflexivity.
  - repeat split; done.
  - discriminate.
  - right. vm_compute. reflexivity.
Defined.

Lemma data_no_leak_witness :
  targets (removeData inherited 1 RAll false page) !! 1%nat = Some div.
Proof.
  apply (data_no_leak truthy null inherited noop
    [ENew 1 div; ENew 2 div; set 1 "back-color" (VNum 7)] 1 (js "DIV") None (Some 1)).
  - repeat constructor; by vm_compute.
  - vm_compute. reflexivity.
  - vm_compute. reflexivity.
  - vm_compute. reflexivity.
Defined.

(** An object stores its properties under their names as they are, a name and
    a value under the camel-cased name: the older value hides the newer one. *)
Example hyphen_hides :
  ask (exec page [EMerge 2 {[js "a-b" := VNum 1]} false; set 2 "a-b" (VNum 2)]) (get 2 "a-b") = RVal (VNum 1).
Proof. vm_compute. done. Qed.

(** ... and removing the name brings the newer value back. *)
Example hyphen_returns :
  ask (exec page [EMerge 2 {[js "a-b" := VNum 1]} false; set 2 "a-b" (VNum 2); ERemove 2 (RName (js "a-b")) false])
    (get 2 "a-b") = RVal (VNum 2).
Proof. vm_compute. done. Qed.

(** A name every object inherits reads as data, once there is other data. *)
Example inherited_data :
  ask page (get 2 "constructor") = RUndef /\
  ask page (get 1 "constructor") = RVal (VFun (js "Object") VUndef).
Proof. vm_compute. done. Qed.

End Sample.
