(* ===== verification/JqQueue.v ===== *)
(** * Queues of functions (jquery-1.7.2.js)

    [jQuery.queue] and [jQuery.dequeue] run functions on an element one after
    the other: animations, [delay], functions of the page.  A queue is an array
    among the library's data of the element, under its type; the first entry of
    the queue [fx] is the string [inprogress] while a function of it is at
    work.  A function goes on to the next one by calling [next], at once or
    later, and page code can also queue and dequeue inside it, so the module is
    a machine with a call stack.  Arrays are shared: a call of [dequeue] looks
    at the array it began with when the function has returned, and by then the
    element may have another one.

    The type in a key is the camel-cased one, under which the source stores the
    array: [a-b] and [aB] are the same type here.  Types have no spaces
    ([removeData] would take them for several names). *)

From stdpp Require Import base gmap list strings.
From S2P Require Import Prelude JsString ZeptoCore.

(** An element and a type. *)
Abbreviation key := (nat * jstr)%type.

Definition fx : jstr := js "fx".

(** What a queue holds: functions of the page, those of [delay], and the
    string [inprogress]. *)
Inductive item := Fn (n : nat) | Delay (time : Z) | InProgress.

#[export] Instance item_eq_dec : EqDecision item.
Proof. solve_decision. Defined.

Inductive timer :=
| TNext (k : key)                       (* [setTimeout(next, time)] of [delay] *)
| TDefer (k : key) (d : nat).           (* of [handleQueueMarkDefer] *)

(** The argument [data] of [queue]. *)
Inductive qdata := DFn (f : item) | DArr (l : list item).

(** [Code]: a function of the page that [dequeue] has called.  [After]: the
    rest of [dequeue], with its array.  [EachQueue] and [EachDequeue]: the
    elements a method has still to go through. *)
Inductive frame :=
| Code (k : key) (n : nat)
| After (k : key) (a : nat)
| EachQueue (els : list nat) (type : jstr) (d : qdata)
| EachDequeue (els : list nat) (type : jstr).

Inductive entry :=
| LEnq (k : key) (fs : list item)             (* functions are put in *)
| LStart (k : key) (f : item)                 (* a function is called *)
| LReplaced (k : key) (fs : list item)        (* functions given up for new ones *)
| LRemoved (k : key) (fs : list item)         (* the queue is removed with these in it *)
| LTypeError (k : key).

(** A callback list [once memory] that [promise] has put on an element, and a
    promise with its counter. *)
Record defer := Defer { d_proms : list nat; d_fired : bool }.

#[export] Instance defer_eta : Eta defer := fun r => Defer (d_proms r) (d_fired r).

Record prom := Prom { p_count : Z; p_resolved : nat }.

#[export] Instance prom_eta : Eta prom := fun r => Prom (p_count r) (p_resolved r).

Record machine := Machine {
  arrays : list (list item);
  queues : gmap key nat;                (* type + "queue" *)
  hooks : gmap key (option nat);        (* type + ".run", with the timer [stop] clears *)
  marks : gmap key Z;                   (* type + "mark" *)
  defers : gmap key nat;                (* type + "defer" *)
  deferred : list defer;
  proms : list prom;
  timers : gmap nat timer;
  next_timer : nat;
  stack : list frame;
  log : list entry;
}.

#[export] Instance machine_eta : Eta machine :=
  fun r => Machine (arrays r) (queues r) (hooks r) (marks r) (defers r) (deferred r) (proms r)
    (timers r) (next_timer r) (stack r) (log r).

Definition push (f : frame) (s : machine) : machine := s <| stack ::= cons f |>.
Definition logged (e : entry) (s : machine) : machine := s <| log ::= fun l => l ++ [e] |>.

Definition is_code (f : frame) : bool := match f with Code _ _ => true | _ => false end.

Fixpoint unwind (st : list frame) : list frame :=
  match st with
  | [] => []
  | f :: st' => if is_code f then st else unwind st'
  end.

Definition set_timeout (t : timer) (s : machine) : machine * nat :=
  (s <| timers ::= <[next_timer s := t]> |> <| next_timer ::= S |>, next_timer s).

(** ** The functions *)

(** An array; [arrays] that are out of reach stay. *)
Definition new_array (l : list item) (s : machine) : machine * nat :=
  (s <| arrays ::= fun h => h ++ [l] |>, length (arrays s)).

Definition array (a : nat) (s : machine) : list item := default [] (arrays s !! a).

Definition is_fn (i : item) : bool := match i with InProgress => false | _ => true end.

(** The functions that wait in the queue. *)
Definition waiting (k : key) (s : machine) : list item :=
  match queues s !! k with Some a => List.filter is_fn (array a s) | None => [] end.

(** [handleQueueMarkDefer]. *)
Inductive source := Queue | Mark.

Definition handleQueueMarkDefer (k : key) (src : source) (s : machine) : machine :=
  match defers s !! k with
  | Some d =>
      let no_queue := match src with Queue => true | Mark => bool_decide (queues s !! k = None) end in
      let no_mark := match src with Mark => true | Queue => bool_decide (marks s !! k = None) end in
      if no_queue && no_mark then (set_timeout (TDefer k d) s).1 else s
  | None => s
  end.

(** [_mark] and [_unmark]. *)
Definition _mark (k : key) (s : machine) : machine :=
  s <| marks ::= <[k := default 0 (marks s !! k) + 1]> |>.

Definition _unmark (force : bool) (k : key) (s : machine) : machine :=
  let count := if force then 0 else default 1 (marks s !! k) - 1 in
  if count =? 0 then handleQueueMarkDefer k Mark (s <| marks ::= delete k |>)
  else s <| marks ::= <[k := count]> |>.

(** [jQuery._data(elem, type, jQuery.makeArray(data))]. *)
Definition store (k : key) (l : list item) (s : machine) : machine :=
  let lost := waiting k s in
  let '(s, a) := new_array l s in
  let s := if bool_decide (lost = []) then s else logged (LReplaced k lost) s in
  logged (LEnq k l) (s <| queues ::= <[k := a]> |>).

(** [queue] with data. *)
Definition queue_set (k : key) (d : qdata) (s : machine) : machine :=
  match d, queues s !! k with
  | DArr l, _ => store k l s
  | DFn f, None => store k [f] s
  | DFn f, Some a => logged (LEnq k [f]) (s <| arrays ::= alter (fun l => l ++ [f]) a |>)
  end.

(** [queue] as a lookup: the array, or a new one. *)
Definition queue_get (k : key) (s : machine) : machine * nat :=
  match queues s !! k with Some a => (s, a) | None => new_array [] s end.

(** [fn = queue.shift()], past the string [inprogress]. *)
Definition shift (l : list item) : option item * list item :=
  match l with
  | InProgress :: l' => (head l', tail l')
  | _ => (head l, tail l)
  end.

(** The function of [delay]. *)
Definition delay_fn (k : key) (s : machine) : machine :=
  let '(s, id) := set_timeout (TNext k) s in s <| hooks ::= <[k := Some id]> |>.

Definition dequeue (k : key) (s : machine) : machine :=
  let '(s, a) := queue_get k s in
  let '(fn, rest) := shift (array a s) in
  match fn with
  | None => push (After k a) (s <| arrays ::= <[a := rest]> |>)
  | Some f =>
      let rest := if decide (k.2 = fx) then InProgress :: rest else rest in
      let s := s <| arrays ::= <[a := rest]> |> <| hooks ::= <[k := None]> |> in
      match f with
      | InProgress => logged (LTypeError k) (s <| stack ::= unwind |>)
      | Fn n => push (Code k n) (push (After k a) (logged (LStart k f) s))
      | Delay _ => push (After k a) (delay_fn k (logged (LStart k f) s))
      end
  end.

(** The end of [dequeue]. *)
Definition after (k : key) (a : nat) (s : machine) : machine :=
  match array a s with
  | [] =>
      let lost := waiting k s in
      let s := if bool_decide (lost = []) then s else logged (LRemoved k lost) s in
      handleQueueMarkDefer k Queue (s <| queues ::= delete k |> <| hooks ::= delete k |>)
  | _ => s
  end.

(** [promise]: [resolve]. *)
Definition resolve (p : nat) (s : machine) : machine :=
  s <| proms ::= alter (fun q =>
        let q := q <| p_count ::= fun c => c - 1 |> in
        if p_count q =? 0 then q <| p_resolved ::= S |> else q) p |>.

(** A callback list is fired. *)
Definition fire (d : nat) (s : machine) : machine :=
  match deferred s !! d with
  | Some c =>
      if d_fired c then s
      else foldl (fun s p => resolve p s) (s <| deferred ::= <[d := c <| d_fired := true |>]> |>) (d_proms c)
  | None => s
  end.

(** The loop of [promise]: one element. *)
Definition promise_add (type : jstr) (p : nat) (el : nat) (s : machine) : machine :=
  let k := (el, type) in
  let wait d s := s <| proms ::= alter (fun q => q <| p_count ::= Z.add 1 |>) p |>
                    <| deferred ::= alter (fun c => c <| d_proms ::= fun l => l ++ [p] |>) d |> in
  match defers s !! k with
  | Some d => wait d s
  | None =>
      if bool_decide (queues s !! k = None) && bool_decide (marks s !! k = None) then s
      else
        let d := length (deferred s) in
        wait d (s <| deferred ::= fun l => l ++ [Defer [] false] |> <| defers ::= <[k := d]> |>)
  end.

Definition promise (els : list nat) (type : jstr) (s : machine) : machine :=
  let p := length (proms s) in
  let s := s <| proms ::= fun l => l ++ [Prom 1 0] |> in
  resolve p (foldr (fun el s => promise_add type p el s) s els).

(** A timer fires. *)
Definition fires (t : timer) (s : machine) : machine :=
  match t with
  | TNext k => dequeue k s
  | TDefer k d =>
      if bool_decide (queues s !! k = None) && bool_decide (marks s !! k = None)
      then fire d (s <| defers ::= delete k |>) else s
  end.

(** ** Steps *)

(** The methods of a jQuery object. *)
Definition each_queue (el : nat) (els : list nat) (type : jstr) (d : qdata) (s : machine) : machine :=
  let k := (el, type) in
  let s := push (EachQueue els type d) (queue_set k d s) in
  let first := queues s !! k ≫= fun a => head (array a s) in
  if decide (type = fx) then if decide (first = Some InProgress) then s else dequeue k s else s.

Definition library_step (s : machine) : option machine :=
  match stack s with
  | After k a :: st => Some (after k a (s <| stack := st |>))
  | EachQueue [] _ _ :: st | EachDequeue [] _ :: st => Some (s <| stack := st |>)
  | EachQueue (el :: els) type d :: st => Some (each_queue el els type d (s <| stack := st |>))
  | EachDequeue (el :: els) type :: st =>
      Some (dequeue (el, type) (s <| stack := EachDequeue els type :: st |>))
  | _ => None
  end.

Inductive event :=
| ELibrary
| EReturn
| EThrow
| EQueue (k : key) (d : qdata)                                    (* [jQuery.queue] *)
| EDequeue (k : key)                                              (* [jQuery.dequeue], [next] *)
| EFnQueue (els : list nat) (type : jstr) (d : qdata)
| EFnDequeue (els : list nat) (type : jstr)
| EDelay (els : list nat) (type : jstr) (time : Z)
| EClearQueue (els : list nat) (type : jstr)
| EMark (k : key)
| EUnmark (force : bool) (k : key)
| EPromise (els : list nat) (type : jstr)
| ETimer (id : nat).

(** The page does not queue the string [inprogress]. *)
Definition page_data (d : qdata) : bool :=
  match d with DFn f => is_fn f | DArr l => forallb is_fn l end.

Definition page_runs (s : machine) : bool := match stack s with [] => true | f :: _ => is_code f end.

Definition page_step (e : event) (s : machine) : option machine :=
  match e with
  | ELibrary => None
  | EReturn => match stack s with Code _ _ :: st => Some (s <| stack := st |>) | _ => None end
  | EThrow => match stack s with Code _ _ :: st => Some (s <| stack := unwind st |>) | _ => None end
  | EQueue k d => if page_data d then Some (queue_set k d s) else None
  | EDequeue k => Some (dequeue k s)
  | EFnQueue els type d => if page_data d then Some (push (EachQueue els type d) s) else None
  | EFnDequeue els type => Some (push (EachDequeue els type) s)
  | EDelay els type time => Some (push (EachQueue els type (DFn (Delay time))) s)
  | EClearQueue els type => Some (push (EachQueue els type (DArr [])) s)
  | EMark k => Some (_mark k s)
  | EUnmark force k => Some (_unmark force k s)
  | EPromise els type => Some (promise els type s)
  | ETimer id =>
      match stack s, timers s !! id with
      | [], Some t => Some (fires t (s <| timers ::= delete id |>))
      | _, _ => None
      end
  end.

Definition step (s : machine) (e : event) : option machine :=
  match e with
  | ELibrary => library_step s
  | _ => if page_runs s then page_step e s else None
  end.

Fixpoint run (s : machine) (l : list event) : option machine :=
  match l with
  | [] => Some s
  | e :: l' => s' ← step s e; run s' l'
  end.

Definition init : machine := Machine [] ∅ ∅ ∅ ∅ [] [] ∅ 0 [] [].

(** ** First in, first out *)

Definition enqueued (k : key) (lg : list entry) : list item :=
  flat_map (fun e => match e with LEnq k' fs => if decide (k' = k) then fs else [] | _ => [] end) lg.

Definition started (k : key) (lg : list entry) : list item :=
  flat_map (fun e => match e with LStart k' f => if decide (k' = k) then [f] else [] | _ => [] end) lg.

(** No function of the queue was given up. *)
Definition loses (k : key) (e : entry) : bool :=
  match e with LReplaced k' _ | LRemoved k' _ => bool_decide (k' = k) | _ => false end.

Definition lossless (k : key) (lg : list entry) : bool := negb (existsb (loses k) lg).

Lemma enqueued_snoc k e lg : enqueued k (lg ++ [e]) = enqueued k lg ++ enqueued k [e].
Proof. apply flat_map_app. Qed.

Lemma started_snoc k e lg : started k (lg ++ [e]) = started k lg ++ started k [e].
Proof. apply flat_map_app. Qed.

Lemma lossless_snoc k e lg : lossless k (lg ++ [e]) = lossless k lg && negb (loses k e).
Proof. unfold lossless. rewrite existsb_app. cbn. by rewrite orb_false_r, negb_orb. Qed.

(** An array: functions, after [inprogress] or not. *)
Definition tidy (l : list item) : Prop :=
  match l with InProgress :: r => Forall (fun i => is_fn i = true) r | l => Forall (fun i => is_fn i = true) l end.

Record good (s : machine) : Prop := {
  g_alloc : forall k a, queues s !! k = Some a -> (a < length (arrays s))%nat;
  g_apart : forall k k' a, queues s !! k = Some a -> queues s !! k' = Some a -> k = k';
  g_tidy : forall k a, queues s !! k = Some a -> tidy (array a s);
  g_order : forall k, started k (log s) ++ waiting k s `sublist_of` enqueued k (log s);
  g_all : forall k, lossless k (log s) = true -> enqueued k (log s) = started k (log s) ++ waiting k s;
  g_error : forall k, LTypeError k ∉ log s;
}.

(** Nothing that concerns queues changes. *)
Definition same (s s' : machine) : Prop := arrays s' = arrays s /\ queues s' = queues s /\ log s' = log s.

Lemma good_same s s' : same s s' -> good s -> good s'.
Proof.
  intros (H1 & H2 & H3) [G1 G2 G3 G4 G5 G6]. unfold waiting, array in *.
  constructor; unfold waiting, array; by rewrite ?H1, ?H2, ?H3.
Qed.

Lemma same_handle k src s : same s (handleQueueMarkDefer k src s).
Proof. unfold handleQueueMarkDefer. repeat case_match; done. Qed.

Lemma filter_fns l : Forall (fun i => is_fn i = true) l -> List.filter is_fn l = l.
Proof. induction 1 as [|i l Hi _ IH]; [done|]. cbn. by rewrite Hi, IH. Qed.

Lemma waiting_some k a s : queues s !! k = Some a -> waiting k s = List.filter is_fn (array a s).
Proof. intros H. unfold waiting. by rewrite H. Qed.

(** [started] and [waiting] of another queue. *)
Lemma log_other k e lg :
  match e with LEnq k' _ | LStart k' _ | LReplaced k' _ | LRemoved k' _ | LTypeError k' => k' <> k end ->
  enqueued k (lg ++ [e]) = enqueued k lg /\ started k (lg ++ [e]) = started k lg /\ lossless k (lg ++ [e]) = lossless k lg.
Proof.
  intros H. rewrite enqueued_snoc, started_snoc, lossless_snoc.
  destruct e; cbn; rewrite ?decide_False, ?bool_decide_false, ?app_nil_r, ?andb_true_r by done; done.
Qed.

Lemma array_insert a l s : (a < length (arrays s))%nat -> default [] (<[a := l]> (arrays s) !! a) = l.
Proof. intros H. by rewrite list_lookup_insert_eq. Qed.

Lemma shift_spec l f rest :
  tidy l -> shift l = (f, rest) ->
  Forall (fun i => is_fn i = true) rest /\ (forall i, f = Some i -> is_fn i = true) /\
  List.filter is_fn l = option_list f ++ rest /\ (f = None -> rest = []).
Proof.
  intros Ht Hs. assert (forall r : list item, Forall (fun i => is_fn i = true) r -> (head r, tail r) = (f, rest) ->
    Forall (fun i => is_fn i = true) rest /\ (forall i, f = Some i -> is_fn i = true) /\ r = option_list f ++ rest /\
    (f = None -> rest = [])) as H.
  { intros r Hr E. destruct r as [|i r]; cbn in E; simplify_eq; [done|]. apply Forall_cons in Hr as [Hi Hr].
    split; [done|]. split; [by intros ? [= <-]|done]. }
  destruct l as [|[n|t|] l]; cbn in Ht, Hs.
  1-3: destruct (H _ Ht Hs) as (H1 & H2 & H3 & H4); split; [done|]; split; [done|]; split; [|done]; rewrite <- H3; by apply filter_fns.
  destruct (H _ Ht Hs) as (H1 & H2 & H3 & H4). split; [done|]. split; [done|]. split; [|done]. cbn. by rewrite (filter_fns l Ht).
Qed.

Definition concerns (k : key) (e : entry) : Prop :=
  match e with LEnq k' _ | LStart k' _ | LReplaced k' _ | LRemoved k' _ => k' = k | LTypeError _ => False end.

Lemma log_others k k' es lg :
  Forall (concerns k) es -> k' <> k ->
  enqueued k' (lg ++ es) = enqueued k' lg /\ started k' (lg ++ es) = started k' lg /\
  lossless k' (lg ++ es) = lossless k' lg.
Proof.
  intros He Hn. revert lg. induction He as [|e es He _ IH]; intros lg; [by rewrite app_nil_r|].
  rewrite cons_middle, app_assoc. destruct (IH (lg ++ [e])) as (-> & -> & ->).
  apply log_other. destruct e; cbn in He; subst; done.
Qed.

(** The queue [k] changes, and no other. *)
Lemma good_change k es s s' :
  good s ->
  (forall k', k' <> k -> queues s' !! k' = queues s !! k') ->
  (forall k' a, k' <> k -> queues s !! k' = Some a -> array a s' = array a s) ->
  (length (arrays s) <= length (arrays s'))%nat ->
  (forall a, queues s' !! k = Some a ->
     (a < length (arrays s'))%nat /\ (forall k', k' <> k -> queues s !! k' <> Some a) /\ tidy (array a s')) ->
  log s' = log s ++ es -> Forall (concerns k) es ->
  started k (log s') ++ waiting k s' `sublist_of` enqueued k (log s') ->
  (lossless k (log s') = true -> enqueued k (log s') = started k (log s') ++ waiting k s') ->
  good s'.
Proof.
  intros [G1 G2 G3 G4 G5 G6] Hq Ha Hlen Hk Hlog Hes Hs Hl.
  assert (forall k', k' <> k -> waiting k' s' = waiting k' s) as Hw.
  { intros k' Hn. unfold waiting. rewrite Hq by done. destruct (queues s !! k') as [a|] eqn:E; [|done].
    by rewrite (Ha k' a). }
  constructor.
  - intros k' a. destruct (decide (k' = k)) as [->|Hn]; [apply Hk|]. rewrite Hq by done. intros H%G1. lia.
  - intros k1 k2 a H1 H2. destruct (decide (k1 = k)) as [->|N1], (decide (k2 = k)) as [->|N2]; try done.
    + rewrite Hq in H2 by done. by apply Hk in H1 as (_ & H1 & _); apply H1 in H2.
    + rewrite Hq in H1 by done. by apply Hk in H2 as (_ & H2 & _); apply H2 in H1.
    + rewrite Hq in H1, H2 by done. eauto.
  - intros k' a. destruct (decide (k' = k)) as [->|Hn]; [apply Hk|]. rewrite Hq by done. intros H.
    rewrite (Ha k' a) by done. eauto.
  - intros k'. destruct (decide (k' = k)) as [->|Hn]; [done|]. rewrite Hlog, Hw by done.
    destruct (log_others k k' es (log s) Hes Hn) as (-> & -> & _). apply G4.
  - intros k'. destruct (decide (k' = k)) as [->|Hn]; [done|]. rewrite Hlog, Hw by done.
    destruct (log_others k k' es (log s) Hes Hn) as (-> & -> & ->). apply G5.
  - intros k'. rewrite Hlog, elem_of_app. intros [H|H]; [by eapply G6|].
    rewrite Forall_forall in Hes. by apply Hes in H.
Qed.

Lemma tidy_fns l : Forall (fun i => is_fn i = true) l -> tidy l.
Proof. intros H. destruct l as [|[] l]; try done. apply Forall_cons in H as [H _]. done. Qed.

Lemma tidy_snoc l f : tidy l -> is_fn f = true -> tidy (l ++ [f]).
Proof.
  intros H Hf. assert (forall r, Forall (fun i => is_fn i = true) r -> Forall (fun i => is_fn i = true) (r ++ [f])) as Ha.
  { intros r Hr. apply Forall_app. split; [done|]. by apply Forall_singleton. }
  destruct l as [|i l]; [by apply tidy_fns, (Ha [])|].
  destruct i; [by apply tidy_fns, (Ha (_ :: l))..|]. by apply Ha.
Qed.

Lemma array_app a l s : (a < length (arrays s))%nat -> default [] ((arrays s ++ [l]) !! a) = array a s.
Proof. intros H. unfold array. by rewrite lookup_app_l. Qed.

Lemma good_store k l s : Forall (fun i => is_fn i = true) l -> good s -> good (store k l s).
Proof.
  intros HF Hg. set (lost := waiting k s). set (es := (if bool_decide (lost = []) then [] else [LReplaced k lost]) ++ [LEnq k l]).
  assert (log (store k l s) = log s ++ es) as Hlog.
  { unfold store, es. cbn. fold lost. case_bool_decide; cbn; by rewrite <- ?app_assoc. }
  assert (arrays (store k l s) = arrays s ++ [l] /\ queues (store k l s) = <[k := length (arrays s)]> (queues s)) as [Har Hqs].
  { unfold store. cbn. case_bool_decide; done. }
  assert (waiting k (store k l s) = l) as Hw.
  { unfold waiting, array. rewrite Hqs, lookup_insert_eq, Har, list_lookup_middle by done. by apply filter_fns. }
  assert (Forall (concerns k) es) as Hes.
  { unfold es. apply Forall_app. split; [case_bool_decide; [done|by apply Forall_singleton]|by apply Forall_singleton]. }
  assert (enqueued k (log s ++ es) = enqueued k (log s) ++ l /\ started k (log s ++ es) = started k (log s)) as [He Hst].
  { unfold es. rewrite app_assoc, enqueued_snoc, started_snoc. cbn. rewrite decide_True, !app_nil_r by done.
    case_bool_decide; rewrite ?app_nil_r; [done|]. rewrite enqueued_snoc, started_snoc. cbn. by rewrite !app_nil_r. }
  apply (good_change k es s); [done|..].
  - intros k' Hn. rewrite Hqs. by rewrite lookup_insert_ne.
  - intros k' a _ Ha. unfold array at 1. rewrite Har. apply array_app. by apply (g_alloc _ Hg k').
  - rewrite Har, length_app. lia.
  - intros a. rewrite Hqs, lookup_insert_eq. intros [= <-]. rewrite Har, length_app. split; [cbn; lia|]. split.
    + intros k' Hn E. apply (g_alloc _ Hg) in E. lia.
    + unfold array. rewrite Har, list_lookup_middle by done. by apply tidy_fns.
  - done.
  - done.
  - rewrite Hlog, Hw, He, Hst. apply sublist_app; [|done]. etrans; [|apply (g_order _ Hg k)]. by apply sublist_inserts_r.
  - rewrite Hlog, Hw, He, Hst. unfold es. rewrite app_assoc, lossless_snoc. cbn. rewrite andb_true_r.
    case_bool_decide as El; [|by rewrite lossless_snoc; cbn; rewrite bool_decide_true, andb_false_r].
    rewrite app_nil_r. intros Hl. rewrite (g_all _ Hg k Hl). fold lost. by rewrite El, app_nil_r.
Qed.

Lemma good_append k a f s :
  is_fn f = true -> queues s !! k = Some a -> good s ->
  good (logged (LEnq k [f]) (s <| arrays ::= alter (fun l => l ++ [f]) a |>)).
Proof.
  intros Hf Hq Hg. pose proof (g_alloc _ Hg k a Hq) as Hlt. destruct (lookup_lt_is_Some_2 _ _ Hlt) as [l Hl].
  assert (default [] (alter (fun l => l ++ [f]) a (arrays s) !! a) = array a s ++ [f]) as Hnew.
  { unfold array. rewrite list_lookup_alter_eq, Hl. done. }
  set (s' := logged _ _). assert (waiting k s' = waiting k s ++ [f]) as Hw.
  { unfold waiting. cbn. rewrite Hq. unfold array at 1. cbn. rewrite Hnew, List.filter_app. cbn. by rewrite Hf. }
  apply (good_change k [LEnq k [f]] s); try done.
  - intros k' a' Hn Ha'. unfold array. cbn. rewrite list_lookup_alter_ne; [done|]. intros <-. apply Hn.
    by eapply (g_apart _ Hg).
  - cbn. by rewrite length_alter.
  - intros a' Ha'. cbn in Ha'. simplify_eq. cbn. rewrite length_alter. split; [done|]. split.
    + intros k' Hn E. apply Hn. by eapply (g_apart _ Hg).
    + unfold array. cbn. rewrite Hnew. apply tidy_snoc; [by eapply (g_tidy _ Hg)|done].
  - by apply Forall_singleton.
  - rewrite Hw. change (log s') with (log s ++ [LEnq k [f]]). rewrite enqueued_snoc, started_snoc. cbn.
    rewrite decide_True, !app_nil_r, app_assoc by done.
    apply sublist_app; [|done]. apply (g_order _ Hg k).
  - rewrite Hw. change (log s') with (log s ++ [LEnq k [f]]). rewrite enqueued_snoc, started_snoc, lossless_snoc. cbn.
    rewrite decide_True, !app_nil_r, app_assoc, andb_true_r by done. intros Hl'. by rewrite (g_all _ Hg k Hl').
Qed.

Lemma page_data_fns l : forallb is_fn l = true -> Forall (fun i => is_fn i = true) l.
Proof. intros H. rewrite forallb_forall in H. apply Forall_forall. intros i Hi. by apply H, list_elem_of_In. Qed.

Lemma good_queue_set k d s : page_data d = true -> good s -> good (queue_set k d s).
Proof.
  intros Hd Hg. unfold queue_set. destruct d as [f|l]; cbn in Hd.
  - destruct (queues s !! k) as [a|] eqn:E; [by apply good_append|]. apply good_store; [by apply Forall_singleton|done].
  - apply good_store; [by apply page_data_fns|done].
Qed.

(** The array of the queue [k] is written. *)
Lemma good_write k a l es s s' :
  good s -> queues s !! k = Some a -> tidy l ->
  arrays s' = <[a := l]> (arrays s) -> queues s' = queues s -> log s' = log s ++ es -> Forall (concerns k) es ->
  started k (log s') ++ List.filter is_fn l `sublist_of` enqueued k (log s') ->
  (lossless k (log s') = true -> enqueued k (log s') = started k (log s') ++ List.filter is_fn l) ->
  good s'.
Proof.
  intros Hg Hq Ht Har Hqs Hlog Hes Hs Hl. pose proof (g_alloc _ Hg k a Hq) as Hlt.
  assert (array a s' = l) as Ha by (unfold array; rewrite Har; by apply array_insert).
  assert (waiting k s' = List.filter is_fn l) as Hw by (unfold waiting; by rewrite Hqs, Hq, Ha).
  apply (good_change k es s); try done.
  - intros k' _. by rewrite Hqs.
  - intros k' a' Hn Ha'. unfold array. rewrite Har, list_lookup_insert_ne; [done|]. intros <-. apply Hn.
    by eapply (g_apart _ Hg).
  - by rewrite Har, length_insert.
  - intros a' Ha'. rewrite Hqs, Hq in Ha'. assert (a' = a) as -> by congruence. rewrite Har, length_insert.
    split; [done|]. split; [|by rewrite Ha].
    intros k' Hn E. apply Hn. by eapply (g_apart _ Hg).
  - by rewrite Hw.
  - by rewrite Hw.
Qed.

Lemma good_grow l s s' : good s -> arrays s' = arrays s ++ l -> queues s' = queues s -> log s' = log s -> good s'.
Proof.
  intros Hg Har Hq Hl. assert (forall k, waiting k s' = waiting k s) as Hw.
  { intros k. unfold waiting. rewrite Hq. destruct (queues s !! k) as [a|] eqn:E; [|done]. unfold array.
    rewrite Har, lookup_app_l; [done|]. by eapply (g_alloc _ Hg). }
  destruct Hg as [G1 G2 G3 G4 G5 G6]. constructor; rewrite ?Hq, ?Hl; try done.
  - intros k a H%G1. rewrite Har, length_app. lia.
  - intros k a H. unfold array. rewrite Har, lookup_app_l by eauto. by eapply G3.
  - intros k. rewrite Hw. apply G4.
  - intros k. rewrite Hw. apply G5.
Qed.

Lemma good_dequeue k s : good s -> good (dequeue k s).
Proof.
  intros Hg. unfold dequeue, queue_get. destruct (queues s !! k) as [a|] eqn:Hq.
  2: { cbn. assert (array (length (arrays s)) (s <| arrays ::= fun h => h ++ [[]] |>) = []) as ->.
       { unfold array. cbn. by rewrite list_lookup_middle. }
       cbn. apply (good_grow [[]] s); [done| |done|done]. cbn. by rewrite insert_app_r_alt, Nat.sub_diag by lia. }
  pose proof (g_tidy _ Hg k a Hq) as Ht. destruct (shift (array a s)) as [f rest] eqn:Hs.
  destruct (shift_spec _ _ _ Ht Hs) as (Hr & Hf & Hw & _).
  assert (waiting k s = option_list f ++ rest) as Hwk by (rewrite (waiting_some k a s Hq); exact Hw).
  destruct f as [f|].
  - specialize (Hf f eq_refl). set (rest' := if decide (k.2 = fx) then InProgress :: rest else rest).
    assert (tidy rest' /\ List.filter is_fn rest' = rest) as [Ht' Hfr].
    { unfold rest'. destruct (decide (k.2 = fx)); cbn; rewrite ?filter_fns by done; split; try done. by apply tidy_fns. }
    assert (forall s', arrays s' = <[a := rest']> (arrays s) -> queues s' = queues s -> log s' = log s ++ [LStart k f] -> good s') as H.
    { intros s' H1 H2 H3. eapply (good_write k a rest' [LStart k f] s s'); try done; [by apply Forall_singleton|..];
        rewrite H3, enqueued_snoc, started_snoc, ?lossless_snoc, Hfr; cbn; rewrite decide_True, !app_nil_r, <- app_assoc by done.
      - cbn. pose proof (g_order _ Hg k) as Ho. by rewrite Hwk in Ho.
      - rewrite andb_true_r. intros Hl. rewrite (g_all _ Hg k Hl), Hwk. done. }
    destruct f; try done; by apply H.
  - eapply (good_write k a rest [] s); try done; [by apply tidy_fns|by rewrite app_nil_r|..]; rewrite (filter_fns rest Hr).
    + cbn. pose proof (g_order _ Hg k) as Ho. by rewrite Hwk in Ho.
    + intros Hl. pose proof (g_all _ Hg k Hl) as Ho. by rewrite Hwk in Ho.
Qed.

Lemma good_after k a s : good s -> good (after k a s).
Proof.
  intros Hg. unfold after. destruct (array a s); [|done]. eapply good_same; [apply same_handle|].
  set (lost := waiting k s). set (es := if bool_decide (lost = []) then [] else [LRemoved k lost]).
  set (s' := _ <| hooks ::= delete k |>).
  assert (log s' = log s ++ es) as Hlog by (unfold s', es; case_bool_decide; cbn; by rewrite ?app_nil_r).
  assert (arrays s' = arrays s) as Har by (unfold s'; case_bool_decide; done).
  assert (queues s' = delete k (queues s)) as Hqs by (unfold s'; case_bool_decide; done).
  assert (waiting k s' = []) as Hw by (unfold waiting; by rewrite Hqs, lookup_delete_eq).
  assert (enqueued k (log s') = enqueued k (log s) /\ started k (log s') = started k (log s)) as [He Hst].
  { rewrite Hlog. unfold es. case_bool_decide; rewrite ?app_nil_r; [done|]. rewrite enqueued_snoc, started_snoc. cbn.
    by rewrite !app_nil_r. }
  apply (good_change k es s); try done.
  - intros k' Hn. rewrite Hqs. by rewrite lookup_delete_ne.
  - intros k' a' _ _. unfold array. by rewrite Har.
  - by rewrite Har.
  - intros a'. by rewrite Hqs, lookup_delete_eq.
  - unfold es. case_bool_decide; [done|by apply Forall_singleton].
  - rewrite Hw, app_nil_r, He, Hst. etrans; [|apply (g_order _ Hg k)]. by apply sublist_inserts_r.
  - rewrite Hw, app_nil_r, He, Hst, Hlog. unfold es. case_bool_decide as El.
    + rewrite app_nil_r. intros Hl. rewrite (g_all _ Hg k Hl). fold lost. by rewrite El, app_nil_r.
    + rewrite lossless_snoc. cbn. by rewrite bool_decide_true, andb_false_r.
Qed.

(** The functions the methods have still to queue. *)
Definition frame_ok (f : frame) : bool := match f with EachQueue _ _ d => page_data d | _ => true end.

Definition ok (s : machine) : Prop := good s /\ forallb frame_ok (stack s) = true.

Lemma unwind_ok st : forallb frame_ok st = true -> forallb frame_ok (unwind st) = true.
Proof.
  induction st as [|f st IH]; [done|]. cbn. intros [Hf Hst]%andb_true_iff. destruct (is_code f); [|by apply IH].
  cbn. by rewrite Hf.
Qed.

Lemma dequeue_stack k s : forallb frame_ok (stack s) = true -> forallb frame_ok (stack (dequeue k s)) = true.
Proof.
  intros H. unfold dequeue, queue_get, new_array. destruct (queues s !! k) as [a|].
  all: destruct (shift _) as [[f|] rest]; [|done]; destruct f; try done; cbn; by apply unwind_ok.
Qed.

Lemma ok_dequeue k s : ok s -> ok (dequeue k s).
Proof. intros [H1 H2]. split; [by apply good_dequeue|by apply dequeue_stack]. Qed.

Lemma same_stack k src s : stack (handleQueueMarkDefer k src s) = stack s.
Proof. unfold handleQueueMarkDefer. repeat case_match; done. Qed.

Lemma ok_same s s' : same s s' -> stack s' = stack s -> ok s -> ok s'.
Proof. intros Hs Hst [H1 H2]. split; [by eapply good_same|by rewrite Hst]. Qed.

Lemma ok_set_stack s st : ok s -> forallb frame_ok st = true -> ok (s <| stack := st |>).
Proof. intros [H1 _] H. split; [|done]. by apply (good_same s). Qed.

Lemma queue_set_stack k d s : stack (queue_set k d s) = stack s.
Proof. unfold queue_set, store. destruct d, (queues s !! k); cbn; try done; case_bool_decide; done. Qed.

Lemma ok_resolve p s : ok s -> ok (resolve p s).
Proof. intros H. by apply (ok_same s). Qed.

Lemma ok_fire d s : ok s -> ok (fire d s).
Proof.
  intros H. unfold fire. destruct (deferred s !! d) as [c|]; [|done]. destruct (d_fired c); [done|].
  assert (ok (s <| deferred ::= <[d := c <| d_fired := true |>]> |>)) as H1 by (eapply ok_same; [| |exact H]; done).
  revert H1. generalize (s <| deferred ::= <[d := c <| d_fired := true |>]> |>).
  induction (d_proms c) as [|p l IH]; intros s0 H0; [done|]. apply IH. by apply ok_resolve.
Qed.

Lemma ok_promise els t s : ok s -> ok (promise els t s).
Proof.
  intros H. unfold promise. apply ok_resolve. set (p := length (proms s)).
  assert (ok (s <| proms ::= fun l => l ++ [Prom 1 0] |>)) as H1 by (eapply ok_same; [| |exact H]; done).
  induction els as [|el els IH]; [done|]. cbn. eapply ok_same; [| |exact IH].
  - unfold promise_add. repeat case_match; done.
  - unfold promise_add. repeat case_match; done.
Qed.

Lemma ok_library s s' : ok s -> library_step s = Some s' -> ok s'.
Proof.
  intros [Hg Hst] He. unfold library_step in He. destruct (stack s) as [|f st] eqn:Es; [done|].
  cbn in Hst. apply andb_true_iff in Hst as [Hf Hst].
  assert (forall st', forallb frame_ok st' = true -> ok (s <| stack := st' |>)) as Hs by (intros; split; [by apply (good_same s)|done]).
  destruct f as [|k a|[|el els] t d|[|el els] t]; simplify_eq; try done; try by apply Hs.
  - split; [apply good_after; by apply Hs|]. unfold after. destruct (array _ _); [|done]. rewrite same_stack.
    case_bool_decide; done.
  - unfold each_queue. set (s1 := push _ _). assert (ok s1) as H1.
    { split; [|cbn; rewrite queue_set_stack; cbn; by rewrite Hst, andb_true_r].
      eapply good_same; [|apply good_queue_set; [exact Hf|by apply (Hs st Hst)]]. done. }
    destruct (decide (t = fx)); [|done]. destruct (decide _); [done|]. by apply ok_dequeue.
  - apply ok_dequeue. apply Hs. by cbn.
Qed.

Lemma ok_page e s s' : ok s -> page_step e s = Some s' -> ok s'.
Proof.
  intros Hok He. assert (forall s1, same s s1 -> stack s1 = stack s -> ok s1) as Hsame by (intros; by eapply ok_same).
  assert (forall d s1, page_data d = true -> forall els t, ok s1 -> ok (push (EachQueue els t d) s1)) as Hpush.
  { intros d s1 Hd els t [H1 H2]. split; [by apply (good_same s1)|]. cbn. by rewrite Hd. }
  destruct Hok as [Hg Hst]. destruct e; cbn [page_step] in He.
  - done.
  - destruct (stack s) as [|[] st] eqn:E; simplify_eq. apply ok_set_stack; [split; [done|by rewrite E]|].
    cbn in Hst. done.
  - destruct (stack s) as [|[] st] eqn:E; simplify_eq. apply ok_set_stack; [split; [done|by rewrite E]|].
    by apply unwind_ok.
  - destruct (page_data d) eqn:Hd; simplify_eq. split; [by apply good_queue_set|by rewrite queue_set_stack].
  - simplify_eq. by apply ok_dequeue.
  - destruct (page_data d) eqn:Hd; simplify_eq. by apply Hpush.
  - simplify_eq. split; [by apply (good_same s)|done].
  - simplify_eq. by apply Hpush.
  - simplify_eq. by apply Hpush.
  - simplify_eq. by apply Hsame.
  - simplify_eq. unfold _unmark. destruct (_ =? 0); [|by apply Hsame].
    eapply ok_same; [apply same_handle|apply same_stack|]. by apply Hsame.
  - simplify_eq. by apply ok_promise.
  - destruct (stack s) eqn:E; [|done]. destruct (timers s !! id) as [t|]; simplify_eq.
    assert (ok (s <| timers ::= delete id |>)) as H1 by (apply Hsame; done).
    destruct t as [k|k d]; cbn [fires]; [by apply ok_dequeue|]. destruct (_ && _); [|done]. apply ok_fire. by apply Hsame.
Qed.

Lemma ok_run evs s : run init evs = Some s -> ok s.
Proof.
  assert (ok init) as H0.
  { split; [|done]. constructor; cbn; intros *; rewrite ?lookup_empty; try done. by intros ?%elem_of_nil. }
  revert H0. generalize init. induction evs as [|e evs IH]; intros s0 H0 Hr; cbn in Hr; [by simplify_eq|].
  destruct (step s0 e) as [s1|] eqn:E; [|done]. eapply IH; [|exact Hr].
  destruct e; cbn [step] in E; try (destruct (page_runs s0); [|done]; by eapply ok_page). by eapply ok_library.
Qed.

(** C13: queues are first in, first out: whatever the functions do while they run (queue, dequeue, call [next] at once or later, clear queues, throw), the functions of a queue are started in the order they were queued, each at most once; while none has been given up, those started and those that wait are exactly those that were queued; and [dequeue] never takes the string [inprogress] for a function. *)
Theorem queue_fifo evs s k :
  run init evs = Some s ->
  started k (log s) ++ waiting k s `sublist_of` enqueued k (log s) /\
  (lossless k (log s) = true -> enqueued k (log s) = started k (log s) ++ waiting k s) /\
  LTypeError k ∉ log s.
Proof. intros [Hg _]%ok_run. split; [apply (g_order _ Hg)|]. split; [apply (g_all _ Hg)|apply (g_error _ Hg)]. Qed.

(** ** A queue is worked off *)

Definition synchronous (i : item) : Prop := exists n, i = Fn n.

(** Every function calls [next] and returns. *)
Definition driven (k : key) (e : event) : Prop := e = ELibrary \/ e = EReturn \/ e = EDequeue k.

Lemma run_events_app s evs evs' : run s (evs ++ evs') = run s evs ≫= fun s' => run s' evs'.
Proof. revert s. induction evs as [|e evs IH]; intros s; [done|]. cbn. destruct (step s e); [apply IH|done]. Qed.

Lemma run_after k a st s :
  stack s = After k a :: st -> array a s = [] ->
  exists s', run s [ELibrary] = Some s' /\ stack s' = st /\ queues s' !! k = None /\ arrays s' = arrays s /\
    (waiting k s = [] -> log s' = log s).
Proof.
  intros Hs Ha. cbn. unfold library_step. rewrite Hs. cbn. unfold after. change (array a (s <| stack := st |>)) with (array a s).
  rewrite Ha. change (waiting k (s <| stack := st |>)) with (waiting k s). set (s1 := _ <| hooks ::= delete k |>).
  eexists. split; [done|]. rewrite same_stack. destruct (same_handle k Queue s1) as (-> & -> & ->). unfold s1.
  case_bool_decide; (split; [done|]; split; [cbn; by rewrite lookup_delete_eq|]); done.
Qed.

Lemma drain k a : forall r s,
  queues s !! k = Some a -> (a < length (arrays s))%nat -> tidy (array a s) -> List.filter is_fn (array a s) = r ->
  Forall synchronous r ->
  exists evs s', Forall (driven k) evs /\ run (dequeue k s) evs = Some s' /\ stack s' = stack s /\
    queues s' !! k = None /\ array a s' = [] /\ log s' = log s ++ (LStart k <$> r).
Proof.
  induction r as [|f r IH]; intros s Hq Hlt Ht Hr Hsy.
  all: destruct (shift (array a s)) as [g rest] eqn:Hs; destruct (shift_spec _ _ _ Ht Hs) as (Hrest & Hg & Hw & Hnil);
    rewrite Hr in Hw.
  - destruct g; [done|]. cbn in Hw. subst rest.
    assert (dequeue k s = push (After k a) (s <| arrays ::= <[a := []]> |>)) as -> by (unfold dequeue, queue_get; by rewrite Hq, Hs).
    set (s1 := push _ _). assert (array a s1 = []) as Ha by (by apply array_insert).
    destruct (run_after k a (stack s) s1 eq_refl Ha) as (s' & H1 & H2 & H3 & H4 & H5).
    exists [ELibrary], s'. split; [apply Forall_singleton; by left|]. split; [done|]. split; [done|]. split; [done|].
    split; [unfold array; rewrite H4; exact Ha|]. cbn. rewrite app_nil_r. apply H5. unfold waiting. cbn. rewrite Hq.
    change (array a (push (After k a) (s <| arrays ::= <[a := []]> |>))) with (array a s1). by rewrite Ha.
  - apply Forall_cons in Hsy as [[n ->] Hsy]. destruct g as [g|]; [|by rewrite (Hnil eq_refl) in Hw].
    cbn in Hw. simplify_eq. set (rest' := if decide (k.2 = fx) then InProgress :: rest else rest).
    set (s1 := push (Code k n) (push (After k a) (logged (LStart k (Fn n))
      (s <| arrays ::= <[a := rest']> |> <| hooks ::= <[k := None]> |>)))).
    assert (dequeue k s = s1) as -> by (unfold dequeue, queue_get; rewrite Hq, Hs; done).
    assert (array a s1 = rest') as Ha by (by apply array_insert).
    assert (tidy rest' /\ List.filter is_fn rest' = rest) as [Ht' Hfr].
    { unfold rest'. destruct (decide (k.2 = fx)); cbn; rewrite ?filter_fns by done; split; try done. by apply tidy_fns. }
    destruct (IH s1) as (evs & s2 & He & Hr2 & Hst & Hq2 & Ha2 & Hl2); [done|cbn; by rewrite length_insert|by rewrite Ha|by rewrite Ha|done|].
    destruct (run_after k a (stack s) (s2 <| stack := After k a :: stack s |>)) as (s3 & H1 & H2 & H3 & H4 & H5); [done|exact Ha2|].
    exists (EDequeue k :: evs ++ [EReturn; ELibrary]), s3.
    split; [apply Forall_cons; split; [by right; right|]; apply Forall_app; split; [done|];
      apply Forall_cons; split; [by right; left|]; apply Forall_singleton; by left|].
    split.
    { cbn [run step page_runs stack]. change (page_runs s1) with true. cbn. change (page_step (EDequeue k) s1) with (Some (dequeue k s1)).
      cbn. rewrite run_events_app, Hr2. cbn. unfold page_runs. rewrite Hst. cbn. exact H1. }
    split; [done|]. split; [done|]. split; [unfold array; rewrite H4; exact Ha2|]. rewrite H5.
    + cbn [log]. change (log (s2 <| stack := After k a :: stack s |>)) with (log s2). rewrite Hl2. cbn. by rewrite <- app_assoc.
    + unfold waiting. cbn. by rewrite Hq2.
Qed.

(** C31: working off a queue ends: when the functions that wait all call [next] before they return and do nothing else to the queue, one call of [dequeue] starts every one of them, in order, removes the queue from the element and comes back to its caller. *)
Theorem queue_drains evs s k a :
  run init evs = Some s -> page_runs s = true -> queues s !! k = Some a -> Forall synchronous (waiting k s) ->
  exists evs' s', Forall (driven k) evs' /\ run s (EDequeue k :: evs') = Some s' /\ stack s' = stack s /\
    queues s' !! k = None /\ log s' = log s ++ (LStart k <$> waiting k s).
Proof.
  intros [Hg _]%ok_run Hp Hq Hsy. destruct (drain k a (waiting k s) s) as (evs' & s' & H1 & H2 & H3 & H4 & _ & H6).
  - done.
  - by eapply (g_alloc _ Hg).
  - by eapply (g_tidy _ Hg).
  - by rewrite (waiting_some k a s Hq).
  - done.
  - exists evs', s'. split; [done|]. split; [|done]. cbn [run step]. by rewrite Hp.
Qed.

Module Sample.

Definition lib (n : nat) : list event := replicate n ELibrary.
Definition q : key := (1%nat, js "steps").

(** Three functions wait in a queue of the page's own. *)
Definition filled : list event := EQueue q (DFn (Fn 1)) :: [EQueue q (DFn (Fn 2)); EQueue q (DFn (Fn 3))].
Definition full : machine := default init (run init filled).

Lemma queue_fifo_witness : enqueued q (log full) = started q (log full) ++ waiting q full.
Proof.
  destruct (queue_fifo filled full q) as (_ & H & _).
  - vm_compute. reflexivity.
  - apply H. vm_compute. reflexivity.
Defined.

Lemma queue_drains_witness :
  exists evs' s', run full (EDequeue q :: evs') = Some s' /\ queues s' !! q = None /\
    started q (log s') = [Fn 1; Fn 2; Fn 3].
Proof.
  destruct (queue_drains filled full q 0) as (evs' & s' & _ & H2 & _ & H4 & H5).
  - vm_compute. reflexivity.
  - vm_compute. reflexivity.
  - vm_compute. reflexivity.
  - assert (waiting q full = [Fn 1; Fn 2; Fn 3]) as -> by (vm_compute; reflexivity).
    apply Forall_cons. split; [by exists 1%nat|]. apply Forall_cons. split; [by exists 2%nat|].
    apply Forall_cons. split; [by exists 3%nat|]. apply Forall_nil_2.
  - exists evs', s'. split; [exact H2|]. split; [exact H4|]. rewrite H5. vm_compute. reflexivity.
Defined.

(** A function that calls [next] and then queues another one: when it
    returns, [dequeue] finds the array it began with empty and removes the
    queue that holds the new function. *)
Definition stale : list event :=
  [EQueue q (DFn (Fn 1)); EDequeue q; EDequeue q; ELibrary; EQueue q (DFn (Fn 2)); EReturn; ELibrary].

Example queued_after_next_is_lost :
  exists s, run init stale = Some s /\ stack s = [] /\ enqueued q (log s) = [Fn 1; Fn 2] /\
    started q (log s) = [Fn 1] /\ waiting q s = [] /\ LRemoved q [Fn 2] ∈ log s.
Proof.
  eexists. split; [vm_compute; reflexivity|]. split_and!; try (vm_compute; done). apply list_elem_of_In. cbn. eauto 10.
Qed.

(** In the queue of animations the new function is started, and its mark
    removed: a later one is started while it is still at work. *)
Definition k1 : key := (1%nat, fx).

Definition overlapping : list event :=
  [EFnQueue [1%nat] fx (DFn (Fn 1)); ELibrary; EDequeue k1; ELibrary;
   EFnQueue [1%nat] fx (DFn (Fn 2)); ELibrary; EReturn] ++ lib 2 ++ [EReturn] ++ lib 2
  ++ [EFnQueue [1%nat] fx (DFn (Fn 3)); ELibrary].

Example two_animations_at_once :
  exists s, run init overlapping = Some s /\ started k1 (log s) = [Fn 1; Fn 2; Fn 3] /\
    List.filter (fun f => is_code f) (stack s) = [Code k1 3].
Proof. eexists. split; [vm_compute; reflexivity|]. vm_compute. done. Qed.

(** A promise of an element whose queue is at work is resolved by the timer
    after the last function, once. *)
Definition promised : list event :=
  [EDelay [1%nat] fx 100] ++ lib 3 ++ [EPromise [1%nat] fx; ETimer 0] ++ lib 1 ++ [ETimer 1].

Example promise_resolved :
  exists s, run init promised = Some s /\ stack s = [] /\ proms s = [Prom 0 1].
Proof. eexists. split; [vm_compute; reflexivity|]. vm_compute. done. Qed.

End Sample.
