(* ===== verification/JqNames.v ===== *)
(** * Names of events and simple selectors (jquery-1.7.2.js)

    The texts the event module of jQuery reads: the words of a list of types
    with the shorthand [hover], the type and the namespaces of a word, the
    regular expression that compares namespaces, and the selectors simple
    enough to be tested without the selector engine.  The regular expressions
    of the source are written as functions on code units; the theorems give
    what they mean. *)

From stdpp Require Import base gmap list sorting strings.
From Stdlib Require Import NArith.
From S2P Require Import Prelude JsString ZeptoCore ZeptoNode.

(** [\w]. *)
Definition is_word (c : N) : bool := is_digit c || is_upper c || is_lower c || (c =? 95)%N.

(** Whether [\b] holds between a word character or the lack of one on the left
    and the text [s] on the right. *)
Definition boundary (left : bool) (s : jstr) : bool :=
  match s with [] => left | c :: _ => xorb left (is_word c) end.

(** ** Lists of types *)

(** The end of the longest match of [\S+\b] among the first [k] characters. *)
Fixpoint last_boundary (k : nat) (s : jstr) : option nat :=
  match k with
  | O => None
  | S k' =>
      match s !! k' with
      | Some c => if boundary (is_word c) (drop k s) then Some k else last_boundary k' s
      | None => None
      end
  end.

Fixpoint unspaced (s : jstr) : nat :=
  match s with c :: s' => if is_space c then O else S (unspaced s') | [] => O end.

(** [(\.\S+)?\b] after the word [hover]: the group and the rest. *)
Definition hover_end (s : jstr) : option (jstr * jstr) :=
  match s with
  | 46%N :: t =>
      match last_boundary (unspaced t) t with
      | Some k => Some (46%N :: take k t, drop k t)
      | None => Some ([], s)
      end
  | _ => if boundary true s then Some ([], s) else None
  end.

Definition hover_word (s : jstr) : option (jstr * jstr) :=
  if starts_with (js "hover") s then hover_end (drop 5 s) else None.

(** The first match of [rhoverHack]: the text before it, the group, the text
    after it.  A white space before [hover] belongs to the match. *)
Fixpoint rhoverHack (first : bool) (s : jstr) : option (jstr * jstr * jstr) :=
  match (if first then hover_word s else None) with
  | Some (g, r) => Some ([], g, r)
  | None =>
      match s with
      | [] => None
      | c :: s' =>
          match (if is_space c then hover_word s' else None) with
          | Some (g, r) => Some ([], g, r)
          | None => (fun '(p, g, r) => (c :: p, g, r)) <$> rhoverHack false s'
          end
      end
  end.

Definition hoverHack (events : jstr) : jstr :=
  match rhoverHack true events with
  | Some (p, g, r) => p ++ js "mouseenter" ++ g ++ js " mouseleave" ++ g ++ r
  | None => events
  end.

(** [jQuery.trim(hoverHack(types)).split(" ")]. *)
Definition type_words (types : jstr) : list jstr := split_char 32 (trim (hoverHack types)).

(** [rtypenamespace]: the two groups, [None] for [undefined].  The first one is
    [undefined] when it is empty, and both are when there is no match. *)
Fixpoint to_dot (s : jstr) : jstr * option jstr :=
  match s with
  | [] => ([], None)
  | c :: s' =>
      if (c =? 46)%N then ([], Some s')
      else let '(t, r) := to_dot s' in (c :: t, r)
  end.

Definition truthy_str (s : jstr) : option jstr := match s with [] => None | _ => Some s end.

Definition rtypenamespace (w : jstr) : option jstr * option jstr :=
  match to_dot w with
  | (t, None) => (truthy_str t, None)
  | (t, Some ns) =>
      if bool_decide (ns = []) || existsb line_end ns then (None, None) else (truthy_str t, Some ns)
  end.

(** [(tns[2] || "").split(".").sort()]. *)
Definition namespaces_of (ns : option jstr) : list jstr := sort (split_char 46 (default [] ns)).

(** ** The regular expression of namespaces

    [(^|\.)n1\.(?:.*\.)?n2...(\.|$)].  The source puts the names into the text
    of the expression as they are.  [plain_re] is its meaning when no character
    of a name means something in a regular expression ([plain]); what it finds
    with other names is a parameter.  That an ill-formed expression throws is
    left out.  [later] is [.*\.] and what follows. *)

Definition re_meta (c : N) : bool := bool_decide (c ∈ js "^$\*+?()[]{}|").

Definition plainb (s : jstr) : bool := forallb (fun c => negb (re_meta c)) s.

Definition plain (s : jstr) : Prop := Forall (fun c => re_meta c = false) s.

Fixpoint later (p : jstr -> bool) (s : jstr) : bool :=
  match s with
  | [] => false
  | d :: s' => negb (line_end d) && (((d =? 46)%N && p s') || later p s')
  end.

Fixpoint names_here (names : list jstr) (s : jstr) : bool :=
  match names with
  | [] => true
  | n :: ns =>
      starts_with n s &&
      match ns, drop (length n) s with
      | [], [] => true
      | [], c :: _ => (c =? 46)%N
      | _ :: _, [] => false
      | _ :: _, c :: r =>
          (c =? 46)%N &&
          (names_here ns r || later (names_here ns) r)
      end
  end.

Fixpoint names_after_dot (names : list jstr) (s : jstr) : bool :=
  match s with
  | [] => false
  | c :: s' => ((c =? 46)%N && names_here names s') || names_after_dot names s'
  end.

Definition plain_re (names : list jstr) (s : jstr) : bool :=
  names_here names s || names_after_dot names s.

(** What the regular expressions of JavaScript make of other names. *)
Class RegExps := re_finds : list jstr -> jstr -> bool.

Definition namespace_re `{RegExps} (names : list jstr) (s : jstr) : bool :=
  if forallb plainb names then plain_re names s else re_finds names s.

(** ** Simple selectors *)

Record quick := Quick { q_tag : jstr; q_id : option jstr; q_class : option jstr }.

#[export] Instance quick_eq_dec : EqDecision quick.
Proof. solve_decision. Defined.

Fixpoint span (p : N -> bool) (s : jstr) : jstr * jstr :=
  match s with
  | c :: s' => if p c then let '(a, r) := span p s' in (c :: a, r) else ([], s)
  | [] => ([], [])
  end.

(** [\w] or a hyphen. *)
Definition is_name (c : N) : bool := is_word c || (c =? 45)%N.

(** [(?:x([\w\-]+))?] for a character [x]: the group and the rest. *)
Definition marked (x : N) (s : jstr) : option jstr * jstr :=
  match s with
  | c :: r => if (c =? x)%N then
                match span is_name r with ([], _) => (None, s) | (w, r') => (Some w, r') end
              else (None, s)
  | [] => (None, s)
  end.

(** [rquickIs.exec(selector)], with the tag in lower case. *)
Definition quickParse (selector : jstr) : option quick :=
  let '(tag, s) := span is_word selector in
  let '(id, s) := marked 35 s in
  let '(cls, s) := marked 46 s in
  match s with [] => Some (Quick (to_lower tag) id cls) | _ => None end.

(** What [quickIs] reads of an element: [nodeName] and two attributes. *)
Record face := Face { nodeName : jstr; attr_id : option jstr; attr_class : option jstr }.

(** A missing attribute reaches [test] as the word [undefined]. *)
Definition quickIs (elem : face) (m : quick) : bool :=
  (bool_decide (q_tag m = []) || bool_decide (to_lower (nodeName elem) = q_tag m))
  && match q_id m with Some w => bool_decide (attr_id elem = Some w) | None => true end
  && match q_class m with
     | Some w => bool_decide (is_Some (classRE w (default (js "undefined") (attr_class elem))))
     | None => true
     end.

(** ** The words *)

Definition dotless (w : jstr) : Prop := 46%N ∉ w.
Definition one_line (s : jstr) : Prop := Forall (fun c => line_end c = false) s.

Lemma split_dotless s : Forall dotless (split_char 46 s).
Proof.
  induction s as [|c s IH]; cbn; [repeat constructor; apply not_elem_of_nil|].
  destruct (N.eqb_spec c 46); [by constructor; [apply not_elem_of_nil|]|].
  destruct (split_char 46 s) as [|w ws]; [repeat constructor|].
  - unfold dotless. rewrite list_elem_of_singleton. congruence.
  - inversion IH; subst. constructor; [|done]. unfold dotless in *. set_solver.
Qed.

Lemma split_one_line s : one_line s -> Forall one_line (split_char 46 s).
Proof.
  induction s as [|c s IH]; cbn; [by repeat constructor|]. intros [Hc Hs]%Forall_cons.
  specialize (IH Hs). destruct (c =? 46)%N; [by constructor; [constructor|]|].
  destruct (split_char 46 s) as [|w ws]; [by repeat constructor|].
  inversion IH; subst. by repeat constructor.
Qed.

Lemma split_nonempty s : split_char 46 s <> [].
Proof. destruct (split_char_nonnil 46 s) as (w & ws & ->). done. Qed.

Lemma join_cons w ws : ws <> [] -> join [46%N] (w :: ws) = w ++ 46%N :: join [46%N] ws.
Proof. by destruct ws. Qed.

(** A dot of the joined text is one between two words. *)
Lemma join_dot ws a b :
  Forall dotless ws -> join [46%N] ws = a ++ 46%N :: b ->
  exists u v, ws = u ++ v /\ u <> [] /\ v <> [] /\ b = join [46%N] v.
Proof.
  intros H. revert a. induction H as [|w ws Hw Hws IH]; intros a Hj; [by destruct a|].
  destruct (decide (ws = [])) as [->|Hne].
  - cbn in Hj. subst. unfold dotless in Hw. set_solver.
  - rewrite join_cons in Hj by done.
    apply app_eq_inv in Hj as [(k & Hk1 & Hk2)|(k & Hk1 & Hk2)].
    + destruct k as [|c k]; cbn in Hk2.
      * injection Hk2 as Hb. by exists [w], ws.
      * injection Hk2 as <- _. subst w. unfold dotless in Hw. set_solver.
    + destruct k as [|c k]; cbn in Hk2.
      * injection Hk2 as Hb. by exists [w], ws.
      * injection Hk2 as <- Hb. symmetry in Hb. destruct (IH k) as (u & v & -> & Hu & Hv & ->); [done|].
        by exists (w :: u), v.
Qed.

Lemma join_app u v :
  u <> [] -> v <> [] -> join [46%N] (u ++ v) = join [46%N] u ++ 46%N :: join [46%N] v.
Proof.
  induction u as [|w u IH]; [done|]. intros _ Hv. destruct (decide (u = [])) as [->|Hu].
  - cbn [app]. by rewrite join_cons.
  - cbn [app]. rewrite join_cons by (by destruct u). rewrite join_cons, IH by done. by rewrite <- app_assoc.
Qed.

(** A text and its ends after a dot are the ends of its list of words. *)
Lemma dot_suffixes (P : jstr -> Prop) ws :
  Forall dotless ws -> ws <> [] ->
  (P (join [46%N] ws) \/ exists a b, join [46%N] ws = a ++ 46%N :: b /\ P b)
  <-> exists u v, ws = u ++ v /\ v <> [] /\ P (join [46%N] v).
Proof.
  intros H Hne. split.
  - intros [HP|(a & b & Hj & HP)]; [by exists [], ws|].
    destruct (join_dot ws a b H Hj) as (u & v & -> & _ & Hv & ->). by exists u, v.
  - intros (u & v & -> & Hv & HP). destruct (decide (u = [])) as [->|Hu]; [by left|].
    right. exists (join [46%N] u), (join [46%N] v). by rewrite join_app.
Qed.

(** ** Namespaces *)

Lemma names_after_dot_spec names s :
  names_after_dot names s = true <-> exists a b, s = a ++ 46%N :: b /\ names_here names b = true.
Proof.
  induction s as [|c s IH]; cbn; [split; [done|by intros ([] & ? & ? & _)]|].
  rewrite orb_true_iff, andb_true_iff, N.eqb_eq, IH. split.
  - intros [[-> Hb]|(a & b & -> & Hb)]; [by exists [], s|by exists (c :: a), b].
  - intros ([|d a] & b & Hs & Hb); injection Hs as -> ->; eauto.
Qed.

Lemma later_after_dot ns r : one_line r -> later (names_here ns) r = names_after_dot ns r.
Proof. induction 1 as [|d r Hd Hr IH]; [done|]. cbn. by rewrite Hd, IH. Qed.

(** A word without a dot at the beginning of a joined text, before a dot or
    the end, is its first word. *)
Lemma first_word n w ws :
  dotless n -> dotless w ->
  starts_with n (join [46%N] (w :: ws)) = true ->
  (drop (length n) (join [46%N] (w :: ws)) = [] \/ exists r, drop (length n) (join [46%N] (w :: ws)) = 46%N :: r) ->
  n = w.
Proof.
  intros Hn Hw [t Ht]%starts_with_spec Hd. rewrite Ht, drop_app_length in Hd.
  assert (exists e, join [46%N] (w :: ws) = w ++ e /\ (e = [] \/ exists r, e = 46%N :: r)) as (e & He & He').
  { destruct (decide (ws = [])) as [->|Hne]; [exists []; by rewrite app_nil_r; auto|].
    rewrite join_cons by done. eauto. }
  rewrite He in Ht. apply app_eq_inv in Ht as [(k & -> & ->)|(k & -> & ->)];
    (destruct k as [|c k]; [by rewrite app_nil_r|]); unfold dotless in *; exfalso.
  - destruct Hd as [?|(r & ?)]; simplify_list_eq. set_solver.
  - destruct He' as [?|(r & ?)]; simplify_list_eq. set_solver.
Qed.

Lemma join_one_line ws : Forall one_line ws -> one_line (join [46%N] ws).
Proof.
  induction 1 as [|w ws Hw Hws IH]; [constructor|]. destruct (decide (ws = [])) as [->|Hne]; [done|].
  rewrite join_cons by done. by apply Forall_app; repeat constructor.
Qed.

(** The words to look in: those of a bound event. *)
Definition bound_words (ws : list jstr) : Prop := Forall dotless ws /\ Forall one_line ws /\ ws <> [].

Lemma bound_words_suffix u v : bound_words (u ++ v) -> v <> [] -> bound_words v.
Proof. intros ([_ H1]%Forall_app & [_ H2]%Forall_app & _) Hv. by split_and!. Qed.

Lemma namespace_ends names ws :
  bound_words ws ->
  plain_re names (join [46%N] ws) = true
  <-> exists u v, ws = u ++ v /\ v <> [] /\ names_here names (join [46%N] v) = true.
Proof.
  intros (Hd & _ & Hne). unfold plain_re. rewrite orb_true_iff, names_after_dot_spec.
  by apply (dot_suffixes (fun s => names_here names s = true)).
Qed.

Lemma names_here_one n w ws :
  dotless n -> dotless w -> names_here [n] (join [46%N] (w :: ws)) = true <-> n = w.
Proof.
  intros Hn Hw. cbn [names_here]. split.
  - intros [Hs Hr]%andb_true_iff. apply (first_word n w ws); [done..|].
    destruct (drop _ _) as [|c r]; [by left|]. apply N.eqb_eq in Hr as ->. eauto.
  - intros <-. destruct (decide (ws = [])) as [->|Hne].
    + cbn. rewrite <- (app_nil_r n) at 2 4. by rewrite starts_with_app, drop_app_length.
    + rewrite join_cons by done. by rewrite starts_with_app, drop_app_length.
Qed.

Lemma names_here_spec n ns ws :
  Forall dotless (n :: ns) -> bound_words ws ->
  names_here (n :: ns) (join [46%N] ws) = true <-> exists ws', ws = n :: ws' /\ ns `sublist_of` ws'.
Proof.
  revert n ws. induction ns as [|m ns IH]; intros n ws Hns Hws;
    (destruct ws as [|w ws]; [by destruct Hws as (_ & _ & ?)|]);
    assert (dotless w) as Hw by (by destruct Hws as ([? _]%Forall_cons & _)); apply Forall_cons in Hns as [Hn Hns].
  - rewrite names_here_one by done. split; [intros ->; eexists; by split; [|apply sublist_nil_l]|].
    by intros (? & [= -> ->] & _).
  - assert (ws <> [] -> names_here (m :: ns) (join [46%N] ws) || later (names_here (m :: ns)) (join [46%N] ws) = true
      <-> m :: ns `sublist_of` ws) as Hrest.
    { intros Hne. assert (bound_words ws) as Hb by by apply (bound_words_suffix [w]).
      rewrite later_after_dot by (apply join_one_line, Hb).
      change (?a || ?b) with (plain_re (m :: ns) (join [46%N] ws)).
      rewrite namespace_ends, sublist_cons_l by done. split.
      - intros (u & v & -> & Hv & Hh). apply IH in Hh as (v' & -> & Hs); [eauto|done|].
        by apply (bound_words_suffix u).
      - intros (u & v & -> & Hs). exists u, (m :: v). split_and!; [done..|].
        apply IH; [done| |eauto]. by apply (bound_words_suffix u). }
    cbn [names_here]. cbn [names_here] in Hrest. split.
    + intros [Hs Hr]%andb_true_iff.
      destruct (drop (length n) _) as [|c r] eqn:Ed; [done|]. apply andb_true_iff in Hr as [->%N.eqb_eq Hr].
      assert (n = w) as -> by (apply (first_word n w ws); eauto).
      destruct (decide (ws = [])) as [->|Hne]; [cbn in Ed; by rewrite drop_all in Ed|].
      rewrite join_cons, drop_app_length in Ed by done. injection Ed as <-.
      eexists. split; [done|]. by apply Hrest.
    + intros (? & [= -> <-] & Hs). destruct (decide (ws = [])) as [->|Hne].
      { by apply sublist_nil_r in Hs. }
      rewrite join_cons, starts_with_app, drop_app_length by done. cbn. by apply Hrest.
Qed.

Lemma namespace_sublist names ws :
  names <> [] -> Forall dotless names -> bound_words ws ->
  plain_re names (join [46%N] ws) = true <-> names `sublist_of` ws.
Proof.
  intros Hne Hd Hws. rewrite namespace_ends by done. destruct names as [|n ns]; [done|].
  rewrite sublist_cons_l. split.
  - intros (u & v & -> & Hv & Hh). apply names_here_spec in Hh as (v' & -> & Hs); [eauto|done|].
    by apply (bound_words_suffix u).
  - intros (u & v & -> & Hs). exists u, (n :: v). split_and!; [done..|].
    apply names_here_spec; [done| |eauto]. by apply (bound_words_suffix u).
Qed.

Lemma sort_nonempty l : l <> [] -> sort l <> [].
Proof. intros Hl H. apply Hl, Permutation_nil. by rewrite <- H, sort_perm. Qed.

Lemma namespaces_bound a : one_line a -> bound_words (namespaces_of (Some a)).
Proof.
  intros Ha. unfold namespaces_of. cbn.
  split_and!; [rewrite sort_perm; apply split_dotless|rewrite sort_perm; by apply split_one_line|].
  apply sort_nonempty, split_nonempty.
Qed.

Lemma split_forall (P : N -> Prop) s : Forall P s -> Forall (Forall P) (split_char 46 s).
Proof.
  induction 1 as [|c s Hc Hs IH]; cbn; [by repeat constructor|]. destruct (c =? 46)%N; [by constructor; [constructor|]|].
  destruct (split_char 46 s) as [|w ws]; [by repeat constructor|]. inversion IH; subst. by repeat constructor.
Qed.

Lemma plain_names a : plain a -> forallb plainb (namespaces_of (Some a)) = true.
Proof.
  intros Ha. apply forallb_forall. intros n Hn%list_elem_of_In. unfold namespaces_of in Hn. rewrite sort_perm in Hn. cbn in Hn.
  pose proof (split_forall _ a Ha) as Hs. rewrite Forall_forall in Hs. apply forallb_forall.
  intros c Hc%list_elem_of_In. apply Hs in Hn. rewrite Forall_forall in Hn. by rewrite (Hn c Hc).
Qed.

Lemma namespace_sorted `{RegExps} a ws :
  plain a -> bound_words ws -> sorted ws ->
  namespace_re (namespaces_of (Some a)) (join [46%N] ws) = true <-> split_char 46 a ⊆+ ws.
Proof.
  intros Ha Hws Hsort. unfold namespace_re. rewrite plain_names by done.
  unfold namespaces_of. cbn. rewrite namespace_sublist; [|..|done].
  - split; [intros Hs%sublist_submseteq; by rewrite sort_perm in Hs|].
    intros Hs. apply sorted_sublist; [apply sort_sorted|done|by rewrite sort_perm].
  - apply sort_nonempty, split_nonempty.
  - rewrite sort_perm. apply split_dotless.
Qed.

(** C21: for namespaces [a] in which no character has a meaning in a regular
    expression, and namespaces [b] without line ends, the comparison is
    inclusion: the regular expression made of the sorted names of [a] finds the
    sorted and joined names [b] of a bound event exactly when every name of [a]
    is one of [b], as often.  (The source does not escape the names, so with
    such characters it compares differently or throws.) *)
Theorem namespace_subset `{RegExps} (a b : jstr) :
  plain a -> one_line b ->
  namespace_re (namespaces_of (Some a)) (join [46%N] (namespaces_of (Some b))) = true
  <-> split_char 46 a ⊆+ split_char 46 b.
Proof.
  intros Ha Hb. rewrite namespace_sorted; [|done|by apply namespaces_bound|apply sort_sorted].
  unfold namespaces_of. cbn. by rewrite sort_perm.
Qed.

(** ** Simple selectors *)

(** The selector [tag#id.class], with its parts optional. *)
Definition simple (tag : jstr) (id cls : option jstr) : jstr :=
  tag ++ from_option (cons 35%N) [] id ++ from_option (cons 46%N) [] cls.

Definition name (w : jstr) : Prop := w <> [] /\ Forall (fun c => is_name c = true) w.
Definition part_ok (o : option jstr) : Prop := match o with Some w => name w | None => True end.

(** What the selector says. *)
Definition meets (elem : face) (tag : jstr) (id cls : option jstr) : Prop :=
  (tag = [] \/ to_lower (nodeName elem) = to_lower tag)
  /\ (forall w, id = Some w -> attr_id elem = Some w)
  /\ (forall w, cls = Some w -> exists c, attr_class elem = Some c /\ w ∈ words c).

Lemma span_app p w r :
  Forall (fun c => p c = true) w -> (forall c r', r = c :: r' -> p c = false) -> span p (w ++ r) = (w, r).
Proof.
  intros Hw Hr. induction Hw as [|c w Hc Hw IH]; cbn.
  - destruct r as [|c r]; cbn; [done|]. by rewrite (Hr c r).
  - by rewrite Hc, IH.
Qed.

Lemma marked_some x w r :
  name w -> (forall c r', r = c :: r' -> is_name c = false) -> marked x (x :: w ++ r) = (Some w, r).
Proof.
  intros [Hne Hw] Hr. cbn. rewrite N.eqb_refl, span_app by done. by destruct w.
Qed.

Lemma is_name_dot c r' (cls : option jstr) : from_option (cons 46%N) [] cls = c :: r' -> is_name c = false.
Proof. destruct cls; [|done]. by intros [= <- _]. Qed.

Lemma quickParse_simple tag id cls :
  Forall (fun c => is_word c = true) tag -> part_ok id -> part_ok cls ->
  quickParse (simple tag id cls) = Some (Quick (to_lower tag) id cls).
Proof.
  intros Ht Hi Hc. unfold quickParse, simple. rewrite span_app; [|done|].
  2: { intros c r. destruct id; cbn; [by intros [= <- _]|]. destruct cls; [by intros [= <- _]|done]. }
  assert (marked 35 (from_option (cons 35%N) [] id ++ from_option (cons 46%N) [] cls)
    = (id, from_option (cons 46%N) [] cls)) as ->.
  { destruct id as [w|]; [|by destruct cls]. apply marked_some; [done|]. intros c r. apply is_name_dot. }
  destruct cls as [w|]; [|done]. cbn [from_option option_rect]. rewrite <- (app_nil_r w) at 1.
  change (46%N :: w ++ []) with (46%N :: (w ++ [])). by rewrite marked_some.
Qed.

Lemma name_word w : name w -> word w.
Proof.
  intros [Hne Hw]. split; [done|]. eapply Forall_impl; [exact Hw|]. intros c. cbn.
  unfold is_name, is_word, is_digit, is_upper, is_lower, is_space. intros Hc. apply not_true_iff_false. intros Hs.
  rewrite ?orb_true_iff, ?andb_true_iff, ?N.leb_le, ?N.eqb_eq in *. lia.
Qed.

(** The quick test of a simple selector is exact: [tag#id.class] is parsed, and
    [quickIs] holds of an element exactly when it has the tag in any case, the
    identifier, and the class among its classes. *)
Theorem quick_selector elem tag id cls :
  Forall (fun c => is_word c = true) tag -> part_ok id -> part_ok cls ->
  (attr_class elem = None -> cls <> Some (js "undefined")) ->
  exists q, quickParse (simple tag id cls) = Some q /\ (quickIs elem q = true <-> meets elem tag id cls).
Proof.
  intros Ht Hi Hc Hu. eexists. split; [by apply quickParse_simple|].
  unfold quickIs, meets. cbn. rewrite !andb_true_iff, orb_true_iff, !bool_decide_eq_true, <- (assoc and).
  assert (to_lower tag = [] <-> tag = []) as -> by (by destruct tag).
  f_equiv. f_equiv.
  - destruct id as [w|]; [|done]. rewrite bool_decide_eq_true. naive_solver.
  - destruct cls as [w|]; [|done]. rewrite bool_decide_eq_true, classRE_found by by apply name_word.
    destruct (attr_class elem) as [c|]; cbn; [naive_solver|].
    split; [|naive_solver]. intros H. exfalso. apply Hu; [done|]. f_equal.
    change (words (js "undefined")) with [js "undefined"] in H. by apply list_elem_of_singleton in H.
Qed.

Module Sample.

#[local] Instance no_others : RegExps := fun _ _ => false.

Lemma namespace_subset_witness :
  namespace_re (namespaces_of (Some (js "b.a"))) (join [46%N] (namespaces_of (Some (js "c.a.b")))) = true
  <-> split_char 46 (js "b.a") ⊆+ split_char 46 (js "c.a.b").
Proof. apply (namespace_subset (js "b.a") (js "c.a.b")); repeat constructor. Defined.

Lemma quick_selector_witness :
  exists q, quickParse (js "Li#x1.on") = Some q
    /\ (quickIs (Face (js "LI") (Some (js "x1")) (Some (js "tab on"))) q = true
        <-> meets (Face (js "LI") (Some (js "x1")) (Some (js "tab on"))) (js "Li") (Some (js "x1")) (Some (js "on"))).
Proof.
  apply (quick_selector (Face (js "LI") (Some (js "x1")) (Some (js "tab on")))
    (js "Li") (Some (js "x1")) (Some (js "on"))); try done; repeat (constructor || done).
Defined.

(** A shorthand that is not the first word is glued to the word before it. *)
Example hover_after_a_word :
  type_words (js "click hover") = [js "clickmouseenter"; js "mouseleave"].
Proof. reflexivity. Qed.

(** Only the first [hover] is replaced. *)
Example second_hover_stays :
  type_words (js "hover.a hover.b") = [js "mouseenter.a"; js "mouseleave.a"; js "hover.b"].
Proof. reflexivity. Qed.

(** An element without classes passes for one of the class [undefined]. *)
Example undefined_class :
  (fun q => quickIs (Face (js "DIV") None None) q) <$> quickParse (js ".undefined") = Some true.
Proof. reflexivity. Qed.

End Sample.
