(* ===== verification/JqHandlers.v ===== *)
(** * The handlers of an element (jquery-1.7.2.js)

    [jQuery.event.add] and [jQuery.event.remove] with the methods [on], [one],
    [off] and their older names: for every element a list of handlers per type,
    those with a selector in front, and one listener of the browser per type.
    Types can be mapped to others ([mouseenter], and [focus] with a selector)
    or have hooks of their own ([focusin], [beforeunload], [ready]).

    The theorem of the file is a refinement: whatever a page binds and unbinds,
    the lists are those of a table that only knows two rules, binding appends
    and unbinding filters; and the lists, the listeners, the numbers of the
    functions and the counters stay in step.  Texts of types have words without
    white space other than the space, without the shorthand [hover] in them,
    and with namespaces that are plain in a regular expression. *)

From stdpp Require Import base gmap list sorting strings.
From Stdlib Require Import NArith.
From S2P Require Import Prelude JsString ZeptoCore JqNames.

(** ** The page *)

(** What does not change of a page: the type of a node, which objects are
    windows, which ones the data module accepts and which ones have
    [addEventListener]; [jQuery.support.focusinBubbles]; and what regular
    expressions of names that are not plain find. *)
Class Page := {
  nodeType : nat -> Z;
  isWindow : nat -> bool;
  acceptData : nat -> bool;
  has_listeners : nat -> bool;
  focusinBubbles : bool;
  page_re :: RegExps;
}.

(** Functions: those of the page, [returnFalse], and the one [on] makes for
    [one], which has the number of its original. *)
Inductive fn := Fn (n : nat) | ReturnFalse | One (f : fn).

#[export] Instance fn_eq_dec : EqDecision fn.
Proof. solve_decision. Defined.

(** The function object that carries the number: [None] is [returnFalse]. *)
Fixpoint original (f : fn) : option nat :=
  match f with Fn n => Some n | ReturnFalse => None | One g => original g end.

(** An entry of a list of handlers; a selector that is not truthy is [None]. *)
Record hobj := HObj {
  h_type : option jstr;
  h_origType : option jstr;
  h_data : jsval;
  h_handler : fn;
  h_guid : nat;
  h_selector : option jstr;
  h_quick : option quick;
  h_namespace : jstr;
}.

(** An array of handlers with its property [delegateCount]. *)
Record hlist := HList { objs : list hobj; delegateCount : Z }.

(** The properties [events] and [handle] of the data of an element. *)
Record edata := EData { events : gmap jstr hlist; handle : nat }.

(** The state: numbers of functions, data of elements, the functions
    [eventHandle] with their property [elem], the listeners of the browser
    (element, type, function), [jQuery.event.global], the counters and the
    capturing listeners of the document for [focusin] and [focusout], and
    [onbeforeunload]. *)
Record store := Store {
  guids : gmap (option nat) nat;
  guid : nat;
  data : gmap nat edata;
  handles : list (option nat);
  listeners : gset (nat * jstr * nat);
  global : gset jstr;
  attaches : gmap jstr Z;
  captures : gset jstr;
  onbeforeunload : gmap nat nat;
}.

#[export] Instance hlist_eta : Eta hlist := fun r => HList (objs r) (delegateCount r).
#[export] Instance edata_eta : Eta edata := fun r => EData (events r) (handle r).
#[export] Instance store_eta : Eta store :=
  fun r => Store (guids r) (guid r) (data r) (handles r) (listeners r) (global r) (attaches r)
    (captures r) (onbeforeunload r).

Definition init : store := Store ∅ 1 ∅ [] ∅ ∅ ∅ ∅ ∅.

(** ** Special events *)

Inductive hook := Ready | BeforeUnload | Attach (orig : jstr).

Record special := Special {
  setup : option hook;
  teardown : option hook;
  delegateType : option jstr;
  bindType : option jstr;
  noBubble : bool;
  hover : bool;                     (* the [handle] of [mouseenter] and [mouseleave] *)
}.

Definition no_special : special := Special None None None None false false.
Definition hooked (h : hook) : special := Special (Some h) (Some h) None None false false.
Definition mapped (fix_ : jstr) : special := Special None None (Some fix_) (Some fix_) false true.

Section Page.
Context `{Page}.

(** [jQuery.event.special[type]]; [ready] has no [teardown]. *)
Definition special_of (type : jstr) : special :=
  if decide (type = js "ready") then Special (Some Ready) None None None false false
  else if decide (type = js "load") then Special None None None None true false
  else if decide (type = js "focus") then Special None None (Some (js "focusin")) None false false
  else if decide (type = js "blur") then Special None None (Some (js "focusout")) None false false
  else if decide (type = js "beforeunload") then hooked BeforeUnload
  else if decide (type = js "mouseenter") then mapped (js "mouseover")
  else if decide (type = js "mouseleave") then mapped (js "mouseout")
  else if decide (type = js "focusin") then
    if focusinBubbles then no_special else hooked (Attach (js "focus"))
  else if decide (type = js "focusout") then
    if focusinBubbles then no_special else hooked (Attach (js "blur"))
  else no_special.

(** A type as the name of a property. *)
Definition key (type : option jstr) : jstr := default (js "undefined") type.

(** [(selector ? special.delegateType : special.bindType) || type]. *)
Definition real_type (selector : option jstr) (type : option jstr) : option jstr :=
  let sp := special_of (key type) in
  match (if selector is Some _ then delegateType sp else bindType sp) with Some t => Some t | None => type end.

(** [special.setup.call(elem, data, namespaces, eventHandle)], which never
    returns [false]; [bindReady] is not part of the state. *)
Definition run_setup (h : hook) (el : nat) (type : jstr) (hd : nat) (s : store) : store :=
  match h with
  | Ready => s
  | BeforeUnload => if isWindow el then s <| onbeforeunload ::= <[el := hd]> |> else s
  | Attach orig =>
      let n := default 0 (attaches s !! type) in
      let s := s <| attaches ::= <[type := n + 1]> |> in
      if n =? 0 then s <| captures ::= fun c => {[orig]} ∪ c |> else s
  end.

(** [special.teardown.call(elem, namespaces)]: the second argument of the
    function of [beforeunload] is missing, so its test fails. *)
Definition run_teardown (h : hook) (type : jstr) (s : store) : store :=
  match h with
  | Ready | BeforeUnload => s
  | Attach orig =>
      let n := default 0 (attaches s !! type) - 1 in
      let s := s <| attaches ::= <[type := n]> |> in
      if n =? 0 then s <| captures ::= fun c => c ∖ {[orig]} |> else s
  end.

(** ** [jQuery.event.add] *)

Definition give_guid (f : fn) (s : store) : store :=
  match guids s !! original f with
  | Some _ => s
  | None => s <| guids ::= <[original f := guid s]> |> <| guid ::= S |>
  end.

Definition guid_of (f : fn) (s : store) : option nat := guids s !! original f.

(** [elemData.events] and [elemData.handle]. *)
Definition init_data (el : nat) (s : store) : store :=
  match data s !! el with
  | Some _ => s
  | None => s <| data ::= <[el := EData ∅ (length (handles s))]> |>
              <| handles ::= fun l => l ++ [Some el] |>
  end.

(** The first handler of a type: the hook or the listener of the browser. *)
Definition attach (el : nat) (type : jstr) (hd : nat) (s : store) : store :=
  match setup (special_of type) with
  | Some h => run_setup h el type hd s
  | None => if has_listeners el then s <| listeners ::= fun l => {[(el, type, hd)]} ∪ l |> else s
  end.

(** [handlers.splice(handlers.delegateCount++, 0, handleObj)] or
    [handlers.push(handleObj)]. *)
Definition put (h : hobj) (l : hlist) : hlist :=
  if h_selector h is Some _ then
    let n := Z.to_nat (delegateCount l) in
    HList (take n (objs l) ++ h :: drop n (objs l)) (delegateCount l + 1)
  else l <| objs ::= fun o => o ++ [h] |>.

Definition add_word (el : nat) (f : fn) (d : jsval) (selector : option jstr) (s : store) (w : jstr) : store :=
  let '(t, ns) := rtypenamespace w in
  let namespaces := namespaces_of ns in
  let type := real_type selector t in
  let handleObj :=
    HObj type t d f (default 0%nat (guid_of f s)) selector (selector ≫= quickParse)
      (join [46%N] namespaces) in
  match data s !! el with
  | Some elemData =>
      let s := match events elemData !! key type with
               | Some _ => s
               | None => attach el (key type) (handle elemData) s
               end in
      let handlers := default (HList [] 0) (events elemData !! key type) in
      s <| data ::= <[el := elemData <| events ::= <[key type := put handleObj handlers]> |>]> |>
        <| global ::= fun g => {[key type]} ∪ g |>
  | None => s
  end.

Definition add (el : nat) (types : jstr) (f : fn) (d : jsval) (selector : option jstr) (s : store) : store :=
  if (nodeType el =? 3) || (nodeType el =? 8) || bool_decide (types = []) || negb (acceptData el) then s
  else foldl (add_word el f d selector) (init_data el (give_guid f s)) (type_words types).

(** ** [jQuery.event.remove] *)

(** The test of the loop; [all] is [mappedTypes]. *)
Definition matches (all : bool) (origType : jstr) (ns : option jstr) (handler : option fn)
    (selector : option jstr) (s : store) (h : hobj) : bool :=
  (all || bool_decide (h_origType h = Some origType))
  && match handler with Some f => bool_decide (guid_of f s = Some (h_guid h)) | None => true end
  && match ns with Some n => namespace_re (namespaces_of (Some n)) (h_namespace h) | None => true end
  && match selector with
     | Some w => bool_decide (h_selector h = Some w)
                 || (bool_decide (w = js "**") && bool_decide (is_Some (h_selector h)))
     | None => true
     end.

(** The loop: what stays, and the property [delegateCount]. *)
Fixpoint splice (p : hobj -> bool) (l : list hobj) (count : Z) : hlist :=
  match l with
  | [] => HList [] count
  | h :: l' =>
      if p h then splice p l' (if h_selector h is Some _ then count - 1 else count)
      else (splice p l' count) <| objs ::= cons h |>
  end.

(** The hook or the listener of the last handler; the hook is the one of the
    type that was asked for. *)
Definition detach (el : nat) (asked type : jstr) (hd : nat) (s : store) : store :=
  match teardown (special_of asked) with
  | Some h => run_teardown h type s
  | None => if has_listeners el then s <| listeners ::= fun l => l ∖ {[(el, type, hd)]} |> else s
  end.

Definition remove_type (el : nat) (all : bool) (origType : jstr) (ns : option jstr) (handler : option fn)
    (selector : option jstr) (s : store) : store :=
  let type := key (real_type selector (Some origType)) in
  match data s !! el with
  | Some elemData =>
      match events elemData !! type with
      | Some eventType =>
          let l := splice (matches all origType ns handler selector s) (objs eventType) (delegateCount eventType) in
          if bool_decide (objs l = []) && negb (bool_decide (objs eventType = [])) then
            (detach el origType type (handle elemData) s)
              <| data ::= <[el := elemData <| events ::= delete type |>]> |>
          else s <| data ::= <[el := elemData <| events ::= <[type := l]> |>]> |>
      | None => s
      end
  | None => s
  end.

(** The end of [remove]: data without events are given up. *)
Definition clean_data (el : nat) (s : store) : store :=
  match data s !! el with
  | Some elemData =>
      if bool_decide (events elemData = ∅) then
        s <| handles ::= <[handle elemData := None]> |> <| data ::= delete el |>
      else s
  | None => s
  end.

Definition type_names (el : nat) (s : store) : list jstr :=
  match data s !! el with Some d => (map_to_list (events d)).*1 | None => [] end.

Fixpoint foldM {A B} (f : A -> B -> option A) (a : A) (l : list B) : option A :=
  match l with
  | [] => Some a
  | b :: l' => a' ← f a b; foldM f a' l'
  end.

(** [None]: the calls nest deeper than [fuel]. *)
Fixpoint remove (fuel : nat) (el : nat) (types : jstr) (handler : option fn) (selector : option jstr)
    (all : bool) (s : store) : option store :=
  match fuel with
  | O => None
  | S fuel' =>
      match data s !! el with
      | None => Some s
      | Some _ =>
          clean_data el <$>
            foldM (fun s w =>
              match rtypenamespace w with
              | (Some type, ns) => Some (remove_type el all type ns handler selector s)
              | (None, _) =>
                  foldM (fun s type => remove fuel' el (type ++ w) handler selector true s) s (type_names el s)
              end) s (type_words types)
      end
  end.

(** ** The methods *)

(** The arguments of a call.  A selector is a string, [null] or [undefined]. *)
Inductive arg := AUndef | ANull | AFalse | AStr (s : jstr) | AFun (f : fn) | AVal (v : jsval).

Definition nullish (a : arg) : bool := match a with AUndef | ANull => true | _ => false end.
Definition is_string (a : arg) : bool := match a with AStr _ => true | _ => false end.

Definition arg_truthy (a : arg) : bool :=
  match a with
  | AUndef | ANull | AFalse => false
  | AStr w => bool_decide (w <> [])
  | AFun _ => true
  | AVal v => truthy v
  end.

Definition arg_value (a : arg) : jsval :=
  match a with
  | AUndef | ANull => VUndef | AFalse => VBool false | AStr w => VStr w | AVal v => v
  | AFun _ => VFun (js "function") VUndef
  end.

Definition selector_of (a : arg) : option jstr := match a with AStr w => truthy_str w | _ => None end.

(** The beginning of [on]: selector, data and function. *)
Definition on_args (selector d f : arg) : arg * arg * arg :=
  if nullish d && nullish f then (AUndef, AUndef, selector)
  else if nullish f then
    if is_string selector then (selector, AUndef, d) else (AUndef, selector, d)
  else (selector, d, f).

(** A string of types, or an object from types to functions. *)
Inductive types_arg := TStr (types : jstr) | TMap (l : list (jstr * arg)).

(** [None]: the handler is truthy and no function, which fails only when an
    event comes. *)
Definition on_types (els : list nat) (types : jstr) (selector d f : arg) (one : bool) (s : store) : option store :=
  let '(selector, d, f) := on_args selector d f in
  let bind_all f s :=
    let '(f, s) := if one then (One f, give_guid f s) else (f, s) in
    Some (foldl (fun s el => add el types f (arg_value d) (selector_of selector) s) s els) in
  match f with
  | AFalse => bind_all ReturnFalse s
  | AFun g => bind_all g s
  | _ => if arg_truthy f then None else Some s
  end.

Definition on (els : list nat) (types : types_arg) (selector d f : arg) (one : bool) (s : store) : option store :=
  match types with
  | TStr types => on_types els types selector d f one s
  | TMap l =>
      let '(selector, d) :=
        if is_string selector then (selector, d) else (AUndef, if arg_truthy d then d else selector) in
      foldM (fun s '(type, f) => on_types els type selector d f one s) s l
  end.

Definition off_types (els : list nat) (types : jstr) (selector f : arg) (s : store) : option store :=
  let '(selector, f) := match selector with AFalse | AFun _ => (AUndef, selector) | _ => (selector, f) end in
  let remove_all f := foldM (fun s el => remove 2 el types f (selector_of selector) false s) s els in
  match f with
  | AFalse => remove_all (Some ReturnFalse)
  | AFun g => remove_all (Some g)
  | _ => if arg_truthy f then Some s else remove_all None
  end.

Definition off (els : list nat) (types : types_arg) (selector f : arg) (s : store) : option store :=
  match types with
  | TStr types => off_types els types selector f s
  | TMap l => foldM (fun s '(type, f) => off_types els type selector f s) s l
  end.

Definition bind (els : list nat) (types : types_arg) (d f : arg) (s : store) := on els types ANull d f false s.
Definition unbind (els : list nat) (types : types_arg) (f : arg) (s : store) := off els types ANull f s.

(** [live] and [die] work on the context of the collection with its selector. *)
Definition live (context : nat) (sel : jstr) (types : types_arg) (d f : arg) (s : store) :=
  on [context] types (AStr sel) d f false s.
Definition die (context : nat) (sel : jstr) (types : types_arg) (f : arg) (s : store) :=
  off [context] types (AStr (if decide (sel = []) then js "**" else sel)) f s.

Definition delegate (els : list nat) (sel : arg) (types : types_arg) (d f : arg) (s : store) :=
  on els types sel d f false s.

(** [None] for [types]: called with one argument, which is a namespace. *)
Definition undelegate (els : list nat) (sel : arg) (types : option types_arg) (f : arg) (s : store) :=
  match types with
  | None => off els (match sel with AStr w => TStr w | _ => TStr [] end) (AStr (js "**")) AUndef s
  | Some types => off els types sel f s
  end.

(** [off(event)]: the entry that is being run is removed from the element. *)
Definition event_text (h : hobj) : jstr :=
  if decide (h_namespace h = []) then default [] (h_origType h)
  else key (h_origType h) ++ 46%N :: h_namespace h.

Definition off_event (delegateTarget : nat) (h : hobj) (s : store) : option store :=
  off_types [delegateTarget] (event_text h)
    (match h_selector h with Some w => AStr w | None => AUndef end) (AFun (h_handler h)) s.

Inductive op :=
| OOn (els : list nat) (types : types_arg) (selector d f : arg) (one : bool)
| OOff (els : list nat) (types : types_arg) (selector f : arg).

Definition run_op (s : store) (o : op) : option store :=
  match o with
  | OOn els types selector d f one => on els types selector d f one s
  | OOff els types selector f => off els types selector f s
  end.

Definition run_ops (s : store) (l : list op) : option store := foldM run_op s l.

(** ** What the lists mean *)

(** A binding as the page gave it. *)
Record binding := Binding {
  b_type : option jstr;
  b_names : list jstr;             (* the namespaces in order *)
  b_fn : fn;
  b_data : jsval;
  b_selector : option jstr;
}.

(** For every element and type: the bindings with a selector, those without. *)
Abbreviation table := (nat -> jstr -> list binding * list binding).

Definition spec_word (el : nat) (f : fn) (d : jsval) (selector : option jstr) (T : table) (w : jstr) : table :=
  let '(t, ns) := rtypenamespace w in
  let b := Binding t (namespaces_of ns) f d selector in
  fun el' k =>
    if decide (el' = el /\ k = key (real_type selector t)) then
      if selector is Some _ then ((T el' k).1 ++ [b], (T el' k).2) else ((T el' k).1, (T el' k).2 ++ [b])
    else T el' k.

Definition accepts (el : nat) : bool := negb ((nodeType el =? 3) || (nodeType el =? 8) || negb (acceptData el)).

(** Binding appends. *)
Definition spec_add (el : nat) (types : jstr) (f : fn) (d : jsval) (selector : option jstr) (T : table) : table :=
  if accepts el && negb (bool_decide (types = [])) then foldl (spec_word el f d selector) T (type_words types)
  else T.

(** Which bindings a word of [off] means: of its type, or of every type when
    it has none; with all its namespaces; of the function, whether bound with
    [on] or [one]; of the selector, or of any selector for [**]. *)
Definition meant (ns : option jstr) (handler : option fn) (selector : option jstr) (b : binding) : bool :=
  match handler with Some f => bool_decide (original f = original (b_fn b)) | None => true end
  && match ns with Some n => bool_decide (split_char 46 n ⊆+ b_names b) | None => true end
  && match selector with
     | Some w => bool_decide (b_selector b = Some w)
                 || (bool_decide (w = js "**") && bool_decide (is_Some (b_selector b)))
     | None => true
     end.

Definition word_means (handler : option fn) (selector : option jstr) (k w : jstr) (b : binding) : bool :=
  match rtypenamespace w with
  | (Some t, ns) => bool_decide (k = key (real_type selector (Some t))) && bool_decide (b_type b = Some t)
                    && meant ns handler selector b
  | (None, ns) => meant ns handler selector b
  end.

Definition without (p : binding -> bool) (l : list binding * list binding) : list binding * list binding :=
  (List.filter (fun b => negb (p b)) l.1, List.filter (fun b => negb (p b)) l.2).

(** Unbinding filters. *)
Definition spec_remove (el : nat) (types : jstr) (handler : option fn) (selector : option jstr) (T : table) : table :=
  fun el' k =>
    if decide (el' = el) then
      without (fun b => existsb (fun w => word_means handler selector k w b) (type_words types)) (T el' k)
    else T el' k.

(** The table of a store. *)
Definition binding_of (h : hobj) : binding :=
  Binding (h_origType h) (split_char 46 (h_namespace h)) (h_handler h) (h_data h) (h_selector h).

Definition lists_of (l : hlist) : list binding * list binding :=
  let n := Z.to_nat (delegateCount l) in (binding_of <$> take n (objs l), binding_of <$> drop n (objs l)).

Definition table_of (s : store) : table :=
  fun el k => from_option lists_of ([], []) (data s !! el ≫= fun d => events d !! k).

(** ** In step *)

(** White space, and what means something in a regular expression. *)
Definition bad_char (c : N) : bool := is_space c || re_meta c.

(** A word of a list of types: without such characters, not beginning with
    [hover], with namespaces after a dot. *)
Definition ok_word (w : jstr) : bool :=
  forallb (fun c => negb (bad_char c)) w && negb (starts_with (js "hover") w)
  && match to_dot w with (_, Some []) => false | _ => true end.

Definition ok_types (types : jstr) : Prop := Forall (fun w => ok_word w = true) (type_words types).

Definition ok_key (k : jstr) : Prop := k <> [] /\ dotless k /\ ok_word k = true.

Record wf_obj (g : gmap (option nat) nat) (k : jstr) (h : hobj) : Prop := {
  wo_guid : g !! original (h_handler h) = Some (h_guid h);
  wo_type : h_type h = real_type (h_selector h) (h_origType h);
  wo_key : k = key (h_type h);
  wo_quick : h_quick h = (h_selector h ≫= quickParse);
  wo_selector : h_selector h <> Some [];
  wo_text : ok_word (event_text h) = true;
  wo_orig : forall t, h_origType h = Some t -> ok_key t;
  wo_names : exists names, h_namespace h = join [46%N] names /\ bound_words names /\ sorted names;
}.

(** The entries with a selector are the first [delegateCount] ones. *)
Record in_order (g : gmap (option nat) nat) (k : jstr) (l : hlist) : Prop := {
  wl_count : 0 <= delegateCount l <= Z.of_nat (length (objs l));
  wl_dels : Forall (fun h => is_Some (h_selector h)) (take (Z.to_nat (delegateCount l)) (objs l));
  wl_dirs : Forall (fun h => h_selector h = None) (drop (Z.to_nat (delegateCount l)) (objs l));
  wl_objs : Forall (wf_obj g k) (objs l);
}.

Definition wf_list (g : gmap (option nat) nat) (k : jstr) (l : hlist) : Prop := in_order g k l /\ objs l <> [].

(** The elements that have handlers of a type. *)
Definition users (k : jstr) (s : store) : gset nat :=
  dom (filter (fun p => is_Some (events p.2 !! k)) (data s)).

Record wf0 (s : store) : Prop := {
  w_lists : forall el d, data s !! el = Some d ->
    handles s !! handle d = Some (Some el)
    /\ forall k l, events d !! k = Some l -> ok_key k /\ wf_list (guids s) k l;
  w_listeners : forall el k hd, (el, k, hd) ∈ listeners s <->
    exists d, data s !! el = Some d /\ handle d = hd /\ is_Some (events d !! k)
      /\ setup (special_of k) = None /\ has_listeners el = true;
  w_guids : forall a b n, guids s !! a = Some n -> guids s !! b = Some n -> a = b;
  w_guid : (0 < guid s)%nat /\ forall a n, guids s !! a = Some n -> (0 < n < guid s)%nat;
  w_attach : forall k orig, setup (special_of k) = Some (Attach orig) ->
    Z.of_nat (size (users k s)) <= default 0 (attaches s !! k)
    /\ (orig ∈ captures s <-> 0 < default 0 (attaches s !! k));
}.

(** No element has data without events. *)
Definition wf (s : store) : Prop := wf0 s /\ forall el d, data s !! el = Some d -> events d <> ∅.

(** *** Special types *)

Ltac special_cases :=
  unfold special_of, hooked, mapped, no_special in *;
  repeat (case_decide; subst; cbn in *; try done); try (destruct focusinBubbles; cbn in *; try done).

Lemma special_hook k orig : setup (special_of k) = Some (Attach orig) <-> teardown (special_of k) = Some (Attach orig).
Proof. special_cases. Qed.

Lemma special_attach k orig :
  setup (special_of k) = Some (Attach orig) ->
  (k = js "focusin" /\ orig = js "focus") \/ (k = js "focusout" /\ orig = js "blur").
Proof. special_cases; intros; simplify_eq; auto. Qed.

Lemma special_orig k k' orig :
  setup (special_of k) = Some (Attach orig) -> setup (special_of k') = Some (Attach orig) -> k = k'.
Proof. intros [[-> ->]|[-> ->]]%special_attach [[-> E]|[-> E]]%special_attach; done. Qed.

Lemma special_plain k : setup (special_of k) = None -> teardown (special_of k) = None.
Proof. special_cases. Qed.

Lemma real_type_some sel t : is_Some (real_type sel (Some t)).
Proof. unfold real_type. destruct sel; [destruct (delegateType _)|destruct (bindType _)]; eauto. Qed.

(** A mapped type has no hooks of its own. *)
Lemma real_type_hook sel t : real_type sel (Some t) <> Some t -> teardown (special_of t) = None.
Proof. unfold real_type. destruct sel; special_cases. Qed.

Lemma real_type_key sel t : ok_key t -> ok_key (key (real_type sel (Some t))).
Proof.
  intros Ht. unfold real_type. destruct sel; special_cases; unfold ok_key; vm_compute; split_and!; try done;
    intros Hin; repeat (apply elem_of_cons in Hin as [?|Hin]; [done|]); by apply elem_of_nil in Hin.
Qed.

(** *** Changes of one list *)

Lemma elem_of_users el k s :
  el ∈ users k s <-> exists d, data s !! el = Some d /\ is_Some (events d !! k).
Proof.
  unfold users. rewrite elem_of_dom. split.
  - intros [d [Hd Hk]%map_lookup_filter_Some]. eauto.
  - intros (d & Hd & Hk). exists d. by apply map_lookup_filter_Some.
Qed.

Definition with_list (k : jstr) (o : option hlist) (d : edata) : edata :=
  d <| events ::= partial_alter (fun _ => o) k |>.

Lemma with_list_events k o d k' :
  events (with_list k o d) !! k' = if decide (k' = k) then o else events d !! k'.
Proof.
  cbn. case_decide; subst; [apply lookup_partial_alter_eq|by apply lookup_partial_alter_ne].
Qed.

(** [s'] is [s] with the list [o] for the type [k] of [el]. *)
Record change (s s' : store) (el : nat) (d : edata) (k : jstr) (o : option hlist) : Prop := {
  c_old : data s !! el = Some d;
  c_new : data s' = <[el := with_list k o d]> (data s);
  c_guids : guids s' = guids s;
  c_guid : guid s' = guid s;
  c_handles : handles s' = handles s;
}.

Lemma change_data s s' el d k o e d' :
  change s s' el d k o -> data s' !! e = Some d' ->
  (e = el /\ d' = with_list k o d) \/ (e <> el /\ data s !! e = Some d').
Proof.
  intros C. rewrite (c_new _ _ _ _ _ _ C). destruct (decide (e = el)) as [->|Hne].
  - rewrite lookup_insert_eq. intros [= <-]. by left.
  - rewrite lookup_insert_ne by done. by right.
Qed.

Lemma change_lookup s s' el d k o e k' :
  change s s' el d k o ->
  (data s' !! e ≫= fun d => events d !! k')
  = if decide (e = el /\ k' = k) then o else (data s !! e ≫= fun d => events d !! k').
Proof.
  intros C. rewrite (c_new _ _ _ _ _ _ C). destruct (decide (e = el)) as [->|Hne].
  - rewrite lookup_insert_eq, (c_old _ _ _ _ _ _ C). cbn [mbind option_bind].
    rewrite with_list_events. repeat case_decide; naive_solver.
  - rewrite lookup_insert_ne, decide_False by naive_solver. done.
Qed.

Lemma has_list s e k : (exists d, data s !! e = Some d /\ is_Some (events d !! k))
  <-> is_Some (data s !! e ≫= fun d => events d !! k).
Proof. destruct (data s !! e) as [d|]; cbn; naive_solver. Qed.

Lemma change_users s s' el d k o k' :
  change s s' el d k o ->
  users k' s' = if decide (k' = k) then if o is Some _ then {[el]} ∪ users k s else users k s ∖ {[el]}
                else users k' s.
Proof.
  intros C. apply set_eq. intros e. rewrite elem_of_users, has_list, (change_lookup _ _ _ _ _ _ _ _ C).
  case_decide as Hk.
  - destruct Hk as [-> ->]. rewrite decide_True by done. destruct o; [|rewrite elem_of_difference]; split; set_solver.
  - rewrite <- has_list, <- elem_of_users. case_decide; [subst|done].
    assert (e <> el) by naive_solver. destruct o; set_solver.
Qed.

(** The counter of a type with a capturing listener covers its elements. *)
Definition covered (k orig : jstr) (s : store) : Prop :=
  Z.of_nat (size (users k s)) <= default 0 (attaches s !! k)
  /\ (orig ∈ captures s <-> 0 < default 0 (attaches s !! k)).

Lemma wf0_change s s' el d k o :
  wf0 s -> change s s' el d k o -> ok_key k ->
  (forall l, o = Some l -> wf_list (guids s) k l) ->
  (forall e k' hd, (e, k', hd) ∈ listeners s' <->
    if decide (e = el /\ k' = k) then
      hd = handle d /\ is_Some o /\ setup (special_of k) = None /\ has_listeners el = true
    else (e, k', hd) ∈ listeners s) ->
  (forall orig, setup (special_of k) = Some (Attach orig) -> covered k orig s') ->
  (forall k' orig, k' <> k -> setup (special_of k') = Some (Attach orig) ->
    attaches s' !! k' = attaches s !! k' /\ (orig ∈ captures s' <-> orig ∈ captures s)) ->
  wf0 s'.
Proof.
  intros W C Hk Hl HL HA HA'. split.
  - intros e d' [[-> ->]|[Hne Hd]]%(change_data _ _ _ _ _ _ _ _ C); rewrite (c_handles _ _ _ _ _ _ C), (c_guids _ _ _ _ _ _ C).
    + destruct (w_lists _ W el d (c_old _ _ _ _ _ _ C)) as [Hh Hls]. split; [done|].
      intros k' l. rewrite with_list_events. case_decide; subst; eauto.
    + by apply (w_lists _ W).
  - intros e k' hd. rewrite HL. case_decide as Hd.
    + destruct Hd as [-> ->]. rewrite (c_new _ _ _ _ _ _ C). setoid_rewrite lookup_insert_eq. split.
      * intros (-> & Ho & Hs & Hh). eexists. split; [done|]. rewrite with_list_events, decide_True by done. done.
      * intros (? & [= <-] & <- & Ho & Hs & Hh). rewrite with_list_events, decide_True in Ho by done. done.
    + rewrite (w_listeners _ W). rewrite (c_new _ _ _ _ _ _ C). destruct (decide (e = el)) as [->|Hne].
      * setoid_rewrite lookup_insert_eq. assert (k' <> k) by naive_solver. split.
        -- intros (? & Hd' & <- & Ho & Hs & Hh). rewrite (c_old _ _ _ _ _ _ C) in Hd'. simplify_eq.
           eexists. split; [done|]. by rewrite with_list_events, decide_False.
        -- intros (? & [= <-] & <- & Ho & Hs & Hh). rewrite with_list_events, decide_False in Ho by done.
           exists d. split; [apply C|done].
      * by rewrite lookup_insert_ne.
  - rewrite (c_guids _ _ _ _ _ _ C). apply W.
  - rewrite (c_guids _ _ _ _ _ _ C), (c_guid _ _ _ _ _ _ C). apply W.
  - intros k' orig Ha. destruct (decide (k' = k)) as [->|Hne]; [by apply HA|].
    rewrite (change_users _ _ _ _ _ _ _ C), decide_False by done.
    destruct (HA' k' orig Hne Ha) as [-> ->]. by apply W.
Qed.

(** The fields a change of listeners and counters leaves alone. *)
Definition same_lists (s s' : store) : Prop :=
  data s' = data s /\ guids s' = guids s /\ guid s' = guid s /\ handles s' = handles s.

Lemma attach_same el k hd s : same_lists s (attach el k hd s).
Proof.
  unfold attach, run_setup. destruct (setup _) as [[]|]; [done|by destruct (isWindow el)| |by destruct (has_listeners el)].
  by destruct (_ =? 0).
Qed.

Lemma detach_same el asked k hd s : same_lists s (detach el asked k hd s).
Proof.
  unfold detach, run_teardown. destruct (teardown _) as [[]|]; [done|done| |by destruct (has_listeners el)].
  by destruct (_ =? 0).
Qed.

Lemma listed el k s d : wf0 s -> data s !! el = Some d -> forall hd,
  (el, k, hd) ∈ listeners s <->
  hd = handle d /\ is_Some (events d !! k) /\ setup (special_of k) = None /\ has_listeners el = true.
Proof. intros W Hd hd. rewrite (w_listeners _ W). split; [naive_solver|]. intros (-> & ?). eauto. Qed.

Lemma wf0_keep s el d k l :
  wf0 s -> data s !! el = Some d -> is_Some (events d !! k) -> ok_key k -> wf_list (guids s) k l ->
  wf0 (s <| data ::= <[el := with_list k (Some l) d]> |>).
Proof.
  intros W Hd Hs Hk Hl.
  assert (change s (s <| data ::= <[el := with_list k (Some l) d]> |>) el d k (Some l)) as C by by split.
  apply (wf0_change _ _ _ _ _ _ W C); [done|by intros ? [= <-]|..].
  - intros e k' hd. change (listeners _) with (listeners s) at 1. case_decide as E; [|done].
    destruct E as [-> ->]. rewrite (listed el k s d) by done. naive_solver.
  - intros orig Ha. unfold covered. rewrite (change_users _ _ _ _ _ _ _ C), decide_True by done.
    assert ({[el]} ∪ users k s = users k s) as ->.
    { assert (el ∈ users k s) by (apply elem_of_users; eauto). set_solver. }
    by apply (w_attach _ W).
  - done.
Qed.

Lemma wf0_attach s el d k l :
  wf0 s -> data s !! el = Some d -> events d !! k = None -> ok_key k -> wf_list (guids s) k l ->
  wf0 ((attach el k (handle d) s) <| data ::= <[el := with_list k (Some l) d]> |>).
Proof.
  intros W Hd Hn Hk Hl. destruct (attach_same el k (handle d) s) as (E1 & E2 & E3 & E4).
  assert (change s ((attach el k (handle d) s) <| data ::= <[el := with_list k (Some l) d]> |>) el d k (Some l)) as C.
  { split; cbn; try done. by rewrite E1. }
  assert (el ∉ users k s) as Hel.
  { rewrite elem_of_users. intros (d' & ? & Hs). simplify_eq. rewrite Hn in Hs. by destruct Hs. }
  apply (wf0_change _ _ _ _ _ _ W C); [done|by intros ? [= <-]|..].
  - intros e k' hd. cbn [listeners]. unfold attach. cbn.
    assert (forall hd, (el, k, hd) ∉ listeners s) as Hno.
    { intros h. rewrite (listed el k s d) by done. rewrite Hn. by intros (_ & [? ?] & _). }
    destruct (setup (special_of k)) as [h|] eqn:Es.
    + assert (listeners (run_setup h el k (handle d) s) = listeners s) as ->.
      { destruct h; cbn; [done|by destruct (isWindow el)|by destruct (_ =? 0)]. }
      case_decide as E; [destruct E as [-> ->]|done]. split; [by intros ?%Hno|naive_solver].
    + destruct (has_listeners el) eqn:Eh; cbn.
      * rewrite elem_of_union, elem_of_singleton. case_decide as E.
        -- destruct E as [-> ->]. split; [|naive_solver]. intros [[= ->]|Hin]; [naive_solver|by apply Hno in Hin].
        -- split; [|auto]. intros [[= -> -> _]|]; naive_solver.
      * case_decide as E; [destruct E as [-> ->]|done]. split; [by intros ?%Hno|naive_solver].
  - intros orig Ha. unfold covered. rewrite (change_users _ _ _ _ _ _ _ C), decide_True by done.
    destruct (w_attach _ W k orig Ha) as [Hsz Hcap]. cbn [attaches captures]. unfold attach. rewrite Ha. cbn.
    rewrite size_union, size_singleton by set_solver.
    destruct (Z.eqb_spec (default 0 (attaches s !! k)) 0) as [E|E]; cbn; rewrite lookup_insert_eq; cbn;
      (split; [lia|]); [rewrite elem_of_union, elem_of_singleton; split; [lia|auto]|].
    rewrite Hcap. lia.
  - intros k' orig Hne Ha. unfold attach. cbn. destruct (setup (special_of k)) as [[]|] eqn:Es; cbn;
      [done|by destruct (isWindow el)| |by destruct (has_listeners el)].
    destruct (Z.eqb_spec (default 0 (attaches s !! k)) 0) as [E|E]; cbn; rewrite lookup_insert_ne by done; (split; [done|]); [|done].
    rewrite elem_of_union, elem_of_singleton. split; [|auto]. intros [->|]; [|done].
    by destruct (Hne (special_orig k' k _ Ha Es)).
Qed.

Lemma wf0_detach s el d k asked :
  wf0 s -> data s !! el = Some d -> is_Some (events d !! k) -> ok_key k ->
  (asked = k \/ teardown (special_of asked) = None) ->
  wf0 ((detach el asked k (handle d) s) <| data ::= <[el := with_list k None d]> |>).
Proof.
  intros W Hd Hs Hk Hask. destruct (detach_same el asked k (handle d) s) as (E1 & E2 & E3 & E4).
  assert (change s ((detach el asked k (handle d) s) <| data ::= <[el := with_list k None d]> |>) el d k None) as C.
  { split; cbn; try done. by rewrite E1. }
  assert (el ∈ users k s) as Hel by (apply elem_of_users; eauto).
  apply (wf0_change _ _ _ _ _ _ W C); [done|done|..].
  - intros e k' hd. cbn [listeners]. unfold detach. cbn.
    destruct (teardown (special_of asked)) as [h|] eqn:Et.
    + assert (listeners (run_teardown h k s) = listeners s) as ->.
      { destruct h; cbn; [done|done|by destruct (_ =? 0)]. }
      case_decide as E; [destruct E as [-> ->]|done]. rewrite (listed el k s d) by done.
      destruct Hask as [-> |]; [|done]. split; [|naive_solver]. intros (_ & _ & Hset & _).
      apply special_plain in Hset. congruence.
    + destruct (has_listeners el) eqn:Eh; cbn.
      * rewrite elem_of_difference, elem_of_singleton. case_decide as E.
        -- destruct E as [-> ->]. rewrite (listed el k s d) by done. naive_solver.
        -- split; [naive_solver|]. intros Hin. split; [done|]. intros [= -> -> _]. naive_solver.
      * case_decide as E; [destruct E as [-> ->]|done]. rewrite (listed el k s d), Eh by done. naive_solver.
  - intros orig Ha. unfold covered. rewrite (change_users _ _ _ _ _ _ _ C), decide_True by done.
    destruct (w_attach _ W k orig Ha) as [Hsz Hcap]. cbn [attaches captures]. unfold detach. cbn.
    assert (size (users k s ∖ {[el]}) = (size (users k s) - 1)%nat) as ->.
    { rewrite size_difference, size_singleton by set_solver. done. }
    assert (0 < size (users k s))%nat by (assert (size (users k s) <> 0%nat) by (rewrite size_non_empty_iff; set_solver); lia).
    destruct Hask as [-> | ->]; [|destruct (has_listeners el); cbn; split; [lia|done|lia|done]].
    pose proof (proj1 (special_hook k orig) Ha) as ->. cbn.
    destruct (Z.eqb_spec (default 0 (attaches s !! k) - 1) 0) as [E|E]; cbn; rewrite lookup_insert_eq; cbn; (split; [lia|]).
    + rewrite elem_of_difference, elem_of_singleton. split; [naive_solver|lia].
    + rewrite Hcap. lia.
  - intros k' orig Hne Ha. unfold detach. cbn. destruct (teardown (special_of asked)) as [h|] eqn:Et;
      [|by destruct (has_listeners el)]. destruct Hask as [-> |]; [|done].
    destruct h as [| |o]; cbn; [done|done|].
    destruct (Z.eqb_spec (default 0 (attaches s !! k) - 1) 0) as [E|E]; cbn; rewrite lookup_insert_ne by done; (split; [done|]); [|done].
    rewrite elem_of_difference, elem_of_singleton. split; [naive_solver|]. intros Hin. split; [done|]. intros ->.
    apply Hne. apply (special_orig _ _ o); [done|]. by apply special_hook.
Qed.

(** *** One list *)

Definition has_selector (h : hobj) : Prop := is_Some (h_selector h).
Definition no_selector (h : hobj) : Prop := h_selector h = None.

Definition make_list (dels dirs : list hobj) : hlist := HList (dels ++ dirs) (Z.of_nat (length dels)).

Lemma in_order_make g k l :
  in_order g k l <-> exists dels dirs, l = make_list dels dirs
    /\ Forall has_selector dels /\ Forall no_selector dirs /\ Forall (wf_obj g k) dels /\ Forall (wf_obj g k) dirs.
Proof.
  split.
  - intros [Hc Hd Hr Ho]. exists (take (Z.to_nat (delegateCount l)) (objs l)), (drop (Z.to_nat (delegateCount l)) (objs l)).
    split_and!; [|done..|by apply Forall_take|by apply Forall_drop]. unfold make_list.
    rewrite take_drop, length_take. destruct l as [o c]; cbn in *. f_equal. lia.
  - intros (dels & dirs & -> & H1 & H2 & H3 & H4). unfold make_list. split; cbn.
    + rewrite length_app. lia.
    + by rewrite Nat2Z.id, take_app_length.
    + by rewrite Nat2Z.id, drop_app_length.
    + by apply Forall_app.
Qed.

Lemma lists_of_make dels dirs : lists_of (make_list dels dirs) = (binding_of <$> dels, binding_of <$> dirs).
Proof. unfold lists_of, make_list. cbn. by rewrite Nat2Z.id, take_app_length, drop_app_length. Qed.

Lemma put_make h dels dirs :
  put h (make_list dels dirs)
  = if h_selector h is Some _ then make_list (dels ++ [h]) dirs else make_list dels (dirs ++ [h]).
Proof.
  unfold put, make_list. destruct (h_selector h); cbn.
  - rewrite Nat2Z.id, take_app_length, drop_app_length. f_equal; [by rewrite <- app_assoc|].
    rewrite length_app. cbn. lia.
  - by rewrite app_assoc.
Qed.

Definition append (b : binding) (l : list binding * list binding) : list binding * list binding :=
  if b_selector b is Some _ then (l.1 ++ [b], l.2) else (l.1, l.2 ++ [b]).

Lemma put_in_order g k h l :
  in_order g k l -> wf_obj g k h ->
  wf_list g k (put h l) /\ lists_of (put h l) = append (binding_of h) (lists_of l).
Proof.
  intros (dels & dirs & -> & H1 & H2 & H3 & H4)%in_order_make Hh. rewrite put_make, lists_of_make.
  unfold append. cbn [b_selector binding_of]. destruct (h_selector h) as [w|] eqn:Es; rewrite lists_of_make.
  - split; [|by rewrite fmap_app]. split; [|by destruct dels].
    apply in_order_make. exists (dels ++ [h]), dirs. rewrite !Forall_app, !Forall_singleton. unfold has_selector.
    rewrite Es. by split_and!.
  - split; [|by rewrite fmap_app]. split; [|by destruct dels, dirs].
    apply in_order_make. exists dels, (dirs ++ [h]). rewrite !Forall_app, !Forall_singleton. by split_and!.
Qed.

Lemma splice_count p l c :
  splice p l c = HList (List.filter (fun h => negb (p h)) l)
    (c - Z.of_nat (length (List.filter (fun h => p h && bool_decide (has_selector h)) l))).
Proof.
  revert c. induction l as [|h l IH]; intros c; cbn; [f_equal; lia|]. rewrite !IH. destruct (p h); cbn; [|done].
  unfold has_selector. destruct (h_selector h); cbn; f_equal; lia.
Qed.

Lemma filter_split {A} (p : A -> bool) l :
  Z.of_nat (length (List.filter (fun x => negb (p x)) l)) = Z.of_nat (length l) - Z.of_nat (length (List.filter p l)).
Proof. induction l as [|x l IH]; cbn; [done|]. destruct (p x); cbn; lia. Qed.

Lemma splice_make p dels dirs :
  Forall has_selector dels -> Forall no_selector dirs ->
  let l := make_list dels dirs in
  splice p (objs l) (delegateCount l)
  = make_list (List.filter (fun h => negb (p h)) dels) (List.filter (fun h => negb (p h)) dirs).
Proof.
  intros H1 H2. cbn. rewrite splice_count. unfold make_list. rewrite !List.filter_app, filter_split. f_equal.
  rewrite length_app.
  assert (List.filter (fun h => p h && bool_decide (has_selector h)) dels = List.filter p dels) as ->.
  { apply List.filter_ext_in. intros h Hin%list_elem_of_In. rewrite Forall_forall in H1.
    by rewrite bool_decide_true, andb_true_r by by apply H1. }
  assert (List.filter (fun h => p h && bool_decide (has_selector h)) dirs = []) as ->.
  { induction H2 as [|h dirs Hh H2 IH]; [done|]. cbn. rewrite bool_decide_false, andb_false_r; [done|].
    unfold has_selector. rewrite Hh. by intros [? ?]. }
  cbn. lia.
Qed.

Lemma filter_map_ext {A B} (f : A -> B) (p : A -> bool) (q : B -> bool) l :
  Forall (fun x => p x = q (f x)) l -> List.filter q (f <$> l) = f <$> List.filter p l.
Proof. induction 1 as [|x l Hx Hl IH]; [done|]. cbn. rewrite <- Hx. destruct (p x); cbn; by rewrite IH. Qed.

Lemma Forall_filter {A} (P : A -> Prop) (p : A -> bool) l : Forall P l -> Forall P (List.filter p l).
Proof. induction 1 as [|x l Hx Hl IH]; [constructor|]. cbn. destruct (p x); [by constructor|done]. Qed.

Lemma splice_spec g k p q l :
  in_order g k l -> (forall h, wf_obj g k h -> p h = q (binding_of h)) ->
  let l' := splice p (objs l) (delegateCount l) in
  in_order g k l' /\ lists_of l' = without q (lists_of l).
Proof.
  intros (dels & dirs & -> & H1 & H2 & H3 & H4)%in_order_make Hpq. rewrite splice_make by done. cbn zeta. split.
  - apply in_order_make. eexists _, _. split; [done|]. split_and!; by apply Forall_filter.
  - rewrite !lists_of_make. unfold without. cbn [fst snd]. f_equal; symmetry; apply filter_map_ext;
      (eapply Forall_impl; [eassumption|]); intros h Hh; f_equal; by apply Hpq.
Qed.

(** *** Words *)

Lemma to_dot_spec w t r :
  to_dot w = (t, r) -> dotless t /\ w = t ++ from_option (cons 46%N) [] r.
Proof.
  unfold dotless. revert t. induction w as [|c w IH]; intros t; cbn; [intros [= <- <-]; split; [apply not_elem_of_nil|done]|].
  destruct (N.eqb_spec c 46); [intros [= <- <-]; subst; split; [apply not_elem_of_nil|done]|].
  destruct (to_dot w) as [t' r'] eqn:E. intros [= <- <-]. destruct (IH t' eq_refl) as [Ht ->]. split; [set_solver|done].
Qed.

Lemma to_dot_dotless t : dotless t -> to_dot t = (t, None).
Proof.
  unfold dotless. induction t as [|c t IH]; [done|]. rewrite not_elem_of_cons. intros [Hc Ht]. cbn.
  rewrite (proj2 (N.eqb_neq c 46)) by done. by rewrite IH.
Qed.

Lemma to_dot_app t r : dotless t -> to_dot (t ++ 46%N :: r) = (t, Some r).
Proof.
  unfold dotless. induction t as [|c t IH]; [done|]. rewrite not_elem_of_cons. intros [Hc Ht]. cbn.
  rewrite (proj2 (N.eqb_neq c 46)) by done. by rewrite IH.
Qed.

Lemma existsb_one_line s : existsb line_end s = false -> one_line s.
Proof.
  induction s as [|c s IH]; [constructor|]. cbn. intros [Hc Hs]%orb_false_iff. constructor; [done|by apply IH].
Qed.

Lemma rtypenamespace_names w t ns :
  rtypenamespace w = (t, ns) -> bound_words (namespaces_of ns) /\ sorted (namespaces_of ns).
Proof.
  intros Hw. split; [|apply sort_sorted]. unfold namespaces_of.
  assert (one_line (default [] ns)) as Hl.
  { unfold rtypenamespace in Hw. destruct (to_dot w) as [u [r|]]; [|simplify_eq; constructor].
    destruct (bool_decide (r = []) || existsb line_end r) eqn:E; simplify_eq; [constructor|].
    apply orb_false_iff in E as [_ E]. by apply existsb_one_line. }
  by apply (namespaces_bound (default [] ns)).
Qed.

Lemma split_join names : bound_words names -> split_char 46 (join [46%N] names) = names.
Proof.
  intros (Hd & _ & Hne). induction Hd as [|w ws Hw Hd IH]; [done|]. destruct (decide (ws = [])) as [->|Hws].
  - by apply split_char_none.
  - rewrite join_cons, split_char_head by done. f_equal. by apply IH.
Qed.

Lemma ok_word_app k r : ok_word (k ++ r) = true -> dotless k -> ok_word k = true.
Proof.
  unfold ok_word. intros [[H1 H2]%andb_true_iff _]%andb_true_iff Hk. rewrite forallb_app in H1.
  apply andb_true_iff in H1 as [-> _]. rewrite to_dot_dotless by done. rewrite andb_true_r. cbn.
  destruct (starts_with (js "hover") k) eqn:E; [|done]. apply starts_with_spec in E as [t ->].
  by rewrite <- app_assoc, starts_with_app in H2.
Qed.

(** The type of a word of a list is a good name of a property. *)
Lemma word_type w t ns : ok_word w = true -> rtypenamespace w = (Some t, ns) -> ok_key t.
Proof.
  intros Hw Ht. unfold rtypenamespace in Ht. destruct (to_dot w) as [u r] eqn:E. apply to_dot_spec in E as [Hu ->].
  assert (truthy_str u = Some t) as Htr.
  { destruct r as [r|]; [|naive_solver]. destruct (bool_decide (r = []) || existsb line_end r); naive_solver. }
  destruct u as [|c u]; simplify_eq/=. split_and!; [done|done|]. by apply (ok_word_app (c :: u) _ Hw).
Qed.

Lemma ok_key_undefined : ok_key (js "undefined").
Proof.
  unfold ok_key, dotless. vm_compute. split_and!; try done. intros Hin.
  repeat (apply elem_of_cons in Hin as [?|Hin]; [done|]). by apply elem_of_nil in Hin.
Qed.

Lemma word_key w t ns sel : ok_word w = true -> rtypenamespace w = (t, ns) -> ok_key (key (real_type sel t)).
Proof.
  intros Hw Ht. destruct t as [t|]; [by apply real_type_key, (word_type w t ns)|].
  clear Hw Ht. unfold real_type. destruct sel; cbn; apply ok_key_undefined.
Qed.

(** *** Words without a type *)

Lemma good_chars w : forallb (fun c => negb (bad_char c)) w = true <-> Forall (fun c => bad_char c = false) w.
Proof.
  induction w as [|c w IH]; [done|]. cbn. rewrite andb_true_iff, negb_true_iff, IH, Forall_cons. done.
Qed.

Lemma good_unspaced w : Forall (fun c => bad_char c = false) w -> Forall (fun c => is_space c = false) w.
Proof. intros Hw. eapply Forall_impl; [exact Hw|]. by intros c [? _]%orb_false_iff. Qed.

Lemma unspaced_forall w : forallb (fun c => negb (bad_char c)) w = true -> Forall (fun c => is_space c = false) w.
Proof. intros ?%good_chars. by apply good_unspaced. Qed.

Lemma no_hover w :
  Forall (fun c => is_space c = false) w -> starts_with (js "hover") w = false -> hoverHack w = w.
Proof.
  intros Hw Hh. unfold hoverHack.
  assert (forall w, Forall (fun c => is_space c = false) w -> rhoverHack false w = None) as Hf.
  { clear. induction 1 as [|c w Hc Hw IH]; [done|]. cbn. by rewrite Hc, IH. }
  assert (rhoverHack true w = None) as ->; [|done].
  destruct Hw as [|c w Hc Hw]; [done|]. cbn [rhoverHack]. unfold hover_word at 1. rewrite Hh. cbn. by rewrite Hc, Hf.
Qed.

Lemma trim_left_unspaced w : Forall (fun c => is_space c = false) w -> trim_left w = w.
Proof. destruct 1 as [|c w Hc Hw]; [done|]. cbn. by rewrite Hc. Qed.

Lemma type_words_plain w :
  Forall (fun c => is_space c = false) w -> starts_with (js "hover") w = false -> type_words w = [w].
Proof.
  intros Hs Hh. unfold type_words. rewrite no_hover by done. unfold trim. rewrite (trim_left_unspaced w) by done.
  rewrite trim_left_unspaced, reverse_involutive by (by rewrite reverse_Permutation).
  apply split_char_none. intros Hin. rewrite Forall_forall in Hs. by apply Hs in Hin.
Qed.

Lemma type_words_one w : ok_word w = true -> type_words w = [w].
Proof.
  unfold ok_word. intros [[Hs%unspaced_forall Hh%negb_true_iff]%andb_true_iff _]%andb_true_iff.
  by apply type_words_plain.
Qed.

Lemma line_end_space c : line_end c = true -> is_space c = true.
Proof.
  unfold line_end. rewrite !orb_true_iff, !N.eqb_eq. intros [[[-> | ->]| ->]| ->]; reflexivity.
Qed.

Lemma unspaced_one_line s : Forall (fun c => is_space c = false) s -> existsb line_end s = false.
Proof.
  induction 1 as [|c s Hc Hs IH]; [done|]. cbn. rewrite IH, orb_false_r. apply not_true_iff_false.
  intros ?%line_end_space. congruence.
Qed.

Lemma rtypenamespace_app k r :
  k <> [] -> dotless k -> ok_word (k ++ 46%N :: r) = true -> rtypenamespace (k ++ 46%N :: r) = (Some k, Some r).
Proof.
  intros Hne Hk [[Hs _]%andb_true_iff Hd]%andb_true_iff. unfold rtypenamespace. rewrite to_dot_app in * by done.
  rewrite forallb_app in Hs. apply andb_true_iff in Hs as [_ Hs]. cbn in Hs. apply unspaced_forall in Hs.
  rewrite bool_decide_false by (by destruct r). rewrite unspaced_one_line by done. by destruct k.
Qed.

(** A name of a property before a word without a type. *)
Lemma typed_word k w ns :
  ok_key k -> ok_word w = true -> rtypenamespace w = (None, ns) ->
  ok_word (k ++ w) = true /\ rtypenamespace (k ++ w) = (Some k, ns).
Proof.
  intros (Hne & Hk & Hok) Hw Ht. unfold rtypenamespace in Ht. destruct (to_dot w) as [u r] eqn:Ed.
  pose proof Ed as [_ ->]%to_dot_spec.
  assert (u = [] /\ ns = r) as [-> ->].
  { pose proof Hw as [[Hs _]%andb_true_iff Hd]%andb_true_iff. rewrite Ed in Hd. rewrite forallb_app in Hs.
    apply andb_true_iff in Hs as [_ Hs]. destruct r as [r|]; [|destruct u; naive_solver].
    destruct r as [|c r]; [done|]. cbn in Hs. rewrite bool_decide_false in Ht by done.
    rewrite (unspaced_one_line (c :: r)) in Ht by (by apply unspaced_forall). destruct u; naive_solver. }
  destruct r as [r|]; cbn in *.
  2: { rewrite app_nil_r. split; [done|]. unfold rtypenamespace. rewrite to_dot_dotless by done. by destruct k. }
  assert (ok_word (k ++ 46%N :: r) = true) as Hok'; [|split; [done|by apply rtypenamespace_app]].
  unfold ok_word in *. apply andb_true_iff in Hok as [[Hs Hh]%andb_true_iff _].
  apply andb_true_iff in Hw as [[Hs' _]%andb_true_iff Hd]. rewrite to_dot_app by done. cbn in Hd.
  rewrite forallb_app, Hs, Hs'. cbn. apply andb_true_iff. split; [|done]. apply negb_true_iff, not_true_iff_false.
  intros [t Ht']%starts_with_spec. apply app_eq_inv in Ht' as [(z & -> & _)|(z & Hz1 & Hz2)].
  - by rewrite starts_with_app in Hh.
  - destruct z as [|c z]; [rewrite app_nil_r in Hz1; subst k; by rewrite <- (app_nil_r (js "hover")), starts_with_app in Hh|].
    injection Hz2 as <- _. assert (46%N ∈ js "hover") as Hin by (rewrite Hz1; set_solver).
    vm_compute in Hin. repeat (apply elem_of_cons in Hin as [?|Hin]; [done|]). by apply elem_of_nil in Hin.
Qed.

Lemma join_forall (P : N -> Prop) ws : P 46%N -> Forall (Forall P) ws -> Forall P (join [46%N] ws).
Proof.
  intros H46. induction 1 as [|w ws Hw Hws IH]; [constructor|]. destruct (decide (ws = [])) as [->|Hne]; [done|].
  rewrite join_cons by done. apply Forall_app. split; [done|]. by constructor.
Qed.

(** The text [off(event)] makes of an entry is again a good word. *)
Lemma event_text_ok w t ns f d g sel q :
  ok_word w = true -> rtypenamespace w = (t, ns) ->
  ok_word (event_text (HObj (real_type sel t) t d f g sel q (join [46%N] (namespaces_of ns)))) = true.
Proof.
  intros Hw Ht. unfold event_text. cbn.
  assert (ok_key (key t)) as Hk by (destruct t; [by apply (word_type w _ ns)|apply ok_key_undefined]).
  case_decide as Hn; [destruct t; [by apply Hk|done]|].
  assert (ok_word (46%N :: join [46%N] (namespaces_of ns)) = true) as Hns.
  { unfold ok_word. cbn [to_dot N.eqb Pos.eqb]. rewrite (proj2 (good_chars _)); cbn; [by destruct (join _ _)|].
    constructor; [done|]. apply join_forall; [done|]. unfold namespaces_of. rewrite sort_perm. apply split_forall.
    destruct ns as [r|]; [|constructor]. cbn. apply andb_true_iff in Hw as [[Hs _]%andb_true_iff _].
    unfold rtypenamespace in Ht. destruct (to_dot w) as [u r'] eqn:Ed. apply to_dot_spec in Ed as [_ ->].
    destruct r' as [r'|]; [|naive_solver]. destruct (bool_decide (r' = []) || existsb line_end r'); simplify_eq.
    apply good_chars in Hs. apply Forall_app in Hs as [_ Hs]. by inversion Hs. }
  destruct (typed_word (key t) (46%N :: join [46%N] (namespaces_of ns)) (Some (join [46%N] (namespaces_of ns)))) as [Hok _]; try done.
  unfold rtypenamespace. cbn. rewrite bool_decide_false by done.
  rewrite unspaced_one_line; [done|]. apply andb_true_iff in Hns as [[Hs _]%andb_true_iff _]. cbn in Hs.
  by apply unspaced_forall.
Qed.

(** *** Binding *)

Lemma table_change s s' el d k o e k' :
  change s s' el d k o ->
  table_of s' e k' = if decide (e = el /\ k' = k) then from_option lists_of ([], []) o else table_of s e k'.
Proof. intros C. unfold table_of. rewrite (change_lookup _ _ _ _ _ _ _ _ C). by case_decide. Qed.

Record bound_to (el : nat) (s s' : store) : Prop := {
  bt_wf : wf0 s';
  bt_guids : guids s' = guids s;
  bt_some : exists d, data s' !! el = Some d /\ events d <> ∅;
  bt_other : forall e, e <> el -> data s' !! e = data s !! e;
}.

Lemma bind_word_spec el f d sel s w :
  wf0 s -> is_Some (data s !! el) -> is_Some (guids s !! original f) -> ok_word w = true -> sel <> Some [] ->
  bound_to el s (add_word el f d sel s w)
  /\ forall e k, table_of (add_word el f d sel s w) e k = spec_word el f d sel (table_of s) w e k.
Proof.
  intros W [ed Hed] [g Hg] Hw Hsel. unfold add_word, spec_word. destruct (rtypenamespace w) as [t ns] eqn:Et.
  rewrite Hed. unfold guid_of. rewrite Hg. cbn [default from_option].
  set (k := key (real_type sel t)).
  set (h := HObj (real_type sel t) t d f g sel (sel ≫= quickParse) (join [46%N] (namespaces_of ns))).
  destruct (rtypenamespace_names w t ns Et) as [Hns Hsort].
  assert (wf_obj (guids s) k h) as Hh.
  { split; try done; [by apply (event_text_ok w t ns)| |by exists (namespaces_of ns)].
    cbn. intros t' ->. by apply (word_type w t' ns). }
  assert (in_order (guids s) k (default (HList [] 0) (events ed !! k))) as Hl.
  { destruct (events ed !! k) as [l|] eqn:El; cbn; [by apply (w_lists _ W el ed)|].
    apply in_order_make. exists [], []. by split_and!. }
  destruct (put_in_order _ _ _ _ Hl Hh) as [Hput Hlists]. set (l' := put h (default (HList [] 0) (events ed !! k))) in *.
  pose proof (word_key w t ns sel Hw Et) as Hk.
  set (s1 := match events ed !! k with Some _ => s | None => attach el k (handle ed) s end).
  assert (same_lists s s1) as (E1 & E2 & E3 & E4).
  { unfold s1. destruct (events ed !! k); [done|apply attach_same]. }
  assert (wf0 (s1 <| data ::= <[el := with_list k (Some l') ed]> |>)) as W1.
  { unfold s1. destruct (events ed !! k) as [l|] eqn:El; [apply wf0_keep|apply wf0_attach]; eauto. }
  assert (change s (s1 <| data ::= <[el := with_list k (Some l') ed]> |>) el ed k (Some l')) as C.
  { split; cbn; try done. by rewrite E1. }
  split; [split|].
  - by destruct W1.
  - done.
  - cbn. rewrite lookup_insert_eq. eexists. split; [done|]. cbn. apply insert_non_empty.
  - intros e Hne. cbn. by rewrite lookup_insert_ne, E1.
  - intros e k'. etrans; [exact (table_change _ _ _ _ _ _ e k' C)|]. case_decide as E; [destruct E as [-> ->]|done]. cbn [from_option].
    assert (lists_of (default (HList [] 0) (events ed !! k)) = table_of s el k) as El.
    { unfold table_of. rewrite Hed. cbn. by destruct (events ed !! k). }
    rewrite Hlists, El. generalize (table_of s el k). intros T. unfold append, binding_of. cbn.
    by rewrite split_join.
Qed.

Lemma bind_words_spec el f d sel ws s T :
  wf0 s -> is_Some (data s !! el) -> is_Some (guids s !! original f) -> Forall (fun w => ok_word w = true) ws ->
  ws <> [] -> sel <> Some [] -> (forall e k, table_of s e k = T e k) ->
  bound_to el s (foldl (add_word el f d sel) s ws)
  /\ forall e k, table_of (foldl (add_word el f d sel) s ws) e k = foldl (spec_word el f d sel) T ws e k.
Proof.
  intros W Hd Hg Hws Hne Hsel. revert s T W Hd Hg. induction Hws as [|w ws Hw Hws IH]; [done|]. intros s T W Hd Hg HT.
  destruct (bind_word_spec el f d sel s w W Hd Hg Hw Hsel) as [B HT']. cbn.
  set (s1 := add_word el f d sel s w) in *.
  assert (forall e k, table_of s1 e k = spec_word el f d sel T w e k) as HT1.
  { intros e k. rewrite HT'. unfold spec_word. destruct (rtypenamespace w). case_decide; [|apply HT]. by rewrite HT. }
  destruct (decide (ws = [])) as [->|Hws']; [done|].
  destruct (IH Hws' s1 (spec_word el f d sel T w)) as [B2 HT2]; try done.
  - apply B.
  - destruct (bt_some _ _ _ B) as (d' & Hd' & _). eauto.
  - by rewrite (bt_guids _ _ _ B).
  - split; [|done]. split; [apply B2| |apply B2|].
    + by rewrite (bt_guids _ _ _ B2), (bt_guids _ _ _ B).
    + intros e He. by rewrite (bt_other _ _ _ B2), (bt_other _ _ _ B).
Qed.

Lemma wf_list_guids g g' k l : g ⊆ g' -> wf_list g k l -> wf_list g' k l.
Proof.
  intros Hg [[H1 H2 H3 H4] Hne]. split; [|done]. split; try done. eapply Forall_impl; [exact H4|].
  intros h []. split; try done. by eapply lookup_weaken.
Qed.

Lemma give_guid_spec f s :
  wf s -> wf (give_guid f s) /\ is_Some (guids (give_guid f s) !! original f)
  /\ data (give_guid f s) = data s.
Proof.
  intros [W Hne]. unfold give_guid. destruct (guids s !! original f) as [n|] eqn:E; [by rewrite E; eauto|]. cbn.
  rewrite lookup_insert_eq. split; [|eauto]. split; [|done]. destruct W as [W1 W2 W3 W4 W5]. split; cbn; try done.
  - intros el d Hd. destruct (W1 el d Hd) as [Hh Hl]. split; [done|]. intros k l Hk. destruct (Hl k l Hk).
    split; [done|]. eapply wf_list_guids; [|done]. by apply insert_subseteq.
  - intros a b n [[<- <-]|[Ha Hna]]%lookup_insert_Some [[<- Hb]|[Hb Hnb]]%lookup_insert_Some; subst; try done.
    + apply W4 in Hnb. lia.
    + apply W4 in Hna. lia.
    + eauto.
  - split; [lia|]. intros a n [[<- <-]|[_ Ha]]%lookup_insert_Some; [lia|apply W4 in Ha; lia].
Qed.

Lemma init_data_spec el s :
  wf s -> wf0 (init_data el s) /\ is_Some (data (init_data el s) !! el) /\ guids (init_data el s) = guids s
  /\ (forall e k, table_of (init_data el s) e k = table_of s e k)
  /\ (forall e, e <> el -> data (init_data el s) !! e = data s !! e).
Proof.
  intros [W Hne]. unfold init_data. destruct (data s !! el) as [d|] eqn:Ed; [by split_and!; eauto|]. cbn.
  rewrite lookup_insert_eq. split_and!; [|done|done| |by intros; rewrite lookup_insert_ne].
  2: { intros e k. unfold table_of. cbn. destruct (decide (e = el)) as [->|He].
    - by rewrite lookup_insert_eq, Ed.
    - by rewrite lookup_insert_ne. }
  destruct W as [W1 W2 W3 W4 W5]. split; cbn; try done.
  - intros e d [[<- <-]|[He Hd]]%lookup_insert_Some; cbn.
    + split; [by rewrite lookup_app_r, Nat.sub_diag|]. intros k l. by rewrite lookup_empty.
    + destruct (W1 e d Hd) as [Hh Hl]. split; [|done]. rewrite lookup_app_l; [done|]. by eapply lookup_lt_Some.
  - intros e k hd. rewrite W2. destruct (decide (e = el)) as [->|He]; [|by rewrite lookup_insert_ne].
    rewrite lookup_insert_eq, Ed. split; [naive_solver|]. intros (d & [= <-] & _ & [l Hl] & _). cbn in Hl.
    by rewrite lookup_empty in Hl.
  - intros k orig Ha. assert (users k (s <| data ::= <[el := EData ∅ (length (handles s))]> |>
      <| handles ::= fun l => l ++ [Some el] |>) = users k s) as Hu; [|unfold users in *; cbn in *; rewrite Hu; by apply W5].
    apply set_eq. intros e. rewrite !elem_of_users. cbn.
    destruct (decide (e = el)) as [->|He]; [|by rewrite lookup_insert_ne].
    rewrite lookup_insert_eq, Ed. split; [|naive_solver]. intros (d & [= <-] & [l Hl]). cbn in Hl.
    by rewrite lookup_empty in Hl.
Qed.

Lemma words_nonempty types : type_words types <> [].
Proof. unfold type_words. by destruct (split_char_nonnil 32 (trim (hoverHack types))) as (w & ws & ->). Qed.

Lemma bind_spec el types f d sel s T :
  wf s -> ok_types types -> sel <> Some [] -> (forall e k, table_of s e k = T e k) ->
  wf (add el types f d sel s)
  /\ forall e k, table_of (add el types f d sel s) e k = spec_add el types f d sel T e k.
Proof.
  intros W Ht Hsel HT. unfold add, spec_add, accepts.
  destruct (nodeType el =? 3), (nodeType el =? 8), (bool_decide (types = [])), (acceptData el); cbn; try done.
  destruct (give_guid_spec f s W) as (W1 & Hg & Hd1). set (s1 := give_guid f s) in *.
  destruct (init_data_spec el s1 W1) as (W2 & Hd2 & Hg2 & HT2 & Ho2). set (s2 := init_data el s1) in *.
  destruct (bind_words_spec el f d sel (type_words types) s2 T) as [B HT3]; try done.
  - by rewrite Hg2.
  - apply words_nonempty.
  - intros e k. rewrite HT2, <- HT. unfold table_of. by rewrite Hd1.
  - split; [|done]. split; [apply B|]. intros e d' Hd'. destruct (decide (e = el)) as [->|He].
    + destruct (bt_some _ _ _ B) as (d3 & Hd3 & Hne). congruence.
    + rewrite (bt_other _ _ _ B) in Hd' by done. rewrite Ho2 in Hd' by done. by apply W1 in Hd'.
Qed.

(** *** Unbinding *)

(** Namespaces that mean what they say. *)
Definition plain_ns (ns : option jstr) : Prop := forall n, ns = Some n -> plain n.

Lemma word_plain w t ns : ok_word w = true -> rtypenamespace w = (t, ns) -> plain_ns ns.
Proof.
  intros [[Hs%good_chars _]%andb_true_iff _]%andb_true_iff Ht n ->. unfold rtypenamespace in Ht.
  destruct (to_dot w) as [u r] eqn:Ed. apply to_dot_spec in Ed as [_ ->].
  destruct r as [r|]; [|naive_solver]. destruct (bool_decide (r = []) || existsb line_end r); simplify_eq.
  apply Forall_app in Hs as [_ Hs]. apply Forall_inv_tail in Hs. eapply Forall_impl; [exact Hs|].
  by intros c [_ ?]%orb_false_iff.
Qed.

Lemma matches_spec all t ns handler sel s k h :
  plain_ns ns -> wf0 s -> wf_obj (guids s) k h ->
  matches all t ns handler sel s h
  = (all || bool_decide (b_type (binding_of h) = Some t)) && meant ns handler sel (binding_of h).
Proof.
  intros Hp W [Hg Ht Hk Hq _ _ _ (names & Hn & Hb & Hs)]. unfold matches, meant. cbn. rewrite <- !andb_assoc. f_equal. f_equal; [|f_equal].
  - destruct handler as [f|]; [|done]. apply bool_decide_ext. unfold guid_of. split.
    + intros Hf. by apply (w_guids _ W _ _ _ Hf).
    + by intros ->.
  - destruct ns as [n|]; [|done]. rewrite Hn, split_join by done.
    apply eq_bool_prop_intro. rewrite !Is_true_true, bool_decide_eq_true. apply namespace_sorted; [by apply Hp|done..].
Qed.

Record unbound_from (el : nat) (s s' : store) : Prop := {
  uf_wf : wf0 s';
  uf_guids : guids s' = guids s;
  uf_other : forall e, e <> el -> data s' !! e = data s !! e;
}.

Lemma unbound_refl el s : wf0 s -> unbound_from el s s.
Proof. by split. Qed.

Lemma unbound_trans el s1 s2 s3 : unbound_from el s1 s2 -> unbound_from el s2 s3 -> unbound_from el s1 s3.
Proof. intros [W1 G1 O1] [W2 G2 O2]. split; [done|congruence|]. intros e He. by rewrite O2, O1. Qed.

(** Handlers of one type and one element are filtered. *)
Definition filtered (el : nat) (k : jstr) (p : binding -> bool) (s s' : store) : Prop :=
  forall e k', table_of s' e k'
    = if decide (e = el /\ k' = k) then without p (table_of s e k') else table_of s e k'.

Lemma without_nil p : without p ([], []) = ([], []).
Proof. done. Qed.

Lemma remove_type_spec el all t ns handler sel s :
  plain_ns ns -> wf0 s -> ok_key t ->
  let s' := remove_type el all t ns handler sel s in
  unbound_from el s s'
  /\ filtered el (key (real_type sel (Some t)))
       (fun b => (all || bool_decide (b_type b = Some t)) && meant ns handler sel b) s s'.
Proof.
  intros Hp W Ht. unfold remove_type. set (k := key (real_type sel (Some t))).
  set (q := fun b => (all || bool_decide (b_type b = Some t)) && meant ns handler sel b).
  destruct (data s !! el) as [d|] eqn:Hd.
  2: { split; [by apply unbound_refl|]. intros e k'. case_decide as E; [|done]. destruct E as [-> _].
       unfold table_of. by rewrite Hd. }
  destruct (events d !! k) as [l|] eqn:Hl.
  2: { split; [by apply unbound_refl|]. intros e k'. case_decide as E; [|done]. destruct E as [-> ->].
       unfold table_of. rewrite Hd. cbn. by rewrite Hl. }
  destruct (w_lists _ W el d Hd) as [_ Hlists]. destruct (Hlists k l Hl) as [Hk [Hin Hne]].
  destruct (splice_spec (guids s) k (matches all t ns handler sel s) q l Hin) as [Hin' Hlists'].
  { intros h Hh. by apply (matches_spec _ _ _ _ _ _ k). }
  set (l' := splice (matches all t ns handler sel s) (objs l) (delegateCount l)) in *.
  assert (table_of s el k = lists_of l) as Htab by (unfold table_of; rewrite Hd; cbn; by rewrite Hl).
  rewrite (bool_decide_false (objs l = [])) by done. rewrite andb_true_r.
  destruct (decide (objs l' = [])) as [Hnil|Hnn].
  - rewrite bool_decide_true by done.
    destruct (detach_same el t k (handle d) s) as (E1 & E2 & E3 & E4).
    assert (change s ((detach el t k (handle d) s) <| data ::= <[el := with_list k None d]> |>) el d k None) as C.
    { split; cbn; try done. by rewrite E1. }
    split; [split|].
    + apply wf0_detach; eauto. unfold k. destruct (decide (real_type sel (Some t) = Some t)) as [->|Hr]; [by left|].
      right. by apply (real_type_hook sel).
    + done.
    + intros e He. cbn. by rewrite lookup_insert_ne, E1.
    + intros e k'. etrans; [exact (table_change _ _ _ _ _ _ e k' C)|]. case_decide as E; [|done]. destruct E as [-> ->].
      rewrite Htab, <- Hlists'. cbn. unfold lists_of. by rewrite Hnil, take_nil, drop_nil.
  - rewrite bool_decide_false by done.
    assert (change s (s <| data ::= <[el := with_list k (Some l') d]> |>) el d k (Some l')) as C by by split.
    split; [split|].
    + apply wf0_keep; eauto. by split.
    + done.
    + intros e He. cbn. by rewrite lookup_insert_ne.
    + intros e k'. etrans; [exact (table_change _ _ _ _ _ _ e k' C)|]. case_decide as E; [|done]. destruct E as [-> ->].
      by rewrite Htab, <- Hlists'.
Qed.

Lemma clean_data_spec el s :
  wf0 s -> unbound_from el s (clean_data el s) /\ (forall e k, table_of (clean_data el s) e k = table_of s e k)
    /\ (forall d, data (clean_data el s) !! el = Some d -> events d <> ∅).
Proof.
  intros W. unfold clean_data. destruct (data s !! el) as [d|] eqn:Hd; [|split_and!; [by apply unbound_refl|done|congruence]].
  case_bool_decide as He; [|split_and!; [by apply unbound_refl|done|congruence]].
  assert (forall e k, table_of (s <| handles ::= <[handle d := None]> |> <| data ::= delete el |>) e k = table_of s e k) as HT.
  { intros e k. unfold table_of. cbn. destruct (decide (e = el)) as [->|Hne]; [|by rewrite lookup_delete_ne].
    rewrite lookup_delete_eq, Hd. cbn. by rewrite He, lookup_empty. }
  split_and!; [split|done|cbn; intros d'; by rewrite lookup_delete_eq].
  2: done. 2: { intros e Hne. cbn. by rewrite lookup_delete_ne. }
  destruct (w_lists _ W el d Hd) as [Hh _]. destruct W as [W1 W2 W3 W4 W5]. split; cbn; try done.
  - intros e d' [Hne Hd']%lookup_delete_Some. destruct (W1 e d' Hd') as [Hh' Hl]. split; [|done].
    rewrite list_lookup_insert_ne; [done|]. congruence.
  - intros e k hd. rewrite W2. destruct (decide (e = el)) as [->|Hne]; [|by rewrite lookup_delete_ne].
    rewrite lookup_delete_eq, Hd. split; [|naive_solver]. intros (? & [= <-] & _ & [l Hl] & _).
    by rewrite He, lookup_empty in Hl.
  - intros k orig Ha. assert (users k (s <| handles ::= <[handle d := None]> |> <| data ::= delete el |>) = users k s) as Hu;
      [|unfold users in *; cbn in *; rewrite Hu; by apply W5].
    apply set_eq. intros e. rewrite !elem_of_users. cbn.
    destruct (decide (e = el)) as [->|Hne]; [|by rewrite lookup_delete_ne].
    rewrite lookup_delete_eq, Hd. split; [naive_solver|]. intros (? & [= <-] & [l Hl]). by rewrite He, lookup_empty in Hl.
Qed.

(** The nested call for one type. *)
Definition remove_key (el : nat) (ns : option jstr) (handler : option fn) (sel : option jstr) (s : store) (k : jstr) : store :=
  clean_data el (remove_type el true k ns handler sel s).

Lemma remove_nested fuel el k w ns handler sel s :
  ok_key k -> ok_word w = true -> rtypenamespace w = (None, ns) ->
  remove (S fuel) el (k ++ w) handler sel true s = Some (remove_key el ns handler sel s k).
Proof.
  intros Hk Hw Ht. destruct (typed_word k w ns Hk Hw Ht) as [Hok Ht']. cbn [remove].
  rewrite type_words_one by done. cbn [foldM]. rewrite Ht'.
  destruct (data s !! el) eqn:Hd; [done|]. unfold remove_key, remove_type, clean_data. by rewrite Hd, Hd.
Qed.

Lemma filter_filter {A} (p q : A -> bool) l : List.filter p (List.filter q l) = List.filter (fun x => p x && q x) l.
Proof.
  induction l as [|x l IH]; [done|]. cbn. destruct (q x); cbn; [|by rewrite andb_false_r]. rewrite andb_true_r, IH.
  by destruct (p x).
Qed.

Lemma without_without p q l : without p (without q l) = without (fun b => p b || q b) l.
Proof.
  unfold without. cbn. rewrite !filter_filter.
  f_equal; apply List.filter_ext; intros b; by rewrite negb_orb.
Qed.

Lemma without_ext p q l : (forall b, p b = q b) -> without p l = without q l.
Proof. intros Hpq. unfold without. f_equal; apply List.filter_ext; intros b; by rewrite Hpq. Qed.

Lemma remove_keys el ns handler sel K s :
  plain_ns ns -> wf0 s -> Forall ok_key K ->
  let s' := foldl (remove_key el ns handler sel) s K in
  unbound_from el s s'
  /\ forall e k', table_of s' e k'
     = if decide (e = el /\ k' ∈ (fun k => key (real_type sel (Some k))) <$> K)
       then without (meant ns handler sel) (table_of s e k') else table_of s e k'.
Proof.
  intros Hp W HK. revert s W. induction HK as [|k K Hk HK IH]; intros s W.
  - split; [by apply unbound_refl|]. intros e k'. rewrite decide_False; [done|]. intros [_ Hin]. by apply elem_of_nil in Hin.
  - cbn [foldl fmap list_fmap]. destruct (remove_type_spec el true k ns handler sel s Hp W Hk) as [U1 F1].
    set (s1 := remove_type el true k ns handler sel s) in *.
    destruct (clean_data_spec el s1 (uf_wf _ _ _ U1)) as (U2 & T2 & _).
    destruct (IH (remove_key el ns handler sel s k) (uf_wf _ _ _ U2)) as [U3 T3]. split.
    + eapply unbound_trans; [exact U1|]. by eapply unbound_trans.
    + intros e k'. rewrite T3. unfold remove_key. rewrite T2, F1. cbn [orb andb].
      destruct (decide (e = el)) as [->|Hne].
      2: { rewrite !decide_False by naive_solver. done. }
      destruct (decide (k' = key (real_type sel (Some k)))) as [->|Hne].
      * rewrite (decide_True (P := el = el /\ _ = _)) by done.
        rewrite (decide_True (P := el = el /\ _ ∈ _ :: _)) by (split; [done|left]).
        case_decide; [|done]. rewrite without_without. apply without_ext. intros b. by rewrite orb_diag.
      * rewrite (decide_False (P := el = el /\ _ = _)) by naive_solver.
        apply decide_ext. rewrite elem_of_cons. naive_solver.
Qed.

Lemma delegate_out k k' :
  delegateType (special_of k) = Some k' -> delegateType (special_of k') = None /\ bindType (special_of k') = None.
Proof.
  unfold special_of at 1. repeat case_decide; cbn; try (destruct focusinBubbles; cbn); intros; simplify_eq;
    vm_compute; by destruct H as [? ? ? ? []].
Qed.

Lemma bind_delegate k : bindType (special_of k) = None \/ bindType (special_of k) = delegateType (special_of k).
Proof. special_cases; auto. Qed.

(** A type that comes out of the mapping is not mapped further, except that
    [focus] and [blur] are for those who ask with a selector. *)
Lemma real_type_again sel t :
  let k := key (real_type sel t) in
  key (real_type None (Some k)) = k /\ (is_Some sel -> forall w, key (real_type (Some w) (Some k)) = k).
Proof.
  cbn zeta. unfold real_type. cbn [key default from_option id]. destruct (bind_delegate (key t)) as [Hb|Hb]; rewrite Hb.
  - destruct sel as [w|]; [destruct (delegateType (special_of (key t))) as [k'|] eqn:Ed|]; cbn [key default from_option id].
    + destruct (delegate_out _ _ Ed) as [-> ->]. done.
    + by rewrite Hb, Ed.
    + rewrite Hb. split; [done|by intros [? ?]].
  - assert (forall d : option jstr, (if sel is Some _ then d else d) = d) as -> by by destruct sel.
    destruct (delegateType (special_of (key t))) as [k'|] eqn:Ed; cbn [key default from_option id].
    + destruct (delegate_out _ _ Ed) as [-> ->]. done.
    + by rewrite Hb, Ed.
Qed.

Lemma not_meant g k h ns handler sel :
  wf_obj g k h -> key (real_type sel (Some k)) <> k -> meant ns handler sel (binding_of h) = false.
Proof.
  intros [_ Ht -> _ _ _ _ _] Hne. rewrite Ht in Hne. destruct (real_type_again (h_selector h) (h_origType h)) as [Hn Hs].
  destruct sel as [w|]; [|done]. destruct (h_selector h) as [w'|] eqn:Es; [by destruct Hne; apply Hs|].
  unfold meant. cbn. rewrite Es. by rewrite (bool_decide_false (None = Some w)), !andb_false_r by done.
Qed.

Lemma without_none p l :
  Forall (fun b => p b = false) l.1 -> Forall (fun b => p b = false) l.2 -> without p l = l.
Proof.
  destruct l as [l1 l2]. cbn. unfold without. cbn.
  assert (forall l : list binding, Forall (fun b => p b = false) l -> List.filter (fun b => negb (p b)) l = l) as Hf.
  { induction 1 as [|b l Hb Hl IH]; [done|]. cbn. by rewrite Hb, IH. }
  intros H1 H2. by rewrite !Hf.
Qed.

Lemma elem_type_names el s d k : data s !! el = Some d -> k ∈ type_names el s <-> is_Some (events d !! k).
Proof.
  intros Hd. unfold type_names. rewrite Hd, list_elem_of_fmap. split.
  - intros ([k' l] & -> & Hin%elem_of_map_to_list). eauto.
  - intros [l Hl]. exists (k, l). split; [done|]. by apply elem_of_map_to_list.
Qed.

(** All types: every list of the element is filtered. *)
Lemma remove_all_types el ns handler sel s :
  plain_ns ns -> wf0 s ->
  let s' := foldl (remove_key el ns handler sel) s (type_names el s) in
  unbound_from el s s'
  /\ forall e k, table_of s' e k = if decide (e = el) then without (meant ns handler sel) (table_of s e k) else table_of s e k.
Proof.
  intros Hp W. destruct (data s !! el) as [d|] eqn:Hd.
  2: { unfold type_names. rewrite Hd. cbn. split; [by apply unbound_refl|]. intros e k. case_decide; subst; [|done].
       unfold table_of. by rewrite Hd. }
  destruct (remove_keys el ns handler sel (type_names el s) s Hp W) as [U T].
  { apply Forall_forall. intros k [l Hl]%(elem_type_names el s d k Hd). destruct (w_lists _ W el d Hd) as [_ Hls].
    by apply (Hls k l). }
  split; [done|]. intros e k. rewrite T. destruct (decide (e = el)) as [->|Hne]; [|by rewrite decide_False by naive_solver].
  case_decide as Hin; [done|]. symmetry.
  assert (table_of s el k = from_option lists_of ([], []) (events d !! k)) as -> by (unfold table_of; by rewrite Hd).
  destruct (events d !! k) as [l|] eqn:Hl; cbn [from_option]; [|done].
  destruct (w_lists _ W el d Hd) as [_ Hls]. destruct (Hls k l Hl) as [_ [Hin' _]].
  assert (key (real_type sel (Some k)) <> k) as Hr.
  { intros Hr. apply Hin. split; [done|]. apply list_elem_of_fmap. exists k. split; [done|].
    apply (elem_type_names el s d k Hd). eauto. }
  apply in_order_make in Hin' as (dels & dirs & -> & _ & _ & H3 & H4). rewrite lists_of_make.
  apply without_none; cbn; apply Forall_fmap; (eapply Forall_impl; [eassumption|]); intros h Hh; cbn;
    by apply (not_meant _ _ _ ns handler sel Hh).
Qed.

Definition filtered_all (el : nat) (p : jstr -> binding -> bool) (s s' : store) : Prop :=
  forall e k, table_of s' e k = if decide (e = el) then without (p k) (table_of s e k) else table_of s e k.

Lemma foldM_foldl {A B} (f : A -> B -> option A) (g : A -> B -> A) (P : A -> Prop) (l : list B) :
  (forall a b, P a -> b ∈ l -> f a b = Some (g a b) /\ P (g a b)) ->
  forall a, P a -> foldM f a l = Some (foldl g a l).
Proof.
  intros Hf. induction l as [|b l IH]; intros a Ha; [done|]. cbn.
  destruct (Hf a b Ha) as [-> HP]; [left|]. cbn. apply IH; [|done]. intros a' b' Ha' Hb'. apply Hf; [done|by right].
Qed.

Lemma remove_key_wf el ns handler sel s k : plain_ns ns -> wf0 s -> ok_key k -> wf0 (remove_key el ns handler sel s k).
Proof.
  intros Hp W Hk. destruct (remove_type_spec el true k ns handler sel s Hp W Hk) as [[W1 _ _] _].
  apply (clean_data_spec el _ W1).
Qed.

Lemma type_names_ok el s : wf0 s -> Forall ok_key (type_names el s).
Proof.
  intros W. destruct (data s !! el) as [d|] eqn:Hd; [|unfold type_names; rewrite Hd; constructor].
  apply Forall_forall. intros k [l Hl]%(elem_type_names el s d k Hd). destruct (w_lists _ W el d Hd) as [_ Hls].
  by apply (Hls k l).
Qed.

(** One word of [remove]. *)
Definition remove_word (fuel : nat) (el : nat) (handler : option fn) (sel : option jstr) (all : bool) (s : store) (w : jstr)
    : option store :=
  match rtypenamespace w with
  | (Some type, ns) => Some (remove_type el all type ns handler sel s)
  | (None, _) => foldM (fun s type => remove fuel el (type ++ w) handler sel true s) s (type_names el s)
  end.

Lemma unbind_word_spec fuel el handler sel s w :
  wf0 s -> ok_word w = true ->
  exists s', remove_word (S fuel) el handler sel false s w = Some s'
    /\ unbound_from el s s' /\ filtered_all el (fun k => word_means handler sel k w) s s'.
Proof.
  intros W Hw. unfold remove_word. destruct (rtypenamespace w) as [[t|] ns] eqn:Ht; pose proof (word_plain w _ ns Hw Ht) as Hp.
  - destruct (remove_type_spec el false t ns handler sel s Hp W (word_type w t ns Hw Ht)) as [U F].
    eexists. split_and!; [done|done|]. intros e k. rewrite F. unfold word_means. rewrite Ht. cbn [orb].
    destruct (decide (e = el)) as [->|Hne]; [|by rewrite decide_False by naive_solver].
    destruct (decide (k = key (real_type sel (Some t)))) as [->|Hk].
    + rewrite decide_True, (bool_decide_true (key _ = _)) by done. done.
    + rewrite decide_False, (bool_decide_false (k = _)) by naive_solver. cbn. symmetry.
      by apply without_none; apply Forall_forall.
  - exists (foldl (remove_key el ns handler sel) s (type_names el s)). split.
    + pose proof (type_names_ok el s W) as Hok. rewrite Forall_forall in Hok.
      apply (foldM_foldl _ (remove_key el ns handler sel) wf0); [|done]. intros s1 k W1 Hk%Hok. split.
      * by apply remove_nested.
      * by apply remove_key_wf.
    + destruct (remove_all_types el ns handler sel s Hp W) as [U T]. split; [done|]. intros e k. rewrite T.
      unfold word_means. by rewrite Ht.
Qed.

Lemma unbind_words_spec fuel el handler sel ws s :
  wf0 s -> Forall (fun w => ok_word w = true) ws ->
  exists s', foldM (remove_word (S fuel) el handler sel false) s ws = Some s'
    /\ unbound_from el s s'
    /\ filtered_all el (fun k b => existsb (fun w => word_means handler sel k w b) ws) s s'.
Proof.
  intros W Hws. revert s W. induction Hws as [|w ws Hw Hws IH]; intros s W.
  - exists s. split_and!; [done|by apply unbound_refl|]. intros e k. case_decide; [|done]. symmetry.
    by apply without_none; apply Forall_forall.
  - destruct (unbind_word_spec fuel el handler sel s w W Hw) as (s1 & E1 & U1 & F1).
    destruct (IH s1 (uf_wf _ _ _ U1)) as (s2 & E2 & U2 & F2). exists s2. cbn [foldM]. rewrite E1. cbn.
    split_and!; [done|by eapply unbound_trans|]. intros e k. rewrite F2, F1. case_decide; [|done].
    rewrite without_without. apply without_ext. intros b. cbn. apply orb_comm.
Qed.

Lemma unbind_spec fuel el types handler sel s T :
  wf s -> ok_types types -> (forall e k, table_of s e k = T e k) ->
  exists s', remove (S (S fuel)) el types handler sel false s = Some s' /\ wf s' /\ guids s' = guids s
    /\ forall e k, table_of s' e k = spec_remove el types handler sel T e k.
Proof.
  intros [W Hne] Ht HT. change (remove (S (S fuel)) el types handler sel false s) with
    (match data s !! el with
     | None => Some s
     | Some _ => clean_data el <$> foldM (remove_word (S fuel) el handler sel false) s (type_words types)
     end).
  destruct (data s !! el) as [d|] eqn:Hd.
  - destruct (unbind_words_spec fuel el handler sel (type_words types) s W Ht) as (s1 & -> & U1 & F1).
    destruct (clean_data_spec el s1 (uf_wf _ _ _ U1)) as (U2 & T2 & N2). pose proof (unbound_trans _ _ _ _ U1 U2) as U.
    eexists. split; [done|]. split_and!; [split; [apply U|]|apply U|].
    + intros e d' Hd'. destruct (decide (e = el)) as [->|He]; [by apply N2|]. rewrite (uf_other _ _ _ U) in Hd' by done.
      by apply (Hne e).
    + intros e k. rewrite T2, F1. unfold spec_remove. case_decide; by rewrite HT.
  - exists s. split_and!; try done. intros e k. unfold spec_remove. rewrite <- HT. case_decide; [|done]. subst.
    unfold table_of. by rewrite Hd.
Qed.

(** ** The methods refine the table *)

Definition spec_on_types (els : list nat) (types : jstr) (selector d f : arg) (one : bool) (T : table) : table :=
  let '(selector, d, f) := on_args selector d f in
  let bind_all g :=
    foldl (fun T el => spec_add el types (if one then One g else g) (arg_value d) (selector_of selector) T) T els in
  match f with AFalse => bind_all ReturnFalse | AFun g => bind_all g | _ => T end.

Definition spec_off_types (els : list nat) (types : jstr) (selector f : arg) (T : table) : table :=
  let '(selector, f) := match selector with AFalse | AFun _ => (AUndef, selector) | _ => (selector, f) end in
  let remove_all handler := foldl (fun T el => spec_remove el types handler (selector_of selector) T) T els in
  match f with
  | AFalse => remove_all (Some ReturnFalse)
  | AFun g => remove_all (Some g)
  | _ => if arg_truthy f then T else remove_all None
  end.

Definition spec_op (T : table) (o : op) : table :=
  match o with
  | OOn els (TStr types) selector d f one => spec_on_types els types selector d f one T
  | OOn els (TMap l) selector d _ one =>
      let '(selector, d) :=
        if is_string selector then (selector, d) else (AUndef, if arg_truthy d then d else selector) in
      foldl (fun T '(type, f) => spec_on_types els type selector d f one T) T l
  | OOff els (TStr types) selector f => spec_off_types els types selector f T
  | OOff els (TMap l) selector _ => foldl (fun T '(type, f) => spec_off_types els type selector f T) T l
  end.

Definition spec_ops (ops : list op) : table := foldl spec_op (fun _ _ => ([], [])) ops.

(** Handlers are functions or [false], or missing. *)
Definition good_handler (a : arg) : Prop := match a with AFun _ | AFalse => True | _ => arg_truthy a = false end.

Definition good_op (o : op) : Prop :=
  match o with
  | OOn _ (TStr types) selector d f _ => ok_types types /\ good_handler (on_args selector d f).2
  | OOn _ (TMap l) selector d _ _ =>
      let '(selector, d) :=
        if is_string selector then (selector, d) else (AUndef, if arg_truthy d then d else selector) in
      Forall (fun '(type, f) => ok_types type /\ good_handler (on_args selector d f).2) l
  | OOff _ (TStr types) _ _ => ok_types types
  | OOff _ (TMap l) _ _ => Forall (fun '(type, _) => ok_types type) l
  end.

(** A store that is in step and has the lists of a table. *)
Definition implements (s : store) (T : table) : Prop := wf s /\ forall e k, table_of s e k = T e k.

Lemma foldl_implements {B} (f : store -> B -> store) (g : table -> B -> table) l :
  (forall s T b, b ∈ l -> implements s T -> implements (f s b) (g T b)) ->
  forall s T, implements s T -> implements (foldl f s l) (foldl g T l).
Proof.
  induction l as [|b l IH]; intros Hf s T HI; [done|]. cbn. apply IH; [|apply Hf; [left|done]].
  intros s' T' b' Hb'. apply Hf. by right.
Qed.

Lemma foldM_implements {B} (f : store -> B -> option store) (g : table -> B -> table) l :
  (forall s T b, b ∈ l -> implements s T -> exists s', f s b = Some s' /\ implements s' (g T b)) ->
  forall s T, implements s T -> exists s', foldM f s l = Some s' /\ implements s' (foldl g T l).
Proof.
  induction l as [|b l IH]; intros Hf s T HI; [by exists s|]. cbn.
  destruct (Hf s T b) as (s1 & -> & H1); [left|done|]. cbn. apply IH; [|done]. intros s' T' b' Hb'. apply Hf. by right.
Qed.

Lemma selector_truthy a : selector_of a <> Some [].
Proof. by destruct a as [| | |[]| |]. Qed.

Lemma on_types_spec els types selector d f one s T :
  implements s T -> ok_types types -> good_handler (on_args selector d f).2 ->
  exists s', on_types els types selector d f one s = Some s' /\ implements s' (spec_on_types els types selector d f one T).
Proof.
  intros HI Ht Hf. unfold on_types, spec_on_types. destruct (on_args selector d f) as [[sel dd] h]. cbn in Hf.
  assert (forall g, exists s', (let '(f0, s0) := if one then (One g, give_guid g s) else (g, s) in
      Some (foldl (fun s el => add el types f0 (arg_value dd) (selector_of sel) s) s0 els)) = Some s'
    /\ implements s' (foldl (fun T el => spec_add el types (if one then One g else g) (arg_value dd) (selector_of sel) T) T els))
    as Hadd.
  { intros g. destruct one; (eexists; split; [done|]); apply foldl_implements; try done.
    1, 3: intros s' T' el _ [W' HT']; apply bind_spec; try done; apply selector_truthy.
    destruct HI as [W HT]. destruct (give_guid_spec g s W) as (W1 & _ & Hd). split; [done|]. intros e k.
    rewrite <- HT. unfold table_of. by rewrite Hd. }
  destruct h; try apply Hadd; unfold good_handler in Hf; rewrite Hf; by exists s.
Qed.

Lemma off_types_spec els types selector f s T :
  implements s T -> ok_types types ->
  exists s', off_types els types selector f s = Some s' /\ implements s' (spec_off_types els types selector f T).
Proof.
  intros HI Ht. unfold off_types, spec_off_types.
  destruct (match selector with AFalse | AFun _ => (AUndef, selector) | _ => (selector, f) end) as [sel h].
  assert (forall handler, exists s', foldM (fun s el => remove 2 el types handler (selector_of sel) false s) s els = Some s'
    /\ implements s' (foldl (fun T el => spec_remove el types handler (selector_of sel) T) T els)) as Hrem.
  { intros handler. apply foldM_implements; [|done]. intros s' T' el _ [W' HT'].
    destruct (unbind_spec 0 el types handler (selector_of sel) s' T' W' Ht HT') as (s2 & E & W2 & _ & HT2).
    exists s2. split; [done|]. by split. }
  destruct h; try (destruct (arg_truthy _)); try (by exists s); apply Hrem.
Qed.

Lemma run_op_spec o s T :
  implements s T -> good_op o -> exists s', run_op s o = Some s' /\ implements s' (spec_op T o).
Proof.
  intros HI Ho. destruct o as [els [types|l] selector d f one|els [types|l] selector f]; cbn in *.
  - destruct Ho as [Ht Hh]. by apply on_types_spec.
  - destruct (if is_string selector then _ else _) as [sel dd]. rewrite Forall_forall in Ho.
    apply foldM_implements; [|done]. intros s' T' [type g] Hin HI'. destruct (Ho _ Hin). by apply on_types_spec.
  - by apply off_types_spec.
  - rewrite Forall_forall in Ho. apply foldM_implements; [|done]. intros s' T' [type g] Hin HI'.
    apply off_types_spec; [done|]. apply (Ho _ Hin).
Qed.

Lemma init_implements : implements init (fun _ _ => ([], [])).
Proof.
  split; [split; [split; cbn|]|].
  - intros el d. by rewrite lookup_empty.
  - intros el k hd. rewrite lookup_empty. set_solver.
  - intros a b n. by rewrite lookup_empty.
  - split; [lia|]. intros a n. by rewrite lookup_empty.
  - intros k orig Ha. rewrite lookup_empty. cbn. unfold users. cbn. rewrite map_filter_empty, dom_empty_L, size_empty.
    set_solver by lia.
  - intros el d. cbn. by rewrite lookup_empty.
  - intros e k. unfold table_of. cbn. by rewrite lookup_empty.
Qed.


Lemma off_event_spec el h k s T :
  implements s T -> wf_obj (guids s) k h ->
  exists s', off_event el h s = Some s'
    /\ implements s' (spec_remove el (event_text h) (Some (h_handler h)) (h_selector h) T).
Proof.
  intros HI Hh. pose proof (wo_text _ _ _ Hh) as Hok.
  assert (ok_types (event_text h)) as Ht by (unfold ok_types; rewrite type_words_one by done; by constructor).
  destruct (off_types_spec [el] (event_text h) (match h_selector h with Some w => AStr w | None => AUndef end)
    (AFun (h_handler h)) s T HI Ht) as (s' & E & HI'). exists s'. split; [done|].
  unfold spec_off_types in HI'. pose proof (wo_selector _ _ _ Hh) as Hne.
  destruct (h_selector h) as [[|c w]|]; [done|exact HI'|exact HI'].
Qed.

(** An entry of a real type is meant by the text [off(event)] makes of it. *)
Lemma event_text_means g k h t :
  wf_obj g k h -> h_origType h = Some t ->
  word_means (Some (h_handler h)) (h_selector h) k (event_text h) (binding_of h) = true.
Proof.
  intros [_ Ht Hk _ Hne Hok Hor (names & Hn & Hb & Hs)] Ho. destruct (Hor t Ho) as (Ht1 & Ht2 & _).
  assert (rtypenamespace (event_text h) = (Some t, if decide (h_namespace h = []) then None else Some (h_namespace h))) as E.
  { unfold event_text in *. rewrite Ho in *. cbn in *. case_decide as Hns; [|by apply rtypenamespace_app].
    unfold rtypenamespace. rewrite to_dot_dotless by done. by destruct t. }
  unfold word_means. rewrite E, <- Ho, <- Ht, <- Hk. cbn. rewrite !bool_decide_true by done. cbn.
  unfold meant. cbn. rewrite bool_decide_true by done.
  assert (match h_selector h with
          | Some w => bool_decide (h_selector h = Some w)
                      || (bool_decide (w = js "**") && bool_decide (is_Some (h_selector h)))
          | None => true
          end = true) as ->.
  { destruct (h_selector h); [|done]. by rewrite bool_decide_true. }
  case_decide; cbn; [done|]. by rewrite bool_decide_true.
Qed.

(** [off(event)] comes back, keeps the store in step, filters the lists of the
    element, and the entry it is called for is not in them any more. *)
Lemma off_event_gone el h k t s T :
  implements s T -> wf_obj (guids s) k h -> h_origType h = Some t ->
  exists s', off_event el h s = Some s'
    /\ implements s' (spec_remove el (event_text h) (Some (h_handler h)) (h_selector h) T)
    /\ binding_of h ∉ (table_of s' el k).1 ++ (table_of s' el k).2.
Proof.
  intros HI Hh Ho. destruct (off_event_spec el h k s T HI Hh) as (s' & E & W' & HT'). exists s'.
  split_and!; [done|done|]. rewrite HT'. unfold spec_remove. rewrite decide_True by done.
  rewrite type_words_one by apply Hh. unfold without. cbn.
  rewrite <- List.filter_app, list_elem_of_In, List.filter_In. intros [_ Hf].
  by rewrite (event_text_means _ _ _ _ Hh Ho) in Hf.
Qed.

(** *** Numbers of functions are kept *)

Lemma foldM_rel {A B} (R : A -> A -> Prop) `{!PreOrder R} (f : A -> B -> option A) l :
  (forall a b a', f a b = Some a' -> R a a') -> forall a a', foldM f a l = Some a' -> R a a'.
Proof.
  intros Hf. induction l as [|b l IH]; intros a a'; cbn; [intros [= ->]; reflexivity|].
  destruct (f a b) as [a1|] eqn:E; [|done]. cbn. intros E'. etrans; [by eapply Hf|by apply IH].
Qed.

Lemma foldl_rel {A B} (R : A -> A -> Prop) `{!PreOrder R} (f : A -> B -> A) l :
  (forall a b, R a (f a b)) -> forall a, R a (foldl f a l).
Proof. intros Hf. induction l as [|b l IH]; intros a; cbn; [reflexivity|]. etrans; [apply Hf|apply IH]. Qed.

(** Every function keeps its number. *)
Definition numbered (s s' : store) : Prop := guids s ⊆ guids s'.

#[export] Instance numbered_preorder : PreOrder numbered.
Proof. split; unfold numbered; [by intros ?|intros ? ? ? H1 H2; by etrans]. Qed.

Lemma give_guid_numbered f s : numbered s (give_guid f s).
Proof. unfold give_guid, numbered. destruct (guids s !! original f) eqn:E; [done|]. cbn. by apply insert_subseteq. Qed.

Lemma add_word_numbered el f d sel s w : numbered s (add_word el f d sel s w).
Proof.
  unfold add_word, numbered. destruct (rtypenamespace w) as [t ns]. destruct (data s !! el) as [ed|]; [|done]. cbn.
  destruct (events ed !! _); [done|].
  by destruct (attach_same el (key (real_type sel t)) (handle ed) s) as (_ & -> & _).
Qed.

Lemma add_numbered el types f d sel s : numbered s (add el types f d sel s).
Proof.
  unfold add. destruct (_ || _); [reflexivity|]. etrans; [apply (give_guid_numbered f)|].
  transitivity (init_data el (give_guid f s)).
  - unfold init_data, numbered. by destruct (data (give_guid f s) !! el).
  - apply foldl_rel; [apply _|]. intros. apply add_word_numbered.
Qed.

Lemma remove_type_numbered el all t ns handler sel s : numbered s (remove_type el all t ns handler sel s).
Proof.
  unfold remove_type, numbered. destruct (data s !! el) as [d|]; [|done].
  set (k := key (real_type sel (Some t))). destruct (events d !! k) as [l|]; [|done].
  destruct (_ && _); [|done]. cbn. by destruct (detach_same el t k (handle d) s) as (_ & -> & _).
Qed.

Lemma remove_numbered fuel el types handler sel all s s' :
  remove fuel el types handler sel all s = Some s' -> numbered s s'.
Proof.
  revert types all s s'. induction fuel as [|fuel IH]; intros types all s s'; cbn; [done|].
  destruct (data s !! el); [|intros [= ->]; reflexivity]. destruct (foldM _ s _) as [s1|] eqn:E; cbn; [|done].
  intros [= <-]. transitivity s1.
  - refine (foldM_rel numbered _ _ _ _ _ E). intros a w a'. cbn.
    destruct (rtypenamespace w) as [[t|] ns]; [intros [= <-]; apply remove_type_numbered|].
    apply (foldM_rel numbered). intros ? ? ?. apply IH.
  - unfold clean_data. destruct (data s1 !! el) as [d|]; [|reflexivity].
    case_bool_decide; unfold numbered; reflexivity.
Qed.

Lemma on_types_numbered els types selector d f one s s' :
  on_types els types selector d f one s = Some s' -> numbered s s'.
Proof.
  unfold on_types. destruct (on_args selector d f) as [[sel dd] h].
  assert (forall g, (let '(f0, s0) := if one then (One g, give_guid g s) else (g, s) in
      Some (foldl (fun s el => add el types f0 (arg_value dd) (selector_of sel) s) s0 els)) = Some s' -> numbered s s')
    as Hadd.
  { intros g. destruct one; intros [= <-]; [etrans; [apply (give_guid_numbered g)|]|];
      (apply foldl_rel; [apply _|]; intros; apply add_numbered). }
  destruct h; try (destruct (arg_truthy _); [done|intros [= <-]; reflexivity]); apply Hadd.
Qed.

Lemma off_types_numbered els types selector f s s' : off_types els types selector f s = Some s' -> numbered s s'.
Proof.
  unfold off_types.
  destruct (match selector with AFalse | AFun _ => (AUndef, selector) | _ => (selector, f) end) as [sel h].
  assert (forall handler, foldM (fun s el => remove 2 el types handler (selector_of sel) false s) s els = Some s' ->
    numbered s s') as Hrem.
  { intros handler. apply (foldM_rel numbered). intros ? ? ?. apply remove_numbered. }
  destruct h; try (destruct (arg_truthy _); [intros [= <-]; reflexivity|]); apply Hrem.
Qed.

Lemma run_op_numbered s o s' : run_op s o = Some s' -> numbered s s'.
Proof.
  destruct o as [els [types|l] selector d f one|els [types|l] selector f]; cbn.
  - apply on_types_numbered.
  - destruct (if is_string selector then _ else _) as [sel dd]. apply (foldM_rel numbered).
    intros ? [? ?] ?. apply on_types_numbered.
  - apply off_types_numbered.
  - apply (foldM_rel numbered). intros ? [? ?] ?. apply off_types_numbered.
Qed.

End Page.

#[global] Arguments implements {_} s T.

Module Sample.

(** Nodes 0 (a window), 1 (a document) and elements, in a browser without
    [focusin] that bubbles. *)
#[local] Instance page : Page := {|
  nodeType n := if decide (n = 1%nat) then 9 else 1;
  isWindow n := bool_decide (n = 0%nat);
  acceptData _ := true;
  has_listeners _ := true;
  focusinBubbles := false;
  page_re _ _ := false;
|}.

Definition f := AFun (Fn 7).
Definition g := AFun (Fn 8).

Definition ops : list op :=
  [OOn [2%nat] (TStr (js "click.b.a keyup")) AUndef AUndef f false;
   OOn [2%nat] (TStr (js "click")) (AStr (js "a")) AUndef g false;
   OOff [2%nat] (TStr (js "click.a")) AUndef AUndef].


(** The entries left after some calls. *)
Definition left_of (s : option store) (el : nat) (k : jstr) : option (list fn) :=
  (fun s => (fun b => b_fn b) <$> (table_of s el k).1 ++ (table_of s el k).2) <$> s.

Example ops_left :
  left_of (run_ops init ops) 2 (js "click") = Some [Fn 8]
  /\ left_of (run_ops init ops) 2 (js "keyup") = Some [Fn 7].
Proof. vm_compute. done. Qed.

(** Two spaces between the types of [off] unbind everything. *)
Example double_space_unbinds_all :
  left_of (run_ops init
    [OOn [2%nat] (TStr (js "click keyup scroll")) AUndef AUndef f false;
     OOff [2%nat] (TStr (js "click  keyup")) AUndef AUndef]) 2 (js "scroll") = Some [].
Proof. vm_compute. done. Qed.

(** A dot at the end of a type makes [remove] call itself for ever. *)
Definition clicked : store := add 2 (js "click") (Fn 7) VUndef None init.

Lemma remove_click n u all :
  dotless u -> Forall (fun c => is_space c = false) u ->
  remove n 2 (js "click" ++ u ++ [46%N]) None None all clicked = None.
Proof.
  revert u all. induction n as [|n IH]; intros u all Hd Hs; [done|]. cbn [remove].
  change (data clicked !! 2%nat) with (Some (EData {[js "click" := HList [HObj (Some (js "click")) (Some (js "click"))
    VUndef (Fn 7) 1 None None []] 0]} 0)). cbn iota beta.
  rewrite type_words_plain; [| |done].
  2: { apply Forall_app. split; [by apply unspaced_forall|]. apply Forall_app. by repeat constructor. }
  cbn [foldM]. unfold rtypenamespace at 1. rewrite (app_assoc (js "click")), to_dot_app.
  2: { unfold dotless in *. rewrite not_elem_of_app. split; [|done]. vm_compute. intros Hin.
       repeat (apply elem_of_cons in Hin as [?|Hin]; [done|]). by apply elem_of_nil in Hin. }
  cbn. change (type_names 2 clicked) with [js "click"]. cbn [foldM].
  rewrite <- (app_assoc (js "click") u). rewrite (app_assoc (js "click") (js "click")), <- app_assoc.
  rewrite (app_assoc (js "click") u), IH; [done|..].
  - unfold dotless in *. rewrite not_elem_of_app. split; [|done]. vm_compute. intros Hin.
    repeat (apply elem_of_cons in Hin as [?|Hin]; [done|]). by apply elem_of_nil in Hin.
  - apply Forall_app. split; [by apply unspaced_forall|done].
Qed.

Lemma trailing_dot_loops n : remove n 2 (js "click.") None None false clicked = None.
Proof. apply (remove_click n []); [apply not_elem_of_nil|constructor]. Qed.

(** [teardown] of [beforeunload] does nothing: the window keeps the handler. *)
Example beforeunload_stays :
  (fun s => (table_of s 0 (js "beforeunload"), onbeforeunload s !! 0%nat)) <$> run_ops init
    [OOn [0%nat] (TStr (js "beforeunload")) AUndef AUndef f false;
     OOff [0%nat] (TStr (js "beforeunload")) AUndef AUndef]
  = Some (([], []), Some 0%nat).
Proof. vm_compute. done. Qed.

(** Unbinding [focus] with a selector forgets the hook of [focusin]: the
    capturing listener of the document stays. *)
Example focus_listener_stays :
  (fun s => (bool_decide (data s = ∅), attaches s !! js "focusin", bool_decide (js "focus" ∈ captures s))) <$> run_ops init
    [OOn [2%nat] (TStr (js "focus")) (AStr (js "a")) AUndef f false;
     OOff [2%nat] (TStr (js "focus")) (AStr (js "a")) f]
  = Some (true, Some 1, true).
Proof. vm_compute. done. Qed.

(** A function bound with [on] goes when the same function, bound with [one],
    has been called. *)
Example one_takes_on_along :
  (s ← run_ops init [OOn [2%nat] (TStr (js "click")) AUndef AUndef f false;
                     OOn [2%nat] (TStr (js "click")) AUndef AUndef f true];
   d ← data s !! 2%nat; l ← events d !! js "click"; h ← objs l !! 1%nat;
   left_of (off_event 2 h s) 2 (js "click")) = Some [].
Proof. vm_compute. done. Qed.

End Sample.
