(* ===== verification/JqDispatch.v ===== *)
(** * Dispatching and triggering events (jquery-1.7.2.js)

    [jQuery.event.dispatch] runs the handlers of one element, those with a
    selector first, from the target of the event up to the element;
    [jQuery.event.trigger] carries an event that the page makes from an element
    up to the window.  A handler is code of the page: it can bind, unbind and
    trigger, stop the event and change the document before it returns or
    throws, so the module is a machine with a call stack whose state contains
    the store of JqHandlers.v.

    The browser calls one listener at a time: a call of a listener, with a
    fresh event object, is an action of its own.  Arguments of handlers other
    than the event are left out. *)

From stdpp Require Import base gmap list sorting strings.
From Stdlib Require Import NArith.
From S2P Require Import Prelude JsString ZeptoCore ZeptoNode JqNames JqHandlers.

(** What a handler returns. *)
Inductive value := RUndef | RFalse | ROther (n : nat).

#[export] Instance value_eq_dec : EqDecision value.
Proof. solve_decision. Defined.

(** The document: the chain of [parentNode] of a node, what [quickIs] reads, the
    answers of the selector engine, the methods elements have. *)
Record tree := Tree {
  parents : nat -> list nat;
  face_of : nat -> face;
  disabled : nat -> bool;
  ownerDocument : nat -> option nat;
  window_of : nat -> nat;
  is_selector : jstr -> nat -> bool;
  has_method : nat -> jstr -> bool;
  offsetWidth : nat -> Z;
}.

(** [exclusive], [namespace] and [namespace_re] of an event. *)
Record tag := Tag { exclusive : bool; namespaces : list jstr }.

Definition e_namespace (g : tag) : jstr := join [46%N] (namespaces g).

(** A [jQuery.Event]. *)
Record event := Event {
  e_type : jstr;
  e_target : nat;
  e_related : option nat;
  e_button : Z;
  e_tag : tag;
  isPropagationStopped : bool;
  isImmediatePropagationStopped : bool;
  isDefaultPrevented : bool;
  e_result : value;
  e_data : jsval;
  e_handleObj : option hobj;
  e_currentTarget : option nat;
  e_delegateTarget : option nat;
}.

#[export] Instance event_eta : Eta event :=
  fun r => Event (e_type r) (e_target r) (e_related r) (e_button r) (e_tag r) (isPropagationStopped r)
    (isImmediatePropagationStopped r) (isDefaultPrevented r) (e_result r) (e_data r) (e_handleObj r)
    (e_currentTarget r) (e_delegateTarget r).

Definition new_event (type : jstr) (target : nat) (related : option nat) (button : Z) (g : tag) : event :=
  Event type target related button g false false false RUndef VUndef None None None.

(** An entry of [handlerQueue]: an element and its handlers. *)
Abbreviation group := (nat * list hobj)%type.

(** [Code]: a function of the page, or a method of an element.  [Run]: the two
    loops of [dispatch], with the element it is for, the group at work and the
    groups to come.  [Hover]: the [handle] of [mouseenter].  [Path]: the loop of
    [trigger]; after the handlers of a node comes its inline handler.
    [Inline] and [Native]: an inline handler and the default method. *)
Inductive frame :=
| Code
| Run (d ev el : nat) (cur : option group) (rest : list group)
| Hover (ev : nat) (fix_ : jstr)
| Path (t ev elem : nat) (type : jstr) (only : bool) (at_ : option nat) (path : list (nat * jstr))
| Inline (ev : nat)
| Native (elem : nat) (type : jstr) (old : option nat)
| EachTrigger (els : list nat) (text : jstr).

Inductive entry :=
| LDispatch (d ev : nat) (g : tag) (el : nat) (plan : list group)
| LCall (d elem : nat) (h : hobj)
| LEnd (d : nat)
| LTrigger (t ev : nat) (path : list (nat * jstr))
| LVisit (t : nat) (node : nat * jstr)
| LDone (t : nat).

Record world := World {
  hs : store;
  doc : tree;
  inline : gmap (nat * jstr) nat;      (* the properties [on...] of nodes *)
  evs : list event;
  triggered : option jstr;             (* [jQuery.event.triggered] *)
  next : nat;
  stack : list frame;
  log : list entry;
}.

#[export] Instance world_eta : Eta world :=
  fun r => World (hs r) (doc r) (inline r) (evs r) (triggered r) (next r) (stack r) (log r).

Definition push (f : frame) (w : world) : world := w <| stack ::= cons f |>.
Definition logged (e : entry) (w : world) : world := w <| log ::= fun l => l ++ [e] |>.
Definition change_event (ev : nat) (f : event -> event) (w : world) : world := w <| evs ::= alter f ev |>.

Section Page.
Context `{Page}.

(** ** [jQuery.event.dispatch] *)

(** [selMatch[sel]]: an object, so that a selector like [constructor] is found
    in it from the beginning; otherwise the test of the element. *)
Definition sel_match (t : tree) (cur : nat) (h : hobj) : bool :=
  match h_selector h with
  | Some sel =>
      if decide (sel ∈ proto_names) then true
      else match h_quick h with Some q => quickIs (face_of t cur) q | None => is_selector t sel cur end
  | None => false
  end.

(** The nodes of the loop [for (cur = event.target; cur != this; ...)]. *)
Fixpoint below (el : nat) (l : list nat) : list nat :=
  match l with
  | [] => []
  | n :: l' => if decide (n = el) then [] else n :: below el l'
  end.

Definition delegated (t : tree) (dels : list hobj) (cur : nat) : list group :=
  if disabled t cur then []
  else match List.filter (sel_match t cur) dels with [] => [] | l => [(cur, l)] end.

Definition handlers_of (el : nat) (type : jstr) (s : store) : hlist :=
  default (HList [] 0) (data s !! el ≫= fun d => events d !! type).

(** [handlerQueue]. *)
Definition handlerQueue (el : nat) (e : event) (w : world) : list group :=
  let l := handlers_of el (e_type e) (hs w) in
  let n := Z.to_nat (delegateCount l) in
  (if negb (delegateCount l =? 0) && negb (negb (e_button e =? 0) && bool_decide (e_type e = js "click")) then
     flat_map (delegated (doc w) (take n (objs l))) (below el (e_target e :: parents (doc w) (e_target e)))
   else [])
  ++ match drop n (objs l) with [] => [] | dirs => [(el, dirs)] end.

Definition dispatch (el ev : nat) (w : world) : world :=
  match evs w !! ev with
  | Some e =>
      let plan := handlerQueue el e w in
      let d := next w in
      let w := change_event ev (fun e => e <| e_delegateTarget := Some el |>) (w <| next ::= S |>) in
      push (Run d ev el None plan) (logged (LDispatch d ev (e_tag e) el plan) w)
  | None => w
  end.

(** Whether a handler runs: the event is not exclusive and has no namespace, or
    its namespaces are among those of the handler. *)
Definition runs (g : tag) (h : hobj) : bool :=
  (negb (exclusive g) && bool_decide (e_namespace g = []))
  || (bool_decide (e_namespace g = []) && bool_decide (h_namespace h = []))
  || (negb (bool_decide (e_namespace g = [])) && namespace_re (namespaces g) (h_namespace h)).

(** [eventHandle]: the second event of a [trigger] is discarded. *)
Definition call_handle (hd ev : nat) (w : world) : world :=
  match handles (hs w) !! hd, evs w !! ev with
  | Some (Some el), Some e => if decide (triggered w = Some (e_type e)) then w else dispatch el ev w
  | _, _ => w
  end.

(** *** Returning to the library *)

(** The value of a handler. *)
Definition take_result (ev : nat) (v : value) (w : world) : world :=
  match v with
  | RUndef => w
  | RFalse => change_event ev (fun e => e <| e_result := RFalse |> <| isDefaultPrevented := true |>
                                          <| isPropagationStopped := true |>) w
  | ROther n => change_event ev (fun e => e <| e_result := ROther n |>) w
  end.

(** The frame below takes the value. *)
Fixpoint deliver (v : value) (st : list frame) (w : world) : world :=
  match st with
  | Run _ ev _ _ _ :: _ => take_result ev v (w <| stack := st |>)
  | Hover ev fix_ :: st' => deliver v st' (change_event ev (fun e => e <| e_type := fix_ |>) w)
  | Inline ev :: st' =>
      let w := w <| stack := st' |> in
      if decide (v = RFalse) then change_event ev (fun e => e <| isDefaultPrevented := true |>) w else w
  | Native elem type old :: st' =>
      let w := w <| stack := st' |> <| triggered := None |> in
      match old with Some f => w <| inline ::= <[(elem, type) := f]> |> | None => w end
  | _ => w <| stack := st |>
  end.

(** A call of a function: the page runs, or the function of the library ends at
    once; the one made for [one] unbinds itself before it calls its original. *)
Fixpoint call (f : fn) (el : nat) (h : hobj) (w : world) : world :=
  match f with
  | Fn _ => push Code w
  | ReturnFalse => deliver RFalse (stack w) w
  | One g => call g el h (match off_event el h (hs w) with Some s => w <| hs := s |> | None => w end)
  end.

(** [((special[origType] || {}).handle || handleObj.handler).apply(elem, args)]. *)
Definition apply_handler (elem el ev : nat) (h : hobj) (w : world) : world :=
  if hover (special_of (key (h_origType h))) then
    match evs w !! ev with
    | Some e =>
        let outside := match e_related e with
                       | Some r => negb (bool_decide (r = elem)) && negb (bool_decide (elem ∈ parents (doc w) r))
                       | None => true
                       end in
        if outside then
          call (h_handler h) el h
            (push (Hover ev (key (bindType (special_of (key (h_origType h))))))
              (change_event ev (fun e => e <| e_type := key (h_origType h) |>) w))
        else w
    | None => w
    end
  else call (h_handler h) el h w.

(** One turn of the loops of [dispatch]. *)
Definition run_step (d ev el : nat) (cur : option group) (rest : list group) (e : event) (w : world) : world :=
  match cur, rest with
  | None, [] => logged (LEnd d) w
  | None, g :: rest' =>
      if isPropagationStopped e then logged (LEnd d) w
      else push (Run d ev el (Some g) rest') (change_event ev (fun e => e <| e_currentTarget := Some g.1 |>) w)
  | Some (elem, []), _ => push (Run d ev el None rest) w
  | Some (elem, h :: l), _ =>
      if isImmediatePropagationStopped e then push (Run d ev el None rest) w
      else
        let w := push (Run d ev el (Some (elem, l)) rest) w in
        if runs (e_tag e) h then
          apply_handler elem el ev h
            (logged (LCall d elem h)
              (change_event ev (fun e => e <| e_data := h_data h |> <| e_handleObj := Some h |>) w))
        else w
  end.

(** ** [jQuery.event.trigger] *)

Definition rfocusMorph (s : jstr) : bool := bool_decide (s = js "focusinfocus") || bool_decide (s = js "focusoutblur").

(** The type, the mark [!] and the namespaces of the text of a trigger. *)
Definition trigger_text (text : jstr) : jstr * tag :=
  let excl := contains (js "!") text in
  let text := if excl then take (length text - 1) text else text in
  if contains (js ".") text then
    match split_char 46 text with
    | type :: names => (type, Tag excl (sort names))
    | [] => (text, Tag excl [])
    end
  else (text, Tag excl []).

Definition customEvent (type : jstr) : bool :=
  bool_decide (type ∈ [js "getData"; js "setData"; js "changeData"]) || bool_decide (type ∈ proto_names).

(** [eventPath]. *)
Definition eventPath (t : tree) (elem : nat) (type : jstr) (only : bool) : list (nat * jstr) :=
  let sp := special_of type in
  (elem, default type (bindType sp)) ::
  if only || noBubble sp || isWindow elem then []
  else
    let bubbleType := default type (delegateType sp) in
    let up := if rfocusMorph (bubbleType ++ type) then elem :: parents t elem else parents t elem in
    ((fun n => (n, bubbleType)) <$> up)
    ++ match last up with
       | Some old => if decide (ownerDocument t elem = Some old) then [(window_of t old, bubbleType)] else []
       | None => []
       end.

(** An event with a type and a tag, on an element. *)
Definition trigger_event (elem : nat) (type : jstr) (g : tag) (only : bool) (w : world) : world :=
  if customEvent type && negb (bool_decide (type ∈ global (hs w))) then w
  else
    let ev := length (evs w) in
    let t := next w in
    let path := eventPath (doc w) elem type only in
    push (Path t ev elem type only None path)
      (logged (LTrigger t ev path)
        (w <| evs ::= fun l => l ++ [new_event type elem None 0 g] |> <| next ::= S |>)).

(** [trigger] with a text; [triggerHandler] is [only]. *)
Definition trigger (elem : nat) (text : jstr) (only : bool) (w : world) : world :=
  if (nodeType elem =? 3) || (nodeType elem =? 8) then w
  else if rfocusMorph (text ++ key (triggered w)) then w
  else let '(type, g) := trigger_text text in trigger_event elem type g only w.

(** [simulate] of the capturing listeners for [focusin] and [focusout]. *)
Definition simulate (fix_ : jstr) (elem : nat) (w : world) : world :=
  if (nodeType elem =? 3) || (nodeType elem =? 8) then w
  else if rfocusMorph (fix_ ++ key (triggered w)) then w
  else trigger_event elem fix_ (Tag false []) false w.

Definition ontype (type : jstr) : bool := negb (contains (js ":") type).

(** The default action: the method of the element that has the name of the
    event, with the inline handler out of the way. *)
Definition default_action (e : event) (elem : nat) (type : jstr) (w : world) : world :=
  if negb (bool_decide (type = js "click") && bool_decide (to_lower (nodeName (face_of (doc w) elem)) = js "a"))
     && acceptData elem && ontype type && has_method (doc w) elem type
     && (negb (bool_decide (type = js "focus") || bool_decide (type = js "blur"))
         || negb (offsetWidth (doc w) (e_target e) =? 0))
     && negb (isWindow elem) then
    let old := inline w !! (elem, type) in
    push Code (push (Native elem type old) (w <| inline ::= delete (elem, type) |> <| triggered := Some type |>))
  else w.

(** One turn of the loop of [trigger]. *)
Definition path_step (t ev elem : nat) (type : jstr) (only : bool) (at_ : option nat) (path : list (nat * jstr))
    (e : event) (w : world) : world :=
  match at_ with
  | Some cur =>
      let w := push (Path t ev elem type only None path) w in
      match inline w !! (cur, type) with
      | Some _ => if ontype type && acceptData cur then push Code (push (Inline ev) w) else w
      | None => w
      end
  | None =>
      match path with
      | (cur, ty) :: path' =>
          if isPropagationStopped e then
            let w := logged (LDone t) (change_event ev (fun e => e <| e_type := type |>) w) in
            if only || isDefaultPrevented e then w else default_action e elem type w
          else
            let w := push (Path t ev elem type only (Some cur) path')
                       (logged (LVisit t (cur, ty)) (change_event ev (fun e => e <| e_type := ty |>) w)) in
            match data (hs w) !! cur with
            | Some d => if events d !! ty is Some _ then call_handle (handle d) ev w else w
            | None => w
            end
      | [] =>
          let w := logged (LDone t) (change_event ev (fun e => e <| e_type := type |>) w) in
          if only || isDefaultPrevented e then w else default_action e elem type w
      end
  end.

(** ** Steps *)

Definition library_step (w : world) : option world :=
  match stack w with
  | Run d ev el cur rest :: st => e ← evs w !! ev; Some (run_step d ev el cur rest e (w <| stack := st |>))
  | Path t ev elem type only at_ path :: st =>
      e ← evs w !! ev; Some (path_step t ev elem type only at_ path e (w <| stack := st |>))
  | EachTrigger [] _ :: st => Some (w <| stack := st |>)
  | EachTrigger (el :: els) text :: st => Some (trigger el text false (w <| stack := EachTrigger els text :: st |>))
  | _ => None
  end.

(** An exception ends the library's frames up to the code of the page that
    called it; nothing is put back. *)
Fixpoint unwind (st : list frame) : list frame :=
  match st with
  | [] | Code :: _ => st
  | _ :: st' => unwind st'
  end.

Inductive action :=
| ALibrary
| AReturn (v : value)
| AThrow
| AOp (o : op)
| ATrigger (els : list nat) (text : jstr)
| ATriggerHandler (el : nat) (text : jstr)
| AFire (el : nat) (type : jstr) (target : nat) (related : option nat) (button : Z)
| AFocus (orig : jstr) (target : nat)
| AStop (ev : nat)
| AStopImmediate (ev : nat)
| APrevent (ev : nat)
| ATree (t : tree)
| AInline (node : nat) (type : jstr) (f : option nat).

Definition page_runs (w : world) : bool := match stack w with [] | Code :: _ => true | _ => false end.

Definition stop (e : event) : event := e <| isPropagationStopped := true |>.
Definition stop_immediate (e : event) : event := stop (e <| isImmediatePropagationStopped := true |>).
Definition prevent (e : event) : event := e <| isDefaultPrevented := true |>.

(** The browser calls the function [eventHandle] with an event of its own. *)
Definition fire (hd : nat) (type : jstr) (target : nat) (related : option nat) (button : Z) (w : world) : world :=
  call_handle hd (length (evs w))
    (w <| evs ::= fun l => l ++ [new_event type target related button (Tag false [])] |>).

Definition page_step (a : action) (w : world) : option world :=
  match a with
  | ALibrary => None
  | AReturn v => match stack w with Code :: st => Some (deliver v st w) | _ => None end
  | AThrow => match stack w with Code :: st => Some (w <| stack := unwind st |>) | _ => None end
  | AOp o => s ← run_op (hs w) o; Some (w <| hs := s |>)
  | ATrigger els text => Some (push (EachTrigger els text) w)
  | ATriggerHandler el text => Some (trigger el text true w)
  | AFire el type target related button =>
      d ← data (hs w) !! el;
      if decide ((el, type, handle d) ∈ listeners (hs w)) then Some (fire (handle d) type target related button w)
      else None
  | AFocus orig target =>
      if decide (orig ∈ captures (hs w)) then
        Some (simulate (if decide (orig = js "focus") then js "focusin" else js "focusout") target w)
      else None
  | AStop ev => Some (change_event ev stop w)
  | AStopImmediate ev => Some (change_event ev stop_immediate w)
  | APrevent ev => Some (change_event ev prevent w)
  | ATree t => Some (w <| doc := t |>)
  | AInline node type f => Some (w <| inline ::= partial_alter (fun _ => f) (node, type) |>)
  end.

Definition step (w : world) (a : action) : option world :=
  match a with
  | ALibrary => library_step w
  | _ => if page_runs w then page_step a w else None
  end.

Fixpoint run (w : world) (l : list action) : option world :=
  match l with
  | [] => Some w
  | a :: l' => w' ← step w a; run w' l'
  end.

Definition start (t : tree) : world := World init t ∅ [] None 0 [] [].

(** ** What a run has done *)

Definition flat (plan : list group) : list (nat * hobj) :=
  flat_map (fun '(x, l) => (fun h => (x, h)) <$> l) plan.

(** The handlers of a plan that an event is for. *)
Definition chosen (g : tag) (plan : list group) : list (nat * hobj) :=
  List.filter (fun p => runs g p.2) (flat plan).

Definition calls (d : nat) (lg : list entry) : list (nat * hobj) :=
  flat_map (fun x => match x with LCall d' n h => if decide (d' = d) then [(n, h)] else [] | _ => [] end) lg.

Definition visits (t : nat) (lg : list entry) : list (nat * jstr) :=
  flat_map (fun x => match x with LVisit t' n => if decide (t' = t) then [n] else [] | _ => [] end) lg.

(** The number of the dispatch or the trigger an entry and a frame belong to. *)
Definition about (x : entry) : nat :=
  match x with LDispatch i _ _ _ _ | LCall i _ _ | LEnd i | LTrigger i _ _ | LVisit i _ | LDone i => i end.

Definition is_start (x : entry) : Prop := match x with LDispatch _ _ _ _ _ | LTrigger _ _ _ => True | _ => False end.

Definition number (f : frame) : option nat :=
  match f with Run d _ _ _ _ => Some d | Path t _ _ _ _ _ _ => Some t | _ => None end.

Lemma calls_other i d es : Forall (fun x => about x = i) es -> d <> i -> calls d es = [].
Proof.
  unfold calls. induction 1 as [|x es Hx _ IH]; intros Hd; [done|]. cbn. rewrite IH by done. destruct x; try done. cbn in Hx.
  by rewrite decide_False by congruence.
Qed.

Lemma visits_other i t es : Forall (fun x => about x = i) es -> t <> i -> visits t es = [].
Proof.
  unfold visits. induction 1 as [|x es Hx _ IH]; intros Hd; [done|]. cbn. rewrite IH by done. destruct x; try done. cbn in Hx.
  by rewrite decide_False by congruence.
Qed.

Lemma dispatch_calls_app d l l' : calls d (l ++ l') = calls d l ++ calls d l'.
Proof. apply flat_map_app. Qed.
Lemma visits_app t l l' : visits t (l ++ l') = visits t l ++ visits t l'.
Proof. apply flat_map_app. Qed.
Lemma chosen_app g l l' : chosen g (l ++ l') = chosen g l ++ chosen g l'.
Proof. unfold chosen, flat. by rewrite flat_map_app, List.filter_app. Qed.

Lemma chosen_prefix g n plan : chosen g (take n plan) `prefix_of` chosen g plan.
Proof. rewrite <- (take_drop n plan) at 2. rewrite chosen_app. by apply prefix_app_r. Qed.

Lemma chosen_group g x l l' : chosen g [(x, l ++ l')] = chosen g [(x, l)] ++ chosen g [(x, l')].
Proof. unfold chosen, flat. cbn. by rewrite !app_nil_r, fmap_app, List.filter_app. Qed.

(** ** The invariant *)

(** How far a dispatch is, with the calls it has made. *)
Definition active (e : event) (g : tag) (plan : list group) (cur : option group) (rest : list group)
    (made : list (nat * hobj)) : Prop :=
  match cur with
  | None => exists n, rest = drop n plan
      /\ (made = chosen g (take n plan)
          \/ (isImmediatePropagationStopped e = true /\ made `prefix_of` chosen g plan))
  | Some (x, l) => exists n l1, plan !! n = Some (x, l1 ++ l) /\ rest = drop (S n) plan
      /\ made = chosen g (take n plan ++ [(x, l1)])
  end.

(** How a dispatch has ended: with all calls, with the calls of whole groups
    when the event was stopped, or at once. *)
Definition ended (e : event) (g : tag) (plan : list group) (made : list (nat * hobj)) : Prop :=
  made = chosen g plan
  \/ (isPropagationStopped e = true /\ exists n, made = chosen g (take n plan))
  \/ isImmediatePropagationStopped e = true.

Definition handler_ok (s : store) (h : hobj) : Prop := exists k, wf_obj (guids s) k h.

Definition groups_ok (s : store) (l : list group) : Prop := Forall (fun p => Forall (handler_ok s) p.2) l.

Definition frame_ok (w : world) (f : frame) : Prop :=
  match f with
  | Run d ev el cur rest => exists e plan, evs w !! ev = Some e /\ LDispatch d ev (e_tag e) el plan ∈ log w
      /\ ~ (LEnd d ∈ log w) /\ active e (e_tag e) plan cur rest (calls d (log w))
      /\ groups_ok (hs w) (option_list cur ++ rest)
  | Path t ev _ _ _ _ path => exists e path0, evs w !! ev = Some e /\ LTrigger t ev path0 ∈ log w
      /\ ~ (LDone t ∈ log w) /\ path0 = visits t (log w) ++ path
  | _ => True
  end.

Definition dispatch_ok (w : world) (d ev : nat) (g : tag) (plan : list group) : Prop :=
  exists e, evs w !! ev = Some e /\ calls d (log w) `prefix_of` chosen g plan
    /\ (LEnd d ∈ log w -> ended e g plan (calls d (log w))).

Definition trigger_ok (w : world) (t ev : nat) (path : list (nat * jstr)) : Prop :=
  exists e, evs w !! ev = Some e /\ visits t (log w) `prefix_of` path
    /\ (LDone t ∈ log w -> visits t (log w) = path \/ isPropagationStopped e = true).

Definition entry_ok (w : world) (x : entry) : Prop :=
  match x with
  | LDispatch d ev g _ plan => dispatch_ok w d ev g plan
  | LTrigger t ev path => trigger_ok w t ev path
  | _ => True
  end.

Record good (w : world) : Prop := {
  g_store : wf (hs w);
  g_events : Forall (fun e => isImmediatePropagationStopped e = true -> isPropagationStopped e = true) (evs w);
  g_frames : Forall (frame_ok w) (stack w);
  g_numbers : NoDup (omap number (stack w));
  g_next : Forall (fun i => (i < next w)%nat) (omap number (stack w));
  g_log : Forall (fun x => (about x < next w)%nat /\ entry_ok w x) (log w);
  g_unique : forall x y, x ∈ log w -> y ∈ log w -> is_start x -> is_start y -> about x = about y -> x = y;
}.

(** *** Changes *)

(** An event keeps its tag, and a flag that is set stays set. *)
Definition later_event (e e' : event) : Prop :=
  e_tag e' = e_tag e /\ (isPropagationStopped e = true -> isPropagationStopped e' = true)
  /\ (isImmediatePropagationStopped e = true -> isImmediatePropagationStopped e' = true).

(** The store, the events and the log grow; the log by entries about [i]. *)
Record grows (i : nat) (w w' : world) : Prop := {
  gr_store : wf (hs w');
  gr_numbered : numbered (hs w) (hs w');
  gr_events : Forall (fun e => isImmediatePropagationStopped e = true -> isPropagationStopped e = true) (evs w');
  gr_later : forall ev e, evs w !! ev = Some e -> exists e', evs w' !! ev = Some e' /\ later_event e e';
  gr_log : exists es, log w' = log w ++ es /\ Forall (fun x => about x = i) es;
  gr_next : (next w <= next w')%nat;
}.

Lemma handler_ok_numbered s s' h : numbered s s' -> handler_ok s h -> handler_ok s' h.
Proof.
  intros Hn [k []]. exists k. split; try done. by eapply lookup_weaken.
Qed.

Lemma groups_ok_numbered s s' l : numbered s s' -> groups_ok s l -> groups_ok s' l.
Proof.
  intros Hn Hl. eapply Forall_impl; [exact Hl|]. intros p Hp. eapply Forall_impl; [exact Hp|].
  intros h. by apply handler_ok_numbered.
Qed.

Lemma active_later e e' g plan cur rest made :
  later_event e e' -> active e g plan cur rest made -> active e' g plan cur rest made.
Proof.
  intros (_ & _ & Hi). destruct cur as [[x l]|]; [done|]. intros (n & Hr & Hm). exists n. split; [done|].
  destruct Hm as [|[? ?]]; auto.
Qed.

Lemma ended_later e e' g plan made : later_event e e' -> ended e g plan made -> ended e' g plan made.
Proof. intros (_ & Hs & Hi) [|[[? ?]|?]]; unfold ended; auto. Qed.

Lemma not_about i x lg es :
  about x <> i -> Forall (fun x => about x = i) es -> x ∈ lg ++ es <-> x ∈ lg.
Proof.
  intros Hx Hes. rewrite elem_of_app. split; [|auto]. intros [|Hin]; [done|]. rewrite Forall_forall in Hes.
  by destruct Hx; apply Hes.
Qed.

Lemma frame_grows i w w' f : grows i w w' -> number f <> Some i -> frame_ok w f -> frame_ok w' f.
Proof.
  intros G Hf. destruct (gr_log _ _ _ G) as (es & Hlog & Hes).
  destruct f as [|d ev el cur rest| |t ev elem type only at_ path| | |]; cbn; try done.
  - assert (d <> i) as Hd by (cbn in Hf; congruence).
    intros (e & plan & He & Hin & Hend & Ha & Hg). destruct (gr_later _ _ _ G ev e He) as (e' & He' & Hl).
    exists e', plan. rewrite Hlog, !(not_about i) by done. rewrite dispatch_calls_app, (calls_other i d es), app_nil_r by done.
    pose proof Hl as (-> & _). split_and!; try done; [by eapply active_later|].
    eapply groups_ok_numbered; [apply G|done].
  - assert (t <> i) as Hd by (cbn in Hf; congruence).
    intros (e & path0 & He & Hin & Hend & Hp). destruct (gr_later _ _ _ G ev e He) as (e' & He' & Hl).
    exists e', path0. rewrite Hlog, !(not_about i) by done. rewrite visits_app, (visits_other i t es), app_nil_r by done.
    by split_and!.
Qed.

Lemma entry_grows i w w' x : grows i w w' -> about x <> i -> entry_ok w x -> entry_ok w' x.
Proof.
  intros G Hx. destruct (gr_log _ _ _ G) as (es & Hlog & Hes). destruct x as [d ev g el plan| | |t ev path| |]; cbn in *; try done.
  - intros (e & He & Hp & Hend). destruct (gr_later _ _ _ G ev e He) as (e' & He' & Hl). exists e'.
    rewrite Hlog, !(not_about i) by done. rewrite dispatch_calls_app, (calls_other i d es), app_nil_r by done.
    split_and!; try done. intros H1. eapply ended_later; eauto.
  - intros (e & He & Hp & Hend). destruct (gr_later _ _ _ G ev e He) as (e' & He' & Hl). exists e'.
    rewrite Hlog, !(not_about i) by done. rewrite visits_app, (visits_other i t es), app_nil_r by done.
    split_and!; try done. intros H1. destruct (Hend H1) as [|Hs]; [by left|right]. by apply Hl.
Qed.

(** A step that concerns the number [i]: the frames [fs] are new or changed. *)
Lemma good_about i w w' fs st :
  good w -> grows i w w' -> (i < next w')%nat ->
  stack w' = fs ++ st -> Forall (frame_ok w) st -> NoDup (omap number st) -> Forall (fun j => (j < next w)%nat) (omap number st) ->
  Some i ∉ number <$> st ->
  Forall (frame_ok w') fs -> omap number fs = [] \/ omap number fs = [i] ->
  Forall (fun x => about x = i -> entry_ok w' x) (log w') ->
  (forall x y, x ∈ log w' -> y ∈ log w' -> is_start x -> is_start y -> about x = i -> about y = i -> x = y) ->
  good w'.
Proof.
  intros [G1 G2 G3 G4 G5 G6 G7] G Hi Hst Hfr Hnd Hlt Hni Hfs Hids Hent Huni. destruct (gr_log _ _ _ G) as (es & Hlog & Hes).
  pose proof (gr_next _ _ _ G) as Hnx. split; [apply G|apply G|..].
  - rewrite Hst. apply Forall_app. split; [done|]. rewrite Forall_forall in Hfr |- *. intros f Hf.
    apply (frame_grows i w); [done| |auto]. intros Hn. apply Hni. rewrite <- Hn. by apply list_elem_of_fmap_2.
  - rewrite Hst, omap_app. apply NoDup_app. split_and!; [|intros j Hj|done].
    + destruct Hids as [-> | ->]; [constructor|apply NoDup_singleton].
    + assert (j = i) as -> by (destruct Hids as [E|E]; rewrite E in Hj; set_solver).
      intros (f & Hf & Hn)%list_elem_of_omap. apply Hni. rewrite <- Hn. by apply list_elem_of_fmap_2.
  - rewrite Hst, omap_app. apply Forall_app. split.
    + destruct Hids as [-> | ->]; by repeat constructor.
    + eapply Forall_impl; [exact Hlt|]. cbn. lia.
  - rewrite Hlog in *. rewrite Forall_forall in G6, Hent, Hes |- *. intros x Hx. split.
    + apply elem_of_app in Hx as [Hx|Hx]; [destruct (G6 x Hx); lia|]. by rewrite (Hes x Hx).
    + destruct (decide (about x = i)) as [Hxi|Hxi]; [auto|]. apply (entry_grows i w); [done..|].
      apply elem_of_app in Hx as [Hx|Hx]; [by apply G6|]. by destruct Hxi; apply Hes.
  - intros x y Hx Hy Sx Sy Hxy. destruct (decide (about x = i)) as [Hxi|Hxi]; [apply Huni; (done || congruence)|].
    rewrite Hlog in Hx, Hy. apply (not_about i) in Hx; [|done|done]. apply (not_about i) in Hy; [|congruence|done]. by apply G7.
Qed.

(** *** Changes that log nothing *)

Lemma good_quiet w w' :
  good w -> grows (next w) w w' -> log w' = log w ->
  Forall (fun f => number f = None \/ f ∈ stack w) (stack w') ->
  omap number (stack w') `sublist_of` omap number (stack w) -> good w'.
Proof.
  intros [G1 G2 G3 G4 G5 G6 G7] G Hlog Hst Hsub. pose proof (gr_next _ _ _ G) as Hnx.
  rewrite Forall_forall in G3, Hst. rewrite Forall_forall in G5. rewrite Forall_forall in G6. split; [apply G|apply G|..].
  - apply Forall_forall. intros f Hf. destruct (Hst f Hf) as [Hn|Hin]; [by destruct f|].
    apply (frame_grows (next w) w); [done| |auto]. intros Hn. specialize (G5 (next w)).
    enough (next w < next w)%nat by lia. apply G5. apply list_elem_of_omap. eauto.
  - by eapply sublist_NoDup.
  - apply Forall_forall. intros j Hj. specialize (G5 j). assert (j < next w)%nat; [|lia]. apply G5. by eapply elem_of_sublist.
  - rewrite Hlog. apply Forall_forall. intros x Hx. destruct (G6 x Hx) as [Hlt He]. split; [lia|].
    apply (entry_grows (next w) w); [done|lia|done].
  - by rewrite Hlog.
Qed.

Definition unstopped (e : event) : Prop := isImmediatePropagationStopped e = true -> isPropagationStopped e = true.

(** What library and page do to an event. *)
Definition tame (f : event -> event) : Prop := forall e, later_event e (f e) /\ (unstopped e -> unstopped (f e)).

Lemma later_refl e : later_event e e.
Proof. by split_and!. Qed.

Lemma grows_refl i w : good w -> grows i w w.
Proof.
  intros [G1 G2 _ _ _ _ _]. split; try done; [|by exists []; rewrite app_nil_r].
  intros ev e He. exists e. split; [done|apply later_refl].
Qed.

Lemma grows_stack i w st : good w -> grows i w (w <| stack := st |>).
Proof. intros G. destruct (grows_refl i w G) as [H1 H2 H3 H4 H5 H6]. by split. Qed.

Lemma grows_event i ev f w : good w -> tame f -> grows i w (change_event ev f w).
Proof.
  intros G Hf. destruct G as [G1 G2 _ _ _ _ _]. split; cbn; try done; [| |by exists []; rewrite app_nil_r].
  - rewrite Forall_forall in G2 |- *. intros e' [j Hj]%list_elem_of_lookup. destruct (decide (j = ev)) as [->|Hne].
    + rewrite list_lookup_alter_eq in Hj. destruct (evs w !! ev) as [e|] eqn:He; [|done]. injection Hj as <-.
      apply Hf. unfold unstopped. intros Hi. apply G2; [by eapply list_elem_of_lookup_2|done].
    + rewrite list_lookup_alter_ne in Hj by done. by apply G2; eapply list_elem_of_lookup_2.
  - intros j e He. destruct (decide (j = ev)) as [->|Hne].
    + rewrite list_lookup_alter_eq, He. eexists. split; [done|apply Hf].
    + rewrite list_lookup_alter_ne by done. exists e. split; [done|apply later_refl].
Qed.

Lemma good_event ev f w : good w -> tame f -> good (change_event ev f w).
Proof.
  intros G Hf. apply (good_quiet w); [done|by apply grows_event|done|..|done]. apply Forall_forall. auto.
Qed.

(** The stack changes by frames that have no number. *)
Lemma good_stack w st :
  good w -> Forall (fun f => number f = None \/ f ∈ stack w) st ->
  omap number st `sublist_of` omap number (stack w) -> good (w <| stack := st |>).
Proof.
  intros G Hst Hsub. apply (good_quiet w); [done|by apply grows_stack|done|done|done].
Qed.

Lemma good_push f w : good w -> number f = None -> good (push f w).
Proof.
  intros G Hf. apply (good_stack w (f :: stack w)); [done|..].
  - constructor; [by left|]. apply Forall_forall. auto.
  - cbn. by rewrite Hf.
Qed.

Lemma good_suffix w fs st : good w -> stack w = fs ++ st -> good (w <| stack := st |>).
Proof.
  intros G Hst. apply good_stack; [done|..]; rewrite Hst.
  - apply Forall_forall. intros f Hf. right. by apply elem_of_app; right.
  - rewrite omap_app. by apply sublist_inserts_l.
Qed.

Lemma good_with_store w s : good w -> wf s -> numbered (hs w) s -> good (w <| hs := s |>).
Proof.
  intros G Hs Hn. apply (good_quiet w); [done| |done|apply Forall_forall; auto|done].
  destruct (grows_refl (next w) w G) as [H1 H2 H3 H4 H5 H6]. by split.
Qed.

(** Fields of the page. *)
Lemma good_fields w w' :
  good w -> hs w' = hs w -> evs w' = evs w -> next w' = next w -> stack w' = stack w -> log w' = log w -> good w'.
Proof.
  intros G H1 H2 H3 H4 H5. apply (good_quiet w); [done| |done|rewrite H4; apply Forall_forall; auto|by rewrite H4].
  destruct (grows_refl (next w) w G) as [G1 G2 G3 G4 G5 G6]. split; by rewrite ?H1, ?H2, ?H3, ?H5.
Qed.

(** *** Calling and returning *)

Ltac tame := intros ?; split; [by split_and!|unfold unstopped; cbn; by auto].

Lemma take_result_good ev v w : good w -> good (take_result ev v w).
Proof. intros G. destruct v; cbn; [done|..]; apply good_event; (done || tame). Qed.

Lemma deliver_good v st w fs : good w -> stack w = fs ++ st -> good (deliver v st w).
Proof.
  revert w fs. induction st as [|f st IH]; intros w fs G Hst; [by apply (good_suffix w fs)|].
  assert (stack w = (fs ++ [f]) ++ st) as Hst' by by rewrite <- app_assoc.
  destruct f as [|d ev el cur rest|ev fx| |ev|elem type old|]; cbn; try by apply (good_suffix w fs).
  - apply take_result_good. by apply (good_suffix w fs).
  - apply (IH _ (fs ++ [Hover ev fx])); [|done]. apply good_event; [done|tame].
  - case_decide; [apply good_event; [|tame]|]; by apply (good_suffix w (fs ++ [Inline ev])).
  - pose proof (good_suffix w _ _ G Hst') as G'.
    by destruct old; apply (good_fields (w <| stack := st |>)).
Qed.

Lemma call_good f el h w : good w -> handler_ok (hs w) h -> good (call f el h w).
Proof.
  revert w. induction f as [n| |g IH]; intros w G Hh; cbn.
  - by apply good_push.
  - by apply (deliver_good _ _ w []).
  - destruct (off_event el h (hs w)) as [s|] eqn:E; [|by apply IH].
    destruct Hh as [k Hh]. destruct (off_event_spec el h k (hs w) (table_of (hs w))) as (s' & E' & [W _]); [by split; [apply G|]|done|].
    simplify_eq. assert (numbered (hs w) s) as Hn by by apply (off_types_numbered _ _ _ _ _ _ E).
    apply IH; [by apply good_with_store|]. cbn. eapply handler_ok_numbered; [exact Hn|]. by exists k.
Qed.

Lemma apply_handler_good elem el ev h w : good w -> handler_ok (hs w) h -> good (apply_handler elem el ev h w).
Proof.
  intros G Hh. unfold apply_handler. destruct (hover _); [|by apply call_good]. destruct (evs w !! ev) as [e|]; [|done].
  destruct (match e_related e with Some _ => _ | None => _ end); [|done].
  apply call_good; [|done]. apply good_push; [|done]. apply good_event; [done|tame].
Qed.

(** *** A dispatch or a trigger begins *)

Lemma calls_none d lg : Forall (fun x => about x <> d) lg -> calls d lg = [].
Proof.
  unfold calls. induction 1 as [|x lg Hx _ IH]; [done|]. cbn. rewrite IH. destruct x; try done. cbn in Hx. by rewrite decide_False.
Qed.

Lemma visits_none t lg : Forall (fun x => about x <> t) lg -> visits t lg = [].
Proof.
  unfold visits. induction 1 as [|x lg Hx _ IH]; [done|]. cbn. rewrite IH. destruct x; try done. cbn in Hx. by rewrite decide_False.
Qed.

Lemma fresh_log w : good w -> Forall (fun x => about x <> next w) (log w).
Proof. intros G. eapply Forall_impl; [apply G|]. cbn. intros x [? _]. lia. Qed.

Lemma fresh_stack w : good w -> Some (next w) ∉ number <$> stack w.
Proof.
  intros G (f & Hn & Hf)%list_elem_of_fmap. pose proof (g_next _ G) as HF. rewrite Forall_forall in HF.
  enough (next w < next w)%nat by lia. apply HF. apply list_elem_of_omap. eauto.
Qed.

Lemma fresh_entry w x : good w -> about x = next w -> ~ (x ∈ log w).
Proof. intros G Hx Hin. pose proof (fresh_log w G) as HF. rewrite Forall_forall in HF. by apply (HF x). Qed.

(** A new number: one entry is logged, one frame is put on the stack. *)
Lemma good_new w w' x f :
  good w -> grows (next w) w w' -> log w' = log w ++ [x] -> about x = next w ->
  next w' = S (next w) -> stack w' = f :: stack w -> frame_ok w' f -> number f = Some (next w) -> entry_ok w' x ->
  good w'.
Proof.
  intros G Hg Hlog Hx Hn Hst Hf Hnf He. pose proof G as [G1 G2 G3 G4 G5 G6 G7].
  apply (good_about (next w) w w' [f] (stack w)); try done; [lia|by apply fresh_stack|by constructor| | |].
  - right. cbn. by rewrite Hnf.
  - rewrite Hlog. apply Forall_app. split; [|by repeat constructor]. eapply Forall_impl; [by apply fresh_log|]. cbn. done.
  - assert (forall y, y ∈ log w' -> about y = next w -> y = x) as Hy; [|intros y z Hy1 Hz _ _ ? ?; by rewrite (Hy y), (Hy z)].
    intros y Hin Hyn. rewrite Hlog in Hin. apply elem_of_app in Hin as [Hin|Hin]; [by apply fresh_entry in Hin|].
    by apply list_elem_of_singleton in Hin.
Qed.

Lemma list_ok s d el k l : wf s -> data s !! el = Some d -> events d !! k = Some l -> Forall (handler_ok s) (objs l).
Proof.
  intros [W _] Hd Hl. destruct (w_lists _ W el d Hd) as [_ Hls]. destruct (Hls k l Hl) as [_ [[_ _ _ Ho] _]].
  eapply Forall_impl; [exact Ho|]. intros h Hh. by exists k.
Qed.

Lemma handlers_ok el type s : wf s -> Forall (handler_ok s) (objs (handlers_of el type s)).
Proof.
  intros W. unfold handlers_of. destruct (data s !! el) as [d|] eqn:Hd; [|constructor]. cbn.
  destruct (events d !! type) as [l|] eqn:Hl; [by eapply list_ok|constructor].
Qed.

Lemma plan_ok el e w : wf (hs w) -> groups_ok (hs w) (handlerQueue el e w).
Proof.
  intros W. pose proof (handlers_ok el (e_type e) (hs w) W) as Ho. unfold handlerQueue.
  set (l := handlers_of el (e_type e) (hs w)) in *. apply Forall_app. split.
  - destruct (_ && _); [|constructor]. apply Forall_flat_map, Forall_forall. intros n _. unfold delegated.
    destruct (disabled (doc w) n); [constructor|].
    pose proof (Forall_filter _ (sel_match (doc w) n) _ (Forall_take _ (Z.to_nat (delegateCount l)) _ Ho)) as HF.
    destruct (List.filter _ _); [constructor|]. by apply Forall_singleton.
  - pose proof (Forall_drop _ (Z.to_nat (delegateCount l)) _ Ho) as HF. destruct (drop _ _); [constructor|].
    by apply Forall_singleton.
Qed.

Lemma dispatch_good el ev w : good w -> good (dispatch el ev w).
Proof.
  intros G. unfold dispatch. destruct (evs w !! ev) as [e|] eqn:He; [|done].
  set (plan := handlerQueue el e w). set (f := fun e => e <| e_delegateTarget := Some el |>).
  set (w' := push _ _).
  assert (grows (next w) w w') as Hg.
  { destruct (grows_event (next w) ev f w G) as [H1 H2 H3 H4 H5 H6]; [tame|]. split; try done; [|cbn; lia].
    exists [LDispatch (next w) ev (e_tag e) el plan]. split; [done|]. by repeat constructor. }
  assert (evs w' !! ev = Some (f e)) as He' by (cbn; by rewrite list_lookup_alter_eq, He).
  assert (log w' = log w ++ [LDispatch (next w) ev (e_tag e) el plan]) as Hlog by done.
  assert (calls (next w) (log w') = []) as Hc.
  { rewrite Hlog, dispatch_calls_app, calls_none by by apply fresh_log. done. }
  assert (LEnd (next w) ∉ log w') as Hend.
  { rewrite Hlog, elem_of_app, list_elem_of_singleton. intros [Hin|]; [|done]. by apply fresh_entry in Hin. }
  apply (good_new w w' (LDispatch (next w) ev (e_tag e) el plan) (Run (next w) ev el None plan)); try done.
  - cbn. exists (f e), plan. split_and!; [done|by apply elem_of_app; right; left|done| |apply plan_ok, G].
    exists 0%nat. split; [done|]. left. exact Hc.
  - cbn. exists (f e). rewrite Hc. split_and!; [done|by apply prefix_nil|done].
Qed.

Lemma call_handle_good hd ev w : good w -> good (call_handle hd ev w).
Proof.
  intros G. unfold call_handle. destruct (handles (hs w) !! hd) as [[el|]|]; [|done..].
  destruct (evs w !! ev); [|done]. case_decide; [done|by apply dispatch_good].
Qed.

Lemma grows_new_event i e w : good w -> unstopped e -> grows i w (w <| evs ::= fun l => l ++ [e] |>).
Proof.
  intros G He. destruct (grows_refl i w G) as [H1 H2 H3 H4 H5 H6]. split; try done.
  - cbn. apply Forall_app. split; [done|]. by constructor.
  - intros ev e' He'. exists e'. split; [|apply later_refl]. cbn. by apply lookup_app_l_Some.
Qed.

Lemma trigger_event_good elem type g only w : good w -> good (trigger_event elem type g only w).
Proof.
  intros G. unfold trigger_event. destruct (_ && _); [done|]. set (path := eventPath (doc w) elem type only).
  set (w' := push _ _).
  assert (grows (next w) w w') as Hg.
  { destruct (grows_new_event (next w) (new_event type elem None 0 g) w G) as [H1 H2 H3 H4 H5 H6]; [done|].
    split; try done; [|cbn; lia]. exists [LTrigger (next w) (length (evs w)) path]. split; [done|]. by repeat constructor. }
  assert (evs w' !! length (evs w) = Some (new_event type elem None 0 g)) as He by (cbn; by apply list_lookup_middle).
  assert (log w' = log w ++ [LTrigger (next w) (length (evs w)) path]) as Hlog by done.
  assert (visits (next w) (log w') = []) as Hc.
  { rewrite Hlog, visits_app, visits_none by by apply fresh_log. done. }
  assert (LDone (next w) ∉ log w') as Hend.
  { rewrite Hlog, elem_of_app, list_elem_of_singleton. intros [Hin|]; [|done]. by apply fresh_entry in Hin. }
  apply (good_new w w' (LTrigger (next w) (length (evs w)) path) (Path (next w) (length (evs w)) elem type only None path)); try done.
  - exists (new_event type elem None 0 g), path. split_and!; [done|by apply elem_of_app; right; left|done|]. by rewrite Hc.
  - exists (new_event type elem None 0 g). rewrite Hc. split_and!; [done|by apply prefix_nil|done].
Qed.

Lemma trigger_good elem text only w : good w -> good (trigger elem text only w).
Proof.
  intros G. unfold trigger. destruct (_ || _); [done|]. destruct (rfocusMorph _); [done|].
  destruct (trigger_text text) as [type g]. by apply trigger_event_good.
Qed.

Lemma simulate_good fx elem w : good w -> good (simulate fx elem w).
Proof.
  intros G. unfold simulate. destruct (_ || _); [done|]. destruct (rfocusMorph _); [done|]. by apply trigger_event_good.
Qed.

(** *** The loops *)

(** The top frame, with the number [i], is replaced by [fs]. *)
Lemma good_top i w w' f fs st es :
  good w -> stack w = f :: st -> number f = Some i -> grows i w w' -> next w' = next w ->
  log w' = log w ++ es -> Forall (fun x => about x = i /\ ~ is_start x) es ->
  stack w' = fs ++ st -> Forall (frame_ok w') fs -> omap number fs = [] \/ omap number fs = [i] ->
  (forall x, x ∈ log w -> is_start x -> about x = i -> entry_ok w' x) -> good w'.
Proof.
  intros G Hst Hf Hg Hn Hlog Hes Hst' Hfs Hids Hent. pose proof G as [G1 G2 G3 G4 G5 G6 G7]. rewrite Hst in G3, G4, G5. cbn in G4, G5. rewrite Hf in G4, G5.
  apply Forall_cons in G3 as [_ G3]. apply NoDup_cons in G4 as [Hni G4]. apply Forall_cons in G5 as [Hi G5].
  assert (forall x, x ∈ log w' -> is_start x -> x ∈ log w) as Hstart.
  { intros x Hx Hs. rewrite Hlog in Hx. apply elem_of_app in Hx as [|Hx]; [done|]. rewrite Forall_forall in Hes.
    by destruct (Hes x Hx). }
  apply (good_about i w w' fs st); try done; [lia| | |].
  - intros (g & Hg1 & Hg2)%list_elem_of_fmap. apply Hni. apply list_elem_of_omap. eauto.
  - apply Forall_forall. intros x Hx Hxi. assert (is_start x \/ ~ is_start x) as [Hs|Hs] by (destruct x; cbn; auto).
    + by apply Hent; [apply Hstart|..].
    + by destruct x.
  - intros x y Hx Hy Sx Sy ? ?. apply G7; auto. congruence.
Qed.

Lemma plan_split (plan : list group) n x l : plan !! n = Some (x, l) -> take (S n) plan = take n plan ++ [(x, l)].
Proof. apply take_S_r. Qed.

Lemma chosen_group_prefix g plan n x l1 l :
  plan !! n = Some (x, l1 ++ l) -> chosen g (take n plan ++ [(x, l1)]) `prefix_of` chosen g plan.
Proof.
  intros Hn. transitivity (chosen g (take (S n) plan)); [|apply chosen_prefix]. rewrite (plan_split _ _ _ _ Hn).
  rewrite !chosen_app, chosen_group. apply prefix_app. by apply prefix_app_r.
Qed.

Lemma active_prefix e g plan cur rest made : active e g plan cur rest made -> made `prefix_of` chosen g plan.
Proof.
  destruct cur as [[x l]|].
  - intros (n & l1 & Hn & _ & ->). by eapply chosen_group_prefix.
  - intros (n & _ & [-> |[_ Hp]]); [apply chosen_prefix|done].
Qed.

(** The loop ends. *)
Lemma active_ended e g plan rest made :
  active e g plan None rest made -> rest = [] \/ isPropagationStopped e = true -> ended e g plan made.
Proof.
  intros (n & Hr & Hm) Hend. destruct Hm as [-> |[Hi _]]; [|by right; right]. destruct Hend as [-> |Hs].
  - left. f_equal. rewrite <- (take_drop n plan) at 2. by rewrite <- Hr, app_nil_r.
  - right. left. split; [done|by exists n].
Qed.

Section RunStep.
Context (w : world) (d ev el : nat) (cur : option group) (rest : list group) (st : list frame) (e : event).
Hypothesis G : good w.
Hypothesis Hst : stack w = Run d ev el cur rest :: st.
Hypothesis He : evs w !! ev = Some e.

Lemma run_frame :
  exists plan, LDispatch d ev (e_tag e) el plan ∈ log w /\ ~ (LEnd d ∈ log w)
    /\ active e (e_tag e) plan cur rest (calls d (log w)) /\ groups_ok (hs w) (option_list cur ++ rest)
    /\ (forall x, x ∈ log w -> is_start x -> about x = d -> x = LDispatch d ev (e_tag e) el plan).
Proof.
  pose proof (g_frames _ G) as HF. rewrite Hst in HF. apply Forall_cons in HF as [(e' & plan & He' & Hin & Hend & Ha & Hg) _].
  simplify_eq. exists plan. split_and!; try done. intros x Hx Hs Hxd. by apply (g_unique _ G).
Qed.

(** The frame goes on with another position; [made] calls are logged. *)
Lemma run_moves w' cur' rest' made :
  (forall plan, active e (e_tag e) plan cur rest (calls d (log w)) ->
     active e (e_tag e) plan cur' rest' (calls d (log w) ++ made)) ->
  (groups_ok (hs w) (option_list cur ++ rest) -> groups_ok (hs w) (option_list cur' ++ rest')) ->
  grows d w w' -> next w' = next w -> hs w' = hs w ->
  log w' = log w ++ ((fun p => LCall d p.1 p.2) <$> made) -> stack w' = Run d ev el cur' rest' :: st -> good w'.
Proof.
  intros Hact Hgr Hg Hn Hh Hlog Hst'. destruct run_frame as (plan & Hin & Hend & Ha & Hok & Huni).
  destruct (gr_later _ _ _ Hg ev e He) as (e' & He' & Hl).
  assert (calls d (log w') = calls d (log w) ++ made) as Hcalls.
  { rewrite Hlog, dispatch_calls_app. f_equal. clear. induction made as [|[x h] l IH]; [done|]. cbn. rewrite decide_True by done.
    cbn. f_equal. exact IH. }
  assert (LEnd d ∉ log w') as Hend'.
  { rewrite Hlog, elem_of_app. intros [|Hx]; [done|]. by apply list_elem_of_fmap in Hx as (? & ? & _). }
  specialize (Hact plan Ha). rewrite <- Hcalls in Hact.
  apply (good_top d w w' (Run d ev el cur rest) [Run d ev el cur' rest'] st ((fun p => LCall d p.1 p.2) <$> made)); try done.
  - apply Forall_fmap, Forall_forall. intros [x h] _. split; [done|by intros []].
  - constructor; [|done]. exists e', plan. pose proof Hl as (-> & _). split_and!; try done.
    + rewrite Hlog. by apply elem_of_app; left.
    + by eapply active_later.
    + rewrite Hh. by apply Hgr.
  - by right.
  - intros x Hx Hs Hxd. rewrite (Huni x Hx Hs Hxd). exists e'.
    split_and!; [done|exact (active_prefix _ _ _ _ _ _ Hact)|done].
Qed.

Lemma run_ends : cur = None -> rest = [] \/ isPropagationStopped e = true -> good (logged (LEnd d) (w <| stack := st |>)).
Proof.
  intros Hc Hr. destruct run_frame as (plan & Hin & Hend & Ha & Hok & Huni). rewrite Hc in Ha.
  set (w' := logged _ _). assert (calls d (log w') = calls d (log w)) as Hcalls.
  { change (log w') with (log w ++ [LEnd d]). rewrite dispatch_calls_app. apply app_nil_r. }
  apply (good_top d w w' (Run d ev el cur rest) [] st [LEnd d]); try done.
  - destruct (grows_refl d w G) as [H1 H2 H3 H4 H5 H6]. split; try done. exists [LEnd d]. split; [done|]. by repeat constructor.
  - constructor; [by split; [|intros []]|constructor].
  - by left.
  - intros x Hx Hs Hxd. rewrite (Huni x Hx Hs Hxd). exists e. rewrite Hcalls.
    split_and!; [done|exact (active_prefix _ _ _ _ _ _ Ha)|]. intros _. exact (active_ended _ _ _ _ _ Ha Hr).
Qed.

Lemma drop_cons_lookup {A} (l : list A) n x r : drop n l = x :: r -> l !! n = Some x /\ drop (S n) l = r.
Proof.
  intros Hd. split.
  - rewrite <- (Nat.add_0_r n), <- lookup_drop, Hd. done.
  - by rewrite <- Nat.add_1_r, <- drop_drop, Hd.
Qed.

Lemma active_next g plan b rest' made :
  isPropagationStopped e = false -> active e g plan None (b :: rest') made -> active e g plan (Some b) rest' made.
Proof.
  intros Hs (n & Hr & Hm). destruct b as [x l]. symmetry in Hr. apply drop_cons_lookup in Hr as [Hn Hr].
  exists n, []. split_and!; [done|done|]. destruct Hm as [-> |[Hi _]].
  - rewrite chosen_app. by rewrite app_nil_r.
  - pose proof (g_events _ G) as HF. rewrite Forall_forall in HF.
    assert (isPropagationStopped e = true) by (apply HF; [by eapply list_elem_of_lookup_2|done]). congruence.
Qed.

Lemma active_group_end g plan x made : active e g plan (Some (x, [])) rest made -> active e g plan None rest made.
Proof.
  intros (n & l1 & Hn & Hr & ->). rewrite app_nil_r in Hn. exists (S n). split; [done|]. left.
  by rewrite (plan_split _ _ _ _ Hn).
Qed.

Lemma active_break g plan x l made :
  isImmediatePropagationStopped e = true -> active e g plan (Some (x, l)) rest made -> active e g plan None rest made.
Proof.
  intros Hi Ha. pose proof (active_prefix _ _ _ _ _ _ Ha) as Hp. destruct Ha as (n & l1 & Hn & Hr & _).
  exists (S n). split; [done|]. by right.
Qed.

Lemma active_handler g plan x h l made :
  active e g plan (Some (x, h :: l)) rest made ->
  active e g plan (Some (x, l)) rest (made ++ if runs g h then [(x, h)] else []).
Proof.
  intros (n & l1 & Hn & Hr & ->). exists n, (l1 ++ [h]). split_and!; [by rewrite <- app_assoc|done|].
  rewrite !chosen_app, chosen_group, <- app_assoc. done.
Qed.

Lemma groups_ok_rest s b l : groups_ok s (b :: l) -> groups_ok s l.
Proof. intros [_ ?]%Forall_cons. done. Qed.

(** A change of the event and the top frame. *)
Lemma grows_moves f st' : tame f -> grows d w ((change_event ev f w) <| stack := st' |>).
Proof. intros Hf. destruct (grows_event d ev f w G Hf) as [H1 H2 H3 H4 H5 H6]. by split. Qed.

End RunStep.

Lemma run_step_good w d ev el cur rest st e :
  good w -> stack w = Run d ev el cur rest :: st -> evs w !! ev = Some e ->
  good (run_step d ev el cur rest e (w <| stack := st |>)).
Proof.
  intros G Hst He. pose proof (run_moves w d ev el cur rest st e G Hst He) as Hmoves.
  pose proof (run_ends w d ev el cur rest st e G Hst He) as Hends. pose proof (grows_moves w d ev G) as Hgm.
  destruct (run_frame w d ev el cur rest st e G Hst He) as (_ & _ & _ & _ & Hok & _). unfold run_step. destruct cur as [[x [|h l]]|].
  - apply (Hmoves _ None rest []); try done.
    + intros plan Ha. rewrite app_nil_r. by eapply active_group_end.
    + apply groups_ok_rest.
    + by apply (grows_stack d w).
    + cbn. by rewrite app_nil_r.
  - destruct (isImmediatePropagationStopped e) eqn:Ei.
    + apply (Hmoves _ None rest []); try done.
      * intros plan Ha. rewrite app_nil_r. by eapply active_break.
      * apply groups_ok_rest.
      * by apply (grows_stack d w).
      * cbn. by rewrite app_nil_r.
    + apply Forall_cons in Hok as [[Hh Hl]%Forall_cons Hrest]. cbn in Hh, Hl.
      assert (groups_ok (hs w) (option_list (Some (x, l)) ++ rest)) as Hok by by constructor.
      destruct (runs (e_tag e) h) eqn:Er.
      * apply apply_handler_good; [|done]. apply (Hmoves _ (Some (x, l)) rest [(x, h)]); try done.
        -- intros plan Ha. apply active_handler in Ha. by rewrite Er in Ha.
        -- set (f := fun e => _ : event). assert (tame f) as Hf by tame.
           destruct (Hgm f (Run d ev el (Some (x, l)) rest :: st) Hf) as [H1 H2 H3 H4 H5 H6]. split; try done.
           exists [LCall d x h]. split; [done|]. by repeat constructor.
      * apply (Hmoves _ (Some (x, l)) rest []); try done.
        -- intros plan Ha. apply active_handler in Ha. by rewrite Er in Ha.
        -- by apply (grows_stack d w).
        -- cbn. by rewrite app_nil_r.
  - destruct rest as [|b rest']; [apply Hends; auto|]. destruct (isPropagationStopped e) eqn:Es; [apply Hends; auto|].
    apply (Hmoves _ (Some b) rest' []); try done.
    + intros plan Ha. rewrite app_nil_r. by apply (active_next w ev).
    + apply (Hgm (fun e => e <| e_currentTarget := Some b.1 |>) (Run d ev el (Some b) rest' :: st)). tame.
    + cbn. by rewrite app_nil_r.
Qed.

Section PathStep.
Context (w : world) (t ev elem : nat) (type : jstr) (only : bool) (at_ : option nat) (path : list (nat * jstr)) (st : list frame)
  (e : event).
Hypothesis G : good w.
Hypothesis Hst : stack w = Path t ev elem type only at_ path :: st.
Hypothesis He : evs w !! ev = Some e.

Lemma path_frame :
  exists path0, LTrigger t ev path0 ∈ log w /\ ~ (LDone t ∈ log w) /\ path0 = visits t (log w) ++ path
    /\ (forall x, x ∈ log w -> is_start x -> about x = t -> x = LTrigger t ev path0).
Proof.
  pose proof (g_frames _ G) as HF. rewrite Hst in HF. apply Forall_cons in HF as [(e' & path0 & He' & Hin & Hend & Hp) _].
  simplify_eq. eexists. split_and!; try done. intros x Hx Hs Hxd. by apply (g_unique _ G).
Qed.

Lemma path_moves w' at' path' made :
  path = made ++ path' -> grows t w w' -> next w' = next w -> log w' = log w ++ (LVisit t <$> made) ->
  stack w' = Path t ev elem type only at' path' :: st -> good w'.
Proof.
  intros Hp Hg Hn Hlog Hst'. destruct path_frame as (path0 & Hin & Hend & Hp0 & Huni).
  destruct (gr_later _ _ _ Hg ev e He) as (e' & He' & Hl).
  assert (visits t (log w') = visits t (log w) ++ made) as Hvis.
  { rewrite Hlog, visits_app. f_equal. clear. induction made as [|x l IH]; [done|]. cbn. rewrite decide_True by done.
    cbn. f_equal. exact IH. }
  assert (LDone t ∉ log w') as Hend'.
  { rewrite Hlog, elem_of_app. intros [|Hx]; [done|]. by apply list_elem_of_fmap in Hx as (? & ? & _). }
  apply (good_top t w w' (Path t ev elem type only at_ path) [Path t ev elem type only at' path'] st (LVisit t <$> made)); try done.
  - apply Forall_fmap, Forall_forall. intros x _. split; [done|by intros []].
  - constructor; [|done]. exists e', path0. split_and!; try done.
    + rewrite Hlog. by apply elem_of_app; left.
    + by rewrite Hvis, <- app_assoc, <- Hp.
  - by right.
  - intros x Hx Hs Hxd. rewrite (Huni x Hx Hs Hxd). exists e'. split_and!; [done| |done].
    rewrite Hvis, Hp0, Hp. apply prefix_app. by apply prefix_app_r.
Qed.

Lemma path_ends :
  path = [] \/ isPropagationStopped e = true ->
  good (logged (LDone t) (change_event ev (fun e => e <| e_type := type |>) (w <| stack := st |>))).
Proof.
  intros Hr. destruct path_frame as (path0 & Hin & Hend & Hp0 & Huni).
  set (f := fun e => e <| e_type := type |>). set (w' := logged _ _).
  assert (visits t (log w') = visits t (log w)) as Hvis.
  { change (log w') with (log w ++ [LDone t]). rewrite visits_app. apply app_nil_r. }
  apply (good_top t w w' (Path t ev elem type only at_ path) [] st [LDone t]); try done.
  - destruct (grows_event t ev f w G) as [H1 H2 H3 H4 H5 H6]; [tame|]. split; try done.
    exists [LDone t]. split; [done|]. by repeat constructor.
  - constructor; [by split; [|intros []]|constructor].
  - by left.
  - intros x Hx Hs Hxd. rewrite (Huni x Hx Hs Hxd). exists (f e). rewrite Hvis.
    split_and!; [cbn; by rewrite list_lookup_alter_eq, He|rewrite Hp0; by apply prefix_app_r|]. intros _.
    destruct Hr as [-> |Hs']; [left|by right]. by rewrite Hp0, app_nil_r.
Qed.

End PathStep.

Lemma default_action_good e elem type w : good w -> good (default_action e elem type w).
Proof.
  intros G. unfold default_action. destruct (_ && _); [|done]. apply good_push; [|done]. apply good_push; [|done].
  by apply (good_fields w).
Qed.

Lemma path_step_good w t ev elem type only at_ path st e :
  good w -> stack w = Path t ev elem type only at_ path :: st -> evs w !! ev = Some e ->
  good (path_step t ev elem type only at_ path e (w <| stack := st |>)).
Proof.
  intros G Hst He. pose proof (path_moves w t ev elem type only at_ path st e G Hst He) as Hmoves.
  pose proof (path_ends w t ev elem type only at_ path st e G Hst He) as Hends. unfold path_step.
  destruct at_ as [cur|].
  - assert (good (push (Path t ev elem type only None path) (w <| stack := st |>))) as G'.
    { apply (Hmoves _ None path []); try done; [by apply (grows_stack t w)|cbn; by rewrite app_nil_r]. }
    destruct (inline _ !! _); [|done]. destruct (_ && _); [|done]. apply good_push; [|done]. by apply good_push.
  - destruct path as [|[cur ty] path'].
    + destruct (_ || _); [by apply Hends; left|]. apply default_action_good, Hends. by left.
    + destruct (isPropagationStopped e) eqn:Es.
      * destruct (_ || _); [by apply Hends; right|]. apply default_action_good, Hends. by right.
      * set (w1 := push _ _). assert (good w1) as G1.
        { apply (Hmoves _ (Some cur) path' [(cur, ty)]); try done.
          destruct (grows_event t ev (fun e => e <| e_type := ty |>) w G) as [H1 H2 H3 H4 H5 H6]; [tame|]. split; try done.
          exists [LVisit t (cur, ty)]. split; [done|]. by repeat constructor. }
        destruct (data (hs w1) !! cur) as [dt|]; [|done]. destruct (events dt !! ty); [|done]. by apply call_handle_good.
Qed.

(** *** Steps *)

Lemma library_step_good w w' : good w -> library_step w = Some w' -> good w'.
Proof.
  intros G. unfold library_step. destruct (stack w) as [|f st] eqn:Hst; [done|].
  destruct f as [|d ev el cur rest| |t ev elem type only at_ path| | |[|el els] text]; try done.
  - destruct (evs w !! ev) as [e|] eqn:He; [|done]. cbn. intros [= <-]. by apply run_step_good.
  - destruct (evs w !! ev) as [e|] eqn:He; [|done]. cbn. intros [= <-]. by apply path_step_good.
  - intros [= <-]. by apply (good_suffix w [EachTrigger [] text]).
  - intros [= <-]. apply trigger_good. apply good_stack; [done|..]; rewrite Hst.
    + constructor; [by left|]. apply Forall_forall. intros f Hf. right. by right.
    + done.
Qed.

Lemma unwind_suffix st : exists fs, st = fs ++ unwind st.
Proof.
  induction st as [|f st [fs IH]]; [by exists []|]. destruct f as [| | | | | |]; cbn; try (by exists []);
    match goal with |- context [?f :: st] => exists (f :: fs); cbn; by rewrite <- IH end.
Qed.

(** What the page binds are functions, under good names. *)
Definition good_action (a : action) : Prop := match a with AOp o => good_op o | _ => True end.

Lemma page_step_good a w w' : good w -> good_action a -> page_step a w = Some w' -> good w'.
Proof.
  intros G Ha. destruct a as [|v| |o|els text|el text|el type target related button|orig target|ev|ev|ev|tr|node type f]; cbn; try done.
  - destruct (stack w) as [|[]] eqn:Hst; try done. intros [= <-]. by apply (deliver_good _ _ w [Code]).
  - destruct (stack w) as [|[]] eqn:Hst; try done. intros [= <-]. destruct (unwind_suffix l) as [fs Hfs].
    apply (good_suffix w (Code :: fs)); [done|]. rewrite Hst. cbn. by rewrite <- Hfs.
  - destruct (run_op (hs w) o) as [s|] eqn:E; [|done]. cbn. intros [= <-].
    destruct (run_op_spec o (hs w) (table_of (hs w))) as (s' & E' & [W _]); [by split; [apply G|]|done|]. simplify_eq.
    apply good_with_store; [done|done|]. by eapply run_op_numbered.
  - intros [= <-]. by apply good_push.
  - intros [= <-]. by apply trigger_good.
  - destruct (data (hs w) !! el) as [d|]; [|done]. cbn. case_decide; [|done]. intros [= <-]. unfold fire.
    apply call_handle_good. apply (good_quiet w); [done|by apply grows_new_event|done|apply Forall_forall; auto|done].
  - case_decide; [|done]. intros [= <-]. by apply simulate_good.
  - intros [= <-]. apply good_event; [done|tame].
  - intros [= <-]. apply good_event; [done|tame].
  - intros [= <-]. apply good_event; [done|tame].
  - intros [= <-]. by apply (good_fields w).
  - intros [= <-]. by apply (good_fields w).
Qed.

Lemma start_good tr : good (start tr).
Proof.
  split; cbn; try constructor; try apply init_implements.
  intros x y Hx. by apply elem_of_nil in Hx.
Qed.

Lemma run_keeps_good l w w' : good w -> Forall good_action l -> run w l = Some w' -> good w'.
Proof.
  intros G Hl. revert w G. induction Hl as [|a l Ha Hl IH]; intros w G; cbn; [by intros [= <-]|].
  destruct (step w a) as [w1|] eqn:E; [|done]. cbn. apply IH. unfold step in E.
  destruct a; [by apply (library_step_good w)|..]; (destruct (page_runs w); [|done]);
    by eapply page_step_good.
Qed.

(** ** The library comes back *)

(** The frames that wait for a value are right below code of the page. *)
Fixpoint shaped (under_code : bool) (st : list frame) : Prop :=
  match st with
  | [] => True
  | Code :: st' => shaped true st'
  | Hover _ _ :: st' | Inline _ :: st' | Native _ _ _ :: st' => under_code = true /\ shaped false st'
  | _ :: st' => shaped false st'
  end.

Lemma shaped_true b st : shaped b st -> shaped true st.
Proof. destruct st as [|[]]; cbn; naive_solver. Qed.

Lemma deliver_shaped v st w : shaped true st -> shaped false (stack (deliver v st w)).
Proof.
  revert w. induction st as [|f st IH]; intros w; cbn; [done|].
  destruct f as [|d ev el cur rest|ev fx| |ev|elem type old|]; cbn; try done.
  - by destruct v.
  - intros [_ Hs]. apply IH. by apply (shaped_true false).
  - intros [_ Hs]. by case_decide.
  - intros [_ Hs]. by destruct old.
Qed.

Lemma call_shaped f el h w : shaped true (stack w) -> shaped false (stack (call f el h w)).
Proof.
  revert w. induction f as [n| |g IH]; intros w Hs; cbn; [done|by apply deliver_shaped|].
  apply IH. by destruct (off_event el h (hs w)).
Qed.

Lemma apply_handler_shaped elem el ev h w :
  shaped false (stack w) -> shaped false (stack (apply_handler elem el ev h w)).
Proof.
  intros Hs. unfold apply_handler. destruct (hover _); [|by apply call_shaped, (shaped_true false)].
  destruct (evs w !! ev) as [e|]; [|done]. destruct (match e_related e with Some _ => _ | None => _ end); [|done].
  by apply call_shaped.
Qed.

Lemma run_step_shaped d ev el cur rest e w : shaped false (stack w) -> shaped false (stack (run_step d ev el cur rest e w)).
Proof.
  intros Hs. unfold run_step. destruct cur as [[x [|h l]]|]; [done| |].
  - destruct (isImmediatePropagationStopped e); [done|]. destruct (runs _ _); [|done]. by apply apply_handler_shaped.
  - destruct rest; [done|]. by destruct (isPropagationStopped e).
Qed.

Lemma dispatch_shaped el ev w : shaped false (stack w) -> shaped false (stack (dispatch el ev w)).
Proof. intros Hs. unfold dispatch. by destruct (evs w !! ev). Qed.

Lemma call_handle_shaped hd ev w : shaped false (stack w) -> shaped false (stack (call_handle hd ev w)).
Proof.
  intros Hs. unfold call_handle. destruct (handles (hs w) !! hd) as [[el|]|]; [|done..].
  destruct (evs w !! ev); [|done]. case_decide; [done|by apply dispatch_shaped].
Qed.

Lemma trigger_event_shaped elem type g only w : shaped false (stack w) -> shaped false (stack (trigger_event elem type g only w)).
Proof. intros Hs. unfold trigger_event. by destruct (_ && _). Qed.

Lemma trigger_shaped elem text only w : shaped false (stack w) -> shaped false (stack (trigger elem text only w)).
Proof.
  intros Hs. unfold trigger. destruct (_ || _); [done|]. destruct (rfocusMorph _); [done|].
  destruct (trigger_text text). by apply trigger_event_shaped.
Qed.

Lemma simulate_shaped fx elem w : shaped false (stack w) -> shaped false (stack (simulate fx elem w)).
Proof.
  intros Hs. unfold simulate. destruct (_ || _); [done|]. destruct (rfocusMorph _); [done|]. by apply trigger_event_shaped.
Qed.

Lemma default_action_shaped e elem type w : shaped false (stack w) -> shaped false (stack (default_action e elem type w)).
Proof. intros Hs. unfold default_action. by destruct (_ && _). Qed.

Lemma path_step_shaped t ev elem type only at_ path e w :
  shaped false (stack w) -> shaped false (stack (path_step t ev elem type only at_ path e w)).
Proof.
  intros Hs. unfold path_step. destruct at_ as [cur|].
  - destruct (inline _ !! _); [|done]. by destruct (_ && _).
  - destruct path as [|[cur ty] path'].
    + destruct (_ || _); [done|by apply default_action_shaped].
    + destruct (isPropagationStopped e).
      * destruct (_ || _); [done|by apply default_action_shaped].
      * destruct (data _ !! cur) as [dt|]; [|done]. destruct (events dt !! ty); [|done]. by apply call_handle_shaped.
Qed.

Lemma library_step_shaped w w' : shaped false (stack w) -> library_step w = Some w' -> shaped false (stack w').
Proof.
  unfold library_step. destruct (stack w) as [|f st] eqn:Hst; [done|].
  destruct f as [|d ev el cur rest| |t ev elem type only at_ path| | |[|el els] text]; cbn; try done; intros Hs.
  - destruct (evs w !! ev) as [e|]; [|done]. cbn. intros [= <-]. by apply run_step_shaped.
  - destruct (evs w !! ev) as [e|]; [|done]. cbn. intros [= <-]. by apply path_step_shaped.
  - by intros [= <-].
  - intros [= <-]. by apply trigger_shaped.
Qed.

Lemma unwind_shaped b st : shaped b st -> shaped false (unwind st).
Proof.
  revert b. induction st as [|f st IH]; intros b; [done|].
  destruct f; cbn; [done|intros Hs; by eapply IH|intros [_ Hs]; by eapply IH|intros Hs; by eapply IH|intros [_ Hs]; by eapply IH
    |intros [_ Hs]; by eapply IH|intros Hs; by eapply IH].
Qed.

Lemma page_step_shaped a w w' : shaped false (stack w) -> page_step a w = Some w' -> shaped false (stack w').
Proof.
  intros Hs. destruct a as [|v| |o|els text|el text|el type target related button|orig target|ev|ev|ev|tr|node type f]; cbn; try done.
  - destruct (stack w) as [|[]] eqn:Hst; try done. intros [= <-]. by apply deliver_shaped.
  - destruct (stack w) as [|[]] eqn:Hst; try done. intros [= <-]. by apply (unwind_shaped true).
  - destruct (run_op (hs w) o); [|done]. by intros [= <-].
  - by intros [= <-].
  - intros [= <-]. by apply trigger_shaped.
  - destruct (data (hs w) !! el); [|done]. cbn. case_decide; [|done]. intros [= <-]. by apply call_handle_shaped.
  - case_decide; [|done]. intros [= <-]. by apply simulate_shaped.
  - by intros [= <-].
  - by intros [= <-].
  - by intros [= <-].
  - by intros [= <-].
  - by intros [= <-].
Qed.

Lemma run_shaped l w w' : shaped false (stack w) -> run w l = Some w' -> shaped false (stack w').
Proof.
  revert w. induction l as [|a l IH]; intros w Hs; cbn; [by intros [= <-]|].
  destruct (step w a) as [w1|] eqn:E; [|done]. cbn. apply IH. unfold step in E.
  destruct a; [by apply (library_step_shaped w)|..]; (destruct (page_runs w); [|done]); by eapply page_step_shaped.
Qed.

(** The library works until it is the page's turn. *)
Inductive settles : world -> Prop :=
| settles_now w : page_runs w = true -> settles w
| settles_step w w' : library_step w = Some w' -> settles w' -> settles w.

Definition settles_from (st : list frame) : Prop :=
  forall w, good w -> shaped false (stack w) -> stack w = st -> settles w.

Lemma settles_code st : settles_from (Code :: st).
Proof. intros w _ _ Hst. constructor. unfold page_runs. by rewrite Hst. Qed.

Lemma settles_nil : settles_from [].
Proof. intros w _ _ Hst. constructor. unfold page_runs. by rewrite Hst. Qed.

(** A step of the library, from a frame whose event exists. *)
Lemma settles_after w w' : good w -> shaped false (stack w) -> library_step w = Some w' -> settles_from (stack w') -> settles w.
Proof.
  intros G Hs E H'. apply (settles_step w w' E). apply H'; [by eapply library_step_good|by eapply library_step_shaped|done].
Qed.

Definition weight (cur : option group) (rest : list group) : nat :=
  (match cur with Some (_, l) => S (length l) | None => 0 end + sum_list ((fun p => S (S (length p.2))) <$> rest))%nat.

Lemma deliver_stack v st w d ev el cur rest st' :
  st = Run d ev el cur rest :: st' \/ (exists e fx, st = Hover e fx :: Run d ev el cur rest :: st') ->
  stack (deliver v st w) = Run d ev el cur rest :: st'.
Proof. intros [-> |(e & fx & ->)]; cbn; by destruct v. Qed.

Lemma call_stack f el' h w d ev el cur rest st' :
  stack w = Run d ev el cur rest :: st' \/ (exists e fx, stack w = Hover e fx :: Run d ev el cur rest :: st') ->
  (exists st, stack (call f el' h w) = Code :: st) \/ stack (call f el' h w) = Run d ev el cur rest :: st'.
Proof.
  revert w. induction f as [n| |g IH]; intros w Hw; cbn.
  - left. by eexists.
  - right. by apply deliver_stack.
  - apply IH. by destruct (off_event el' h (hs w)).
Qed.

Lemma apply_handler_stack elem el' e' h w d ev el cur rest st' :
  stack w = Run d ev el cur rest :: st' ->
  (exists st, stack (apply_handler elem el' e' h w) = Code :: st)
  \/ stack (apply_handler elem el' e' h w) = Run d ev el cur rest :: st'.
Proof.
  intros Hw. unfold apply_handler. destruct (hover _); [|apply call_stack; by left].
  destruct (evs w !! e') as [e|]; [|by right]. destruct (match e_related e with Some _ => _ | None => _ end); [|by right].
  apply call_stack. right. cbn. rewrite Hw. by eexists _, _.
Qed.

Lemma run_step_stack d ev el cur rest e w :
  let st' := stack (run_step d ev el cur rest e w) in
  st' = stack w \/ (exists st, st' = Code :: st)
  \/ exists cur' rest', st' = Run d ev el cur' rest' :: stack w /\ (weight cur' rest' < weight cur rest)%nat.
Proof.
  cbn zeta. unfold run_step. destruct cur as [[x [|h l]]|].
  - right. right. eexists _, _. split; [done|]. unfold weight. lia.
  - destruct (isImmediatePropagationStopped e); [right; right; eexists _, _; split; [done|]; unfold weight; lia|].
    assert (weight (Some (x, l)) rest < weight (Some (x, h :: l)) rest)%nat as Hlt by (unfold weight; cbn; lia).
    destruct (runs _ _); [|right; right; by eexists _, _].
    match goal with |- context [apply_handler ?a ?b ?c ?d' ?w'] =>
      destruct (apply_handler_stack a b c d' w' d ev el (Some (x, l)) rest (stack w) eq_refl) as [Hc|Hr] end.
    + right. by left.
    + right. right. rewrite Hr. by eexists _, _.
  - destruct rest as [|[x l] rest]; [by left|]. destruct (isPropagationStopped e); [by left|].
    right. right. eexists _, _. split; [done|]. unfold weight. cbn. lia.
Qed.

Lemma settles_run st d ev el cur rest : settles_from st -> settles_from (Run d ev el cur rest :: st).
Proof.
  intros Hst. remember (weight cur rest) as n eqn:Hn. revert cur rest Hn.
  induction (lt_wf n) as [n _ IH]. intros cur rest -> w G Hs Hw.
  pose proof (g_frames _ G) as HF. rewrite Hw in HF. apply Forall_cons in HF as [(e & plan & He & _) _].
  apply (settles_after w (run_step d ev el cur rest e (w <| stack := st |>))); [done|done|..].
  - unfold library_step. by rewrite Hw, He.
  - destruct (run_step_stack d ev el cur rest e (w <| stack := st |>)) as [E|[(st' & E)|(cur' & rest' & E & Hlt)]]; rewrite E.
    + exact Hst.
    + apply settles_code.
    + by eapply IH.
Qed.

Lemma call_handle_stack hd ev w :
  stack (call_handle hd ev w) = stack w \/ exists d el cur rest, stack (call_handle hd ev w) = Run d ev el cur rest :: stack w.
Proof.
  unfold call_handle. destruct (handles (hs w) !! hd) as [[el|]|]; [|by left..].
  destruct (evs w !! ev) as [e|] eqn:He; [|by left]. case_decide; [by left|]. right. unfold dispatch. rewrite He.
  by eexists _, _, _, _.
Qed.

Lemma default_action_stack e elem type w :
  stack (default_action e elem type w) = stack w \/ exists st, stack (default_action e elem type w) = Code :: st.
Proof. unfold default_action. destruct (_ && _); [right; by eexists|by left]. Qed.

Lemma settles_path st t ev elem type only at_ path :
  settles_from st -> settles_from (Path t ev elem type only at_ path :: st).
Proof.
  intros Hst.
  assert (forall path at_, (forall cur ty path', at_ = None -> path = (cur, ty) :: path' ->
      settles_from (Path t ev elem type only (Some cur) path' :: st)) ->
    (at_ <> None -> settles_from (Path t ev elem type only None path :: st)) ->
    settles_from (Path t ev elem type only at_ path :: st)) as Hstep.
  { clear path at_. intros path at_ H1 H2 w G Hs Hw.
    pose proof (g_frames _ G) as HF. rewrite Hw in HF. apply Forall_cons in HF as [(e & path0 & He & _) _].
    apply (settles_after w (path_step t ev elem type only at_ path e (w <| stack := st |>))); [done|done|..].
    { unfold library_step. by rewrite Hw, He. }
    unfold path_step. destruct at_ as [cur|].
    - destruct (inline _ !! _); [|by apply H2]. destruct (_ && _); [apply settles_code|by apply H2].
    - assert (settles_from (stack (let w := logged (LDone t) (change_event ev (fun e => e <| e_type := type |>) (w <| stack := st |>)) in
        if only || isDefaultPrevented e then w else default_action e elem type w))) as Hend.
      { cbn zeta. destruct (_ || _); [done|].
        match goal with |- context [default_action ?a ?b ?c ?w'] =>
          destruct (default_action_stack a b c w') as [E|[st' E]]; rewrite E; [done|apply settles_code] end. }
      destruct path as [|[cur ty] path']; [exact Hend|]. destruct (isPropagationStopped e); [exact Hend|].
      pose proof (H1 cur ty path' eq_refl eq_refl) as Hnext.
      destruct (data _ !! cur) as [dt|]; [|exact Hnext]. destruct (events dt !! ty); [|exact Hnext].
      match goal with |- context [call_handle ?a ?b ?w'] =>
        destruct (call_handle_stack a b w') as [E|(d & el & c & r & E)]; rewrite E; [exact Hnext|by apply settles_run] end. }
  revert at_. induction path as [|[cur ty] path IH]; intros at_.
  - assert (settles_from (Path t ev elem type only None [] :: st)) as Hnone by by apply Hstep. by apply Hstep.
  - assert (settles_from (Path t ev elem type only None ((cur, ty) :: path) :: st)) as Hnone.
    { apply Hstep; [|done]. intros ? ? ? _ [= <- <- <-]. apply IH. }
    apply Hstep; [|done]. intros ? ? ? _ [= <- <- <-]. apply IH.
Qed.

Lemma trigger_stack elem text only w :
  stack (trigger elem text only w) = stack w
  \/ exists t ev ty a p, stack (trigger elem text only w) = Path t ev elem ty only a p :: stack w.
Proof.
  unfold trigger. destruct (_ || _); [by left|]. destruct (rfocusMorph _); [by left|]. destruct (trigger_text text) as [type g].
  unfold trigger_event. destruct (_ && _); [by left|]. right. by eexists _, _, _, _, _.
Qed.

Lemma settles_each st els text : settles_from st -> settles_from (EachTrigger els text :: st).
Proof.
  intros Hst. induction els as [|el els IH]; intros w G Hs Hw.
  - apply (settles_after w (w <| stack := st |>)); [done|done| |done]. unfold library_step. by rewrite Hw.
  - apply (settles_after w (trigger el text false (w <| stack := EachTrigger els text :: st |>))); [done|done|..].
    { unfold library_step. by rewrite Hw. }
    match goal with |- context [trigger ?a ?b ?c ?w'] =>
      destruct (trigger_stack a b c w') as [E|(t & ev & ty & a' & p & E)]; rewrite E; [exact IH|by apply settles_path] end.
Qed.

Lemma settles_stack st : shaped false st -> settles_from st.
Proof.
  induction st as [|f st IH]; [intros _; apply settles_nil|]. destruct f; cbn; try (by intros [? _]).
  - intros _. apply settles_code.
  - intros Hs. by apply settles_run, IH.
  - intros Hs. by apply settles_path, IH.
  - intros Hs. by apply settles_each, IH.
Qed.

(** ** Which handlers a dispatch has *)

(** Whether a binding with a selector is for a node. *)
Definition meant_for (t : tree) (n : nat) (b : binding) : bool :=
  match b_selector b with
  | Some sel =>
      bool_decide (sel ∈ proto_names)
      || match quickParse sel with Some q => quickIs (face_of t n) q | None => is_selector t sel n end
  | None => false
  end.

Lemma sel_match_meant g k h t n : wf_obj g k h -> sel_match t n h = meant_for t n (binding_of h).
Proof.
  intros Hh. unfold sel_match, meant_for. cbn. rewrite (wo_quick _ _ _ Hh). destruct (h_selector h) as [sel|]; [|done]. cbn.
  case_decide; [by rewrite bool_decide_true|]. by rewrite bool_decide_false.
Qed.

(** The handlers of a list that a node of the path has, and those the element
    has itself. *)
Definition chosen_at (t : tree) (n : nat) (hl : list hobj) : list hobj :=
  List.filter (fun h => meant_for t n (binding_of h)) hl.

Definition own_handlers (hl : list hobj) : list hobj :=
  List.filter (fun h => bool_decide (h_selector h = None)) hl.

(** The places of the path where delegated handlers run: below the first
    occurrence of the element, at a node that is not disabled and that a
    handler is for, unless the event is a click of another button. *)
Definition delegates_at (t : tree) (el : nat) (e : event) (hl : list hobj) (path : list nat) (i : nat) : Prop :=
  ~ (e_type e = js "click" /\ e_button e <> 0%Z)
  /\ exists n, path !! i = Some n /\ (el ∉ take (S i) path) /\ disabled t n = false
       /\ exists h, h ∈ hl /\ meant_for t n (binding_of h) = true.

(** [plan] is what an event that is dispatched on [el] has to do with the
    handlers [hl]: the groups [dels] of the nodes at the places [idx] of the
    path, which begins with the target, in the order of the path, and then the
    element's own handlers. *)
Definition is_plan (t : tree) (el : nat) (e : event) (hl : list hobj) (plan : list group) : Prop :=
  let path := e_target e :: parents t (e_target e) in
  exists idx dels,
    plan = dels ++ match own_handlers hl with [] => [] | own => [(el, own)] end
    /\ StronglySorted lt idx
    /\ Forall2 (fun i g => path !! i = Some g.1 /\ g.2 = chosen_at t g.1 hl) idx dels
    /\ forall i, i ∈ idx <-> delegates_at t el e hl path i.

Lemma bfilter_no {A} (p : A -> bool) l : Forall (fun x => p x = false) l -> List.filter p l = [].
Proof. induction 1 as [|x l Hx _ IH]; [done|]. cbn. by rewrite Hx. Qed.

Lemma bfilter_yes {A} (p : A -> bool) l : Forall (fun x => p x = true) l -> List.filter p l = l.
Proof. induction 1 as [|x l Hx _ IH]; [done|]. cbn. by rewrite Hx, IH. Qed.

Lemma bfilter_same {A} (p q : A -> bool) l : Forall (fun x => p x = q x) l -> List.filter p l = List.filter q l.
Proof. induction 1 as [|x l Hx _ IH]; [done|]. cbn. by rewrite Hx, IH. Qed.

Lemma bfilter_any {A} (p : A -> bool) l : List.filter p l <> [] <-> exists x, x ∈ l /\ p x = true.
Proof.
  split.
  - destruct (List.filter p l) as [|x l'] eqn:E; [done|]. intros _. exists x.
    assert (In x (List.filter p l)) as Hx by (rewrite E; by left). apply filter_In in Hx as [Hx ?].
    by rewrite <- list_elem_of_In in Hx.
  - intros (x & Hx & Hp) E. rewrite list_elem_of_In in Hx. assert (In x (List.filter p l)) as Hf by by apply filter_In.
    by rewrite E in Hf.
Qed.

(** The groups of the nodes of a path. *)
Lemma groups_along t el dels path :
  exists idx,
    StronglySorted lt idx
    /\ Forall2 (fun i g => path !! i = Some g.1 /\ g.2 = List.filter (sel_match t g.1) dels) idx
         (flat_map (delegated t dels) (below el path))
    /\ forall i, i ∈ idx <-> exists n, path !! i = Some n /\ (el ∉ take (S i) path)
                              /\ disabled t n = false /\ List.filter (sel_match t n) dels <> [].
Proof.
  induction path as [|n path (idx & Hs & Hf & Hi)].
  { exists []. split_and!; [constructor..|]. intros i. split; [by intros ?%elem_of_nil|by intros (? & ? & _)]. }
  cbn [below]. destruct (decide (n = el)) as [->|Hne].
  { exists []. split_and!; [constructor..|]. intros i. split; [by intros ?%elem_of_nil|].
    intros (? & _ & Hel & _). cbn in Hel. set_solver. }
  cbn [flat_map]. set (here := delegated t dels n).
  exists ((if decide (here = []) then [] else [0%nat]) ++ (S <$> idx)). split_and!.
  - assert (StronglySorted lt (S <$> idx)) as HS.
    { clear -Hs. induction Hs as [|i idx _ IH Hle]; [constructor|]. cbn. constructor; [done|].
      apply Forall_fmap. eapply Forall_impl; [exact Hle|]. cbn. lia. }
    destruct (decide (here = [])); [done|]. cbn. constructor; [done|]. apply Forall_fmap, Forall_true. cbn. lia.
  - apply Forall2_app; [|by apply Forall2_fmap_l].
    unfold here, delegated. destruct (disabled t n); [by constructor|].
    destruct (List.filter (sel_match t n) dels) eqn:E; [by constructor|]. cbn. by repeat constructor.
  - intros [|i]; rewrite elem_of_app.
    + split.
      * intros [Hin|(? & ? & _)%list_elem_of_fmap]; [|done]. destruct (decide (here = [])) as [|Hh]; [by apply elem_of_nil in Hin|].
        exists n. split; [done|]. split; [cbn; rewrite list_elem_of_singleton; congruence|].
        unfold here, delegated in Hh. destruct (disabled t n); [done|]. split; [done|]. intros E. by rewrite E in Hh.
      * intros (m & [= <-] & _ & Hd & Hm). left. unfold here, delegated. rewrite Hd.
        destruct (List.filter (sel_match t n) dels); [done|]. rewrite decide_False by done. by left.
    + assert (S i ∈ (if decide (here = []) then [] else [0%nat]) \/ S i ∈ S <$> idx <-> i ∈ idx) as ->.
      { rewrite list_elem_of_fmap. split; [|eauto]. intros [Hin|(? & [= ->] & ?)]; [|done].
        destruct (decide (here = [])); set_solver. }
      rewrite Hi. cbn. setoid_rewrite elem_of_cons. split; intros (m & H1 & H2 & H3); exists m; (split; [done|]);
        (split; [|done]); [by intros [?|?]|auto].
Qed.

Lemma handlers_in_order el e w : wf (hs w) -> in_order (guids (hs w)) (e_type e) (handlers_of el (e_type e) (hs w)).
Proof.
  intros [W _]. unfold handlers_of. destruct (data (hs w) !! el) as [d|] eqn:Hd; cbn.
  - destruct (events d !! e_type e) as [l0|] eqn:El; cbn; [destruct (w_lists _ W el d Hd) as [_ Hls]; by apply (Hls _ l0 El)|].
    apply in_order_make. exists [], []. by split_and!.
  - apply in_order_make. exists [], []. by split_and!.
Qed.

(** Handlers without a selector are for no node of the path. *)
Lemma chosen_make g k t n dels dirs :
  Forall (wf_obj g k) dels -> Forall no_selector dirs ->
  chosen_at t n (dels ++ dirs) = List.filter (sel_match t n) dels.
Proof.
  intros Hd Hr. unfold chosen_at. rewrite List.filter_app, (bfilter_no _ dirs), app_nil_r.
  - apply bfilter_same. eapply Forall_impl; [exact Hd|]. intros h Hh. cbn. symmetry. by eapply sel_match_meant.
  - eapply Forall_impl; [exact Hr|]. intros h Hh. unfold no_selector in Hh. unfold meant_for. cbn. by rewrite Hh.
Qed.

Lemma own_make dels dirs : Forall has_selector dels -> Forall no_selector dirs -> own_handlers (dels ++ dirs) = dirs.
Proof.
  intros Hd Hr. unfold own_handlers. rewrite List.filter_app, (bfilter_no _ dels), (bfilter_yes _ dirs); [done|..].
  - eapply Forall_impl; [exact Hr|]. intros h Hh. by apply bool_decide_eq_true.
  - eapply Forall_impl; [exact Hd|]. intros h [sel Hh]. apply bool_decide_eq_false. by rewrite Hh.
Qed.

Lemma handlerQueue_plan el e w :
  wf (hs w) -> is_plan (doc w) el e (objs (handlers_of el (e_type e) (hs w))) (handlerQueue el e w).
Proof.
  intros W. pose proof (handlers_in_order el e w W) as Hl. unfold handlerQueue.
  apply in_order_make in Hl as (dels & dirs & -> & H1 & H2 & H3 & H4).
  cbn [make_list delegateCount objs]. rewrite Nat2Z.id, take_app_length, drop_app_length.
  set (path := e_target e :: _). destruct (groups_along (doc w) el dels path) as (idx & Hs & Hf & Hi).
  assert (forall n, List.filter (sel_match (doc w) n) dels <> []
    <-> exists h, h ∈ dels ++ dirs /\ meant_for (doc w) n (binding_of h) = true) as Hany.
  { intros n. rewrite <- bfilter_any, <- (chosen_make _ _ _ _ _ dirs H3 H2). done. }
  unfold is_plan. fold path. rewrite own_make by done.
  destruct (negb (Z.of_nat (length dels) =? 0) && _) eqn:Hc.
  - exists idx, (flat_map (delegated (doc w) dels) (below el path)). split_and!; [done..| |].
    + eapply Forall2_impl; [exact Hf|]. intros i g [? Hg]. by rewrite (chosen_make _ _ _ _ _ _ H3 H2).
    + intros i. unfold delegates_at. rewrite Hi. setoid_rewrite Hany. split; [|by intros [_ ?]]. intros Hn. split; [|done].
      intros [Ht Hb%Z.eqb_neq]. by rewrite Hb, Ht, andb_false_r in Hc.
  - exists [], []. split_and!; [done|constructor..|]. intros i. split; [by intros ?%elem_of_nil|].
    intros (Hno & n & _ & _ & _ & Hm%Hany). exfalso.
    destruct dels as [|h dels]; [done|]. apply Hno. cbn in Hc.
    apply negb_false_iff, andb_true_iff in Hc as [Hb%negb_true_iff%Z.eqb_neq Ht%bool_decide_eq_true]. done.
Qed.

(** ** Theorems *)

(** C5: on a page whose calls of on, one and off meet the conditions of
    handlers_refine, the handlers of a dispatch run in the order of its plan
    (which dispatch_plan describes), each once; when the dispatch ends all
    of them have run that the event is for, unless the event was stopped: then
    the handlers of the nodes begun have run, or the event was stopped
    immediately. *)
Theorem dispatch_in_order tr l w d ev g el plan e :
  Forall good_action l -> run (start tr) l = Some w ->
  LDispatch d ev g el plan ∈ log w -> evs w !! ev = Some e ->
  calls d (log w) `prefix_of` chosen g plan
  /\ (LEnd d ∈ log w ->
      calls d (log w) = chosen g plan
      \/ (isPropagationStopped e = true /\ exists n, calls d (log w) = chosen g (take n plan))
      \/ isImmediatePropagationStopped e = true).
Proof.
  intros Hl Hrun Hin He. pose proof (run_keeps_good l _ w (start_good tr) Hl Hrun) as G. pose proof (g_log _ G) as HF.
  rewrite Forall_forall in HF. destruct (HF _ Hin) as [_ (e' & He' & Hp & Hend)]. simplify_eq. by split.
Qed.

(** C19: on a page whose calls of on, one and off meet the conditions of
    handlers_refine, a dispatch begins with a plan that has, for the nodes from
    the target of the event up to but without the element (deepest first, each
    node that is not disabled and that a handler with a selector is for, none
    for a click of another button), the handlers of the element whose selector
    the node matches, in the order they were bound, and last the handlers of
    the element that have no selector. *)
Theorem dispatch_plan tr l w el ev e :
  Forall good_action l -> run (start tr) l = Some w -> evs w !! ev = Some e ->
  exists plan, last (log (dispatch el ev w)) = Some (LDispatch (next w) ev (e_tag e) el plan)
    /\ stack (dispatch el ev w) = Run (next w) ev el None plan :: stack w
    /\ is_plan (doc w) el e (objs (handlers_of el (e_type e) (hs w))) plan.
Proof.
  intros Hl Hrun He. pose proof (run_keeps_good l _ w (start_good tr) Hl Hrun) as G. exists (handlerQueue el e w).
  unfold dispatch. rewrite He. split_and!; [cbn; by rewrite last_snoc|done|]. apply handlerQueue_plan, G.
Qed.

(** A triggered event visits the nodes of its path in order, and all of them
    unless it is stopped. *)
Theorem trigger_bubbles tr l w t ev path e :
  Forall good_action l -> run (start tr) l = Some w ->
  LTrigger t ev path ∈ log w -> evs w !! ev = Some e ->
  visits t (log w) `prefix_of` path
  /\ (LDone t ∈ log w -> visits t (log w) = path \/ isPropagationStopped e = true).
Proof.
  intros Hl Hrun Hin He. pose proof (run_keeps_good l _ w (start_good tr) Hl Hrun) as G. pose proof (g_log _ G) as HF.
  rewrite Forall_forall in HF. destruct (HF _ Hin) as [_ (e' & He' & Hp & Hend)]. simplify_eq. by split.
Qed.

(** Whatever handlers do while events are dispatched, the lists, the listeners
    and the numbers of the store stay in step. *)
Theorem dispatch_keeps_store tr l w :
  Forall good_action l -> run (start tr) l = Some w -> wf (hs w).
Proof. intros Hl Hrun. apply (run_keeps_good l _ w (start_good tr) Hl Hrun). Qed.

(** C15: on a page whose calls of on, one and off meet the conditions of
    handlers_refine (other calls can run for ever, see [trailing_dot_loops] of
    JqHandlers.v), after every action of the page (binding, unbinding,
    triggering, returning, throwing) the library comes back in finitely many
    steps: the stack is empty or code of the page is on top; and whenever it
    is the page's turn, each such call of on, one or off comes back. *)
Theorem dispatch_comes_back tr l w :
  Forall good_action l -> run (start tr) l = Some w ->
  settles w /\ (page_runs w = true -> forall o, good_op o -> exists w', step w (AOp o) = Some w').
Proof.
  intros Hl Hrun. pose proof (run_keeps_good l _ w (start_good tr) Hl Hrun) as G. split.
  - assert (shaped false (stack w)) as Hs by by apply (run_shaped l (start tr)). by apply (settles_stack (stack w)).
  - intros Hp o Ho. destruct (run_op_spec o (hs w) (table_of (hs w))) as (s' & E & _); [by split; [apply G|]|done|].
    exists (w <| hs := s' |>). cbn. by rewrite Hp, E.
Qed.

(** C20: on a page whose calls of on, one and off meet the conditions of
    handlers_refine, a function bound with [one] to a type other than
    mouseenter and mouseleave is unbound before it runs: in the state its code
    begins in, the element has no such binding any more. *)
Theorem one_is_unbound tr l w d ev el x h l' rest st e f t k :
  Forall good_action l -> run (start tr) l = Some w ->
  stack w = Run d ev el (Some (x, h :: l')) rest :: st -> evs w !! ev = Some e ->
  isImmediatePropagationStopped e = false -> runs (e_tag e) h = true ->
  h_handler h = One (Fn f) -> h_origType h = Some t -> hover (special_of t) = false -> k = key (h_type h) ->
  exists w', library_step w = Some w' /\ stack w' = Code :: Run d ev el (Some (x, l')) rest :: st
    /\ log w' = log w ++ [LCall d x h]
    /\ binding_of h ∉ (table_of (hs w') el k).1 ++ (table_of (hs w') el k).2.
Proof.
  intros Hl Hrun Hst He Hi Hr Hh Ht Hv ->. pose proof (run_keeps_good l _ w (start_good tr) Hl Hrun) as G.
  destruct (run_frame w d ev el _ rest st e G Hst He) as (_ & _ & _ & _ & Hok & _).
  apply Forall_cons in Hok as [[[k Hk] _]%Forall_cons _]. cbn in Hk.
  destruct (off_event_gone el h k t (hs w) (table_of (hs w))) as (s' & E & _ & Hgone); [by split; [apply G|]|done|done|].
  unfold library_step. rewrite Hst, He. cbn. rewrite Hi, Hr. eexists. split; [done|].
  unfold apply_handler. rewrite Ht. cbn [key default from_option id]. rewrite Hv, Hh. cbn. rewrite E. cbn.
  split_and!; [done|done|]. by rewrite <- (wo_key _ _ _ Hk).
Qed.


End Page.

Module Sample.

(** A window 0, a document 1, a form 2 and in it a link 3. *)
#[local] Instance page : Page := {|
  nodeType n := if decide (n = 1%nat) then 9 else 1;
  isWindow n := bool_decide (n = 0%nat);
  acceptData _ := true;
  has_listeners _ := true;
  focusinBubbles := false;
  page_re _ _ := false;
|}.

Definition tr : tree := {|
  parents n := match n with 3%nat => [2; 1]%nat | 2%nat => [1%nat] | _ => [] end;
  face_of n := match n with
               | 3%nat => Face (js "A") None (Some (js "on"))
               | 2%nat => Face (js "FORM") None None
               | _ => Face [] None None
               end;
  disabled _ := false;
  ownerDocument n := match n with 2%nat | 3%nat => Some 1%nat | _ => None end;
  window_of _ := 0%nat;
  is_selector _ _ := false;
  has_method n type := bool_decide (n = 2%nat /\ type = js "submit");
  offsetWidth _ := 10;
|}.

Definition bind_on (el : nat) (types : jstr) (sel : arg) (n : nat) (one : bool) : action :=
  AOp (OOn [el] (TStr types) sel ANull (AFun (Fn n)) one).

Definition state (l : list action) : world := default (start tr) (run (start tr) l).

(** The form has a delegated and a direct handler, and one for a click once;
    the link is clicked and the first handler stops the event. *)
Definition clicked : list action :=
  [bind_on 2 (js "click") AUndef 7 false; bind_on 2 (js "click.menu") (AStr (js "a.on")) 8 false;
   bind_on 2 (js "click") AUndef 9 true;
   AFire 2 (js "click") 3 None 0; ALibrary; ALibrary; AReturn (ROther 1); ALibrary; ALibrary; ALibrary; AReturn RFalse;
   ALibrary].

Definition plan_of (w : world) : list group :=
  match log w with LDispatch _ _ _ _ plan :: _ => plan | _ => [] end.

Definition first_event (w : world) : event := default (new_event [] 0 None 0 (Tag false [])) (evs w !! 0%nat).

Lemma clicked_good : Forall good_action clicked.
Proof. repeat constructor; vm_compute; repeat constructor. Qed.

Lemma dispatch_in_order_witness :
  calls 0 (log (state clicked)) `prefix_of` chosen (Tag false []) (plan_of (state clicked))
  /\ (LEnd 0 ∈ log (state clicked) ->
      calls 0 (log (state clicked)) = chosen (Tag false []) (plan_of (state clicked))
      \/ (isPropagationStopped (first_event (state clicked)) = true
          /\ exists n, calls 0 (log (state clicked)) = chosen (Tag false []) (take n (plan_of (state clicked))))
      \/ isImmediatePropagationStopped (first_event (state clicked)) = true).
Proof.
  destruct (dispatch_in_order tr clicked (state clicked) 0 0 (Tag false []) 2 (plan_of (state clicked))
    (first_event (state clicked))) as [H1 H2].
  - exact clicked_good.
  - vm_compute. reflexivity.
  - vm_compute. left.
  - vm_compute. reflexivity.
  - by split.
Defined.

Lemma dispatch_plan_witness :
  exists plan, last (log (dispatch 2 0 (state clicked)))
      = Some (LDispatch (next (state clicked)) 0 (e_tag (first_event (state clicked))) 2 plan)
    /\ stack (dispatch 2 0 (state clicked)) = Run (next (state clicked)) 0 2 None plan :: stack (state clicked)
    /\ is_plan (doc (state clicked)) 2 (first_event (state clicked))
         (objs (handlers_of 2 (e_type (first_event (state clicked))) (hs (state clicked)))) plan.
Proof.
  apply (dispatch_plan tr clicked (state clicked) 2 0 (first_event (state clicked))).
  - exact clicked_good.
  - vm_compute. reflexivity.
  - vm_compute. reflexivity.
Defined.

Lemma dispatch_keeps_store_witness : wf (hs (state clicked)).
Proof. apply (dispatch_keeps_store tr clicked); [exact clicked_good|vm_compute; reflexivity]. Defined.

Lemma dispatch_comes_back_witness : settles (state clicked).
Proof. refine (proj1 (dispatch_comes_back tr clicked _ clicked_good _)). vm_compute. reflexivity. Defined.

(** A click triggered on the link goes up to the window. *)
Definition bubbled : list action := [ATrigger [3%nat] (js "click"); ALibrary; ALibrary; ALibrary; ALibrary].

Lemma trigger_bubbles_witness :
  visits 0 (log (state bubbled)) `prefix_of` eventPath tr 3 (js "click") false
  /\ (LDone 0 ∈ log (state bubbled) ->
      visits 0 (log (state bubbled)) = eventPath tr 3 (js "click") false
      \/ isPropagationStopped (first_event (state bubbled)) = true).
Proof.
  apply (trigger_bubbles tr bubbled (state bubbled) 0 0 _ (first_event (state bubbled))).
  - repeat constructor.
  - vm_compute. reflexivity.
  - vm_compute. left.
  - vm_compute. reflexivity.
Defined.

Example bubbled_path :
  eventPath tr 3 (js "click") false = [(3%nat, js "click"); (2%nat, js "click"); (1%nat, js "click"); (0%nat, js "click")].
Proof. vm_compute. reflexivity. Qed.

(** The state in which the handler bound once is about to run. *)
Definition once : list action :=
  [bind_on 2 (js "click") AUndef 9 true; AFire 2 (js "click") 3 None 0; ALibrary].

Definition once_obj : hobj := HObj (Some (js "click")) (Some (js "click")) VUndef (One (Fn 9)) 1 None None [].

Lemma one_is_unbound_witness :
  exists w', library_step (state once) = Some w' /\ stack w' = [Code; Run 0 0 2 (Some (2%nat, [])) []]
    /\ log w' = log (state once) ++ [LCall 0 2 once_obj]
    /\ binding_of once_obj ∉ (table_of (hs w') 2 (js "click")).1 ++ (table_of (hs w') 2 (js "click")).2.
Proof.
  apply (one_is_unbound tr once (state once) 0 0 2 2 once_obj [] [] []
    (first_event (state once)) 9 (js "click")).
  - repeat constructor; vm_compute; repeat constructor.
  - vm_compute. reflexivity.
  - vm_compute. reflexivity.
  - vm_compute. reflexivity.
  - vm_compute. reflexivity.
  - vm_compute. reflexivity.
  - reflexivity.
  - reflexivity.
  - vm_compute. reflexivity.
  - reflexivity.
Defined.

(** ** What can surprise *)

Definition called (n : nat) (w : world) : nat :=
  length (List.filter (fun x => match x with
    LCall _ _ h => bool_decide (original (h_handler h) = Some n) | _ => false end) (log w)).

(** A handler bound once runs twice when a handler before it triggers the same
    event: the outer dispatch has it in its plan already. *)
Definition nested : list action :=
  [bind_on 2 (js "click") AUndef 7 false; bind_on 2 (js "click") AUndef 9 true;
   AFire 2 (js "click") 2 None 0; ALibrary; ALibrary;                        (* 7 runs *)
   ATriggerHandler 2 (js "click"); ALibrary; ALibrary; ALibrary; AReturn RUndef;      (* 7 again, nested *)
   ALibrary; AReturn RUndef;                                                 (* 9 *)
   ALibrary; ALibrary; ALibrary; ALibrary; AReturn RUndef; ALibrary; AReturn RUndef].  (* back, and 9 again *)

Example one_runs_twice :
  (fun w => (called 9 w, table_of (hs w) 2 (js "click")).1) <$> run (start tr) nested = Some 2%nat.
Proof. vm_compute. reflexivity. Qed.

(** When the default method of a triggered event throws, events of that type
    are discarded from then on. *)
Definition muted : list action :=
  [bind_on 2 (js "submit") AUndef 7 false;
   ATrigger [2%nat] (js "submit"); ALibrary; ALibrary; ALibrary; ALibrary; AReturn RUndef;
   ALibrary; ALibrary; ALibrary; ALibrary; ALibrary; ALibrary; ALibrary; ALibrary; AThrow].

Example throw_mutes_the_type :
  (fun w => (stack w, called 7 w, triggered w)) <$> run (start tr) (muted ++ [AFire 2 (js "submit") 2 None 0])
  = Some ([], 1%nat, Some (js "submit")).
Proof. vm_compute. reflexivity. Qed.

(** A selector that is a property of every object matches every node. *)
Example constructor_selector :
  (fun w => fst <$> plan_of w) <$> run (start tr)
    [bind_on 1 (js "click") (AStr (js "constructor")) 7 false; AFire 1 (js "click") 3 None 0]
  = Some [3; 2]%nat.
Proof. vm_compute. reflexivity. Qed.

End Sample.
