(* ===== verification/JqFx.v ===== *)
(** * Animations (jquery-1.7.2.js)

    [doAnimation], the function [animate] queues, makes an object [jQuery.fx]
    for every property; its timer is put into the array [jQuery.timers], and
    an interval calls [jQuery.fx.tick], which goes through the array and takes
    out the timers that are over.  When all properties of an animation are over
    its function [complete] is called, which calls the function of the page and
    starts the next entry of the queue.  The functions [step] and [complete] of
    the page can animate and stop elements while the loops of [tick] and [stop]
    go through the array, so the module is a machine with a call stack.

    Values are numbers of pixels or plain numbers: other units and overflow
    styles are left out, and so are an infinite duration, the marks of
    animations outside a queue, and a function [step] of the page that assigns
    to the object [jQuery.fx] it is given.  What the queue does between two animations is
    code of the page here; JqQueue.v is about it. *)

From stdpp Require Import base gmap list strings.
From Stdlib Require Import QArith Qminmax Lqa.
From S2P Require Import Prelude JsString ZeptoCore.

(** [jQuery.easing]: functions of the part of the duration that is over. *)
Class Easing := easing : jstr -> option (Q -> Q).

(** What a property is animated to: a number, added to the current value
    ([+=], [-=]) or not, or one of the words [show], [hide], [toggle]. *)
Inductive target := TNum (n : Q) | TRel (n : Q) | TShow | THide | TToggle.

(** The options of one call of [doAnimation]; a property of
    [animatedProperties] has its easing, or [None] for [true]. *)
Record options := Options {
  duration : Z;
  animatedProperties : gmap jstr (option jstr);
  o_hide : bool;
  o_show : bool;
  orig : gmap jstr (option Q);
  complete : bool;                (* [false] after it has been taken *)
  old : bool;                     (* the page gave a function *)
  o_step : bool;                  (* the page gave a function [step] *)
  queue : option jstr;
}.

#[export] Instance options_eta : Eta options :=
  fun r => Options (duration r) (animatedProperties r) (o_hide r) (o_show r) (orig r) (complete r) (old r) (o_step r) (queue r).

(** A [jQuery.fx]; its number also stands for its timer. *)
Record fx := Fx {
  f_elem : nat;
  f_prop : jstr;
  f_opts : nat;
  startTime : Z;
  f_start : Q;
  f_end : Q;
  f_now : Q;
}.

#[export] Instance fx_eta : Eta fx :=
  fun r => Fx (f_elem r) (f_prop r) (f_opts r) (startTime r) (f_start r) (f_end r) (f_now r).

(** [DoAnim]: the loop of [doAnimation].  [Custom]: the end of [custom], and
    whether [show] goes on.  [Update]: the function [step] of the page is at
    work; the flag says whether the animation is over.  [AfterOld] and [Fin]:
    the rest of [complete].  [Tick], [TickWait], [StopLoop], [StopWait]: the
    loops of [tick] and [stop], between calls and during one. *)
Inductive frame :=
| Code
| DoAnim (elem o : nat) (hidden : bool) (todo : list (jstr * target))
| Custom (f : nat) (show : bool)
| Update (f : nat) (over : bool)
| AfterOld (o : nat) (answer : bool)
| Fin (answer : bool)
| Tick (i : nat)
| TickWait (i t : nat)
| StopLoop (elem : nat) (type : option jstr) (gotoEnd : bool) (n : nat) (had : bool)
| StopWait (elem : nat) (type : option jstr) (index t : nat).

Inductive entry :=
| LWrite (f : nat) (v : Q)
| LOver (f : nat)
| LComplete (o : nat)
| LStop (f : nat)                        (* taken out by [stop], not at its end *)
| LTypeError.

Record machine := Machine {
  opts : list options;
  fxs : list fx;
  timers : list nat;                     (* [jQuery.timers] *)
  timerId : bool;
  fxNow : option Z;
  clock : Z;
  style : gmap (nat * jstr) Q;           (* inline styles *)
  sheet : nat -> jstr -> Q;              (* what the style sheets say *)
  hidden : gset nat;
  fxshow : gmap (nat * jstr) Q;          (* data under [fxshow] + property *)
  toggles : gmap (nat * jstr) bool;      (* under [toggle] + property: [true] is [show] *)
  stack : list frame;
  log : list entry;
}.

#[export] Instance machine_eta : Eta machine :=
  fun r => Machine (opts r) (fxs r) (timers r) (timerId r) (fxNow r) (clock r) (style r) (sheet r) (hidden r)
    (fxshow r) (toggles r) (stack r) (log r).

Definition push (f : frame) (s : machine) : machine := s <| stack ::= cons f |>.
Definition logged (e : entry) (s : machine) : machine := s <| log ::= fun l => l ++ [e] |>.

(** [jQuery.easing.linear]. *)
Definition linear (p : Q) : Q := p.

Section Fx.
Context `{Easing}.

(** [fxNow || createFxNow()]. *)
Definition now (s : machine) : Z := default (clock s) (fxNow s).
Definition with_now (s : machine) : machine := s <| fxNow := Some (now s) |>.

Definition cur (elem : nat) (prop : jstr) (s : machine) : Q := default (sheet s elem prop) (style s !! (elem, prop)).

Definition fxAttrs : list (list jstr) :=
  [[js "height"; js "marginTop"; js "marginBottom"; js "paddingTop"; js "paddingBottom"];
   [js "width"; js "marginLeft"; js "marginRight"; js "paddingLeft"; js "paddingRight"];
   [js "opacity"]].

(** The properties [jQuery.fx.step] keeps from being negative. *)
Definition not_negative : list jstr := filter (fun p => take 6 p <> js "margin") (concat fxAttrs).

Definition step_value (prop : jstr) (v : Q) : Q := if decide (prop ∈ not_negative) then Qmax 0 v else v.

(** [(jQuery.fx.step[this.prop] || jQuery.fx.step._default)(this)]. *)
Definition write (n : nat) (f : fx) (s : machine) : machine :=
  let v := step_value (f_prop f) (f_now f) in
  logged (LWrite n v) (s <| style ::= <[(f_elem f, f_prop f) := v]> |>).

(** An exception ends the frames of the library. *)
Fixpoint unwind (st : list frame) : list frame :=
  match st with
  | [] | Code :: _ => st
  | _ :: st' => unwind st'
  end.

Definition throw (s : machine) : machine := s <| stack ::= unwind |>.

(** *** Returning from a timer *)

Definition delete_at (i : nat) (l : list nat) : list nat := take i l ++ drop (S i) l.

(** The frame that has called the timer takes its value. *)
Definition answer (b : bool) (s : machine) : machine :=
  match stack s with
  | Custom f sh :: st =>
      let s := s <| stack := st |> in
      let s := if b then s <| timers ::= fun l => l ++ [f] |> <| timerId := true |> else s in
      if sh then match fxs s !! f with Some x => s <| hidden ::= fun h => h ∖ {[f_elem x]} |> | None => s end else s
  | TickWait i t :: st =>
      if negb b && bool_decide (timers s !! i = Some t)
      then s <| timers ::= delete_at i |> <| stack := Tick i :: st |>
      else s <| stack := Tick (S i) :: st |>
  | StopWait elem type index _ :: st =>
      s <| timers ::= delete_at index |> <| stack := StopLoop elem type true index true :: st |>
  | _ => s
  end.

(** *** [complete] *)

(** After the function of the page: the next entry of the queue runs. *)
Definition after_old (o : nat) (b : bool) (s : machine) : machine :=
  match opts s !! o with
  | Some x => if queue x is Some _ then push Code (push (Fin b) s) else answer b s
  | None => s
  end.

(** [complete.call(elem)], in a function that will return [b]. *)
Definition call_complete (o : nat) (b : bool) (s : machine) : machine :=
  match opts s !! o with
  | Some x =>
      let s := logged (LComplete o) s in
      if old x then push Code (push (AfterOld o b) s) else after_old o b s
  | None => s
  end.

(** *** [jQuery.fx.prototype.step] *)

Definition all_over (m : gmap jstr (option jstr)) : bool := bool_decide (map_Forall (fun _ e => e = None) m).

(** [jQuery.style(elem, p, options.orig[p])] and the removal of the data. *)
Definition reset_prop (elem : nat) (x : options) (s : machine) (p : jstr) : machine :=
  let s := match orig x !! p with
           | Some (Some v) => s <| style ::= <[(elem, p) := v]> |>
           | Some None => s <| style ::= delete (elem, p) |>
           | None => s
           end in
  s <| fxshow ::= delete (elem, p) |> <| toggles ::= delete (elem, p) |>.

(** The element is hidden and its styles are put back, if that was asked. *)
Definition put_back (elem : nat) (x : options) (s : machine) : machine :=
  let s := if o_hide x then s <| hidden ::= fun h => {[elem]} ∪ h |> else s in
  if o_hide x || o_show x then foldl (reset_prop elem x) s (map_to_list (animatedProperties x)).*1 else s.

(** The end of an animation: all of its properties are over. *)
Definition finish (elem o : nat) (x : options) (s : machine) : machine :=
  let s := put_back elem x s in
  if complete x then call_complete o false (s <| opts ::= <[o := x <| complete := false |>]> |>)
  else answer false s.

(** After [update]. *)
Definition after_update (n : nat) (over : bool) (s : machine) : machine :=
  match fxs s !! n with
  | Some f =>
      let s := write n f s in
      if over then
        match opts s !! f_opts f with
        | Some x =>
            let x := x <| animatedProperties ::= <[f_prop f := None]> |> in
            let s := logged (LOver n) (s <| opts ::= <[f_opts f := x]> |>) in
            if all_over (animatedProperties x) then finish (f_elem f) (f_opts f) x s else answer false s
        | None => s
        end
      else answer true s
  | None => s
  end.

Definition update (n : nat) (over : bool) (x : options) (s : machine) : machine :=
  if o_step x then push Code (push (Update n over) s) else after_update n over s.

(** [jQuery.easing[options.animatedProperties[this.prop]]]; [true] and an
    unknown name have none. *)
Definition easing_of (p : jstr) (x : options) : option (Q -> Q) := mjoin (animatedProperties x !! p) ≫= easing.

Definition step (n : nat) (gotoEnd : bool) (s : machine) : machine :=
  let t := now s in
  let s := with_now s in
  match fxs s !! n with
  | Some f =>
      match opts s !! f_opts f with
      | Some x =>
          if gotoEnd || (duration x + startTime f <=? t) then
            update n true x (s <| fxs ::= <[n := f <| f_now := f_end f |>]> |>)
          else
            match easing_of (f_prop f) x with
            | Some g =>
                let state := (inject_Z (t - startTime f) / inject_Z (duration x))%Q in
                let v := (f_start f + (f_end f - f_start f) * g state)%Q in
                update n false x (s <| fxs ::= <[n := f <| f_now := v |>]> |>)
            | None => throw (logged LTypeError s)          (* [undefined] is called *)
            end
      | None => s
      end
  | None => s
  end.

(** *** [custom], [show] and [hide] *)

Definition custom (elem : nat) (prop : jstr) (o : nat) (from to : Q) (sh : bool) (s : machine) : machine :=
  let n := length (fxs s) in
  let f := Fx elem prop o (now s) from to from in
  step n false (push (Custom n sh) ((with_now s) <| fxs ::= fun l => l ++ [f] |>)).

Definition nonzero (v : Q) : option Q := if Qeq_bool v 0 then None else Some v.

(** [dataShow || jQuery.style(elem, prop)]. *)
Definition original_value (elem : nat) (prop : jstr) (s : machine) : option Q :=
  match fxshow s !! (elem, prop) ≫= nonzero with Some v => Some v | None => style s !! (elem, prop) end.

Definition show (elem : nat) (prop : jstr) (o : nat) (s : machine) : machine :=
  let s' := s <| opts ::= alter (fun x => x <| orig ::= <[prop := original_value elem prop s]> |> <| o_show := true |>) o |> in
  match fxshow s !! (elem, prop) with
  | Some v => custom elem prop o (cur elem prop s) v true s'
  | None =>
      custom elem prop o (if decide (prop = js "width" \/ prop = js "height") then 1 else 0) (cur elem prop s) true s'
  end.

Definition hide (elem : nat) (prop : jstr) (o : nat) (s : machine) : machine :=
  let s' := s <| opts ::= alter (fun x => x <| orig ::= <[prop := original_value elem prop s]> |> <| o_hide := true |>) o |> in
  custom elem prop o (cur elem prop s) 0 false s'.

(** *** [doAnimation] *)

(** One property of the loop. *)
Definition animate_prop (elem o : nat) (hid : bool) (p : jstr) (v : target) (s : machine) : machine :=
  match v with
  | TNum n => custom elem p o (cur elem p s) n false s
  | TRel n => custom elem p o (cur elem p s) (n + cur elem p s) false s
  | _ =>
      let method := match toggles s !! (elem, p) with
                    | Some m => Some m
                    | None => match v with TToggle => Some hid | _ => None end
                    end in
      match method with
      | Some m =>
          let s := s <| toggles ::= <[(elem, p) := negb m]> |> in
          if m then show elem p o s else hide elem p o s
      | None => match v with TShow => show elem p o s | _ => hide elem p o s end
      end
  end.

(** [val === "hide" && hidden || val === "show" && !hidden]. *)
Definition nothing_to_do (hid : bool) (v : target) : bool :=
  match v with THide => hid | TShow => negb hid | _ => false end.

(** What [doAnimation] finds: the element, the duration, the properties with
    their easing, and which functions the page gave. *)
Record call := Call {
  c_elem : nat; c_duration : Z; c_props : list (jstr * (jstr * target)); c_old : bool; c_step : bool; c_queue : option jstr;
}.

(** The first argument of [jQuery.speed]; the names [Object.prototype] has are
    left out. *)
Inductive speed_arg := SNumber (z : Z) | SName (name : jstr) | SOther.

Definition speed (off : bool) (a : speed_arg) : Z :=
  if off then 0 else
  match a with
  | SNumber z => z
  | SName n => if decide (n = js "slow") then 600 else if decide (n = js "fast") then 200 else 400
  | SOther => 400
  end.

(** A property has its own easing ([[value, easing]]), the one of
    [specialEasing], the one of the call, or [swing]; [queue] can be [false]. *)
Definition animate (elem : nat) (props : list (jstr * (option jstr * target))) (off : bool) (a : speed_arg)
    (special : jstr -> option jstr) (e : option jstr) (old step : bool) (q : option jstr) : call :=
  let of_prop p own := match own with Some e' => e' | None =>
                         match special p with Some e' => e' | None => default (js "swing") e end end in
  Call elem (speed off a) ((fun '(p, (own, v)) => (p, (of_prop p own, v))) <$> props) old step q.

Definition genFx (v : target) (num : nat) : list (jstr * (option jstr * target)) :=
  (fun p => (p, (None, v))) <$> concat (take num fxAttrs).
Definition slideDown := genFx TShow 1.
Definition slideUp := genFx THide 1.
Definition slideToggle := genFx TToggle 1.
Definition fadeIn := [(js "opacity", (@None jstr, TShow))].
Definition fadeOut := [(js "opacity", (@None jstr, THide))].
Definition fadeToggle := [(js "opacity", (@None jstr, TToggle))].

(** The names up to the first property for which there is nothing to do. *)
Fixpoint eased (hid : bool) (l : list (jstr * (jstr * target))) : gmap jstr (option jstr) :=
  match l with
  | [] => ∅
  | (p, (e, v)) :: l' => <[p := Some e]> (if nothing_to_do hid v then ∅ else eased hid l')
  end.

(** [animate] without a property calls [complete] at once. *)
Definition doAnimation (c : call) (s : machine) : machine :=
  let hid := bool_decide (c_elem c ∈ hidden s) in
  let o := length (opts s) in
  let x := Options (c_duration c) (eased hid (c_props c)) false false ∅ true (c_old c) (c_step c) (c_queue c) in
  let s := s <| opts ::= fun l => l ++ [x] |> in
  if bool_decide (c_props c = []) || existsb (fun '(_, (_, v)) => nothing_to_do hid v) (c_props c) then call_complete o true s
  else push (DoAnim (c_elem c) o hid ((fun '(p, (_, v)) => (p, v)) <$> c_props c)) s.

(** *** [tick] and [stop] *)

Definition saveState (f : fx) (x : options) (s : machine) : machine :=
  match fxshow s !! (f_elem f, f_prop f) with
  | Some _ => s
  | None =>
      if o_hide x then s <| fxshow ::= <[(f_elem f, f_prop f) := f_start f]> |>
      else if o_show x then s <| fxshow ::= <[(f_elem f, f_prop f) := f_end f]> |> else s
  end.

(** One turn of the loop of [tick]. *)
Definition tick_step (i : nat) (s : machine) : machine :=
  match timers s !! i with
  | Some t => step t false (push (TickWait i t) s)
  | None => if decide (timers s = []) then s <| timerId := false |> else s
  end.

(** One turn of the loop of [stop]; [n] turns are left. *)
Definition stop_step (elem : nat) (type : option jstr) (gotoEnd : bool) (n : nat) (had : bool) (s : machine) : machine :=
  match n with
  | O => if gotoEnd && had then s else push Code s                   (* [jQuery.dequeue] *)
  | S index =>
      match timers s !! index with
      | Some t =>
          match fxs s !! t with
          | Some f =>
              match opts s !! f_opts f with
              | Some x =>
                  if bool_decide (f_elem f = elem) && match type with Some q => bool_decide (queue x = Some q) | None => true end then
                    if gotoEnd then step t true (push (StopWait elem type index t) s)
                    else push (StopLoop elem type gotoEnd index true)
                           (logged (LStop t) ((saveState f x s) <| timers ::= delete_at index |>))
                  else push (StopLoop elem type gotoEnd index had) s
              | None => s
              end
          | None => s
          end
      | None => throw (logged LTypeError s)                           (* [timers[index].elem] *)
      end
  end.

(** ** Steps *)

Definition library_step (s : machine) : option machine :=
  match stack s with
  | DoAnim elem o hid [] :: st => Some (s <| stack := st |>)
  | DoAnim elem o hid ((p, v) :: todo) :: st =>
      Some (animate_prop elem o hid p v (s <| stack := DoAnim elem o hid todo :: st |>))
  | Tick i :: st => Some (tick_step i (s <| stack := st |>))
  | StopLoop elem type gotoEnd n had :: st => Some (stop_step elem type gotoEnd n had (s <| stack := st |>))
  | _ => None
  end.

(** A function of the page returns to the frame below it. *)
Definition return_ (s : machine) : machine :=
  match stack s with
  | Update n over :: st => after_update n over (s <| stack := st |>)
  | AfterOld o b :: st => after_old o b (s <| stack := st |>)
  | Fin b :: st => answer b (s <| stack := st |>)
  | _ => s
  end.

Inductive action :=
| ALibrary
| AReturn
| AThrow
| AAnimate (c : call)                              (* [doAnimation] is called *)
| AStop (elem : nat) (type : option jstr) (gotoEnd : bool)
| ATick                                            (* the interval fires *)
| AClear                                           (* [clearFxNow] *)
| ATime (t : Z)
| AStyle (elem : nat) (prop : jstr) (v : option Q).

Definition page_runs (s : machine) : bool := match stack s with [] | Code :: _ => true | _ => false end.

Definition page_step (a : action) (s : machine) : option machine :=
  match a with
  | ALibrary => None
  | AReturn => match stack s with Code :: st => Some (return_ (s <| stack := st |>)) | _ => None end
  | AThrow => match stack s with Code :: st => Some (s <| stack := unwind st |>) | _ => None end
  | AAnimate c => if decide (NoDup (c_props c).*1) then Some (doAnimation c s) else None   (* keys of an object *)
  | AStop elem type gotoEnd => Some (push (StopLoop elem type gotoEnd (length (timers s)) false) s)
  | ATick => match stack s with [] => if timerId s then Some (push (Tick 0) s) else None | _ => None end
  | AClear => match stack s with [] => Some (s <| fxNow := None |>) | _ => None end
  | ATime t => if clock s <=? t then Some (s <| clock := t |>) else None
  | AStyle elem prop v => Some (s <| style ::= partial_alter (fun _ => v) (elem, prop) |>)
  end.

Definition act (s : machine) (a : action) : option machine :=
  match a with
  | ALibrary => library_step s
  | _ => if page_runs s then page_step a s else None
  end.

Fixpoint run (s : machine) (l : list action) : option machine :=
  match l with
  | [] => Some s
  | a :: l' => s' ← act s a; run s' l'
  end.

Definition start (sh : nat -> jstr -> Q) (t : Z) : machine := Machine [] [] [] false None t ∅ sh ∅ ∅ ∅ [] [].

(** ** What every run keeps *)

Definition between (a b v : Q) : Prop := (Qmin a b <= v <= Qmax a b)%Q.

(** The value of a write, for an animation from [f_start] to [f_end]. *)
Definition ranged (f : fx) (v : Q) : Prop := ∃ w, between (f_start f) (f_end f) w /\ v = step_value (f_prop f) w.

(** The easing functions stay between 0 and 1. *)
Definition unit_easing : Prop := ∀ e g q, easing e = Some g -> (0 <= q <= 1)%Q -> (0 <= g q <= 1)%Q.

Definition static (f : fx) : nat * jstr * nat * Z * Q * Q := (f_elem f, f_prop f, f_opts f, startTime f, f_start f, f_end f).

Definition props_over (fs : list fx) (o : nat) (x : options) (l : list entry) : Prop :=
  ∀ p, p ∈ dom (animatedProperties x) -> ∃ n f, fs !! n = Some f /\ f_opts f = o /\ f_prop f = p /\ LOver n ∈ l.

(** No property of [o] has been begun, and none will be. *)
Definition unused (o : nat) (s : machine) : Prop :=
  (∀ n f, fxs s !! n = Some f -> f_opts f <> o) /\ (∀ e hid todo, DoAnim e o hid todo ∉ stack s).

Record data_ok (s : machine) : Prop := {
  d_clock : ∀ t, fxNow s = Some t -> t <= clock s;
  d_fx : ∀ n f, fxs s !! n = Some f -> startTime f <= now s /\ (unit_easing -> between (f_start f) (f_end f) (f_now f)) /\
           ∃ x, opts s !! f_opts f = Some x /\ f_prop f ∈ dom (animatedProperties x);
  d_write : ∀ n v, LWrite n v ∈ log s -> ∃ f, fxs s !! n = Some f /\ (unit_easing -> ranged f v);
  d_over : ∀ l1 n l2, log s = l1 ++ LOver n :: l2 ->
             ∃ l0 f, fxs s !! n = Some f /\ l1 = l0 ++ [LWrite n (step_value (f_prop f) (f_end f))];
  d_none : ∀ o x p, opts s !! o = Some x -> animatedProperties x !! p = Some None ->
             ∃ n f, fxs s !! n = Some f /\ f_opts f = o /\ f_prop f = p /\ LOver n ∈ log s;
  d_complete : ∀ l1 o l2, log s = l1 ++ LComplete o :: l2 -> (LComplete o ∉ l1) /\ ∃ x, opts s !! o = Some x /\
                 (unused o s \/ complete x = false /\ props_over (fxs s) o x l1);
}.

Definition frame_ok (s : machine) (fr : frame) : Prop :=
  match fr with
  | DoAnim _ o _ todo => ∃ x, opts s !! o = Some x /\ ∀ p, p ∈ todo.*1 -> p ∈ dom (animatedProperties x)
  | Custom n _ | TickWait _ n | StopWait _ _ _ n => is_Some (fxs s !! n)
  | Update n over => ∃ f, fxs s !! n = Some f /\ (over = true -> f_now f = f_end f)
  | AfterOld o _ => is_Some (opts s !! o)
  | _ => True
  end.

Definition is_tick (fr : frame) : Prop := match fr with Tick _ | TickWait _ _ => True | _ => False end.

(** The interval fires when no code is at work. *)
Fixpoint tick_last (st : list frame) : Prop :=
  match st with
  | [] => True
  | fr :: st' => (is_tick fr -> st' = []) /\ tick_last st'
  end.

Record inv (s : machine) : Prop := {
  i_data : data_ok s;
  i_frames : ∀ fr, fr ∈ stack s -> frame_ok s fr;
  i_tick : tick_last (stack s);
  i_timers : ∀ t, t ∈ timers s -> is_Some (fxs s !! t);
}.

(** What the invariant does not look at can change. *)
Lemma inv_core s s' :
  inv s -> opts s' = opts s -> fxs s' = fxs s -> fxNow s' = fxNow s -> clock s' = clock s -> log s' = log s ->
  (∀ fr, fr ∈ stack s' -> fr ∈ stack s \/
     frame_ok s fr /\ ∀ e o hid todo, fr = DoAnim e o hid todo -> ∃ todo', DoAnim e o hid todo' ∈ stack s) ->
  tick_last (stack s') -> (∀ t, t ∈ timers s' -> t ∈ timers s \/ is_Some (fxs s !! t)) -> inv s'.
Proof.
  intros [[] ? ? ?] Eo Ef En Ec El Hst Ht Htm. 
  assert (Hfr : ∀ fr, frame_ok s fr -> frame_ok s' fr) by (intros []; unfold frame_ok; rewrite ?Eo, ?Ef; done).
  split; [split|..]; unfold now in *; rewrite ?Eo, ?Ef, ?En, ?Ec, ?El; try done.
  - intros l1 o l2 Hl. destruct (d_complete0 _ _ _ Hl) as (? & x & ? & [[Hu Hs]|?]); split; [done|..|done|]; exists x; split; try done; [left|by right].
    split; [by rewrite Ef|]. intros e hid todo [Hin|[_ Hne]]%Hst; [by eapply Hs|].
    destruct (Hne _ _ _ _ eq_refl) as [? ?]. by eapply Hs.
  - intros fr [?|[? _]]%Hst; auto.
  - intros t [?|?]%Htm; auto.
Qed.

Lemma unused_ext o s s' :
  unused o s -> (∀ n f, fxs s' !! n = Some f -> f_opts f = o -> ∃ n f, fxs s !! n = Some f /\ f_opts f = o) ->
  (∀ e hid todo, DoAnim e o hid todo ∈ stack s' -> ∃ todo, DoAnim e o hid todo ∈ stack s) -> unused o s'.
Proof.
  intros [Hf Hs] H1 H2. split.
  - intros n f Hn Ho. destruct (H1 _ _ Hn Ho) as (n' & f' & Hn' & Ho'). by apply (Hf n' f').
  - intros e hid todo Hin. destruct (H2 _ _ _ Hin) as [todo' ?]. by eapply Hs.
Qed.

Lemma snoc_split {A} (l l1 l2 : list A) (e a : A) :
  l ++ [e] = l1 ++ a :: l2 -> l2 = [] /\ a = e /\ l1 = l \/ ∃ l2', l = l1 ++ a :: l2'.
Proof.
  destruct l2 as [|b l2 _] using rev_ind.
  - intros [? [=]]%app_inj_tail. by left.
  - rewrite app_comm_cons, app_assoc. intros [-> ->]%app_inj_tail. right. by exists l2.
Qed.

Definition entry_ok (s : machine) (e : entry) : Prop :=
  match e with
  | LWrite n v => ∃ f, fxs s !! n = Some f /\ (unit_easing -> ranged f v)
  | LOver n => ∃ l0 f, fxs s !! n = Some f /\ log s = l0 ++ [LWrite n (step_value (f_prop f) (f_end f))]
  | LComplete o => (LComplete o ∉ log s) /\ ∃ x, opts s !! o = Some x /\
                     (unused o s \/ complete x = false /\ props_over (fxs s) o x (log s))
  | _ => True
  end.

Lemma inv_logged e s : inv s -> entry_ok s e -> inv (logged e s).
Proof.
  intros [[] ? ? ?] He. split; [split|..]; cbn; try done.
  - intros n v [?|<-%list_elem_of_singleton]%elem_of_app; [by apply d_write0|done].
  - intros l1 n l2 [(-> & <- & ->)|[l2' ?]]%snoc_split; [done|by eapply d_over0].
  - intros o x p Ho Hp. destruct (d_none0 _ _ _ Ho Hp) as (n & f & ? & ? & ? & ?).
    exists n, f. by rewrite elem_of_app; auto.
  - intros l1 o l2 [(-> & <- & ->)|[l2' ?]]%snoc_split; [done|by eapply d_complete0].
Qed.

Lemma props_over_dom fs o x x' l :
  dom (animatedProperties x') = dom (animatedProperties x) -> props_over fs o x l -> props_over fs o x' l.
Proof. intros E Ho p. rewrite E. apply Ho. Qed.

(** An [options] changes: a property is over, [complete] is taken, [orig] is
    written. *)
Lemma inv_opts o x x' s :
  inv s -> opts s !! o = Some x -> dom (animatedProperties x') = dom (animatedProperties x) ->
  (complete x = false -> complete x' = false) ->
  (∀ p, animatedProperties x' !! p = Some None -> animatedProperties x !! p = Some None \/
     ∃ n f, fxs s !! n = Some f /\ f_opts f = o /\ f_prop f = p /\ LOver n ∈ log s) ->
  inv (s <| opts ::= <[o := x']> |>).
Proof.
  intros [[] ? ? ?] Ho Hdom Hc Hp.
  assert (Hlook : ∀ o' y, opts s !! o' = Some y -> ∃ y', <[o := x']> (opts s) !! o' = Some y' /\
            dom (animatedProperties y') = dom (animatedProperties y) /\ (complete y = false -> complete y' = false)).
  { intros o' y Hy. destruct (decide (o = o')) as [<-|Hne]; [|rewrite list_lookup_insert_ne by done; eauto].
    rewrite list_lookup_insert_eq by (by eapply lookup_lt_Some). simplify_eq. eauto. }
  split; [split|..]; cbn; try done.
  - intros n f Hf. destruct (d_fx0 _ _ Hf) as (? & ? & y & Hy & Hin). split_and!; [done..|].
    destruct (Hlook _ _ Hy) as (y' & ? & E & _). exists y'. by rewrite E.
  - intros o' y p Hy Hn. destruct (decide (o = o')) as [<-|Hne].
    + rewrite list_lookup_insert_eq in Hy by (by eapply lookup_lt_Some). simplify_eq.
      destruct (Hp _ Hn) as [?|?]; [by eapply d_none0|done].
    + rewrite list_lookup_insert_ne in Hy by done. by eapply d_none0.
  - intros l1 o' l2 Hl. destruct (d_complete0 _ _ _ Hl) as (? & y & Hy & Hor). split; [done|].
    destruct (Hlook _ _ Hy) as (y' & ? & E & ?). exists y'. split; [done|].
    destruct Hor as [Hu|[? ?]]; [by left|right; split; [auto|by eapply props_over_dom]].
  - intros fr Hin. specialize (i_frames0 fr Hin). destruct fr; cbn in *; try done.
    + destruct i_frames0 as (y & Hy & Hd). destruct (Hlook _ _ Hy) as (y' & ? & E & _). exists y'. by rewrite E.
    + destruct i_frames0 as (y & Hy). destruct (Hlook _ _ Hy) as (y' & ? & _). by exists y'.
Qed.

Lemma inv_with_now s : inv s -> inv (with_now s).
Proof.
  intros [[] ? ? ?]. split; [split|..]; cbn; try done.
  - intros t [= <-]. unfold now. destruct (fxNow s) eqn:E; cbn; [by apply d_clock0|lia].
Qed.

(** *** Values *)

Lemma inv_value n f v s :
  inv s -> fxs s !! n = Some f -> (unit_easing -> between (f_start f) (f_end f) v) -> (Update n true ∈ stack s -> v = f_end f) ->
  inv (s <| fxs ::= <[n := f <| f_now := v |>]> |>).
Proof.
  intros [[] ? ? ?] Hf Hv Hu.
  assert (Hlook : ∀ m g, fxs s !! m = Some g -> ∃ g', <[n := f <| f_now := v |>]> (fxs s) !! m = Some g' /\
            static g' = static g /\ (m = n -> f_now g' = v) /\ (m <> n -> g' = g)).
  { intros m g Hg. destruct (decide (n = m)) as [<-|Hne]; [|rewrite list_lookup_insert_ne by done; naive_solver].
    rewrite list_lookup_insert_eq by (by eapply lookup_lt_Some). simplify_eq. naive_solver. }
  assert (Hback : ∀ m g', <[n := f <| f_now := v |>]> (fxs s) !! m = Some g' -> ∃ g, fxs s !! m = Some g /\
            static g' = static g /\ (f_now g' = v /\ m = n \/ g' = g)).
  { intros m g' Hg. destruct (decide (n = m)) as [<-|Hne]; [|rewrite list_lookup_insert_ne in Hg by done; naive_solver].
    rewrite list_lookup_insert_eq in Hg by (by eapply lookup_lt_Some). simplify_eq. naive_solver. }
  assert (Hover : ∀ o x l, props_over (fxs s) o x l -> props_over (<[n := f <| f_now := v |>]> (fxs s)) o x l).
  { intros o x l Hp p Hin. destruct (Hp p Hin) as (m & g & Hg & ? & ? & ?). destruct (Hlook _ _ Hg) as (g' & ? & Hs & _).
    injection Hs as ???. exists m, g'. naive_solver. }
  split; [split|..]; cbn; try done.
  - intros m g' Hg. destruct (Hback _ _ Hg) as (g & Hg' & [= _ Ep Eo Et E1 E2] & Hor). destruct (d_fx0 _ _ Hg') as (? & ? & ?).
    rewrite Ep, Eo, Et, E1, E2. split_and!; try done. destruct Hor as [[-> ->]| ->]; [by simplify_eq|done].
  - intros m w Hin. destruct (d_write0 _ _ Hin) as (g & Hg & Hr). destruct (Hlook _ _ Hg) as (g' & ? & Hs & _).
    exists g'. split; [done|]. unfold ranged in *. injection Hs as _ -> _ _ -> ->. done.
  - intros l1 m l2 Hl. destruct (d_over0 _ _ _ Hl) as (l0 & g & Hg & ->). destruct (Hlook _ _ Hg) as (g' & ? & Hs & _).
    exists l0, g'. by injection Hs as _ -> _ _ _ ->.
  - intros o x p Ho Hp. destruct (d_none0 _ _ _ Ho Hp) as (m & g & Hg & ? & ? & ?). destruct (Hlook _ _ Hg) as (g' & ? & Hs & _).
    injection Hs as ???. exists m, g'. naive_solver.
  - intros l1 o l2 Hl. destruct (d_complete0 _ _ _ Hl) as (? & x & Hx & Hor). split; [done|]. exists x. split; [done|].
    destruct Hor as [Hn|[? ?]]; [left|right; auto]. eapply unused_ext; [done|..|eauto].
    intros m g' Hg Ho. destruct (Hback _ _ Hg) as (g & Hg' & Hs & _). injection Hs as ???. exists m, g. split; congruence.
  - intros fr Hin. pose proof (i_frames0 fr Hin) as Hfr. destruct fr; cbn in *; try done.
    1,3,4: destruct Hfr as [g Hg]; destruct (Hlook _ _ Hg) as (g' & ? & _); by exists g'.
    destruct Hfr as (g & Hg & Hend). destruct (Hlook _ _ Hg) as (g' & ? & Hs & Heq & Hne). exists g'. split; [done|].
    intros ->. destruct (decide (f0 = n)) as [->|]; [|by rewrite Hne by done; auto].
    injection Hs as ???. rewrite Heq by done. simplify_eq. rewrite Hu by done. congruence.
  - intros t Ht. destruct (i_timers0 t Ht) as [g Hg]. destruct (Hlook _ _ Hg) as (g' & ? & _). by exists g'.
Qed.

(** *** New objects *)

Lemma inv_new_fx f s :
  inv s -> (∃ e hid todo, DoAnim e (f_opts f) hid todo ∈ stack s) ->
  (∃ x, opts s !! f_opts f = Some x /\ f_prop f ∈ dom (animatedProperties x)) ->
  startTime f <= now s -> (unit_easing -> between (f_start f) (f_end f) (f_now f)) -> inv (s <| fxs ::= fun l => l ++ [f] |>).
Proof.
  intros [[] ? ? ?] (e & hid & todo & Hin) Hx Ht Hb.
  assert (Hl : ∀ n g, fxs s !! n = Some g -> (fxs s ++ [f]) !! n = Some g) by (intros; by apply lookup_app_l_Some).
  split; [split|..]; cbn; try done.
  - intros n g [Hg|[_ [_ <-]%list_lookup_singleton_Some]]%lookup_app_Some; [by apply (d_fx0 n)|done].
  - naive_solver.
  - intros l1 n l2 Hlog. destruct (d_over0 _ _ _ Hlog) as (l0 & g & ? & ->). exists l0, g. auto.
  - intros o x p Ho Hp. destruct (d_none0 _ _ _ Ho Hp) as (n & g & ?). exists n, g. naive_solver.
  - intros l1 o l2 Hlog. destruct (d_complete0 _ _ _ Hlog) as (? & x & ? & Hor). split; [done|]. exists x. split; [done|].
    destruct Hor as [Hu|[? Hov]]; [left|right; split; [done|]].
    + eapply unused_ext; [done|cbn|cbn; eauto].
      intros n g [Hg|[_ [_ <-]%list_lookup_singleton_Some]]%lookup_app_Some Ho; [eauto|subst]. destruct Hu as [_ Hu]. by destruct (Hu e hid todo).
    + intros p Hp. destruct (Hov p Hp) as (n & g & ?). exists n, g. naive_solver.
  - intros fr Hfr. specialize (i_frames0 fr Hfr). destruct fr; cbn in *; unfold is_Some in *; naive_solver.
  - intros t [g ?]%i_timers0. exists g. auto.
Qed.

Lemma inv_new_opts x s :
  inv s -> (∀ p, animatedProperties x !! p <> Some None) -> inv (s <| opts ::= fun l => l ++ [x] |>).
Proof.
  intros [[] ? ? ?] Hx.
  assert (Hl : ∀ n g, opts s !! n = Some g -> (opts s ++ [x]) !! n = Some g) by (intros; by apply lookup_app_l_Some).
  split; [split|..]; cbn; try done.
  - intros n f Hf. destruct (d_fx0 _ _ Hf) as (? & ? & y & ? & ?). split_and!; [done..|]. exists y. auto.
  - intros o y p [Hy|[_ [_ <-]%list_lookup_singleton_Some]]%lookup_app_Some Hp; [by eapply d_none0|by destruct (Hx p)].
  - intros l1 o l2 Hlog. destruct (d_complete0 _ _ _ Hlog) as (? & y & ? & Hor). split; [done|]. exists y. auto.
  - intros fr Hfr. specialize (i_frames0 fr Hfr). destruct fr; cbn in *; unfold is_Some in *; naive_solver.
Qed.

(** *** The stack *)

Lemma inv_push fr s :
  inv s -> frame_ok s fr -> (∀ e o hid todo, fr <> DoAnim e o hid todo) -> (is_tick fr -> stack s = []) -> inv (push fr s).
Proof.
  intros Hi Hfr Hne Ht. eapply inv_core; [exact Hi|done..| | |auto]; cbn.
  - intros fr' [-> |?]%elem_of_cons; [right|by left]. split; [done|]. intros ? ? ? ? E. by apply Hne in E.
  - split; [done|by apply Hi].
Qed.

Lemma inv_pop fr st s : inv s -> stack s = fr :: st -> inv (s <| stack := st |>).
Proof.
  intros Hi E. eapply inv_core; [exact Hi|done..| | |auto]; cbn.
  - intros fr' Hin. left. rewrite E. by right.
  - apply i_tick in Hi. rewrite E in Hi. by apply Hi.
Qed.

Lemma delete_at_elem i l t : t ∈ delete_at i l -> t ∈ l.
Proof.
  unfold delete_at. rewrite elem_of_app. intros [(j & Hj & _)%elem_of_take|(j & Hj)%list_elem_of_lookup].
  - by eapply list_elem_of_lookup_2.
  - rewrite lookup_drop in Hj. by eapply list_elem_of_lookup_2.
Qed.

Lemma inv_answer b s : inv s -> inv (answer b s).
Proof.
  intros Hi. unfold answer. destruct (stack s) as [|fr st] eqn:Est; [done|].
  pose proof (inv_pop _ _ _ Hi Est) as Hp. pose proof (i_frames _ Hi fr ltac:(rewrite Est; by left)) as Hfr.
  pose proof (i_tick _ Hi) as Ht. rewrite Est in Ht. destruct fr as [| |n sh| | | | |i t| |elem type index t]; try done; cbn in Hfr, Ht.
  - assert (Ha : inv (if b then s <| stack := st |> <| timers ::= fun l => l ++ [n] |> <| timerId := true |> else s <| stack := st |>)).
    { destruct b; [|done]. eapply inv_core; [exact Hp|done..|cbn; auto|by apply Hp|cbn].
      intros t [?| ->%list_elem_of_singleton]%elem_of_app; auto. }
    destruct sh; [|by destruct b]. destruct b; cbn; destruct (_ !! n); try done; (eapply inv_core; [exact Ha|done..|cbn; auto|by apply Ha|auto]).
  - destruct (negb b && _); (eapply inv_core; [exact Hp|done..| | |]; cbn).
    + intros fr [-> |?]%elem_of_cons; [by right|by left].
    + by split; [tauto|apply Ht].
    + intros t' ?%delete_at_elem. auto.
    + intros fr [-> |?]%elem_of_cons; [by right|by left].
    + by split; [tauto|apply Ht].
    + auto.
  - eapply inv_core; [exact Hp|done..| | |]; cbn.
    + intros fr [-> |?]%elem_of_cons; [by right|by left].
    + by split; [|apply Ht].
    + intros t' ?%delete_at_elem. auto.
Qed.

Lemma unwind_top st : ∃ top, st = top ++ unwind st.
Proof.
  induction st as [|fr st [top IH]]; [by exists []|]. destruct fr; [by exists []|..]; cbn; eexists (_ :: top); cbn; by rewrite <- IH.
Qed.

Lemma tick_last_app top st : tick_last (top ++ st) -> tick_last st.
Proof. induction top; [done|]. intros [_ ?]. auto. Qed.

Lemma inv_unwind st s : inv (s <| stack := st |>) -> inv (s <| stack := unwind st |>).
Proof.
  intros Hi. destruct (unwind_top st) as [top E].
  eapply inv_core; [exact Hi|done..| | |auto]; cbn.
  - intros fr ?. left. rewrite E. apply elem_of_app. auto.
  - apply (tick_last_app top). rewrite <- E. by apply i_tick in Hi.
Qed.

Lemma inv_throw s : inv s -> inv (throw s).
Proof. intros Hi. apply (inv_unwind (stack s) s). by destruct s. Qed.

(** *** From [update] to the end of [complete] *)

Lemma inv_code s : inv s -> inv (push Code s).
Proof. intros. by apply inv_push. Qed.

Lemma inv_after_old o b s : inv s -> inv (after_old o b s).
Proof.
  intros Hi. unfold after_old. destruct (opts s !! o) as [x|]; [|done]. destruct (queue x); [|by apply inv_answer].
  apply inv_code. by apply inv_push.
Qed.

Lemma inv_call_complete o b s : inv s -> entry_ok s (LComplete o) -> inv (call_complete o b s).
Proof.
  intros Hi He. unfold call_complete. destruct (opts s !! o) as [x|] eqn:Ho; [|done].
  pose proof (inv_logged _ _ Hi He). destruct (old x); [|by apply inv_after_old].
  apply inv_code, inv_push; cbn; done.
Qed.

Definition same_core (s s' : machine) : Prop :=
  opts s' = opts s /\ fxs s' = fxs s /\ fxNow s' = fxNow s /\ clock s' = clock s /\ log s' = log s /\ stack s' = stack s /\ timers s' = timers s /\
  timerId s' = timerId s.

#[local] Instance same_core_preorder : PreOrder same_core.
Proof. split; [by intros s; split_and!|]. intros s1 s2 s3 (?&?&?&?&?&?&?&?) (?&?&?&?&?&?&?&?). split_and!; congruence. Qed.

Lemma inv_same s s' : inv s -> same_core s s' -> inv s'.
Proof.
  intros Hi (? & ? & ? & ? & ? & E & Et & _). eapply inv_core; [exact Hi|done..| | |]; rewrite ?E, ?Et; [auto|apply Hi|auto].
Qed.

Lemma reset_same elem x l s : same_core s (foldl (reset_prop elem x) s l).
Proof.
  revert s. induction l as [|p l IH]; intros s; [done|]. cbn. etransitivity; [|apply IH].
  unfold reset_prop. by destruct (orig x !! p) as [[]|]; split_and!.
Qed.

Lemma put_back_same elem x s : same_core s (put_back elem x s).
Proof. unfold put_back. destruct (o_hide x), (o_show x); cbn; try done; (etransitivity; [|apply reset_same]); by split_and!. Qed.

Lemma inv_write n f s : inv s -> fxs s !! n = Some f -> inv (write n f s).
Proof.
  intros Hi Hf. apply inv_logged.
  - eapply inv_same; [exact Hi|by split_and!].
  - exists f. split; [done|]. intros ?. eexists. split; [|done]. by apply (d_fx _ (i_data _ Hi) _ _ Hf).
Qed.

Lemma complete_entry o x x' n f s :
  inv s -> opts s !! o = Some x -> complete x = true -> all_over (animatedProperties x) = true ->
  fxs s !! n = Some f -> f_opts f = o -> x' = x <| complete := false |> ->
  entry_ok (s <| opts ::= <[o := x']> |>) (LComplete o).
Proof.
  intros Hi Ho Hc Hall%bool_decide_eq_true Hf Hof ->. split; cbn.
  - intros (l1 & l2 & E)%list_elem_of_split. destruct (d_complete _ (i_data _ Hi) _ _ _ E) as (_ & y & Hy & [[Hu _]|[? _]]).
    + by apply (Hu n f).
    + congruence.
  - eexists. split; [apply list_lookup_insert_eq; by eapply lookup_lt_Some|]. right. split; [done|]. intros p Hp. cbn in Hp.
    apply elem_of_dom in Hp as [e He]. pose proof (Hall _ _ He) as Hn. cbn in Hn. subst e. by apply (d_none _ (i_data _ Hi) _ x).
Qed.

Lemma inv_finish elem o x n f s :
  inv s -> opts s !! o = Some x -> all_over (animatedProperties x) = true -> fxs s !! n = Some f -> f_opts f = o ->
  inv (finish elem o x s).
Proof.
  intros Hi Ho Hall Hf Hof. unfold finish. pose proof (put_back_same elem x s) as Hs. pose proof (inv_same _ _ Hi Hs) as Hi'.
  destruct Hs as (Eo & Ef & _). destruct (complete x) eqn:Hc; [|by apply inv_answer]. rewrite <- Eo in Ho. rewrite <- Ef in Hf.
  apply inv_call_complete; [|by eapply complete_entry].
  eapply inv_opts; [exact Hi'|done..|]. intros p Hp. by left.
Qed.

Lemma over_entry n f s : fxs s !! n = Some f -> f_now f = f_end f -> entry_ok (write n f s) (LOver n).
Proof. intros Hf Hn. exists (log s), f. cbn. by rewrite Hn. Qed.

Lemma inv_after_update n over f s :
  inv s -> fxs s !! n = Some f -> (over = true -> f_now f = f_end f) -> inv (after_update n over s).
Proof.
  intros Hi Hf Hover. unfold after_update. rewrite Hf. cbn zeta. pose proof (inv_write _ _ _ Hi Hf) as Hw.
  destruct over; [|by apply inv_answer]. specialize (Hover eq_refl).
  destruct (d_fx _ (i_data _ Hi) _ _ Hf) as (_ & _ & x & Hx & Hdom). cbn [opts write logged] in *.
  change (opts (write n f s)) with (opts s). rewrite Hx. set (x' := x <| animatedProperties ::= <[f_prop f := None]> |>).
  set (s' := logged (LOver n) (write n f s <| opts ::= <[f_opts f := x']> |>)).
  assert (Hi' : inv s').
  { change s' with ((logged (LOver n) (write n f s)) <| opts ::= <[f_opts f := x']> |>).
    eapply inv_opts; [apply inv_logged; [done|by apply over_entry]|exact Hx|..|done|].
    - cbn. rewrite dom_insert_L. set_solver.
    - intros p. cbn. destruct (decide (f_prop f = p)) as [<-|?]; [|rewrite lookup_insert_ne by done; auto]. intros _. right.
      exists n, f. split_and!; try done. rewrite !elem_of_app. right. by left. }
  destruct (all_over _) eqn:Hall; [|by apply inv_answer].
  eapply inv_finish; [done| |done|exact Hf|done]. cbn. apply list_lookup_insert_eq. by eapply lookup_lt_Some.
Qed.

Lemma inv_update n over f x s :
  inv s -> fxs s !! n = Some f -> (over = true -> f_now f = f_end f) -> inv (update n over x s).
Proof.
  intros Hi Hf Hover. unfold update. destruct (o_step x); [|by eapply inv_after_update].
  apply inv_code, inv_push; [done|by exists f|done|done].
Qed.

(** *** [step] *)

Lemma between_end a b : between a b b.
Proof. split; [apply Q.le_min_r|apply Q.le_max_r]. Qed.

Lemma between_start a b : between a b a.
Proof. split; [apply Q.le_min_l|apply Q.le_max_l]. Qed.

Lemma between_eased a b q : (0 <= q <= 1)%Q -> between a b (a + (b - a) * q)%Q.
Proof.
  intros Hq. unfold between. destruct (Q.min_spec a b) as [[? ->]|[? ->]], (Q.max_spec a b) as [[? ->]|[? ->]]; nra.
Qed.

Lemma elapsed_unit n d : 0 <= n < d -> (0 <= inject_Z n / inject_Z d <= 1)%Q.
Proof.
  intros Hn. assert (Hd : (0 < inject_Z d)%Q) by (rewrite <- (Zlt_Qlt 0); lia). split.
  - apply Qle_shift_div_l; [done|]. rewrite Qmult_0_l. rewrite <- (Zle_Qle 0). lia.
  - apply Qle_shift_div_r; [done|]. rewrite Qmult_1_l. rewrite <- Zle_Qle. lia.
Qed.

Lemma inv_step n g f s :
  inv s -> fxs s !! n = Some f -> (g = true \/ Update n true ∉ stack s) -> inv (step n g s).
Proof.
  intros Hi Hf Hg. unfold step. cbn [fxs opts with_now]. change (fxs (with_now s)) with (fxs s). change (opts (with_now s)) with (opts s).
  rewrite Hf. pose proof (inv_with_now _ Hi) as Hw. destruct (d_fx _ (i_data _ Hi) _ _ Hf) as (Ht & _ & x & -> & _).
  assert (Hlen : (n < length (fxs s))%nat) by (by eapply lookup_lt_Some).
  destruct (g || _) eqn:Hb.
  - eapply inv_update; [|cbn; by apply list_lookup_insert_eq|done]. apply inv_value; [done|done|intros _; apply between_end|done].
  - apply orb_false_iff in Hb as [-> Hb%Z.leb_gt]. destruct Hg as [|Hg]; [done|].
    unfold easing_of. destruct (mjoin _) as [e|]; cbn; [|by apply inv_throw, inv_logged].
    destruct (easing e) as [h|] eqn:He; [|by apply inv_throw, inv_logged].
    eapply inv_update; [|cbn; by apply list_lookup_insert_eq|done].
    apply inv_value; [done|done| |done]. intros Hu. apply between_eased, (Hu e); [done|]. apply elapsed_unit. lia.
Qed.

(** *** [custom], [show], [hide] and the loop of [doAnimation] *)

Definition animating (o : nat) (p : jstr) (s : machine) : Prop :=
  (∃ e hid todo, DoAnim e o hid todo ∈ stack s) /\ ∃ x, opts s !! o = Some x /\ p ∈ dom (animatedProperties x).

Lemma inv_custom elem p o a b sh s : inv s -> animating o p s -> inv (custom elem p o a b sh s).
Proof.
  intros Hi [Han Hx]. unfold custom. set (f := Fx elem p o (now s) a b a).
  assert (Hi' : inv ((with_now s) <| fxs ::= fun l => l ++ [f] |>)).
  { apply inv_new_fx; [by apply inv_with_now|done|done|cbn; done|intros _; apply between_start]. }
  assert (Hlook : (fxs s ++ [f]) !! length (fxs s) = Some f) by (by apply list_lookup_middle).
  eapply inv_step; [|exact Hlook|right; cbn].
  - apply inv_push; [done|by exists f|done|done].
  - intros [?|Hin]%elem_of_cons; [done|]. destruct (i_frames _ Hi _ Hin) as (g & Hg%lookup_lt_Some & _). lia.
Qed.

Lemma opts_alter (g : options -> options) (o : nat) x (l : list options) : l !! o = Some x -> alter g o l = <[o := g x]> l.
Proof.
  intros Ho. apply list_eq. intros i. destruct (decide (o = i)) as [<-|?].
  - rewrite list_lookup_alter_eq, Ho, list_lookup_insert_eq by (by eapply lookup_lt_Some). done.
  - by rewrite list_lookup_alter_ne, list_lookup_insert_ne.
Qed.

Lemma inv_begun (g : options -> options) o p s :
  inv s -> animating o p s -> (∀ x, animatedProperties (g x) = animatedProperties x /\ complete (g x) = complete x) ->
  inv (s <| opts ::= alter g o |>) /\ animating o p (s <| opts ::= alter g o |>).
Proof.
  intros Hi [Han (x & Hx & Hp)] Hg. destruct (Hg x) as [E1 E2].
  replace (s <| opts ::= alter g o |>) with (s <| opts ::= <[o := g x]> |>) by (unfold upd; cbn beta; by erewrite opts_alter).
  split.
  - eapply inv_opts; [done|done|by rewrite E1|by rewrite E2|rewrite E1; auto].
  - split; [done|]. exists (g x). cbn. rewrite list_lookup_insert_eq by (by eapply lookup_lt_Some). by rewrite E1.
Qed.

Lemma inv_show elem p o s : inv s -> animating o p s -> inv (show elem p o s).
Proof.
  intros Hi Ha. unfold show. set (g := fun x : options => _). destruct (inv_begun g o p s Hi Ha ltac:(done)) as [? ?].
  destruct (fxshow s !! _); by apply inv_custom.
Qed.

Lemma inv_hide elem p o s : inv s -> animating o p s -> inv (hide elem p o s).
Proof.
  intros Hi Ha. unfold hide. set (g := fun x : options => _). destruct (inv_begun g o p s Hi Ha ltac:(done)) as [? ?].
  by apply inv_custom.
Qed.

Lemma inv_animate_prop elem o hid p v s : inv s -> animating o p s -> inv (animate_prop elem o hid p v s).
Proof.
  intros Hi Ha. unfold animate_prop.
  assert (Ht : ∀ b, inv (s <| toggles ::= <[(elem, p) := b]> |>)) by (intros b; eapply inv_same; [exact Hi|by split_and!]).
  destruct v; try (by apply inv_custom); destruct (toggles s !! _) as [[]|]; try destruct hid;
    first [by apply inv_show|by apply inv_hide|apply inv_show; by auto|apply inv_hide; by auto].
Qed.

Lemma eased_none hid l p : eased hid l !! p <> Some None.
Proof.
  induction l as [|[q [e v]] l IH]; cbn; [by rewrite lookup_empty|].
  destruct (decide (q = p)) as [-> |?]; [by rewrite lookup_insert_eq|rewrite lookup_insert_ne by done].
  destruct (nothing_to_do hid v); [by rewrite lookup_empty|done].
Qed.

Lemma eased_dom hid l :
  existsb (fun '(_, (_, v)) => nothing_to_do hid v) l = false -> dom (eased hid l) = list_to_set l.*1.
Proof.
  induction l as [|[q [e v]] l IH]; cbn; [by rewrite dom_empty_L|]. intros [-> Hl]%orb_false_iff.
  rewrite dom_insert_L. by rewrite IH.
Qed.

Lemma log_completes s o : inv s -> LComplete o ∈ log s -> (o < length (opts s))%nat.
Proof.
  intros Hi (l1 & l2 & E)%list_elem_of_split. destruct (d_complete _ (i_data _ Hi) _ _ _ E) as (_ & x & Hx & _).
  by eapply lookup_lt_Some.
Qed.

Lemma inv_doAnimation c s : inv s -> inv (doAnimation c s).
Proof.
  intros Hi. unfold doAnimation. set (x := Options _ _ _ _ _ _ _ _ _).
  assert (Hi' : inv (s <| opts ::= fun l => l ++ [x] |>)) by (apply inv_new_opts; [done|intros p; apply eased_none]).
  assert (Hx : (opts s ++ [x]) !! length (opts s) = Some x) by (by apply list_lookup_middle).
  assert (Hnew : unused (length (opts s)) s).
  { split; [intros n f Hf E; destruct (d_fx _ (i_data _ Hi) _ _ Hf) as (_ & _ & y & Hy%lookup_lt_Some & _)|].
    - lia.
    - intros e hid todo (y & Hy%lookup_lt_Some & _)%(i_frames _ Hi). lia. }
  destruct (bool_decide _ || existsb _ _) eqn:Hex.
  - apply inv_call_complete; [done|]. split; [intros Hin; apply (log_completes s) in Hin; [lia|done]|].
    exists x. split; [done|]. by left.
  - apply orb_false_iff in Hex as [_ Hex]. destruct Hi' as [[] ? ? ?]. split; [split|..]; cbn; try done.
    + intros l1 o l2 Hl. destruct (d_complete0 _ _ _ Hl) as (? & y & Hy & Hor). split; [done|]. exists y. split; [done|].
      destruct Hor as [Hu|?]; [left|by right]. destruct Hu as [? Hu]. split; [done|]. cbn.
      intros e hid todo [[= -> -> _ _]|?]%elem_of_cons; [|by eapply Hu].
      assert (Hin : LComplete (length (opts s)) ∈ log s) by (rewrite Hl; set_solver). apply log_completes in Hin; [lia|done].
    + intros fr [-> |?]%elem_of_cons; [|by apply i_frames0]. exists x. split; [done|]. intros p Hp.
      cbn [x animatedProperties]. rewrite eased_dom by done. apply elem_of_list_to_set. revert Hp.
      by rewrite !list_elem_of_fmap; intros (y & -> & Hy); apply list_elem_of_fmap in Hy as ((q & e & v) & -> & Hq); exists (q, (e, v)).
Qed.

(** *** The loops, and steps *)

Lemma inv_tick_step i s : inv s -> stack s = [] -> inv (tick_step i s).
Proof.
  intros Hi Hst. unfold tick_step. destruct (timers s !! i) as [t|] eqn:Ht.
  - apply list_elem_of_lookup_2 in Ht as [f Hf]%(i_timers _ Hi). eapply inv_step; [|exact Hf|right; cbn].
    + apply inv_push; [done|by exists f|done|done].
    + rewrite Hst. by intros [?|?%elem_of_nil]%elem_of_cons.
  - destruct (decide _); [|done]. eapply inv_core; [exact Hi|done..|cbn; auto|apply Hi|auto].
Qed.

Lemma inv_timers l s : inv s -> (∀ t, t ∈ l -> t ∈ timers s) -> inv (s <| timers := l |>).
Proof. intros Hi Hl. eapply inv_core; [exact Hi|done..|cbn; auto|apply Hi|cbn; auto]. Qed.

Lemma saveState_same f x s : same_core s (saveState f x s).
Proof. unfold saveState. destruct (fxshow s !! _), (o_hide x), (o_show x); by split_and!. Qed.

Lemma inv_stop_step elem type g n had s : inv s -> inv (stop_step elem type g n had s).
Proof.
  intros Hi. unfold stop_step. destruct n as [|i]; [destruct (g && had); [done|by apply inv_code]|].
  destruct (timers s !! i) as [t|] eqn:Ht; [|by apply inv_throw, inv_logged].
  apply list_elem_of_lookup_2 in Ht as [f Hf]%(i_timers _ Hi). rewrite Hf.
  destruct (opts s !! f_opts f) as [x|]; [|done].
  destruct (_ && _); [|by apply inv_push]. destruct g.
  - eapply inv_step; [|exact Hf|by left]. apply inv_push; [done|by exists f|done|done].
  - apply inv_push; [|done..]. apply inv_logged; [|done].
    apply (inv_timers (delete_at i (timers (saveState f x s))) (saveState f x s)); [|intros t'; apply delete_at_elem].
    eapply inv_same; [exact Hi|apply saveState_same].
Qed.

Lemma inv_next elem o hid p v todo st s :
  inv s -> stack s = DoAnim elem o hid ((p, v) :: todo) :: st -> inv (s <| stack := DoAnim elem o hid todo :: st |>).
Proof.
  intros Hi Est. destruct (i_frames _ Hi _ ltac:(rewrite Est; by left)) as (x & Hx & Hd).
  eapply inv_core; [exact Hi|done..| | |auto]; cbn; rewrite ?Est.
  - intros fr [-> |?]%elem_of_cons; [right|left; by right]. split; [exists x; split; [done|intros q ?; apply Hd; by right]|].
    intros ? ? ? ? [= <- <- <- <-]. eexists. by left.
  - pose proof (i_tick _ Hi) as Ht. rewrite Est in Ht. by split; [|apply Ht].
Qed.

Lemma inv_library_step s s' : inv s -> library_step s = Some s' -> inv s'.
Proof.
  intros Hi. unfold library_step. destruct (stack s) as [|fr st] eqn:Est; [done|].
  pose proof (inv_pop _ _ _ Hi Est) as Hp. pose proof (i_frames _ Hi fr ltac:(rewrite Est; by left)) as Hfr.
  destruct fr as [|elem o hid [|[p v] todo]| | | | |i| |elem type g n had|]; intros [= <-]; try done.
  - destruct Hfr as (x & Hx & Hd). apply inv_animate_prop.
    + by eapply inv_next.
    + split; [do 3 eexists; by left|]. exists x. split; [done|apply Hd; by left].
  - apply inv_tick_step; [done|]. apply i_tick in Hi. rewrite Est in Hi. by apply Hi.
  - by apply inv_stop_step.
Qed.

Lemma inv_return s : inv s -> inv (return_ s).
Proof.
  intros Hi. unfold return_. destruct (stack s) as [|fr st] eqn:Est; [done|].
  pose proof (inv_pop _ _ _ Hi Est) as Hp. pose proof (i_frames _ Hi fr ltac:(rewrite Est; by left)) as Hfr.
  destruct fr; try done.
  - destruct Hfr as (g & ? & ?). by eapply inv_after_update.
  - by apply inv_after_old.
  - by apply inv_answer.
Qed.

Lemma inv_clock (s : machine) (m : option Z) (t : Z) :
  inv s -> now s <= default t m -> (∀ t', m = Some t' -> t' <= t) -> inv (s <| fxNow := m |> <| clock := t |>).
Proof.
  intros [[] ? ? ?] Hn Hm. split; [split|..]; cbn; try done.
  intros n f Hf. destruct (d_fx0 _ _ Hf) as (? & ? & ?). split_and!; [|done..]. change (now _) with (default t m). lia.
Qed.

Lemma inv_page_step a s s' : inv s -> page_step a s = Some s' -> inv s'.
Proof.
  intros Hi. destruct a as [| | |c|elem type g| | |t|elem p v]; cbn; try done.
  - destruct (stack s) as [|[] st] eqn:Est; intros [= <-]. by eapply inv_return, inv_pop.
  - destruct (stack s) as [|[] st] eqn:Est; intros [= <-]. by eapply inv_unwind, inv_pop.
  - destruct (decide _); intros [= <-]. by apply inv_doAnimation.
  - intros [= <-]. by apply inv_push.
  - destruct (stack s) eqn:Est; [|done]. destruct (timerId s); intros [= <-]. by apply inv_push.
  - destruct (stack s); intros [= <-]. pose proof (d_clock _ (i_data _ Hi)) as Hc.
    apply (inv_clock s None (clock s) Hi); [|done]. unfold now. destruct (fxNow s); cbn; [by apply Hc|lia].
  - destruct (clock s <=? t) eqn:Et; intros [= <-]. apply Z.leb_le in Et. pose proof (d_clock _ (i_data _ Hi)) as Hc.
    assert (inv (s <| fxNow := fxNow s |> <| clock := t |>)); [|by destruct s]. apply inv_clock; [done| |].
    + unfold now. destruct (fxNow s); cbn; lia.
    + intros t' ?%Hc. lia.
  - intros [= <-]. eapply inv_same; [exact Hi|by split_and!].
Qed.

Lemma inv_act s a s' : inv s -> act s a = Some s' -> inv s'.
Proof.
  intros Hi. unfold act. destruct a; [by apply inv_library_step|..]; (destruct (page_runs s); [by apply inv_page_step|done]).
Qed.

Lemma inv_start sh t : inv (start sh t).
Proof.
  split; [split|..]; cbn; try done; try (by intros ? ? ?%elem_of_nil); try (by intros ? ?%elem_of_nil); try (by intros []).
Qed.

Lemma inv_run l s s' : inv s -> run s l = Some s' -> inv s'.
Proof.
  revert s. induction l as [|a l IH]; intros s Hi; cbn; [by intros [= <-]|].
  destruct (act s a) as [s1|] eqn:Ea; [|done]. intros Hr. eapply IH; [|exact Hr]. by eapply inv_act.
Qed.

(** C24: every value an animation writes lies between the values it goes from
    and to, a negative one being cut to zero where the property has to be
    positive, whatever the page animates, stops or throws in between, if the
    easing functions stay between 0 and 1; and when a property is over, the last
    thing written was its end value. *)
Theorem writes_in_range sh t l s :
  unit_easing -> run (start sh t) l = Some s ->
  (∀ n v, LWrite n v ∈ log s -> ∃ f, fxs s !! n = Some f /\ ranged f v) /\
  (∀ l1 n l2, log s = l1 ++ LOver n :: l2 ->
     ∃ l0 f, fxs s !! n = Some f /\ l1 = l0 ++ [LWrite n (step_value (f_prop f) (f_end f))]).
Proof.
  intros Hu Hr. apply inv_run in Hr as [[] ? ? ?]; [split; [|done]|apply inv_start].
  intros n v (f & ? & ?)%d_write0. exists f. auto.
Qed.

(** C18: the function [complete] of an animation is called at most once, and
    only when each of its properties is over, or when there was nothing to do
    and none has been begun. *)
Theorem complete_once sh t l s l1 o l2 :
  run (start sh t) l = Some s -> log s = l1 ++ LComplete o :: l2 ->
  (LComplete o ∉ l1) /\ ∃ x, opts s !! o = Some x /\ (unused o s \/ props_over (fxs s) o x l1).
Proof.
  intros Hr Hl. apply inv_run in Hr as [Hd ? ? ?]; [|apply inv_start].
  destruct (d_complete _ Hd _ _ _ Hl) as (? & x & ? & [?|[_ ?]]); eauto.
Qed.

End Fx.

(** ** Sample runs *)

Module Sample.

#[local] Instance sample_easing : Easing := fun e => if decide (e = js "linear") then Some linear else None.

Definition sheet0 (elem : nat) (p : jstr) : Q := 10.

(** [animate({p: to, ...}, {duration: d, easing: "linear", queue: false})]. *)
Definition to (elem : nat) (d : Z) (ps : list (jstr * Q)) (old : bool) : call :=
  animate elem ((fun '(p, v) => (p, (None, TNum v))) <$> ps) false (SNumber d) (fun _ => None) (Some (js "linear")) old false None.

Definition begin (n : nat) (c : call) : list action := AAnimate c :: replicate (S n) ALibrary.

(** One property, half of the time and the end. *)
Definition slide : list action :=
  begin 1 (to 0 100 [(js "width", 110%Q)] true) ++
  [AClear; ATime 1050; ATick; ALibrary; ALibrary; AClear; ATime 1200; ATick; ALibrary; AReturn; ALibrary].

Definition after (l : list action) : machine := default (start sheet0 1000) (run (start sheet0 1000) l).

Lemma linear_unit : unit_easing.
Proof. intros e g q. unfold easing, sample_easing. destruct (decide _); [|done]. by intros [= <-]. Qed.

Lemma slide_log : log (after slide) = [LWrite 0 (1000 # 100); LWrite 0 (6000 # 100); LWrite 0 110; LOver 0; LComplete 0].
Proof. vm_compute. reflexivity. Qed.

Lemma slide_run : run (start sheet0 1000) slide = Some (after slide).
Proof. vm_compute. reflexivity. Qed.

Lemma writes_in_range_witness : ∃ f, fxs (after slide) !! 0%nat = Some f /\ ranged f (6000 # 100).
Proof.
  apply (writes_in_range sheet0 1000 slide (after slide) linear_unit slide_run). rewrite slide_log. right. by left.
Defined.

Lemma complete_once_witness :
  ∃ x, opts (after slide) !! 0%nat = Some x /\
    (unused 0 (after slide) \/
     props_over (fxs (after slide)) 0 x [LWrite 0 (1000 # 100); LWrite 0 (6000 # 100); LWrite 0 110; LOver 0]).
Proof. exact (proj2 (complete_once sheet0 1000 slide (after slide)
  [LWrite 0 (1000 # 100); LWrite 0 (6000 # 100); LWrite 0 110; LOver 0] 0 [] slide_run slide_log)). Defined.

(** [stop(false, true)] of an element whose function [complete] stops an
    earlier animation: [splice] takes out the timer of a third element, whose
    animation is neither over nor stopped and never goes on. *)
Definition three : list action :=
  begin 1 (to 1 1000 [(js "width", 110%Q)] false) ++ begin 1 (to 0 1000 [(js "width", 110%Q)] true) ++
  begin 1 (to 2 1000 [(js "width", 110%Q)] false) ++
  [AStop 0 None true; ALibrary; ALibrary; AStop 1 None false] ++ replicate 4 ALibrary ++ [AReturn; AReturn] ++ replicate 2 ALibrary.

Lemma stop_loses_animation :
  timers (after three) = [] /\ stack (after three) = [] /\
  f_elem <$> (fxs (after three) !! 2%nat) = Some 2%nat /\ (LOver 2 ∉ log (after three)) /\ (LStop 2 ∉ log (after three)).
Proof. vm_compute. split_and!; [reflexivity..| |]; intros Hin; repeat (apply elem_of_cons in Hin as [?|Hin]; [done|]); by apply elem_of_nil in Hin. Qed.

(** The same with two earlier timers: [timers[index]] is [undefined] and
    [stop] throws; the timer stays in the array though its property is over,
    and each tick throws at it until its time has come. *)
Definition two_earlier : list action :=
  begin 2 (to 1 1000 [(js "width", 110%Q); (js "height", 110%Q)] false) ++ begin 1 (to 0 1000 [(js "width", 110%Q)] true) ++
  [AClear; AStop 0 None true; ALibrary; AStop 1 None false] ++ replicate 4 ALibrary ++ [AReturn; AReturn; ALibrary].

Lemma stop_throws :
  last (log (after two_earlier)) = Some LTypeError /\ timers (after two_earlier) = [2%nat] /\
  drop 9 (log (after (two_earlier ++ [ATime 1500; ATick; ALibrary]))) = [LTypeError] /\
  timers (after (two_earlier ++ [ATime 1500; ATick; ALibrary])) = [2%nat].
Proof. vm_compute. split_and!; reflexivity. Qed.

(** A function [complete] sets the style and stops an earlier animation: its own
    timer has moved in the array, so [tick] does not take it out, and the next
    tick writes the end value over what the function has set. *)
Definition moved : list action :=
  begin 1 (to 1 1000 [(js "width", 110%Q)] false) ++ begin 1 (to 0 100 [(js "width", 110%Q)] true) ++
  [AClear; ATime 1200; ATick; ALibrary; ALibrary; AStyle 0 (js "width") (Some 5%Q); AStop 1 None false] ++
  replicate 3 ALibrary ++ [AReturn; AReturn; ALibrary].

Lemma written_after_complete :
  LComplete 1 ∈ log (after moved) /\ style (after moved) !! (0%nat, js "width") = Some 5%Q /\ stack (after moved) = [] /\
  style (after (moved ++ [ATick; ALibrary])) !! (0%nat, js "width") = Some 110%Q.
Proof. vm_compute. split_and!; try reflexivity. do 5 right. by left. Qed.

End Sample.
