(* ===== verification/JqFxLive.v ===== *)
(** * Animations that are not disturbed (jquery-1.7.2.js)

    The machine of JqFx.v in runs in which the page throws no exception and
    calls [stop] without [gotoEnd]: no property that was begun is lost, the
    interval is kept, the library throws no exception of its own, and a tick
    after the end of all animations ends them. *)

From stdpp Require Import base gmap list strings.
From Stdlib Require Import QArith.
From S2P Require Import Prelude JsString ZeptoCore JqFx.

Section Live.
Context `{Easing}.

(** ** Runs without exceptions *)

(** What the page does: it throws nothing, stops animations where they are and
    names easing functions that exist. *)
Definition calm (a : action) : Prop :=
  match a with
  | AThrow => False
  | AStop _ _ gotoEnd => gotoEnd = false
  | AAnimate c => ∀ p e v, (p, (e, v)) ∈ c_props c -> is_Some (easing e)
  | _ => True
  end.

(** Where a property is: it has a timer, its timer is being made, it is over, or
    it has been stopped. *)
Definition placed (n : nat) (s : machine) : Prop :=
  n ∈ timers s \/ LOver n ∈ log s \/ LStop n ∈ log s \/ ∃ sh, Custom n sh ∈ stack s.

(** Whose timer is running. *)
Definition caller (st : list frame) : option nat :=
  match st with Custom n _ :: _ | TickWait _ n :: _ => Some n | _ => None end.

(** A timer returns [false] when its property is over. *)
Definition returns (l : list entry) (b : bool) (st : list frame) : Prop :=
  ∀ n, caller st = Some n -> b = true \/ LOver n ∈ l.

Fixpoint chain (l : list entry) (st : list frame) : Prop :=
  match st with
  | [] => True
  | fr :: st' =>
      chain l st' /\
      match fr with
      | Update n _ => caller st' = Some n
      | AfterOld _ b | Fin b => returns l b st'
      | StopWait _ _ _ _ | StopLoop _ _ _ _ _ => False
      | DoAnim _ o _ todo => NoDup todo.*1 /\ ∀ e hid todo', DoAnim e o hid todo' ∉ st'
      | _ => True
      end
  end.

Definition is_due (n : nat) (s : machine) : Prop :=
  ∃ f x, fxs s !! n = Some f /\ opts s !! f_opts f = Some x /\ duration x + startTime f <= now s.

Record kept (s : machine) : Prop := {
  k_placed : ∀ n, (n < length (fxs s))%nat -> placed n s;
  k_chain : chain (log s) (stack s);
  k_interval : timers s <> [] -> timerId s = true;
  k_error : LTypeError ∉ log s;
  k_easing : ∀ o x p e, opts s !! o = Some x -> animatedProperties x !! p = Some (Some e) -> is_Some (easing e);
  k_due : ∀ n f x, fxs s !! n = Some f -> opts s !! f_opts f = Some x -> animatedProperties x !! f_prop f = Some None ->
            duration x + startTime f <= now s;
  k_update : ∀ n, Update n true ∈ stack s -> is_due n s;
  k_fresh : ∀ e o hid todo n f, DoAnim e o hid todo ∈ stack s -> fxs s !! n = Some f -> f_opts f = o -> f_prop f ∉ todo.*1;
  k_unique : ∀ n m f g, fxs s !! n = Some f -> fxs s !! m = Some g -> f_opts f = f_opts g -> f_prop f = f_prop g -> n = m;
}.

Lemma returns_mono l l' b st : l ⊆ l' -> returns l b st -> returns l' b st.
Proof. intros Hl Hr n Hn. destruct (Hr n Hn); auto. Qed.

Lemma chain_mono l l' st : l ⊆ l' -> chain l st -> chain l' st.
Proof.
  intros Hl. induction st as [|fr st IH]; [done|]. intros [? Hfr]. split; [by apply IH|].
  destruct fr; try done; by eapply returns_mono.
Qed.

(** What [kept] does not look at can change; times and the log can grow. *)
Record grows (s s' : machine) : Prop := {
  g_fxs : ∀ n f', fxs s' !! n = Some f' -> ∃ f, fxs s !! n = Some f /\ static f' = static f;
  g_fxs' : ∀ n f, fxs s !! n = Some f -> ∃ f', fxs s' !! n = Some f' /\ static f' = static f;
  g_opts : ∀ o x', opts s' !! o = Some x' -> ∃ x, opts s !! o = Some x /\ duration x' = duration x /\
             animatedProperties x' = animatedProperties x;
  g_opts' : ∀ o x, opts s !! o = Some x -> ∃ x', opts s' !! o = Some x' /\ duration x' = duration x;
  g_now : now s <= now s';
  g_log : log s ⊆ log s';
  g_error : LTypeError ∈ log s' -> LTypeError ∈ log s;
  g_timers : timers s' = timers s;
  g_timerId : timerId s' = timerId s;
  g_stack : stack s' = stack s;
}.

Lemma is_due_grows n s s' : grows s s' -> is_due n s -> is_due n s'.
Proof.
  intros [] (f & x & Hf & Hx & Hd). destruct (g_fxs'0 _ _ Hf) as (f' & Hf' & Es). injection Es as _ _ Eo Et _ _.
  destruct (g_opts'0 _ _ Hx) as (x' & Hx' & Ed). exists f', x'. rewrite Eo, Et, Ed. split_and!; [done..|lia].
Qed.

Lemma kept_grows s s' : kept s -> grows s s' -> kept s'.
Proof.
  intros [] G. pose proof G as []. split.
  - intros n Hn. assert (Hlt : (n < length (fxs s))%nat).
    { apply lookup_lt_is_Some in Hn as [f' Hf']. destruct (g_fxs0 _ _ Hf') as (f & Hf & _). by eapply lookup_lt_Some. }
    destruct (k_placed0 n Hlt) as [?|[?|[?|?]]]; unfold placed; rewrite ?g_timers0, ?g_stack0; auto.
  - rewrite g_stack0. by eapply chain_mono.
  - by rewrite g_timers0, g_timerId0.
  - auto.
  - intros o x' p e Hx'. destruct (g_opts0 _ _ Hx') as (x & Hx & _ & ->). by eapply k_easing0.
  - intros n f' x' Hf' Hx' Hp. destruct (g_fxs0 _ _ Hf') as (f & Hf & Es). injection Es as _ Ep Eo Et _ _.
    destruct (g_opts0 _ _ Hx') as (x & Hx & Ed & Ea). rewrite Eo in Hx. rewrite Ep, Ea in Hp. rewrite Ed, Et.
    pose proof (k_due0 _ _ _ Hf Hx Hp). lia.
  - intros n. rewrite g_stack0. intros ?%k_update0. by eapply is_due_grows.
  - intros e o hid todo n f'. rewrite g_stack0. intros Hin Hf'. destruct (g_fxs0 _ _ Hf') as (f & Hf & Es).
    injection Es as _ -> -> _ _ _. by eapply k_fresh0.
  - intros n m f' g' Hf' Hg'. destruct (g_fxs0 _ _ Hf') as (f & Hf & Es), (g_fxs0 _ _ Hg') as (g & Hg & Et).
    injection Es as _ -> -> _ _ _. injection Et as _ -> -> _ _ _. by eapply k_unique0.
Qed.

Lemma kept_stack s s' :
  kept s -> opts s' = opts s -> fxs s' = fxs s -> now s' = now s -> log s' = log s ->
  (∀ n, placed n s -> placed n s') -> chain (log s) (stack s') ->
  (timers s' <> [] -> timerId s' = true) ->
  (∀ n, Update n true ∈ stack s' -> Update n true ∈ stack s \/ is_due n s) ->
  (∀ e o hid todo, DoAnim e o hid todo ∈ stack s' -> ∃ todo', DoAnim e o hid todo' ∈ stack s /\ todo.*1 ⊆ todo'.*1) ->
  kept s'.
Proof.
  intros [] Eo Ef En El Hp Hc Ht Hu Hd. split; rewrite ?Eo, ?Ef, ?En, ?El; try done.
  - auto.
  - intros n Hin. unfold is_due. rewrite Eo, Ef, En. destruct (Hu n Hin); auto. by apply k_update0.
  - intros e o hid todo n f Hin Hf Ho Hto. destruct (Hd _ _ _ _ Hin) as (todo' & Hin' & Hsub).
    by eapply (k_fresh0 _ _ _ _ _ _ Hin' Hf Ho), Hsub.
Qed.

(** *** Frames *)

Ltac keep Hk := eapply kept_stack; [exact Hk|reflexivity|reflexivity|reflexivity|reflexivity|..]; cbn.

Lemma kept_push fr s :
  kept s -> chain (log s) (fr :: stack s) -> (∀ e o hid todo, fr <> DoAnim e o hid todo) ->
  (∀ n, fr = Update n true -> is_due n s) -> kept (push fr s).
Proof.
  intros Hk Hc Hne Hu. keep Hk.
  - intros n [?|[?|[?|[sh ?]]]]; unfold placed; cbn; auto. do 3 right. exists sh. by right.
  - done.
  - apply Hk.
  - intros n [E|?]%elem_of_cons; [right; by apply Hu|by left].
  - intros e o hid todo [E|?]%elem_of_cons; [by destruct (Hne _ _ _ _ (eq_sym E))|eauto].
Qed.

(** The frame on top goes away; a timer that is being made has a place. *)
Lemma kept_pop fr st s :
  kept s -> stack s = fr :: st -> (∀ n sh, fr = Custom n sh -> LOver n ∈ log s \/ n ∈ timers s) -> kept (s <| stack := st |>).
Proof.
  intros Hk E Hc. keep Hk.
  - intros n [?|[?|[?|[sh Hin]]]]; unfold placed; cbn; auto. rewrite E in Hin.
    apply elem_of_cons in Hin as [Efr|?]; [|by eauto 6]. destruct (Hc n sh (eq_sym Efr)); auto.
  - apply k_chain in Hk. rewrite E in Hk. apply Hk.
  - apply Hk.
  - intros n ?. left. rewrite E. by right.
  - intros e o hid todo ?. exists todo. split; [rewrite E; by right|done].
Qed.

Lemma kept_code s : kept s -> kept (push Code s).
Proof. intros Hk. apply kept_push; [done|split; [apply Hk|done]|done|done]. Qed.

Lemma delete_at_other i l t n : l !! i = Some t -> n ∈ l -> n <> t -> n ∈ delete_at i l.
Proof.
  intros Hi Hn Hne. rewrite <- (take_drop_middle l i t Hi) in Hn. unfold delete_at.
  rewrite elem_of_app, elem_of_cons in Hn. rewrite elem_of_app. naive_solver.
Qed.

Lemma kept_answer b s : kept s -> returns (log s) b (stack s) -> kept (answer b s).
Proof.
  intros Hk Hr. unfold answer. destruct (stack s) as [|fr st] eqn:Est; [done|].
  pose proof (k_chain _ Hk) as Hc. rewrite Est in Hc. destruct Hc as [Hc Hfr].
  destruct fr as [| |n sh| | | | |i t| |elem type index t]; try done.
  - assert (Ha : kept (if b then s <| stack := st |> <| timers ::= fun l => l ++ [n] |> <| timerId := true |> else s <| stack := st |>)).
    { destruct b; [|eapply kept_pop; [done..|intros ? ? [= <- <-]; left; by destruct (Hr n eq_refl)]].
      keep Hk; rewrite ?Est; try done.
      - intros m. unfold placed. cbn. rewrite Est, elem_of_app, list_elem_of_singleton.
        intros [?|[?|[?|[sh' [[= <- <-]|?]%elem_of_cons]]]]; eauto 7.
      - intros m ?. left. by right.
      - intros e o hid todo ?. exists todo. split; [by right|done]. }
    destruct sh; [|by destruct b]. destruct b; cbn; destruct (_ !! n); try done;
      (eapply kept_grows; [exact Ha|split; cbn; naive_solver]).
  - destruct (negb b && _) eqn:Hb; (keep Hk; rewrite ?Est; [|done|..]).
    + apply andb_true_iff in Hb as [Hb Hi%bool_decide_eq_true]. destruct b; [done|]. destruct (Hr t eq_refl) as [|Ho]; [done|].
      intros m [Hm|[?|[?|[sh Hin]]]]; unfold placed; cbn; auto.
      * destruct (decide (m = t)) as [-> |?]; [auto|]. left. by eapply delete_at_other.
      * rewrite Est in Hin. apply elem_of_cons in Hin as [?|?]; [done|]. do 3 right. exists sh. by right.
    + intros Hne. apply (k_interval _ Hk). by intros E; rewrite E in Hne; destruct i.
    + intros m [?|?]%elem_of_cons; [done|left; by right].
    + intros e o hid todo [?|?]%elem_of_cons; [done|]. exists todo. split; [by right|done].
    + intros m [?|[?|[?|[sh Hin]]]]; unfold placed; cbn; auto.
      rewrite Est in Hin. apply elem_of_cons in Hin as [?|?]; [done|]. do 3 right. exists sh. by right.
    + apply Hk.
    + intros m [?|?]%elem_of_cons; [done|left; by right].
    + intros e o hid todo [?|?]%elem_of_cons; [done|]. exists todo. split; [by right|done].
Qed.

(** *** From [update] to the end of [complete] *)

Lemma kept_same s s' : kept s -> same_core s s' -> kept s'.
Proof.
  intros Hk (Eo & Ef & En & Ec & El & Es & Et & Ei). eapply kept_grows; [exact Hk|].
  split; unfold now; rewrite ?Eo, ?Ef, ?En, ?Ec, ?El; naive_solver.
Qed.

Lemma kept_logged e s : kept s -> e <> LTypeError -> kept (logged e s).
Proof.
  intros Hk He. eapply kept_grows; [exact Hk|]. split; cbn; try naive_solver.
  - intros a ?. apply elem_of_app. by left.
  - intros [?|?%list_elem_of_singleton]%elem_of_app; [done|by subst].
Qed.

Lemma kept_opts o x x' s :
  kept s -> opts s !! o = Some x -> duration x' = duration x -> animatedProperties x' = animatedProperties x ->
  kept (s <| opts ::= <[o := x']> |>).
Proof.
  intros Hk Ho Hd Ha. assert (Hlt : (o < length (opts s))%nat) by (by eapply lookup_lt_Some).
  eapply kept_grows; [exact Hk|]. split; cbn; try naive_solver.
  - intros o' y. destruct (decide (o = o')) as [<-|?].
    + rewrite list_lookup_insert_eq by done. intros [= <-]. eauto.
    + rewrite list_lookup_insert_ne by done. eauto.
  - intros o' y Hy. destruct (decide (o = o')) as [<-|?].
    + rewrite list_lookup_insert_eq by done. simplify_eq. eauto.
    + rewrite list_lookup_insert_ne by done. eauto.
Qed.

Lemma kept_over n f x s :
  kept s -> fxs s !! n = Some f -> opts s !! f_opts f = Some x -> duration x + startTime f <= now s ->
  kept (s <| opts ::= <[f_opts f := x <| animatedProperties ::= <[f_prop f := None]> |>]> |>).
Proof.
  intros [] Hf Hx Hd. assert (Hlt : (f_opts f < length (opts s))%nat) by (by eapply lookup_lt_Some).
  split; cbn; try done.
  - intros o y p e Hy. destruct (decide (f_opts f = o)) as [<-|?].
    + rewrite list_lookup_insert_eq in Hy by done. injection Hy as <-. cbn.
      destruct (decide (f_prop f = p)) as [<-|?]; [by rewrite lookup_insert_eq|]. rewrite lookup_insert_ne by done. by eapply k_easing0.
    + rewrite list_lookup_insert_ne in Hy by done. by eapply k_easing0.
  - intros m g y Hg Hy. change (now (_ <| _ ::= _ |>)) with (now s). destruct (decide (f_opts f = f_opts g)) as [E|?].
    + rewrite <- E, list_lookup_insert_eq in Hy by done. injection Hy as <-. cbn.
      destruct (decide (f_prop f = f_prop g)) as [Ep|?].
      * assert (n = m) as <- by (by eapply k_unique0). by simplify_eq.
      * rewrite lookup_insert_ne by done. rewrite E in Hx. by eapply k_due0.
    + rewrite list_lookup_insert_ne in Hy by done. by eapply k_due0.
  - intros m Hm. destruct (k_update0 m Hm) as (g & y & Hg & Hy & Hle). unfold is_due. cbn.
    destruct (decide (f_opts f = f_opts g)) as [E|?]; exists g.
    + eexists. rewrite <- E, list_lookup_insert_eq by done. split_and!; [done..|]. cbn. rewrite <- E in Hy. by simplify_eq.
    + exists y. by rewrite list_lookup_insert_ne by done.
Qed.

Lemma kept_after_old o b s : kept s -> returns (log s) b (stack s) -> kept (after_old o b s).
Proof.
  intros Hk Hr. unfold after_old. destruct (opts s !! o) as [x|]; [|done]. destruct (queue x); [|by apply kept_answer].
  apply kept_code, kept_push; [done|split; [apply Hk|done]|done|done].
Qed.

Lemma kept_call_complete o b s : kept s -> returns (log s) b (stack s) -> kept (call_complete o b s).
Proof.
  intros Hk Hr. unfold call_complete. destruct (opts s !! o) as [x|]; [|done].
  assert (Hr' : returns (log (logged (LComplete o) s)) b (stack s)) by (eapply returns_mono; [|done]; cbn; set_solver).
  pose proof (kept_logged (LComplete o) s Hk ltac:(done)) as Hk'. destruct (old x); [|by apply kept_after_old].
  apply kept_code, kept_push; [done|split; [apply Hk'|done]|done|done].
Qed.

Lemma kept_end elem o x s :
  kept s -> opts s !! o = Some x -> returns (log s) false (stack s) -> kept (finish elem o x s).
Proof.
  intros Hk Ho Hr. unfold finish. pose proof (put_back_same elem x s) as Hs. pose proof (kept_same _ _ Hk Hs) as Hk'.
  destruct Hs as (Eo & _ & _ & _ & El & Es & _). rewrite <- Eo in Ho. rewrite <- El, <- Es in Hr.
  destruct (complete x); [|by apply kept_answer]. apply kept_call_complete; [|done]. by eapply kept_opts.
Qed.

Lemma kept_after_update n over f x s :
  kept s -> caller (stack s) = Some n -> fxs s !! n = Some f -> opts s !! f_opts f = Some x ->
  (over = true -> duration x + startTime f <= now s) -> kept (after_update n over s).
Proof.
  intros Hk Hc Hf Hx Hov. unfold after_update. rewrite Hf. cbn zeta.
  assert (Hw : kept (write n f s)).
  { apply kept_logged; [|done]. eapply kept_same; [exact Hk|by split_and!]. }
  destruct over; [|apply kept_answer; [done|by intros ?; left]]. change (opts (write n f s)) with (opts s). rewrite Hx.
  set (s' := logged (LOver n) _).
  assert (Hk' : kept s') by (apply kept_logged; [by eapply (kept_over n f x (write n f s)); auto|done]).
  assert (Hr : returns (log s') false (stack s')).
  { intros m Hm. cbn in Hm. rewrite Hc in Hm. injection Hm as <-. right. cbn. apply elem_of_app. right. by left. }
  destruct (all_over _); [|by apply kept_answer]. apply kept_end; [done| |done].
  cbn. apply list_lookup_insert_eq. by eapply lookup_lt_Some.
Qed.

Lemma kept_update n over f x s :
  kept s -> caller (stack s) = Some n -> fxs s !! n = Some f -> opts s !! f_opts f = Some x ->
  (over = true -> duration x + startTime f <= now s) -> kept (update n over x s).
Proof.
  intros Hk Hc Hf Hx Hov. unfold update. destruct (o_step x); [|by eapply kept_after_update].
  apply kept_code, kept_push; [done|split; [apply Hk|done]|done|]. intros m [= <- ->]. exists f, x. auto.
Qed.

(** *** [step], [custom] and the loop of [doAnimation] *)

Lemma kept_with_now s : kept s -> kept (with_now s).
Proof. intros Hk. eapply kept_grows; [exact Hk|]. split; cbn; try naive_solver. Qed.

Lemma kept_value n f v s : kept s -> fxs s !! n = Some f -> kept (s <| fxs ::= <[n := f <| f_now := v |>]> |>).
Proof.
  intros Hk Hf. assert (Hlt : (n < length (fxs s))%nat) by (by eapply lookup_lt_Some).
  eapply kept_grows; [exact Hk|]. split; cbn; try naive_solver.
  - intros m g. destruct (decide (n = m)) as [<-|?].
    + rewrite list_lookup_insert_eq by done. intros [= <-]. eauto.
    + rewrite list_lookup_insert_ne by done. eauto.
  - intros m g Hg. destruct (decide (n = m)) as [<-|?].
    + rewrite list_lookup_insert_eq by done. simplify_eq. eauto.
    + rewrite list_lookup_insert_ne by done. eauto.
Qed.

(** A property that is not over and not due has an easing function. *)
Lemma easing_known n f x s :
  inv s -> kept s -> fxs s !! n = Some f -> opts s !! f_opts f = Some x -> now s < duration x + startTime f ->
  is_Some (easing_of (f_prop f) x).
Proof.
  intros Hi Hk Hf Hx Hlt. destruct (d_fx _ (i_data _ Hi) _ _ Hf) as (_ & _ & y & Hy & [e He]%elem_of_dom). simplify_eq.
  unfold easing_of. rewrite He. destruct e as [e|]; cbn.
  - by eapply k_easing.
  - pose proof (k_due _ Hk _ _ _ Hf Hx He). lia.
Qed.

Lemma kept_step n f s :
  inv s -> kept s -> caller (stack s) = Some n -> fxs s !! n = Some f -> kept (step n false s).
Proof.
  intros Hi Hk Hc Hf. unfold step. change (fxs (with_now s)) with (fxs s). change (opts (with_now s)) with (opts s). rewrite Hf.
  destruct (d_fx _ (i_data _ Hi) _ _ Hf) as (_ & _ & x & Hx & _). rewrite Hx.
  assert (Hl : ∀ g, <[n := g]> (fxs s) !! n = Some g) by (intros g; apply list_lookup_insert_eq; by eapply lookup_lt_Some).
  pose proof (kept_with_now s Hk) as Hk'. cbn [orb]. destruct (duration x + startTime f <=? now s) eqn:Hd.
  - apply Z.leb_le in Hd. eapply kept_update; [by apply kept_value|done|cbn; apply Hl|done|done].
  - apply Z.leb_gt in Hd. destruct (easing_known _ _ _ _ Hi Hk Hf Hx Hd) as [g ->].
    eapply kept_update; [by apply kept_value|done|cbn; apply Hl|done|done].
Qed.

(** No property [p] of [o] has been begun. *)
Definition fresh (o : nat) (p : jstr) (s : machine) : Prop :=
  (∀ n f, fxs s !! n = Some f -> f_opts f = o -> f_prop f <> p) /\
  (∀ e hid todo, DoAnim e o hid todo ∈ stack s -> p ∉ todo.*1).

Lemma kept_new_fx f sh s :
  inv s -> kept s -> fresh (f_opts f) (f_prop f) s ->
  kept (push (Custom (length (fxs s)) sh) (s <| fxs ::= fun l => l ++ [f] |>)).
Proof.
  intros Hi [] [Hf Hst]. split; cbn.
  - rewrite length_app. cbn. intros n Hn. destruct (decide (n = length (fxs s))) as [-> |?].
    + do 3 right. exists sh. by left.
    + destruct (k_placed0 n ltac:(lia)) as [?|[?|[?|[sh' ?]]]]; unfold placed; cbn; auto. do 3 right. exists sh'. by right.
  - done.
  - done.
  - done.
  - done.
  - intros n g x [Hg|[_ [_ <-]%list_lookup_singleton_Some]]%lookup_app_Some Hx Hp; [by eapply k_due0|].
    destruct (d_none _ (i_data _ Hi) _ _ _ Hx Hp) as (m & g & Hg & Ho & E & _). by destruct (Hf _ _ Hg Ho).
  - intros n [?|Hin]%elem_of_cons; [done|]. destruct (k_update0 n Hin) as (g & x & Hg & ?). exists g, x. cbn.
    by rewrite (lookup_app_l_Some _ _ _ _ Hg).
  - intros e o hid todo n g [?|Hin]%elem_of_cons; [done|].
    intros [Hg|[_ [_ <-]%list_lookup_singleton_Some]]%lookup_app_Some Ho; [by eapply k_fresh0|]. subst. by eapply Hst.
  - intros n m g h [Hg|[Hn [? <-]%list_lookup_singleton_Some]]%lookup_app_Some
      [Hh|[Hm [? <-]%list_lookup_singleton_Some]]%lookup_app_Some Eo Ep; [by eapply k_unique0|..].
    + by destruct (Hf _ _ Hg Eo).
    + by destruct (Hf _ _ Hh (eq_sym Eo)).
    + lia.
Qed.

Lemma kept_custom elem p o a b sh s :
  inv s -> animating o p s -> kept s -> fresh o p s -> kept (custom elem p o a b sh s).
Proof.
  intros Hi [Han Hx] Hk Hfr. unfold custom. set (f := Fx elem p o (now s) a b a).
  assert (Hlook : (fxs s ++ [f]) !! length (fxs s) = Some f) by (by apply list_lookup_middle).
  eapply (kept_step _ f); [|by apply (kept_new_fx f sh (with_now s)); [apply inv_with_now|apply kept_with_now|]|done|done].
  apply inv_push; [|by exists f|done|done].
  apply inv_new_fx; [by apply inv_with_now|done|done|cbn; done|intros _; apply between_start].
Qed.

Lemma kept_begun (g : options -> options) o p s :
  kept s -> animating o p s -> (∀ x, animatedProperties (g x) = animatedProperties x /\ duration (g x) = duration x) ->
  kept (s <| opts ::= alter g o |>).
Proof.
  intros Hk [_ (x & Hx & _)] Hg. destruct (Hg x) as [E1 E2].
  replace (s <| opts ::= alter g o |>) with (s <| opts ::= <[o := g x]> |>) by (unfold upd; cbn beta; by erewrite opts_alter).
  by eapply kept_opts.
Qed.

Lemma kept_show elem p o s : inv s -> animating o p s -> kept s -> fresh o p s -> kept (show elem p o s).
Proof.
  intros Hi Ha Hk Hf. unfold show. set (g := fun x : options => _). destruct (inv_begun g o p s Hi Ha ltac:(done)) as [? ?].
  pose proof (kept_begun g o p s Hk Ha ltac:(done)). destruct (fxshow s !! _); by apply kept_custom.
Qed.

Lemma kept_hide elem p o s : inv s -> animating o p s -> kept s -> fresh o p s -> kept (hide elem p o s).
Proof.
  intros Hi Ha Hk Hf. unfold hide. set (g := fun x : options => _). destruct (inv_begun g o p s Hi Ha ltac:(done)) as [? ?].
  pose proof (kept_begun g o p s Hk Ha ltac:(done)). by apply kept_custom.
Qed.

Lemma kept_animate_prop elem o hid p v s :
  inv s -> animating o p s -> kept s -> fresh o p s -> kept (animate_prop elem o hid p v s).
Proof.
  intros Hi Ha Hk Hf. unfold animate_prop.
  assert (Hs : ∀ b, same_core s (s <| toggles ::= <[(elem, p) := b]> |>)) by (intros; by split_and!).
  pose proof (fun b => inv_same _ _ Hi (Hs b)). pose proof (fun b => kept_same _ _ Hk (Hs b)).
  destruct v; try (by apply kept_custom); destruct (toggles s !! _) as [[]|]; try destruct hid;
    first [by apply kept_show|by apply kept_hide|apply kept_show; by auto|apply kept_hide; by auto].
Qed.

Lemma kept_new_opts x s :
  inv s -> kept s -> (∀ p e, animatedProperties x !! p = Some (Some e) -> is_Some (easing e)) ->
  (∀ p, animatedProperties x !! p <> Some None) -> kept (s <| opts ::= fun l => l ++ [x] |>).
Proof.
  intros Hi [] He Hn. split; cbn; try done.
  - intros o y p e [Hy|[_ [_ <-]%list_lookup_singleton_Some]]%lookup_app_Some; [by eapply k_easing0|apply He].
  - intros n f y Hf [Hy|[_ [_ <-]%list_lookup_singleton_Some]]%lookup_app_Some Hp; [by eapply k_due0|by destruct (Hn (f_prop f))].
  - intros n Hin. destruct (k_update0 n Hin) as (g & y & ? & Hy & ?). exists g, y. cbn. by rewrite (lookup_app_l_Some _ _ _ _ Hy).
Qed.

Lemma eased_some hid l p e : eased hid l !! p = Some (Some e) -> ∃ v, (p, (e, v)) ∈ l.
Proof.
  induction l as [|[q [e' v]] l IH]; cbn; [by rewrite lookup_empty|].
  destruct (decide (q = p)) as [-> |?]; [rewrite lookup_insert_eq; intros [= ->]; exists v; by left|].
  rewrite lookup_insert_ne by done. destruct (nothing_to_do hid v); [by rewrite lookup_empty|].
  intros [w ?]%IH. exists w. by right.
Qed.

Lemma todo_names (l : list (jstr * (jstr * target))) : ((fun '(p, (_, v)) => (p, v)) <$> l).*1 = l.*1.
Proof. induction l as [|[p [e v]] l IH]; [done|]. cbn. by f_equal. Qed.

Lemma page_caller s : page_runs s = true -> caller (stack s) = None.
Proof. unfold page_runs. by destruct (stack s) as [|[]]. Qed.

Lemma kept_doAnimation c s :
  inv s -> kept s -> page_runs s = true -> calm (AAnimate c) -> NoDup (c_props c).*1 -> kept (doAnimation c s).
Proof.
  intros Hi Hk Hp Hc Hnd. unfold doAnimation. set (x := Options _ _ _ _ _ _ _ _ _).
  assert (Hk' : kept (s <| opts ::= fun l => l ++ [x] |>)).
  { apply kept_new_opts; [done|done| |intros p; apply eased_none]. intros p e [v ?]%eased_some. by eapply Hc. }
  destruct (bool_decide _ || existsb _ _).
  - apply kept_call_complete; [done|]. intros n. cbn. by rewrite page_caller.
  - destruct Hk'. split; cbn; try done.
    + intros n Hn. destruct (k_placed0 n Hn) as [?|[?|[?|[sh ?]]]]; unfold placed; cbn; auto. do 3 right. exists sh. by right.
    + split; [done|]. split; [by rewrite todo_names|]. intros e hid todo (y & Hy%lookup_lt_Some & _)%(i_frames _ Hi). lia.
    + intros n [?|?]%elem_of_cons; [done|by apply k_update0].
    + intros e o hid todo n f [[= -> -> -> ->]|?]%elem_of_cons Hf Ho; [|by eapply k_fresh0].
      destruct (d_fx _ (i_data _ Hi) _ _ Hf) as (_ & _ & y & Hy%lookup_lt_Some & _). lia.
Qed.

(** *** The loops *)

Lemma kept_tick_step i s : inv s -> kept s -> stack s = [] -> kept (tick_step i s).
Proof.
  intros Hi Hk Hst. unfold tick_step. destruct (timers s !! i) as [t|] eqn:Ht.
  - apply list_elem_of_lookup_2 in Ht as [f Hf]%(i_timers _ Hi). eapply kept_step; [| |done|exact Hf].
    + apply inv_push; [done|by exists f|done|done].
    + apply kept_push; [done|by rewrite Hst|done|done].
  - destruct (decide _) as [E|?]; [|done]. keep Hk; [done|apply Hk|done|by left|eauto].
Qed.

(** A timer taken out by [stop]. *)
Lemma kept_stopped i t s :
  kept s -> timers s !! i = Some t -> kept (logged (LStop t) (s <| timers ::= delete_at i |>)).
Proof.
  intros [] Ht. split; cbn; try done.
  - intros n Hn. unfold placed. cbn. rewrite !elem_of_app, !list_elem_of_singleton.
    destruct (k_placed0 n Hn) as [Hin|[?|[?|?]]]; auto.
    destruct (decide (n = t)) as [-> |?]; [auto|]. left. by eapply delete_at_other.
  - eapply chain_mono; [|done]. set_solver.
  - intros Hne. apply k_interval0. intros E. rewrite E in Hne. by destruct i.
  - intros [?|?%list_elem_of_singleton]%elem_of_app; done.
Qed.

(** The state between two steps: a loop of [stop] is only on top. *)
Definition live (s : machine) : Prop :=
  match stack s with
  | StopLoop _ _ g n _ :: st => g = false /\ (n <= length (timers s))%nat /\ kept (s <| stack := st |>)
  | _ => kept s
  end.

Lemma kept_live s : kept s -> live s.
Proof. intros Hk. unfold live. destruct (stack s) as [|fr st] eqn:E; [done|]. apply k_chain in Hk as Hc. rewrite E in Hc. by destruct fr, Hc. Qed.

Lemma length_delete_at i (l : list nat) : (i < length l)%nat -> length (delete_at i l) = pred (length l).
Proof. intros Hi. unfold delete_at. rewrite length_app, length_take, length_drop. lia. Qed.

Lemma live_push_stop elem type n had s :
  kept s -> (n <= length (timers s))%nat -> live (push (StopLoop elem type false n had) s).
Proof. intros Hk Hn. split_and!; [done|done|]. by destruct s. Qed.

Lemma live_stop_step elem type n had s :
  inv s -> kept s -> (n <= length (timers s))%nat -> live (stop_step elem type false n had s).
Proof.
  intros Hi Hk Hn. unfold stop_step. destruct n as [|i]; [by apply kept_live, kept_code|].
  destruct (lookup_lt_is_Some_2 (timers s) i Hn) as [t Ht]. rewrite Ht.
  destruct (i_timers _ Hi t) as [f Hf]; [by eapply list_elem_of_lookup_2|]. rewrite Hf.
  destruct (opts s !! f_opts f) as [x|]; [|by apply kept_live].
  destruct (_ && _); apply live_push_stop; [|cbn|done|lia].
  - apply kept_stopped; [eapply kept_same; [exact Hk|apply saveState_same]|].
    by destruct (saveState_same f x s) as (_ & _ & _ & _ & _ & _ & -> & _).
  - destruct (saveState_same f x s) as (_ & _ & _ & _ & _ & _ & -> & _). rewrite length_delete_at; lia.
Qed.

(** The loop of [doAnimation] takes its next property. *)
Lemma kept_next elem o hid p v todo st s :
  inv s -> kept s -> stack s = DoAnim elem o hid ((p, v) :: todo) :: st ->
  let s' := s <| stack := DoAnim elem o hid todo :: st |> in inv s' /\ animating o p s' /\ kept s' /\ fresh o p s'.
Proof.
  intros Hi Hk Est s'. pose proof (k_chain _ Hk) as Hc. rewrite Est in Hc. destruct Hc as [Hc [[Hnin Hnd]%NoDup_cons Hno]].
  destruct (i_frames _ Hi _ ltac:(rewrite Est; by left)) as (x & Hx & Hd). split_and!.
  - by eapply inv_next.
  - split; [do 3 eexists; by left|]. exists x. split; [done|apply Hd; by left].
  - keep Hk; rewrite ?Est; try done; [|apply Hk|..].
    + intros n [?|[?|[?|[sh Hin]]]]; unfold placed; cbn; auto. rewrite Est in Hin.
      apply elem_of_cons in Hin as [?|?]; [done|]. do 3 right. exists sh. by right.
    + intros n [?|?]%elem_of_cons; [done|left; by right].
    + intros e' o' hid' todo' [[= -> -> -> ->]|?]%elem_of_cons.
      * eexists. split; [by left|]. cbn. set_solver.
      * exists todo'. split; [by right|done].
  - split; cbn.
    + intros n f Hf Ho E. eapply (k_fresh _ Hk elem o hid ((p, v) :: todo)); [rewrite Est; by left|done..|rewrite E; by left].
    + intros e' hid' todo' [[= -> -> ->]|Hin]%elem_of_cons; [done|]. by destruct (Hno _ _ _ Hin).
Qed.

Lemma live_library_step s s' : inv s -> live s -> library_step s = Some s' -> live s'.
Proof.
  intros Hi Hl. unfold library_step. destruct (stack s) as [|fr st] eqn:Est; [done|].
  pose proof (inv_pop _ _ _ Hi Est) as Hp. unfold live in Hl. rewrite Est in Hl.
  destruct fr as [|elem o hid [|[p v] todo]| | | | |i| |elem type g n had|]; intros [= <-].
  - by eapply kept_live, kept_pop.
  - destruct (kept_next _ _ _ _ _ _ _ _ Hi Hl Est) as (? & ? & ? & ?). by apply kept_live, kept_animate_prop.
  - apply kept_live, kept_tick_step; [done|by eapply kept_pop|]. apply i_tick in Hi. rewrite Est in Hi. by apply Hi.
  - destruct Hl as (-> & ? & ?). by apply live_stop_step.
Qed.

Lemma kept_return s : inv s -> kept s -> kept (return_ s).
Proof.
  intros Hi Hk. unfold return_. destruct (stack s) as [|fr st] eqn:Est; [done|].
  pose proof (k_chain _ Hk) as Hc. rewrite Est in Hc. destruct Hc as [_ Hfr].
  destruct fr as [| | |n over|o b|b| | | |]; try done.
  - destruct (i_frames _ Hi _ ltac:(rewrite Est; by left)) as (f & Hf & _).
    destruct (d_fx _ (i_data _ Hi) _ _ Hf) as (_ & _ & x & Hx & _).
    eapply kept_after_update; [by eapply kept_pop|done|exact Hf|exact Hx|]. intros ->.
    destruct (k_update _ Hk n) as (g & y & ? & ? & ?); [rewrite Est; by left|]. by simplify_eq.
  - apply kept_after_old; [by eapply kept_pop|done].
  - apply kept_answer; [by eapply kept_pop|done].
Qed.

Lemma kept_clock (s : machine) (m : option Z) (t : Z) :
  kept s -> now s <= default t m -> kept (s <| fxNow := m |> <| clock := t |>).
Proof. intros Hk Hn. eapply kept_grows; [exact Hk|]. split; cbn; naive_solver. Qed.

Lemma page_kept s : page_runs s = true -> live s -> kept s.
Proof. unfold page_runs, live. by destruct (stack s) as [|[]]. Qed.

Lemma kept_page_step a s s' :
  inv s -> kept s -> page_runs s = true -> calm a -> page_step a s = Some s' -> live s'.
Proof.
  intros Hi Hk Hp Hc. destruct a as [| | |c|elem type g| | |t|elem p v]; cbn; try done.
  - destruct (stack s) as [|[] st] eqn:Est; intros [= <-]. apply kept_live, kept_return; [by eapply inv_pop|by eapply kept_pop].
  - destruct (decide _); intros [= <-]. by apply kept_live, kept_doAnimation.
  - intros [= <-]. cbn in Hc. subst g. by apply live_push_stop.
  - destruct (stack s) eqn:Est; [|done]. destruct (timerId s); intros [= <-].
    apply kept_live, kept_push; [done|by rewrite Est|done|done].
  - destruct (stack s); intros [= <-]. apply kept_live. apply (kept_clock s None (clock s) Hk).
    pose proof (d_clock _ (i_data _ Hi)) as Hcl. unfold now. destruct (fxNow s); cbn; [by apply Hcl|lia].
  - destruct (clock s <=? t) eqn:Et; intros [= <-]. apply Z.leb_le in Et.
    assert (kept (s <| fxNow := fxNow s |> <| clock := t |>)); [|by apply kept_live; destruct s].
    apply kept_clock; [done|]. unfold now. destruct (fxNow s); cbn; lia.
  - intros [= <-]. apply kept_live. eapply kept_same; [exact Hk|by split_and!].
Qed.

Lemma live_act s a s' : inv s -> live s -> calm a -> act s a = Some s' -> live s'.
Proof.
  intros Hi Hl Hc. unfold act. destruct a; [by apply live_library_step|..];
    (destruct (page_runs s) eqn:Hp; [|done]); (apply kept_page_step; [done|by apply page_kept|done|done]).
Qed.

Lemma kept_start sh t : kept (start sh t).
Proof. split; cbn; try done; try lia; try (by intros ? ?%elem_of_nil); try (by intros ? ? ? ? ? ? ?%elem_of_nil); by intros ?%elem_of_nil. Qed.

Lemma live_run l s s' : inv s -> live s -> Forall calm l -> run s l = Some s' -> live s'.
Proof.
  intros Hi Hl Hc. revert s Hi Hl. induction Hc as [|a l Ha _ IH]; intros s Hi Hl; cbn; [by intros [= <-]|].
  destruct (act s a) as [s1|] eqn:Ea; [|done]. apply IH; [by eapply inv_act|by eapply live_act].
Qed.

(** C16: as long as the page throws no exception, names easing functions that
    exist and stops animations where they are, no property that was begun is
    lost, whatever the functions [step] and [complete] of the page animate and
    stop while the loops go through [jQuery.timers]: when no code is at work each
    one is over, was stopped, or has its timer in the array and the interval is
    on; and the library has thrown no exception. *)
Theorem no_animation_lost sh t l s :
  Forall calm l -> run (start sh t) l = Some s -> stack s = [] ->
  (LTypeError ∉ log s) /\
  ∀ n, (n < length (fxs s))%nat -> LOver n ∈ log s \/ LStop n ∈ log s \/ (n ∈ timers s /\ timerId s = true).
Proof.
  intros Hc Hr Hst. apply live_run in Hr as Hl; [|apply inv_start|apply kept_live, kept_start|done].
  unfold live in Hl. rewrite Hst in Hl. split; [apply Hl|]. intros n Hn.
  destruct (k_placed _ Hl n Hn) as [Hin|[?|[?|[sh' Hin]]]]; [|by auto..|by rewrite Hst in Hin; apply elem_of_nil in Hin].
  right. right. split; [done|]. apply (k_interval _ Hl). by intros E; rewrite E in Hin; apply elem_of_nil in Hin.
Qed.

(** ** What has been begun, and what has been completed *)

Section Told.

(** The property [doAnimation] is about to begin. *)
Context (X : nat -> jstr -> Prop).

Record told (s : machine) : Prop := {
  t_served : ∀ o x, opts s !! o = Some x ->
               complete x = false \/ all_over (animatedProperties x) = true -> LComplete o ∈ log s;
  t_over : ∀ n f x, LOver n ∈ log s -> fxs s !! n = Some f -> opts s !! f_opts f = Some x ->
             animatedProperties x !! f_prop f = Some None;
  t_begun : ∀ o x p, opts s !! o = Some x -> p ∈ dom (animatedProperties x) ->
              X o p \/ LComplete o ∈ log s \/ (∃ n f, fxs s !! n = Some f /\ f_opts f = o /\ f_prop f = p) \/
              (∃ e hid todo, DoAnim e o hid todo ∈ stack s /\ p ∈ todo.*1);
}.

Definition same_opts (s s' : machine) : Prop :=
  ∀ o x', opts s' !! o = Some x' -> ∃ x, opts s !! o = Some x /\ complete x' = complete x /\ animatedProperties x' = animatedProperties x.

Definition same_fxs (s s' : machine) : Prop :=
  (∀ n f', fxs s' !! n = Some f' -> ∃ f, fxs s !! n = Some f /\ static f' = static f) /\
  (∀ n f, fxs s !! n = Some f -> ∃ f', fxs s' !! n = Some f' /\ static f' = static f).

Lemma same_opts_eq s s' : opts s' = opts s -> same_opts s s'.
Proof. intros E o x. rewrite E. eauto. Qed.

Lemma same_fxs_eq s s' : fxs s' = fxs s -> same_fxs s s'.
Proof. intros E. split; intros n f Hf; exists f; split; congruence. Qed.

Lemma told_frame s s' :
  told s -> same_opts s s' -> same_fxs s s' -> log s ⊆ log s' -> (∀ n, LOver n ∈ log s' -> LOver n ∈ log s) ->
  (∀ e o hid todo, DoAnim e o hid todo ∈ stack s -> DoAnim e o hid todo ∈ stack s') -> told s'.
Proof.
  intros [] Ho [Hf Hf'] Hl Hov Hst. split.
  - intros o x' Hx'. destruct (Ho _ _ Hx') as (x & Hx & -> & ->). eauto.
  - intros n f' x' Hn Hf'' Hx'. destruct (Hf _ _ Hf'') as (f & Hfn & Es). injection Es as _ Ep Eo _ _ _. rewrite Eo in Hx'.
    destruct (Ho _ _ Hx') as (x & Hx & _ & ->). rewrite Ep. eapply t_over0; eauto.
  - intros o x' p Hx'. destruct (Ho _ _ Hx') as (x & Hx & _ & ->). intros Hp.
    destruct (t_begun0 _ _ _ Hx Hp) as [?|[?|[(n & f & Hn & Eo & Ep)|(e & hid & todo & ? & ?)]]]; [auto|auto|do 2 right; left|eauto 9].
    destruct (Hf' _ _ Hn) as (f' & ? & Es). injection Es as _ Ep' Eo' _ _ _. exists n, f'. split_and!; congruence.
Qed.

(** An [options] changes while entries are added to the log. *)
Lemma told_opts o x x' l s s' :
  told s -> opts s !! o = Some x -> opts s' = <[o := x']> (opts s) -> fxs s' = fxs s -> log s' = log s ++ l ->
  (∀ e o hid todo, DoAnim e o hid todo ∈ stack s -> DoAnim e o hid todo ∈ stack s') ->
  dom (animatedProperties x') = dom (animatedProperties x) ->
  (∀ p, animatedProperties x !! p = Some None -> animatedProperties x' !! p = Some None) ->
  (∀ n f, LOver n ∈ l -> fxs s !! n = Some f -> f_opts f = o /\ animatedProperties x' !! f_prop f = Some None) ->
  (complete x' = false \/ all_over (animatedProperties x') = true -> LComplete o ∈ log s') ->
  told s'.
Proof.
  intros [] Ho Eo Ef El Hst Hdom Hn Hov Hc.
  assert (Hlook : ∀ o' y', opts s' !! o' = Some y' -> o' = o /\ y' = x' \/ o' <> o /\ opts s !! o' = Some y').
  { intros o' y'. rewrite Eo. destruct (decide (o = o')) as [<-|?]; [|rewrite list_lookup_insert_ne by done; auto].
    rewrite list_lookup_insert_eq by (by eapply lookup_lt_Some). intros [= <-]. auto. }
  split.
  - intros o' y' [[-> ->]|[_ Hy]]%Hlook; [done|]. intros ?. rewrite El. apply elem_of_app. left. eauto.
  - intros n f y'. rewrite El, Ef. intros Hin Hf Hy.
    assert (Hin' : LOver n ∈ log s \/ f_opts f = o /\ animatedProperties x' !! f_prop f = Some None).
    { apply elem_of_app in Hin as [?|Hl]; [by left|right; exact (Hov n f Hl Hf)]. }
    destruct (Hlook _ _ Hy) as [[E ->]|[Hne Hy']]; [|destruct Hin' as [?|[? _]]; [by eauto|done]].
    destruct Hin' as [Hin'|[_ ?]]; [|done]. apply Hn. rewrite <- E in Ho. eauto.
  - intros o' y' p Hy Hp. rewrite El, Ef.
    assert (∃ y, opts s !! o' = Some y /\ p ∈ dom (animatedProperties y)) as (y & Hy' & Hp').
    { destruct (Hlook _ _ Hy) as [[-> ->]|[_ ?]]; [|eauto]. rewrite Hdom in Hp. eauto. }
    destruct (t_begun0 _ _ _ Hy' Hp') as [?|[?|[?|(e & hid & todo & ? & ?)]]]; [auto|rewrite elem_of_app|..]; eauto 9.
Qed.

Ltac same_told Ht :=
  eapply told_frame; [exact Ht|by apply same_opts_eq|by apply same_fxs_eq|..]; cbn.

Lemma told_answer b s : told s -> told (answer b s).
Proof.
  intros Ht. unfold answer. destruct (stack s) as [|fr st] eqn:Est; [done|].
  assert (Hd : ∀ e o hid todo, (∀ e o hid todo, fr <> DoAnim e o hid todo) -> DoAnim e o hid todo ∈ stack s -> DoAnim e o hid todo ∈ st).
  { intros e o hid todo Hne. rewrite Est. intros [E|?]%elem_of_cons; [by destruct (Hne e o hid todo)|done]. }
  destruct fr as [| |n sh| | | | |i t| |elem type index t]; try done.
  - destruct b, sh; cbn; try destruct (_ !! n); (same_told Ht; [done|done|intros; by apply Hd]).
  - destruct (negb b && _); (same_told Ht; [done|done|intros; right; by apply Hd]).
  - same_told Ht; [done|done|intros; right; by apply Hd].
Qed.

Lemma told_push fr s : told s -> told (push fr s).
Proof. intros Ht. same_told Ht; [done|done|]. intros. by right. Qed.

Lemma told_after_old o b s : told s -> told (after_old o b s).
Proof.
  intros Ht. unfold after_old. destruct (opts s !! o) as [x|]; [|done]. destruct (queue x); [|by apply told_answer].
  by do 2 apply told_push.
Qed.

Lemma told_call_complete o b s : told (logged (LComplete o) s) -> is_Some (opts s !! o) -> told (call_complete o b s).
Proof.
  intros Ht [x Hx]. unfold call_complete. rewrite Hx. destruct (old x); [|by apply told_after_old]. by do 2 apply told_push.
Qed.

Lemma told_logged e s : told s -> (∀ n, e <> LOver n) -> told (logged e s).
Proof.
  intros Ht He. same_told Ht; [set_solver| |done]. intros n [?|E%list_elem_of_singleton]%elem_of_app; [done|by destruct (He n)].
Qed.

Lemma told_same s s' : told s -> same_core s s' -> told s'.
Proof.
  intros Ht (Eo & Ef & _ & _ & El & Es & _). eapply told_frame; [exact Ht|by apply same_opts_eq|by apply same_fxs_eq|..];
    rewrite ?El, ?Es; done.
Qed.

(** A property is over; when it was the last one, [complete] is called. *)
Lemma told_after_update n over f x s :
  told s -> fxs s !! n = Some f -> opts s !! f_opts f = Some x -> f_prop f ∈ dom (animatedProperties x) ->
  told (after_update n over s).
Proof.
  intros Ht Hf Hx Hp. unfold after_update. rewrite Hf. cbn zeta.
  assert (Hw : told (write n f s)) by (apply told_logged; [|done]; eapply told_same; [exact Ht|by split_and!]).
  destruct over; [|by apply told_answer]. change (opts (write n f s)) with (opts s). rewrite Hx.
  set (x' := x <| animatedProperties ::= <[f_prop f := None]> |>). set (s' := logged (LOver n) _).
  assert (Hdom : dom (animatedProperties x') = dom (animatedProperties x)) by (cbn; rewrite dom_insert_L; set_solver).
  assert (Hnone : ∀ p, animatedProperties x !! p = Some None -> animatedProperties x' !! p = Some None).
  { intros p. cbn. destruct (decide (f_prop f = p)) as [<-|?]; [by rewrite lookup_insert_eq|by rewrite lookup_insert_ne]. }
  assert (Hov : ∀ m g, LOver m ∈ [LOver n] -> fxs (write n f s) !! m = Some g -> f_opts g = f_opts f /\ animatedProperties x' !! f_prop g = Some None).
  { intros m g [= ->]%list_elem_of_singleton Hg. cbn in Hg. rewrite Hf in Hg. injection Hg as <-. cbn. by rewrite lookup_insert_eq. }
  destruct (all_over (animatedProperties x')) eqn:Hall.
  - unfold finish. pose proof (put_back_same (f_elem f) x' s') as Hs. destruct (complete x') eqn:Hc.
    + destruct Hs as (Eo & Ef & _ & _ & El & Es & _).
      apply told_call_complete; [|cbn; rewrite Eo; cbn; rewrite list_lookup_insert_eq; [by eexists|]].
      * eapply (told_opts (f_opts f) x (x' <| complete := false |>) [LOver n; LComplete (f_opts f)]); [exact Hw|exact Hx|..]; cbn; try done.
        -- rewrite Eo. cbn. by rewrite list_insert_insert_eq.
        -- rewrite El. cbn. by rewrite <- !app_assoc.
        -- by rewrite Es.
        -- intros m g Hm Hg. apply (Hov m g); [|done]. apply elem_of_cons in Hm as [-> |Hm]; [by left|]. by apply list_elem_of_singleton in Hm.
        -- intros _. apply elem_of_app. right. by left.
      * rewrite length_insert. by eapply lookup_lt_Some.
    + apply told_answer. eapply told_same; [|exact Hs].
      eapply (told_opts (f_opts f) x x' [LOver n]); [exact Hw|exact Hx|done..|]. intros _. cbn. apply elem_of_app. left.
      apply elem_of_app. left. eapply t_served; [done..|]. by left.
  - apply told_answer. eapply (told_opts (f_opts f) x x' [LOver n]); [exact Hw|exact Hx|done..|].
    intros [Hc|?]; [|congruence]. cbn. apply elem_of_app. left. apply elem_of_app. left. eapply t_served; [done..|]. by left.
Qed.

Lemma told_update n over f x y s :
  told s -> fxs s !! n = Some f -> opts s !! f_opts f = Some x -> f_prop f ∈ dom (animatedProperties x) ->
  told (update n over y s).
Proof.
  intros Ht Hf Hx Hp. unfold update. destruct (o_step y); [by do 2 apply told_push|by eapply told_after_update].
Qed.

Lemma told_value n f v s : told s -> fxs s !! n = Some f -> told (s <| fxs ::= <[n := f <| f_now := v |>]> |>).
Proof.
  intros Ht Hf. assert (Hlt : (n < length (fxs s))%nat) by (by eapply lookup_lt_Some).
  eapply told_frame; [exact Ht|by apply same_opts_eq|split; cbn|done..].
  - intros m g. destruct (decide (n = m)) as [<-|?].
    + rewrite list_lookup_insert_eq by done. intros [= <-]. eauto.
    + rewrite list_lookup_insert_ne by done. eauto.
  - intros m g Hg. destruct (decide (n = m)) as [<-|?].
    + rewrite list_lookup_insert_eq by done. simplify_eq. eauto.
    + rewrite list_lookup_insert_ne by done. eauto.
Qed.

Lemma told_step n f s :
  inv s -> kept s -> told s -> fxs s !! n = Some f -> told (step n false s).
Proof.
  intros Hi Hk Ht Hf. unfold step. change (fxs (with_now s)) with (fxs s). change (opts (with_now s)) with (opts s). rewrite Hf.
  destruct (d_fx _ (i_data _ Hi) _ _ Hf) as (_ & _ & x & Hx & Hp). rewrite Hx.
  assert (Hl : ∀ g, <[n := g]> (fxs s) !! n = Some g) by (intros g; apply list_lookup_insert_eq; by eapply lookup_lt_Some).
  assert (Hw : told (with_now s)) by (by same_told Ht). cbn [orb]. destruct (duration x + startTime f <=? now s) eqn:Hd.
  - eapply told_update; [by apply told_value|cbn; apply Hl|exact Hx|done].
  - apply Z.leb_gt in Hd. destruct (easing_known _ _ _ _ Hi Hk Hf Hx Hd) as [g ->].
    eapply told_update; [by apply told_value|cbn; apply Hl|exact Hx|done].
Qed.

End Told.

(** Nothing is about to begin. *)
Definition all_told : machine -> Prop := told (fun _ _ => False).

(** The property [p] of [o] is about to begin. *)
Definition told_but (o : nat) (p : jstr) : machine -> Prop := told (fun o' p' => o' = o /\ p' = p).

Lemma told_new_fx f s :
  inv s -> told_but (f_opts f) (f_prop f) s -> all_told (s <| fxs ::= fun l => l ++ [f] |>).
Proof.
  intros Hi []. assert (Hl : ∀ n g, fxs s !! n = Some g -> (fxs s ++ [f]) !! n = Some g) by (intros; by apply lookup_app_l_Some).
  split; cbn; [done|..].
  - intros n g x Hn [Hg|[Hn' [_ <-]%list_lookup_singleton_Some]]%lookup_app_Some Hx; [by eapply t_over0|].
    apply list_elem_of_split in Hn as (l1 & l2 & E). destruct (d_over _ (i_data _ Hi) _ _ _ E) as (_ & g & Hg%lookup_lt_Some & _). lia.
  - intros o x p Hx Hp. destruct (t_begun0 _ _ _ Hx Hp) as [[-> ->]|[?|[(n & g & ? & ? & ?)|?]]]; [|auto|eauto 9|auto].
    do 2 right. left. exists (length (fxs s)), f. split; [by apply list_lookup_middle|done].
Qed.

Lemma told_custom elem p o a b sh s :
  inv s -> animating o p s -> kept s -> fresh o p s -> told_but o p s -> all_told (custom elem p o a b sh s).
Proof.
  intros Hi [Han Hx] Hk Hfr Ht. unfold custom. set (f := Fx elem p o (now s) a b a).
  assert (Hlook : (fxs s ++ [f]) !! length (fxs s) = Some f) by (by apply list_lookup_middle).
  eapply (told_step _ _ f); [|by apply (kept_new_fx f sh (with_now s)); [apply inv_with_now|apply kept_with_now|]| |done].
  - apply inv_push; [|by exists f|done|done].
    apply inv_new_fx; [by apply inv_with_now|done|done|cbn; done|intros _; apply between_start].
  - apply told_push, told_new_fx; [by apply inv_with_now|]. eapply told_frame; [exact Ht|by apply same_opts_eq|by apply same_fxs_eq|done..].
Qed.

Lemma told_begun (g : options -> options) o p s :
  told_but o p s -> animating o p s -> (∀ x, animatedProperties (g x) = animatedProperties x /\ complete (g x) = complete x) ->
  told_but o p (s <| opts ::= alter g o |>).
Proof.
  intros Ht [_ (x & Hx & _)] Hg. destruct (Hg x) as [E1 E2].
  replace (s <| opts ::= alter g o |>) with (s <| opts ::= <[o := g x]> |>) by (unfold upd; cbn beta; by erewrite opts_alter).
  eapply told_frame; [exact Ht| |by apply same_fxs_eq|done..]. intros o' y. cbn. destruct (decide (o = o')) as [<-|?].
  - rewrite list_lookup_insert_eq by (by eapply lookup_lt_Some). intros [= <-]. eauto.
  - rewrite list_lookup_insert_ne by done. eauto.
Qed.

Lemma told_animate_prop elem o hid p v s :
  inv s -> animating o p s -> kept s -> fresh o p s -> told_but o p s -> all_told (animate_prop elem o hid p v s).
Proof.
  assert (Hshow : ∀ s, inv s -> animating o p s -> kept s -> fresh o p s -> told_but o p s -> all_told (show elem p o s)).
  { clear s. intros s Hi Ha Hk Hf Ht. unfold show. set (g := fun x : options => _).
    destruct (inv_begun g o p s Hi Ha ltac:(done)) as [? ?].
    pose proof (kept_begun g o p s Hk Ha ltac:(done)). pose proof (told_begun g o p s Ht Ha ltac:(done)).
    destruct (fxshow s !! _); by apply told_custom. }
  assert (Hhide : ∀ s, inv s -> animating o p s -> kept s -> fresh o p s -> told_but o p s -> all_told (hide elem p o s)).
  { clear s. intros s Hi Ha Hk Hf Ht. unfold hide. set (g := fun x : options => _).
    destruct (inv_begun g o p s Hi Ha ltac:(done)) as [? ?].
    pose proof (kept_begun g o p s Hk Ha ltac:(done)). pose proof (told_begun g o p s Ht Ha ltac:(done)). by apply told_custom. }
  intros Hi Ha Hk Hf Ht. unfold animate_prop.
  assert (Hs : ∀ b, same_core s (s <| toggles ::= <[(elem, p) := b]> |>)) by (intros; by split_and!).
  pose proof (fun b => inv_same _ _ Hi (Hs b)). pose proof (fun b => kept_same _ _ Hk (Hs b)).
  assert (∀ b, told_but o p (s <| toggles ::= <[(elem, p) := b]> |>)) by (intros b; by eapply told_same).
  destruct v; try (by apply told_custom); destruct (toggles s !! _) as [[]|]; try destruct hid;
    first [by apply Hshow|by apply Hhide|apply Hshow; by auto|apply Hhide; by auto].
Qed.

Ltac same_told Ht :=
  eapply told_frame; [exact Ht|by apply same_opts_eq|by apply same_fxs_eq|..]; cbn.

Lemma all_over_eased hid l : all_over (eased hid l) = true -> eased hid l = ∅.
Proof.
  unfold all_over. intros Hall%bool_decide_eq_true. apply map_eq. intros p. rewrite lookup_empty.
  destruct (eased hid l !! p) as [e|] eqn:E; [|done]. pose proof (Hall _ _ E) as Hn. cbn in Hn. subst e. by apply eased_none in E.
Qed.

(** A new [options] that has its frame or its call of [complete]. *)
Lemma told_new_opts (x : options) s s' :
  inv s -> all_told s -> opts s' = opts s ++ [x] -> fxs s' = fxs s -> log s ⊆ log s' ->
  (∀ n, LOver n ∈ log s' -> LOver n ∈ log s) ->
  (∀ e o hid todo, DoAnim e o hid todo ∈ stack s -> DoAnim e o hid todo ∈ stack s') ->
  complete x = true -> (all_over (animatedProperties x) = true -> LComplete (length (opts s)) ∈ log s') ->
  (∀ p, p ∈ dom (animatedProperties x) -> LComplete (length (opts s)) ∈ log s' \/
     ∃ e hid todo, DoAnim e (length (opts s)) hid todo ∈ stack s' /\ p ∈ todo.*1) ->
  all_told s'.
Proof.
  intros Hi [] Eo Ef Hl Hov Hst Hc Hall Hbeg.
  assert (Hlook : ∀ o y, opts s' !! o = Some y -> opts s !! o = Some y \/ o = length (opts s) /\ y = x).
  { intros o y. rewrite Eo. intros [?|[? [? <-]%list_lookup_singleton_Some]]%lookup_app_Some; [by left|right]. split; [lia|done]. }
  split; [..|rewrite Ef].
  - intros o y [Hy|[-> ->]]%Hlook; [by eauto|]. intros [?|?]; [congruence|auto].
  - intros n f y Hn. rewrite Ef. intros Hf [Hy|[E _]]%Hlook; [by eauto|].
    destruct (d_fx _ (i_data _ Hi) _ _ Hf) as (_ & _ & z & Hz%lookup_lt_Some & _). lia.
  - intros o y p [Hy|[-> ->]]%Hlook Hp; [|right; destruct (Hbeg p Hp); auto].
    destruct (t_begun0 _ _ _ Hy Hp) as [?|[?|[?|(e & hid & todo & ? & ?)]]]; eauto 9.
Qed.

Lemma told_doAnimation c s : inv s -> all_told s -> all_told (doAnimation c s).
Proof.
  intros Hi Ht. unfold doAnimation. set (x := Options _ _ _ _ _ _ _ _ _). destruct (bool_decide _ || existsb _ _) eqn:Hex.
  - apply told_call_complete; [|cbn; eexists; by apply list_lookup_middle].
    eapply (told_new_opts x s); [done|done|done|done|cbn; set_solver| |done|done| |cbn].
    + cbn. intros n [?|?%list_elem_of_singleton]%elem_of_app; done.
    + intros _. cbn. apply elem_of_app. right. by left.
    + intros p _. left. apply elem_of_app. right. by left.
  - apply orb_false_iff in Hex as [Hne%bool_decide_eq_false Hex].
    eapply (told_new_opts x s); [done|done|done|done|done|done|by right|done| |cbn].
    { intros Hall%all_over_eased. assert (Hd := eased_dom _ _ Hex). rewrite Hall, dom_empty_L in Hd.
      by destruct (c_props c) as [|[p ?] ?]; [|set_solver]. }
    intros p. rewrite eased_dom by done. rewrite elem_of_list_to_set. intros Hp. right. do 3 eexists. split; [by left|].
    by rewrite todo_names.
Qed.

Lemma told_tick_step i s : inv s -> kept s -> stack s = [] -> all_told s -> all_told (tick_step i s).
Proof.
  intros Hi Hk Hst Ht. unfold tick_step. destruct (timers s !! i) as [t|] eqn:Hti.
  - apply list_elem_of_lookup_2 in Hti as [f Hf]%(i_timers _ Hi). eapply told_step; [| | |exact Hf].
    + apply inv_push; [done|by exists f|done|done].
    + apply kept_push; [done|by rewrite Hst|done|done].
    + by apply told_push.
  - destruct (decide _); [|done]. by same_told Ht.
Qed.

Lemma told_stop_step elem type n had s :
  inv s -> (n <= length (timers s))%nat -> all_told s -> all_told (stop_step elem type false n had s).
Proof.
  intros Hi Hn Ht. unfold stop_step. destruct n as [|i]; [by apply told_push|].
  destruct (lookup_lt_is_Some_2 (timers s) i Hn) as [t Hti]. rewrite Hti.
  destruct (fxs s !! t) as [f|]; [|done]. destruct (opts s !! f_opts f) as [x|]; [|done].
  destruct (_ && _); [|by apply told_push]. apply told_push, told_logged; [|done].
  pose proof (told_same _ _ _ Ht (saveState_same f x s)) as Ht'. by same_told Ht'.
Qed.

Lemma told_pop fr st s :
  all_told s -> stack s = fr :: st -> (∀ e o hid todo, fr = DoAnim e o hid todo -> todo = []) -> all_told (s <| stack := st |>).
Proof.
  intros [] E Hne. split; cbn; [done|done|]. intros o x p Hx Hp.
  destruct (t_begun0 _ _ _ Hx Hp) as [?|[?|[?|(e & hid & todo & Hin & Htodo)]]]; [auto..|].
  rewrite E in Hin. apply elem_of_cons in Hin as [Efr|?]; [|eauto 9].
  rewrite (Hne _ _ _ _ (eq_sym Efr)) in Htodo. by apply elem_of_nil in Htodo.
Qed.

Lemma told_next elem o hid p v todo st s :
  all_told s -> stack s = DoAnim elem o hid ((p, v) :: todo) :: st -> told_but o p (s <| stack := DoAnim elem o hid todo :: st |>).
Proof.
  intros [] E. split; cbn; [done|done|]. intros o' x q Hx Hq.
  destruct (t_begun0 _ _ _ Hx Hq) as [?|[?|[?|(e & hid' & todo' & Hin & Htodo)]]]; [done|auto..|].
  rewrite E in Hin. apply elem_of_cons in Hin as [[= -> -> -> ->]|?].
  - apply elem_of_cons in Htodo as [-> |?]; [auto|]. do 3 right. do 3 eexists. split; [by left|done].
  - do 3 right. exists e, hid', todo'. split; [by right|done].
Qed.

Lemma told_library_step s s' : inv s -> live s -> all_told s -> library_step s = Some s' -> all_told s'.
Proof.
  intros Hi Hl Ht. unfold library_step. destruct (stack s) as [|fr st] eqn:Est; [done|].
  pose proof (inv_pop _ _ _ Hi Est) as Hp. unfold live in Hl. rewrite Est in Hl.
  destruct fr as [|elem o hid [|[p v] todo]| | | | |i| |elem type g n had|]; intros [= <-].
  - eapply told_pop; [done..|]. by intros ? ? ? ? [= _ _ _ <-].
  - destruct (kept_next _ _ _ _ _ _ _ _ Hi Hl Est) as (? & ? & ? & ?). apply told_animate_prop; [done..|]. by eapply told_next.
  - apply told_tick_step; [done|by eapply kept_pop| |by eapply told_pop]. apply i_tick in Hi. rewrite Est in Hi. by apply Hi.
  - destruct Hl as (-> & ? & ?). apply told_stop_step; [done..|by eapply told_pop].
Qed.

Lemma told_return s : inv s -> all_told s -> all_told (return_ s).
Proof.
  intros Hi Ht. unfold return_. destruct (stack s) as [|fr st] eqn:Est; [done|].
  destruct fr as [| | |n over|o b|b| | | |]; try done.
  - destruct (i_frames _ Hi _ ltac:(rewrite Est; by left)) as (f & Hf & _).
    destruct (d_fx _ (i_data _ Hi) _ _ Hf) as (_ & _ & x & Hx & Hp). eapply told_after_update; [by eapply told_pop|done..].
  - by eapply told_after_old, told_pop.
  - by eapply told_answer, told_pop.
Qed.

Lemma told_page_step a s s' : inv s -> all_told s -> calm a -> page_step a s = Some s' -> all_told s'.
Proof.
  intros Hi Ht Hc. destruct a as [| | |c|elem type g| | |t|elem p v]; cbn; try done.
  - destruct (stack s) as [|[] st] eqn:Est; intros [= <-]. apply told_return; [by eapply inv_pop|by eapply told_pop].
  - destruct (decide _); intros [= <-]. by apply told_doAnimation.
  - intros [= <-]. by apply told_push.
  - destruct (stack s) eqn:Est; [|done]. destruct (timerId s); intros [= <-]. by apply told_push.
  - destruct (stack s); intros [= <-]. by same_told Ht.
  - destruct (clock s <=? t); intros [= <-]. by same_told Ht.
  - intros [= <-]. by same_told Ht.
Qed.

Lemma told_run l s s' : inv s -> live s -> all_told s -> Forall calm l -> run s l = Some s' -> all_told s'.
Proof.
  intros Hi Hl Ht Hc. revert s Hi Hl Ht. induction Hc as [|a l Ha _ IH]; intros s Hi Hl Ht; cbn; [by intros [= <-]|].
  destruct (act s a) as [s1|] eqn:Ea; [|done]. apply IH; [by eapply inv_act|by eapply live_act|].
  revert Ea. unfold act. destruct a; [by apply told_library_step|..]; (destruct (page_runs s); [by apply told_page_step|done]).
Qed.

Lemma told_start sh t : all_told (start sh t).
Proof. by split. Qed.

(** C17: in such a run, when no code is at work and no timer is left, the
    function [complete] of every animation has been called,
    apart from the ones of which a property was stopped. *)
Theorem animations_complete sh t l s o x :
  Forall calm l -> run (start sh t) l = Some s -> stack s = [] -> timers s = [] ->
  opts s !! o = Some x ->
  LComplete o ∈ log s \/ ∃ n f, fxs s !! n = Some f /\ f_opts f = o /\ LStop n ∈ log s.
Proof.
  intros Hc Hr Hst Htm Ho. pose proof (live_run _ _ _ (inv_start sh t) (kept_live _ (kept_start sh t)) Hc Hr) as Hl.
  pose proof (told_run _ _ _ (inv_start sh t) (kept_live _ (kept_start sh t)) (told_start sh t) Hc Hr) as Ht.
  unfold live in Hl. rewrite Hst in Hl.
  destruct (all_over (animatedProperties x)) eqn:Hall; [left; eapply t_served; eauto|].
  apply bool_decide_eq_false, map_not_Forall in Hall as (p & e & Hp & He); [|apply _].
  destruct (t_begun _ _ Ht o x p Ho) as [?|[?|[(n & f & Hf & Eo & Ep)|(? & ? & ? & Hin & _)]]];
    [by eapply elem_of_dom_2|done|by left| |by rewrite Hst in Hin; apply elem_of_nil in Hin].
  destruct (k_placed _ Hl n) as [Hin|[Hov|[?|[sh' Hin]]]]; [by eapply lookup_lt_Some|..|by eauto 6|].
  - by rewrite Htm in Hin; apply elem_of_nil in Hin.
  - subst o p. rewrite (t_over _ _ Ht _ _ _ Hov Hf Ho) in Hp. by injection Hp as <-.
  - by rewrite Hst in Hin; apply elem_of_nil in Hin.
Qed.

(** ** A tick after the end of all animations *)

(** The functions of the page return at once. *)
Definition quiet (a : action) : Prop := a = ALibrary \/ a = AReturn.

Definition later (s s' : machine) : Prop := log s ⊆ log s' /\ ∀ n, is_due n s -> is_due n s'.

#[local] Instance later_preorder : PreOrder later.
Proof. split; [done|]. intros s1 s2 s3 [H1 H2] [H3 H4]. split; [by etransitivity|auto]. Qed.

(** At most [k] steps end the timer at work and leave [ts]; what was due and
    logged in [s0] still is. *)
Definition ends (k : nat) (ts : list nat) (s0 s : machine) : Prop :=
  ∃ l s', Forall quiet l /\ (length l <= k)%nat /\ run s l = Some s' /\ stack s' = [Tick 0] /\ timers s' = ts /\ later s0 s'.

Lemma later_eq s0 s s' : later s0 s -> opts s' = opts s -> fxs s' = fxs s -> now s' = now s -> log s ⊆ log s' -> later s0 s'.
Proof. intros Hl Eo Ef En El. etransitivity; [done|]. split; [done|]. intros n. unfold is_due. by rewrite Eo, Ef, En. Qed.

(** The function of the page returns to the frame below it. *)
Lemma ends_return k ts s0 fr s : ends k ts s0 (return_ (push fr s)) -> ends (S k) ts s0 (push Code (push fr s)).
Proof.
  intros (l & s' & Hq & Hlen & Hr & ? & ? & Hl). exists (AReturn :: l), s'. split_and!; [by constructor; [right|]|cbn; lia| |done..].
  cbn. replace ((push Code (push fr s)) <| stack := fr :: stack s |>) with (push fr s) by (by destruct s). exact Hr.
Qed.

Lemma return_push fr s :
  return_ (push fr s) = match fr with
                        | Update n over => after_update n over s
                        | AfterOld o b => after_old o b s
                        | Fin b => answer b s
                        | _ => push fr s
                        end.
Proof. by destruct fr, s. Qed.

Lemma ends_more k k' ts s0 s : ends k ts s0 s -> (k <= k')%nat -> ends k' ts s0 s.
Proof. intros (l & s' & ? & ? & ?) Hk. exists l, s'. split_and!; [done|lia|naive_solver..]. Qed.

Section Timer.
Context (t : nat) (ts : list nat).

(** The tick has called the first timer. *)
Definition at_work (s0 s : machine) : Prop := stack s = [TickWait 0 t] /\ timers s = t :: ts /\ later s0 s.

Lemma at_work_eq s0 s s' :
  at_work s0 s -> opts s' = opts s -> fxs s' = fxs s -> now s' = now s -> log s ⊆ log s' ->
  stack s' = stack s -> timers s' = timers s -> at_work s0 s'.
Proof. intros (Es & Et & Hl) ? ? ? ? Es' Et'. unfold at_work. rewrite Es', Et'. split_and!; [done..|by eapply later_eq]. Qed.

Lemma ends_answer s0 s : at_work s0 s -> ends 0 ts s0 (answer false s).
Proof.
  intros (Es & Et & Hl). unfold answer. rewrite Es, Et. cbn. exists [], (s <| timers ::= delete_at 0 |> <| stack := [Tick 0] |>).
  split_and!; try done; cbn; [by rewrite bool_decide_eq_true_2|by rewrite Et].
Qed.

Lemma ends_after_old s0 o s : at_work s0 s -> is_Some (opts s !! o) -> ends 1 ts s0 (after_old o false s).
Proof.
  intros Hw [x Hx]. unfold after_old. rewrite Hx. pose proof (ends_answer _ _ Hw). destruct (queue x).
  - apply ends_return. by rewrite return_push.
  - by apply (ends_more 0); [|lia].
Qed.

Lemma ends_call_complete s0 o s : at_work s0 s -> is_Some (opts s !! o) -> ends 2 ts s0 (call_complete o false s).
Proof.
  intros Hw Ho. unfold call_complete. destruct Ho as [x Hx]. rewrite Hx.
  assert (ends 1 ts s0 (after_old o false (logged (LComplete o) s))).
  { apply ends_after_old; [|by eexists]. eapply at_work_eq; [done..|cbn; set_solver|done|done]. }
  destruct (old x); [|by apply (ends_more 1); [|lia]]. apply ends_return. by rewrite return_push.
Qed.

Lemma later_opts o x x' s : opts s !! o = Some x -> duration x' = duration x -> later s (s <| opts ::= <[o := x']> |>).
Proof.
  intros Ho Hd. split; [done|]. intros n (f & y & Hf & Hy & Hle). unfold is_due. cbn. exists f.
  destruct (decide (o = f_opts f)) as [->|?].
  - exists x'. rewrite list_lookup_insert_eq by (by eapply lookup_lt_Some). simplify_eq. rewrite Hd. done.
  - exists y. by rewrite list_lookup_insert_ne.
Qed.

Lemma at_work_opts s0 o x x' s :
  at_work s0 s -> opts s !! o = Some x -> duration x' = duration x -> at_work s0 (s <| opts ::= <[o := x']> |>).
Proof. intros (? & ? & ?) Ho Hd. split_and!; [done..|]. etransitivity; [done|]. by eapply later_opts. Qed.

Lemma ends_finish s0 elem o x s : at_work s0 s -> opts s !! o = Some x -> ends 2 ts s0 (finish elem o x s).
Proof.
  intros Hw Ho. unfold finish. destruct (put_back_same elem x s) as (Eo & Ef & En & Ec & El & Es & Et & _).
  assert (Hw' : at_work s0 (put_back elem x s)).
  { eapply at_work_eq; [done..| |by rewrite El|done|done]. unfold now. by rewrite En, Ec. }
  destruct (complete x); [|by eapply ends_more; [apply ends_answer|lia]]. rewrite <- Eo in Ho.
  apply ends_call_complete; [by eapply at_work_opts|]. cbn. rewrite list_lookup_insert_eq; [by eexists|by eapply lookup_lt_Some].
Qed.

Lemma ends_after_update s f x :
  stack s = [TickWait 0 t] -> timers s = t :: ts -> fxs s !! t = Some f -> opts s !! f_opts f = Some x ->
  ends 2 ts (logged (LOver t) s) (after_update t true s).
Proof.
  intros Es Et Hf Hx. unfold after_update. rewrite Hf. cbn zeta. change (opts (write t f s)) with (opts s). rewrite Hx.
  set (x' := x <| animatedProperties ::= _ |>). set (s' := logged (LOver t) ((write t f s) <| opts ::= _ |>)).
  assert (Hw : at_work (logged (LOver t) s) s').
  { split_and!; [done..|]. etransitivity; [by apply (later_opts (f_opts f) x x')|]. split; [intros e; cbn; rewrite !elem_of_app; naive_solver|]. intros n Hn. exact Hn. }
  assert (Hx' : opts s' !! f_opts f = Some x') by (cbn; apply list_lookup_insert_eq; by eapply lookup_lt_Some).
  destruct (all_over _); [by apply ends_finish|by eapply ends_more; [apply ends_answer|lia]].
Qed.

End Timer.

Lemma run_fx_app l1 l2 s s1 : run s l1 = Some s1 -> run s (l1 ++ l2) = run s1 l2.
Proof. revert s. induction l1 as [|a l1 IH]; intros s; cbn; [by intros [= ->]|]. destruct (act s a); [|done]. apply IH. Qed.

(** The first timer of the array is due: at most four steps take it out. *)
Lemma ends_timer t ts s f x :
  stack s = [Tick 0] -> timers s = t :: ts -> fxs s !! t = Some f -> opts s !! f_opts f = Some x ->
  duration x + startTime f <= now s -> ends 4 ts (logged (LOver t) s) s.
Proof.
  intros Es Et Hf Hx Hd.
  set (f' := f <| f_now := f_end f |>).
  set (s1 := (with_now (push (TickWait 0 t) (s <| stack := [] |>))) <| fxs ::= <[t := f']> |>).
  assert (E1 : library_step s = Some (update t true x s1)).
  { unfold library_step. rewrite Es. unfold tick_step. change (timers (s <| stack := [] |>)) with (timers s). rewrite Et. cbn [lookup list_lookup].
    unfold step. cbn [fxs opts with_now push]. change (fxs (with_now (push (TickWait 0 t) (s <| stack := [] |>)))) with (fxs s).
    change (opts (with_now (push (TickWait 0 t) (s <| stack := [] |>)))) with (opts s). rewrite Hf, Hx. cbn [orb].
    change (now (push (TickWait 0 t) (s <| stack := [] |>))) with (now s). by rewrite (proj2 (Z.leb_le _ _) Hd). }
  assert (Hf1 : fxs s1 !! t = Some f') by (apply list_lookup_insert_eq; by eapply lookup_lt_Some).
  pose proof (ends_after_update t ts s1 f' x eq_refl Et Hf1 Hx) as Ha.
  assert (Hl : later (logged (LOver t) s) (logged (LOver t) s1)).
  { split; [done|]. intros n (g & y & Hg & Hy & Hle). destruct (decide (n = t)) as [-> |?].
    - exists f', x. by split_and!.
    - exists g, y. split_and!; [|done..]. cbn. by rewrite list_lookup_insert_ne. }
  assert (Hu : ends 3 ts (logged (LOver t) s1) (update t true x s1)).
  { unfold update. destruct (o_step x); [|by apply (ends_more 2); [|lia]]. apply ends_return. by rewrite return_push. }
  destruct Hu as (l & s' & Hq & Hlen & Hr & ? & ? & Hl'). exists (ALibrary :: l), s'.
  split_and!; [by constructor; [left|]|cbn; lia|cbn; by rewrite E1|done|done|by etransitivity].
Qed.

(** All timers are due: the loop of [tick] takes them out one by one. *)
Lemma tick_loop ts s :
  inv s -> stack s = [Tick 0] -> timers s = ts -> (∀ t, t ∈ ts -> is_due t s) ->
  ∃ l s', Forall quiet l /\ (length l <= 4 * length ts + 1)%nat /\ run s l = Some s' /\
    stack s' = [] /\ timers s' = [] /\ timerId s' = false /\ log s ⊆ log s' /\ ∀ t, t ∈ ts -> LOver t ∈ log s'.
Proof.
  revert s. induction ts as [|t ts IH]; intros s Hi Es Et Hd.
  - exists [ALibrary], (s <| stack := [] |> <| timerId := false |>). split_and!; try done.
    + constructor; [by left|done].
    + cbn. unfold library_step. rewrite Es. cbn. unfold tick_step. change (timers (s <| stack := [] |>)) with (timers s).
      by rewrite Et.
    + by intros t ?%elem_of_nil.
  - destruct (Hd t ltac:(by left)) as (f & x & Hf & Hx & Hle).
    destruct (ends_timer _ _ _ _ _ Es Et Hf Hx Hle) as (l1 & s1 & Hq1 & Hlen1 & Hr1 & Es1 & Et1 & Hlog1 & Hdue1).
    destruct (IH s1) as (l2 & s2 & Hq2 & Hlen2 & Hr2 & ? & ? & ? & Hlog2 & Hov); [by eapply inv_run|done|done| |].
    { intros t' Ht'. apply Hdue1, Hd. by right. }
    assert (Hsub : log s ++ [LOver t] ⊆ log s2) by (by etransitivity).
    exists (l1 ++ l2), s2. split_and!; try done.
    + by apply Forall_app.
    + rewrite length_app. cbn. lia.
    + by rewrite (run_fx_app _ _ _ _ Hr1).
    + intros e He. apply Hsub, elem_of_app. by left.
    + intros t' [-> |?]%elem_of_cons; [|auto]. apply Hsub, elem_of_app. right. by left.
Qed.

(** C25: when the interval fires after all animations have had their time, the
    tick ends: after at most four steps for each timer, the functions of the
    page returning, [jQuery.timers] is empty, the interval is off and every
    property that had a timer is over. *)
Theorem tick_ends sh t0 l0 s :
  run (start sh t0) l0 = Some s -> stack s = [] -> timerId s = true -> (∀ t, t ∈ timers s -> is_due t s) ->
  ∃ l s', Forall quiet l /\ (length l <= 4 * length (timers s) + 1)%nat /\ run s (ATick :: l) = Some s' /\
    stack s' = [] /\ timers s' = [] /\ timerId s' = false /\ ∀ t, t ∈ timers s -> LOver t ∈ log s'.
Proof.
  intros Hr Est Hid Hd. pose proof (inv_run _ _ _ (inv_start sh t0) Hr) as Hi.
  destruct (tick_loop (timers s) (push (Tick 0) s)) as (l & s' & Hq & Hlen & Hr' & ? & ? & ? & _ & ?); try done.
  - by apply inv_push.
  - cbn. by rewrite Est.
  - exists l, s'. split_and!; try done. cbn. unfold act, page_runs. cbn. rewrite Est, Hid. exact Hr'.
Qed.

End Live.

(** ** Sample runs *)

Module LiveSample.
Import JqFx.Sample.

#[local] Existing Instance sample_easing.

Lemma to_calm elem d ps old : calm (AAnimate (to elem d ps old)).
Proof. intros p e v Hin. cbn in Hin. rewrite <- list_fmap_compose in Hin. apply list_elem_of_fmap in Hin as ([] & [= -> -> ->] & _). by eexists. Qed.

Lemma begin_calm n elem d ps old : Forall calm (begin n (to elem d ps old)).
Proof. apply Forall_cons. split; [apply to_calm|]. by apply Forall_replicate. Qed.

Ltac calm_run :=
  repeat lazymatch goal with
  | |- Forall _ (begin _ _) => apply begin_calm
  | |- Forall _ (replicate _ _) => apply Forall_replicate; exact I
  | |- Forall _ (_ ++ _) => apply Forall_app; split
  | |- Forall _ (_ :: _) => apply Forall_cons; split; [first [exact I|reflexivity]|]
  | |- Forall _ [] => apply Forall_nil; exact I
  end.

(** The run in which a function [complete] stops another animation. *)
Lemma no_animation_lost_witness :
  run (start sheet0 1000) moved = Some (after moved) /\ (LTypeError ∉ log (after moved)) /\
  (LOver 0 ∈ log (after moved) \/ LStop 0 ∈ log (after moved) \/ (0%nat ∈ timers (after moved) /\ timerId (after moved) = true)).
Proof.
  assert (Hr : run (start sheet0 1000) moved = Some (after moved)) by (vm_compute; reflexivity).
  destruct (no_animation_lost sheet0 1000 moved (after moved) ltac:(unfold moved; calm_run) Hr ltac:(vm_compute; reflexivity)) as [He Hn].
  split_and!; [exact Hr|exact He|]. apply Hn. vm_compute. lia.
Defined.

Lemma animations_complete_witness :
  LComplete 0 ∈ log (after slide) \/ ∃ n f, fxs (after slide) !! n = Some f /\ f_opts f = 0%nat /\ LStop n ∈ log (after slide).
Proof.
  destruct (opts (after slide) !! 0%nat) as [x|] eqn:Ho; [|exfalso; revert Ho; vm_compute; discriminate].
  apply (animations_complete sheet0 1000 slide (after slide) 0 x);
    [unfold slide; calm_run|exact slide_run|vm_compute; reflexivity|vm_compute; reflexivity|exact Ho].
Defined.

(** The time of the animation is over before the interval fires. *)
Definition waiting : list action := begin 1 (to 0 100 [(js "width", 110%Q)] true) ++ [AClear; ATime 1200].

Lemma tick_ends_witness :
  ∃ l s', Forall quiet l /\ (length l <= 5)%nat /\ run (after waiting) (ATick :: l) = Some s' /\
    stack s' = [] /\ timers s' = [] /\ timerId s' = false /\ ∀ t, t ∈ timers (after waiting) -> LOver t ∈ log s'.
Proof.
  apply (tick_ends sheet0 1000 waiting (after waiting));
    [vm_compute; reflexivity|vm_compute; reflexivity|vm_compute; reflexivity|].
  replace (timers (after waiting)) with [0%nat] by (vm_compute; reflexivity). intros t ->%list_elem_of_singleton.
  eexists _, _. split_and!; [vm_compute; reflexivity|vm_compute; reflexivity|]. vm_compute. discriminate.
Defined.

End LiveSample.
